(* ===== verification/_CoqProject ===== *)
-Q . S2P
Prelude.v
RustStd.v
Platform.v
World.v
Environment.v
Sql.v
Reference.v
Aead.v
Broker.v
Protected.v
TorAuth.v
TorAuthProps.v
TicketSpec.v
Guard.v
Attestation.v
AuditLog.v
Config.v
Pool.v
PoolProps.v
ConnectProps.v
Zk.v
ZkProps.v
RaTls.v
Net.v
PeerVerification.v
BrokerConfig.v
BrokerTls.v
Tee.v
Cli.v
CliProps.v
CliWrap.v
Main.v
System.v
TicketSystem.v
