(* ===== verification/Prelude.v ===== *)
(** * Secure Database: a verification library

    This development models the crate [secure-database] (src/src/ and
    src/migrations/) as executable definitions and proves what the crate
    promises. This file is its root and the prelude every other file requires.

    ** The program

    The crate gives a gateway access to PostgreSQL. A [PgPool] has two pools, for
    the data and for the secrets database. Its methods are broker calls and SQL
    statements in a fixed order: credentials, sessions and tickets of Tor clients
    (tor_auth.rs), the health of guard relays (guard.rs), the replay log and the
    decision cache of attestations (attestation.rs), audit and attestation records
    (lib.rs, tee.rs) and zero-knowledge proofs (zk.rs). Sensitive columns are
    encrypted with AES-256-GCM under a key that a remote secret broker mints and
    later redeems; the associated data binds a ciphertext to its table, column,
    record and purpose. The database credentials themselves can be leases of the
    broker, which a worker renews (lib.rs). The client of the broker
    (secret_broker_client.rs) authenticates it by mutual TLS, by its SPIFFE
    identity or by attested certificates (ra_tls.rs). A command line tool migrates
    a database, repairs the ownership of what lease roles created, and wraps
    secrets (bin/secure-database-cli.rs).

    ** How it is modelled

    Code outside the repository is a parameter: an operational class with a class
    of laws that state its documented behaviour ([Platform.v], and [QvlApi],
    [RustlsApi], [UrlApi], [PgApi], [Halo2] and others next to their clients).
    [Reference.v] and the modules [PgRef], [PeerRef], [BrokerRef] and [TlsRef] give
    concrete functions that satisfy the laws; every property with hypotheses has a
    run on them as its witness ([..._witness]). The standard library is modelled,
    not assumed: text and integers in [RustStd.v], [std::env] in [Environment.v],
    [std::net] in [Net.v], [std::path] in [CliWrap.v].

    An [async fn] that returns a [Result] is an effect [eff S E A], a function from
    a state to a result and a state (below). The state of the [PgPool] methods is
    a [World] ([World.v]): the tables of the migration, the broker, the metrics,
    and a counter of interactions at which the host's clocks, random generator and
    network faults are read. A statement ([stmt]) is a transaction on the tables
    with its constraints; [execute] runs it and may lose the request or the
    acknowledgement. A [DateTime] of the crate counts nanoseconds and a [Timestamp]
    of the database microseconds ([Platform.to_timestamptz]); a JSON value that
    is stored passes through what [JSONB] makes of it ([JsonApi.jsonb]). Pools live in a [Cluster] ([Pool.v]), which adds a log of the
    pools that were opened, swapped and closed, because their order is what a
    concurrent reader observes. Concurrency between callers is interleaving: of
    whole operations in [System.step] and [TicketSystem.sys_run], of single
    statements in [Attestation.run_trace].

    Of the broker the laws say only that it never rebinds a handle and token to
    another key: [bound] is the history of what it issued. It may refuse to redeem
    a key at any time (expired, revoked, or redeemable once), and the theorems
    about reading say so: [reads_or_refused] is the text that was written, or the
    broker's own error, counted as a failure. [Reference.once_broker] is a broker
    whose keys can be redeemed once.

    ** Files

    - [RustStd], [Platform], [World], [Environment], [Sql], [Reference], [Net]: the
      standard library, the interfaces, errors (error.rs) and tables
      (migrations/0001_initial.sql), the environment, SQL expressions.
    - [Aead]: AES-GCM, HMAC and the payload format (lib.rs). [Broker]: the calls of
      the broker client with their metrics. [Protected]: protected columns.
    - [TorAuth], [TorAuthProps]: tor_auth.rs. [TicketSpec]: the plaintext store that
      the ticket operations refine, and the simulation of each call. [Guard]:
      guard.rs. [Attestation]: attestation.rs. [AuditLog]: the records of lib.rs
      and tee.rs. [Zk], [ZkProps]: zk.rs with the circuits, provers and verifiers.
    - [Config], [Pool], [PoolProps], [ConnectProps]: configuration, pools,
      migrations, extensions and the lease worker (lib.rs).
    - [RaTls], [PeerVerification], [BrokerConfig], [BrokerTls]: evidence in
      certificates, the two verifiers, the client's configuration and its channel.
    - [Tee]: the client of the TEE endpoint. [Cli], [CliProps], [CliWrap]: the two
      commands of the tool; [Main]: which of them runs, with the broker client of
      [BrokerTls].
    - [System]: every operation as one transition system. [TicketSystem]: its histories as histories of the plaintext store.

    Definitions have the names of the Rust functions; record fields have a prefix
    for their record.

    ** What the theorems show

    - Confidentiality at rest: what is stored in a protected column decrypts to
      the text it was made from, or the broker refuses ([field_round_trip], [ticket_round_trip],
      [session_round_trip]), is a ciphertext in every reachable state
      ([ensure_encrypts], [issue_stores_ciphertext], [reachable_states_ok]), and
      cannot be moved to another position without a forgery under the very key
      the broker issued ([record_bound_aad_injective], [transplant_is_forgery]);
      what is not a ciphertext is refused ([decrypt_rejects_unprotected]). A caller
      who gives a field as a payload gets this payload stored; the theorems about
      texts are for fields given in the clear ([plain_ticket]).
    - Integrity: the constraints of the schema in all
      reachable states ([reachable_states_ok]), failures that change nothing ([failures_change_nothing]), the effect of each operation
      on the rows it names and no others, and the refinement of the abstract
      ticket store ([tickets_refine]).
    - Attestation: no nonce is accepted twice within the window of its callers
      ([no_replay_within_window]); exactly which certificates the broker may
      present ([peer_accepted_iff], [spiffe_accepted_iff]), that a quote serves one
      key ([quote_binds_one_key]), what every accepted configuration satisfies
      ([broker_config_safe]) and that its channel authenticates the broker
      ([broker_is_authenticated]).
    - Proofs: exactly when a proof is accepted ([verification_conditions],
      [verify_state_machine], [store_then_verify]), and that the verifier's own
      checks agree with the provers, down to the verdict of halo2
      ([provers_agree_with_verifiers]). That halo2 accepts honest proofs is not
      claimed: the gates have no selectors, so that they also constrain the rows
      which halo2 fills with random values.
    - Pools: every reader finds an open pool whatever fails
      ([rotation_keeps_live_pools], [connect_ready]), TLS is required
      ([pools_require_tls]), the schedule, recovery and termination of the worker
      ([turn_schedule], [rotation_recovers], [worker_terminates]), and the extension
      allowlist ([extensions_enforced]).
    - The tool: statements mean what they are built for
      ([statements_are_not_injectable]), repairs lose no object
      ([repair_moves_ownership]), sealed files appear whole ([wrap_is_atomic]).
    - Where the code does less than it means to, a theorem says so: for example
      [verification_leaks_across_users], [circuits_accept_every_commitment],
      [compose_hash_unauthenticated], [short_leases_spin], [short_window_readmits],
      [underscore_selects_other_audiences], [token_is_exposed_without_chmod].

    ** Bounds and fuel

    [Pool.run] takes the number of turns of the worker's loop, and its theorems
    hold for every number; [worker_terminates] and [rotation_recovers] bound the
    turns that are needed. [Net.read_groups] has the number of groups still
    allowed as fuel, at most eight, as the loop of the standard library has. All
    other recursion is structural. Intervals in SQL are computed in doubles as the
    server does, exactly for windows below 285 years ([Sql.secs_bigint_exact]).

    ** What is not modelled

    The parsing of arguments, which clap derives; logging and tracing,
    [install_jaeger_tracing] included, which change no state of the crate; the signature checks of the two TLS verifiers, which forward to rustls;
    roles, grants and indexes of the migration that only affect speed or access;
    the types of columns beyond those that the code or the server checks; for the
    tool, the cascade of [DROP OWNED] to objects of others and the truncation of
    identifiers longer than those of [pg_roles]; the interior of third-party crates. A broker call and a statement are atomic
    steps; that sqlx and tonic implement them so is assumed. Closing a replaced
    pool takes any finite time ([PgApi.pg_close_wait]); that every connection is
    returned in the end is assumed. *)
From stdpp Require Export base tactics list gmap strings pretty numbers sorting.
From Stdlib.Strings Require Export Byte.
From Stdlib Require Ascii String.
Export Stdlib.Strings.Ascii(ascii(..)).
Export (notations) Stdlib.Strings.Ascii.
#[export] Set Warnings "-clear-no-such-hyp,-register-all".

(** ** Bytes: [u8] and [Vec<u8>] *)

Abbreviation bytes := (list Byte.byte).

Lemma byte_to_N_bound (b : Byte.byte) : (Byte.to_N b < 256)%N.
Proof. pose proof (Byte.to_N_bounded b). lia. Qed.

#[export] Instance byte_eq_dec : EqDecision Byte.byte := Byte.byte_eq_dec.

#[export] Program Instance byte_countable : Countable Byte.byte := {|
  encode b := encode (Byte.to_N b);
  decode p := n ← decode p; Byte.of_N n
|}.
Next Obligation. intros b. cbn beta. rewrite (decode_encode (Byte.to_N b)). apply Byte.of_to_N. Qed.

(** ** [Result<A, E>] *)

Inductive result (E A : Type) : Type :=
  | Ok (a : A)
  | Err (e : E).
Arguments Ok {E A} a.
Arguments Err {E A} e.

#[export] Instance result_eq_dec `{EqDecision E, EqDecision A} : EqDecision (result E A).
Proof. solve_decision. Defined.

#[export] Instance result_ret {E} : MRet (result E) := λ A a, Ok a.
#[export] Instance result_bind {E} : MBind (result E) := λ A B f m,
  match m with Ok a => f a | Err e => Err e end.
#[export] Instance result_fmap {E} : FMap (result E) := λ A B f m,
  match m with Ok a => Ok (f a) | Err e => Err e end.

(** [Result::map_err], [Result::ok], [Option::ok_or_else]. *)
Definition map_err {E E' A} (f : E → E') (r : result E A) : result E' A :=
  match r with Ok a => Ok a | Err e => Err (f e) end.
Definition ok {E A} (r : result E A) : option A :=
  match r with Ok a => Some a | Err _ => None end.
Definition ok_or {E A} (o : option A) (e : E) : result E A :=
  match o with Some a => Ok a | None => Err e end.
Definition is_ok {E A} (r : result E A) : bool :=
  match r with Ok _ => true | Err _ => false end.

Definition unwrap_or {E A} (d : A) (r : result E A) : A :=
  match r with Ok a => a | Err _ => d end.

(** A run whose result is known, without naming its final state. *)
Lemma run_eta {S E A} (d : A) (x : result E A * S) :
  is_ok (fst x) = true → x = (Ok (unwrap_or d (fst x)), snd x).
Proof. by destruct x as [[a|e] s]. Qed.
Lemma run_fst {S E A} (x : result E A * S) r : fst x = r → x = (r, snd x).
Proof. destruct x. simpl. by intros ->. Qed.

Definition is_some {A} (o : option A) : bool := match o with Some _ => true | None => false end.
Lemma option_eta {A} (d : A) (o : option A) : is_some o = true → o = Some (default d o).
Proof. by destruct o. Qed.
Lemma option_none {A} (o : option A) : is_some o = false → o = None.
Proof. by destruct o. Qed.

Lemma ok_or_Ok {E A} (o : option A) (e : E) a : ok_or o e = Ok a ↔ o = Some a.
Proof. destruct o; naive_solver. Qed.

Lemma result_bind_Ok {E A B} (m : result E A) (f : A → result E B) b :
  m ≫= f = Ok b ↔ ∃ a, m = Ok a ∧ f a = Ok b.
Proof. destruct m; naive_solver. Qed.

Lemma map_err_Ok {E E' A} (f : E → E') (r : result E A) a :
  map_err f r = Ok a ↔ r = Ok a.
Proof. destruct r; naive_solver. Qed.

(** ** Fallible, stateful code: an [async fn] that returns a [Result]

    The state survives an error: what a call did before it failed stays done. *)
Definition eff (S E A : Type) : Type := S → result E A * S.

#[export] Instance eff_ret {S E} : MRet (eff S E) := λ A a s, (Ok a, s).
#[export] Instance eff_bind {S E} : MBind (eff S E) := λ A B f m s,
  match m s with
  | (Ok a, s') => f a s'
  | (Err e, s') => (Err e, s')
  end.

Definition fail {S E A} (e : E) : eff S E A := λ s, (Err e, s).
Definition lift {S E A} (r : result E A) : eff S E A := λ s, (r, s).
Definition modify {S E} (f : S → S) : eff S E () := λ s, (Ok (), f s).
(** A call whose [Result] is inspected by a [match] instead of [?]. *)
Definition attempt {S E E' A} (m : eff S E A) : eff S E' (result E A) := λ s,
  let '(r, s') := m s in (Ok r, s').
Definition eff_map_err {S E E' A} (f : E → E') (m : eff S E A) : eff S E' A := λ s,
  let '(r, s') := m s in (map_err f r, s').

Section eff_laws.
Context {S E : Type}.

Lemma eff_bind_Ok {A B} (m : eff S E A) (f : A → eff S E B) s b s' :
  (m ≫= f) s = (Ok b, s') ↔ ∃ a s1, m s = (Ok a, s1) ∧ f a s1 = (Ok b, s').
Proof.
  unfold mbind, eff_bind. destruct (m s) as [[a|e] s1]; split; naive_solver.
Qed.

Lemma eff_bind_step {A B} (m : eff S E A) (f : A → eff S E B) s a s1 :
  m s = (Ok a, s1) → (m ≫= f) s = f a s1.
Proof. unfold mbind, eff_bind. by intros ->. Qed.

Lemma eff_bind_fail {A B} (m : eff S E A) (f : A → eff S E B) s e s1 :
  m s = (Err e, s1) → (m ≫= f) s = (Err e, s1).
Proof. unfold mbind, eff_bind. by intros ->. Qed.

Lemma eff_ret_Ok {A} (a b : A) s s' :
  (mret a : eff S E A) s = (Ok b, s') ↔ a = b ∧ s = s'.
Proof. unfold mret, eff_ret. naive_solver. Qed.

Lemma lift_Ok {A} (r : result E A) b s s' :
  (lift r : eff S E A) s = (Ok b, s') ↔ r = Ok b ∧ s = s'.
Proof. unfold lift. naive_solver. Qed.

Lemma fail_Ok {A} (e : E) (b : A) s s' : ¬ (fail e : eff S E A) s = (Ok b, s').
Proof. by unfold fail. Qed.

Lemma modify_Ok f s r s' :
  (modify f : eff S E ()) s = (Ok r, s') ↔ s' = f s.
Proof. unfold modify. destruct r. naive_solver. Qed.

Lemma eff_map_err_Ok {E' A} (g : E → E') (m : eff S E A) b s s' :
  eff_map_err g m s = (Ok b, s') ↔ m s = (Ok b, s').
Proof.
  unfold eff_map_err. destruct (m s) as [[a|e] s1]; simpl; naive_solver.
Qed.

Lemma attempt_Ok {E' A} (m : eff S E A) r s s' :
  (attempt m : eff S E' _) s = (Ok r, s') ↔ m s = (r, s').
Proof. unfold attempt. destruct (m s) as [r1 s1]. naive_solver. Qed.

Lemma bind_attempt {E' A B} (m : eff S E A) (f : result E A → eff S E' B) s :
  (attempt m ≫= f) s = f (fst (m s)) (snd (m s)).
Proof. unfold attempt, mbind, eff_bind. by destruct (m s). Qed.
End eff_laws.

(** What an effect leaves untouched, whatever it returns. *)
Definition preserves {S E A} (P : S → S → Prop) (m : eff S E A) : Prop :=
  ∀ s, P s (snd (m s)).

Section preserves.
Context {S E : Type} (P : S → S → Prop) `{!Reflexive P, !Transitive P}.

Lemma preserves_bind {A B} (m : eff S E A) (f : A → eff S E B) :
  preserves P m → (∀ a, preserves P (f a)) → preserves P (m ≫= f).
Proof.
  intros Hm Hf s. unfold mbind, eff_bind. specialize (Hm s).
  destruct (m s) as [[a|e] s1]; simpl in *; [|done].
  by etrans; [|apply Hf].
Qed.

Lemma preserves_ret {A} (a : A) : preserves P (mret a : eff S E A).
Proof. intros s. simpl. reflexivity. Qed.
Lemma preserves_lift {A} (r : result E A) : preserves P (lift r : eff S E A).
Proof. intros s. simpl. reflexivity. Qed.
Lemma preserves_fail {A} (e : E) : preserves P (fail e : eff S E A).
Proof. intros s. simpl. reflexivity. Qed.
End preserves.

Lemma preserves_run {S E A} (P : S → S → Prop) (m : eff S E A) s r s' :
  preserves P m → m s = (r, s') → P s s'.
Proof. intros Hm E1. specialize (Hm s). by rewrite E1 in Hm. Qed.

(** The continuation only has to preserve [P] for values the first call can
    return. *)
Lemma preserves_bind_run {S E A B} (P : S → S → Prop) `{!Reflexive P, !Transitive P}
    (m : eff S E A) (f : A → eff S E B) :
  preserves P m → (∀ s a s', m s = (Ok a, s') → preserves P (f a)) → preserves P (m ≫= f).
Proof.
  intros Hm Hf s. unfold mbind, eff_bind. specialize (Hm s).
  destruct (m s) as [[a|e] s1] eqn:E1; simpl in *; [|done].
  etrans; [done|]. by eapply Hf.
Qed.

Lemma preserves_map_err {S E E' A} (P : S → S → Prop) (g : E → E') (m : eff S E A) :
  preserves P m → preserves P (eff_map_err g m).
Proof. intros H s. unfold eff_map_err. specialize (H s). by destruct (m s). Qed.

Lemma preserves_attempt {S E E' A} (P : S → S → Prop) (m : eff S E A) :
  preserves P m → preserves P (attempt m : eff S E' _).
Proof. intros H s. unfold attempt. specialize (H s). by destruct (m s). Qed.

(** ** Automation *)

Create HintDb sdb.
Create Rewrite HintDb sdb.

(** Prove [preserves P m] by the structure of [m]; calls are left to the lemmas of
    the database. *)
Ltac solve_preserves :=
  lazymatch goal with
  | |- ∀ _, _ => intros ?; solve_preserves
  | |- preserves _ (_ ≫= _) =>
      refine (preserves_bind _ _ _ _ _); [solve_preserves | intros ?; solve_preserves]
  | |- preserves _ (attempt _) => apply preserves_attempt; solve_preserves
  | |- preserves _ (eff_map_err _ _) => apply preserves_map_err; solve_preserves
  | |- preserves _ (mret _) => apply preserves_ret; apply _
  | |- preserves _ (lift _) => apply preserves_lift; apply _
  | |- preserves _ (fail _) => apply preserves_fail; apply _
  | |- preserves _ (match ?x with _ => _ end) => destruct x; solve_preserves
  | |- preserves _ _ => solve [auto with sdb]
  end.

(** Take a successful run [H : m s = (Ok a, s')] of a chain of calls apart into
    the successful runs of its calls. *)
Ltac inv_run H :=
  lazymatch type of H with
  | (_ ≫= _) _ = (Ok _, _) =>
      apply eff_bind_Ok in H;
      let a := fresh "a" in let s1 := fresh "w" in
      let H1 := fresh "Hrun" in
      destruct H as (a & s1 & H1 & H); inv_run H1; inv_run H
  | mret _ _ = (Ok _, _) => apply eff_ret_Ok in H; destruct H as [? ?]; simplify_eq
  | lift _ _ = (Ok _, _) => apply lift_Ok in H; destruct H as [? ?]; simplify_eq
  | fail _ _ = (Ok _, _) => by apply fail_Ok in H
  | modify _ _ = (Ok _, _) => apply modify_Ok in H; subst
  | @eff_map_err ?S ?E ?E' ?A ?g ?m ?s = (Ok ?b, ?s') =>
      apply (proj1 (@eff_map_err_Ok S E E' A g m b s s')) in H; inv_run H
  | @attempt ?S ?E ?E' ?A ?m ?s = (Ok ?r, ?s') =>
      apply (proj1 (@attempt_Ok S E E' A m r s s')) in H
  | _ => idtac
  end.

(** ** Lists, options and integers *)

Lemma list_byte_string_id s : String.string_of_list_byte (String.list_byte_of_string s) = s.
Proof. apply String.string_of_list_byte_of_string. Qed.

Lemma byte_list_string_id (bs : bytes) :
  String.list_byte_of_string (String.string_of_list_byte bs) = bs.
Proof. apply String.list_byte_of_string_of_list_byte. Qed.

Lemma list_byte_string_inj s1 s2 :
  String.list_byte_of_string s1 = String.list_byte_of_string s2 → s1 = s2.
Proof. intros H. by rewrite <-(list_byte_string_id s1), H, list_byte_string_id. Qed.

Lemma string_app_assoc (s1 s2 s3 : string) : (s1 +:+ s2) +:+ s3 = s1 +:+ (s2 +:+ s3).
Proof.
  induction s1 as [|c s1 IH]; [done|].
  change (String c ((s1 +:+ s2) +:+ s3) = String c (s1 +:+ (s2 +:+ s3))). by rewrite IH.
Qed.

Lemma string_app_nil_r (s : string) : s +:+ "" = s.
Proof. induction s as [|c s IH]; [done|]. change (String c (s +:+ "") = String c s). by rewrite IH. Qed.

Lemma string_app_cons c (s1 s2 : string) : String c s1 +:+ s2 = String c (s1 +:+ s2).
Proof. done. Qed.
