(* ===== verification/RustStd.v ===== *)
(** * The Rust standard-library functions the crate uses on text and integers

    A Rust [str] is a [string] of its UTF-8 bytes; [as_bytes] and [from_utf8]
    convert, and [utf8_valid] is the validity check of [str::from_utf8].
    [i16], [u16], [i32], [u32], [i64] and [u64] are [Z] (or [N]) with the casts
    written out. *)
From S2P Require Import Prelude.
Local Open Scope N_scope.

(** ** Characters *)

Definition code (c : ascii) : N := Ascii.N_of_ascii c.
Definition byte_in (lo hi : N) (c : ascii) : bool := (lo <=? code c) && (code c <=? hi).
Definition byte_is (n : N) (c : ascii) : bool := code c =? n.

Definition is_ascii_upper : ascii → bool := byte_in 65 90.
Definition is_ascii_lower : ascii → bool := byte_in 97 122.
Definition is_ascii_digit : ascii → bool := byte_in 48 57.
Definition is_ascii_alphanumeric (c : ascii) : bool :=
  is_ascii_upper c || is_ascii_lower c || is_ascii_digit c.

Definition char_to_ascii_lowercase (c : ascii) : ascii :=
  if is_ascii_upper c then Ascii.ascii_of_N (code c + 32) else c.

Fixpoint string_map (f : ascii → ascii) (s : string) : string :=
  match s with
  | EmptyString => EmptyString
  | String c s' => String (f c) (string_map f s')
  end.

Fixpoint string_filter (f : ascii → bool) (s : string) : string :=
  match s with
  | EmptyString => EmptyString
  | String c s' => if f c then String c (string_filter f s') else string_filter f s'
  end.

Fixpoint string_forall (f : ascii → bool) (s : string) : bool :=
  match s with
  | EmptyString => true
  | String c s' => f c && string_forall f s'
  end.

(** [str::to_ascii_lowercase], [str::eq_ignore_ascii_case], [str::is_ascii]. *)
Definition to_ascii_lowercase : string → string := string_map char_to_ascii_lowercase.
Definition eq_ignore_ascii_case (s1 s2 : string) : bool :=
  bool_decide (to_ascii_lowercase s1 = to_ascii_lowercase s2).
Definition is_ascii : string → bool := string_forall (byte_in 0 127).

Definition is_empty (s : string) : bool :=
  match s with EmptyString => true | _ => false end.

(** ** Prefixes, suffixes, search and splitting *)

(** [s.strip_prefix(p)] *)
Fixpoint strip_prefix (p s : string) : option string :=
  match p, s with
  | EmptyString, _ => Some s
  | String a p', String b s' => if Ascii.eqb a b then strip_prefix p' s' else None
  | String _ _, EmptyString => None
  end.

(** [s.starts_with(p)] *)
Definition starts_with (p s : string) : bool :=
  match strip_prefix p s with Some _ => true | None => false end.

(** [s.contains(p)] and [s.ends_with(p)] *)
Fixpoint contains (p s : string) : bool :=
  starts_with p s ||
  match s with EmptyString => false | String _ s' => contains p s' end.
Fixpoint ends_with (p s : string) : bool :=
  bool_decide (s = p) ||
  match s with EmptyString => false | String _ s' => ends_with p s' end.

(** [s.split_once(c)] for an ASCII character [c] *)
Fixpoint split_once (c : ascii) (s : string) : option (string * string) :=
  match s with
  | EmptyString => None
  | String a s' =>
      if Ascii.eqb a c then Some (EmptyString, s')
      else match split_once c s' with
           | Some (l, r) => Some (String a l, r)
           | None => None
           end
  end.

(** [s.splitn(n, c)], as the list of the items it yields *)
Fixpoint splitn (n : nat) (c : ascii) (s : string) : list string :=
  match n with
  | O => []
  | S O => [s]
  | S n' =>
      match split_once c s with
      | Some (l, r) => l :: splitn n' c r
      | None => [s]
      end
  end.

(** [s.split(c)] *)
Fixpoint split (c : ascii) (s : string) : list string :=
  match s with
  | EmptyString => [EmptyString]
  | String a s' =>
      if Ascii.eqb a c then EmptyString :: split c s'
      else match split c s' with
           | h :: t => String a h :: t
           | [] => [String a EmptyString]
           end
  end.

(** [slice.join(sep)] *)
Fixpoint join (sep : string) (l : list string) : string :=
  match l with
  | [] => EmptyString
  | [s] => s
  | s :: l' => s +:+ sep +:+ join sep l'
  end.

(** ** [str::trim]: Unicode [White_Space], on UTF-8 bytes *)

Definition ws1 (a : ascii) : bool := byte_in 9 13 a || byte_is 32 a.
(** U+0085, U+00A0 *)
Definition ws2 (a b : ascii) : bool := byte_is 194 a && (byte_is 133 b || byte_is 160 b).
(** U+1680, U+2000 .. U+200A, U+2028, U+2029, U+202F, U+205F, U+3000 *)
Definition ws3 (a b c : ascii) : bool :=
  (byte_is 225 a && byte_is 154 b && byte_is 128 c)
  || (byte_is 226 a && byte_is 128 b &&
       (byte_in 128 138 c || byte_is 168 c || byte_is 169 c || byte_is 175 c))
  || (byte_is 226 a && byte_is 129 b && byte_is 159 c)
  || (byte_is 227 a && byte_is 128 b && byte_is 128 c).

(** Drop white space from the front, for a way to read two and three bytes. *)
Fixpoint trim_by (two : ascii → ascii → bool) (three : ascii → ascii → ascii → bool)
    (s : string) : string :=
  match s with
  | EmptyString => EmptyString
  | String a r =>
      if ws1 a then trim_by two three r
      else match r with
           | EmptyString => s
           | String b r2 =>
               if two a b then trim_by two three r2
               else match r2 with
                    | EmptyString => s
                    | String c r3 => if three a b c then trim_by two three r3 else s
                    end
           end
  end.

Definition trim_start : string → string := trim_by ws2 ws3.
(** The same from the other end; the argument is the reversed string. *)
Definition trim_end_rev : string → string := trim_by (λ b a, ws2 a b) (λ c b a, ws3 a b c).
Definition trim_end (s : string) : string := String.rev (trim_end_rev (String.rev s)).
Definition trim (s : string) : string := trim_end (trim_start s).

(** ** UTF-8 *)

Definition cont : ascii → bool := byte_in 128 191.

Definition utf8_three (a b : ascii) : bool :=
  (byte_is 224 a && byte_in 160 191 b)
  || (byte_in 225 236 a && cont b)
  || (byte_is 237 a && byte_in 128 159 b)
  || (byte_in 238 239 a && cont b).
Definition utf8_four (a b : ascii) : bool :=
  (byte_is 240 a && byte_in 144 191 b)
  || (byte_in 241 243 a && cont b)
  || (byte_is 244 a && byte_in 128 143 b).

Fixpoint utf8_valid (s : string) : bool :=
  match s with
  | EmptyString => true
  | String a r =>
      if byte_in 0 127 a then utf8_valid r
      else match r with
           | EmptyString => false
           | String b r2 =>
               if byte_in 194 223 a then cont b && utf8_valid r2
               else match r2 with
                    | EmptyString => false
                    | String c r3 =>
                        if utf8_three a b then cont c && utf8_valid r3
                        else match r3 with
                             | EmptyString => false
                             | String d r4 =>
                                 utf8_four a b && cont c && cont d && utf8_valid r4
                             end
                    end
           end
  end.

(** [str::as_bytes] (and [String::into_bytes]) and [String::from_utf8] *)
Definition as_bytes : string → bytes := String.list_byte_of_string.
Definition from_utf8 (b : bytes) : option string :=
  let s := String.string_of_list_byte b in
  if utf8_valid s then Some s else None.

(** ** [str::parse::<u32>] and [str::parse::<u64>] *)

Inductive ParseIntError := PieEmpty | PieInvalidDigit | PiePosOverflow.

Definition parse_int_error_display (e : ParseIntError) : string :=
  match e with
  | PieEmpty => "cannot parse integer from empty string"
  | PieInvalidDigit => "invalid digit found in string"
  | PiePosOverflow => "number too large to fit in target type"
  end.

Definition to_digit (c : ascii) : option N :=
  if is_ascii_digit c then Some (code c - 48) else None.

Fixpoint parse_digits (max acc : N) (s : string) : result ParseIntError N :=
  match s with
  | EmptyString => Ok acc
  | String c s' =>
      match to_digit c with
      | None => Err PieInvalidDigit
      | Some d =>
          if max <? acc * 10 then Err PiePosOverflow
          else if max <? acc * 10 + d then Err PiePosOverflow
          else parse_digits max (acc * 10 + d) s'
      end
  end.

Definition parse_unsigned (max : N) (s : string) : result ParseIntError N :=
  match s with
  | EmptyString => Err PieEmpty
  | String c r =>
      if is_empty r && (byte_is 43 c || byte_is 45 c) then Err PieInvalidDigit
      else if byte_is 43 c then parse_digits max 0 r
      else parse_digits max 0 s
  end.

Definition u16_max : N := 65535.
Definition u32_max : N := 4294967295.
Definition u64_max : N := 18446744073709551615.

Definition parse_u32 : string → result ParseIntError N := parse_unsigned u32_max.
Definition parse_u64 : string → result ParseIntError N := parse_unsigned u64_max.

(** [u64::to_string], [u32::to_string] *)
Definition n_to_string (n : N) : string := pretty n.

(** ** Casts between machine integers ([as]) *)
Local Open Scope Z_scope.

Definition wrap_unsigned (w z : Z) : Z := z mod 2 ^ w.
Definition wrap_signed (w z : Z) : Z := (z + 2 ^ (w - 1)) mod 2 ^ w - 2 ^ (w - 1).

Definition as_i16 : Z → Z := wrap_signed 16.
Definition as_u16 : Z → Z := wrap_unsigned 16.
Definition as_u32 : Z → Z := wrap_unsigned 32.

Definition i32_min : Z := - 2 ^ 31.
Definition i32_max : Z := 2 ^ 31 - 1.
Definition i64_min : Z := - 2 ^ 63.
Definition i64_max : Z := 2 ^ 63 - 1.

(** The nearest IEEE double of an integer: 53 significant bits, ties to even. The
    result is integral, so it stays a [Z]. *)
Definition round_f64 (x : Z) : Z :=
  let m := Z.abs x in
  if m <? 2 ^ 53 then x
  else
    let e := Z.log2 m - 52 in
    let q := Z.shiftr m e in
    let r := m - Z.shiftl q e in
    let half := 2 ^ (e - 1) in
    let q' := if (half <? r) || ((half =? r) && Z.odd q) then q + 1 else q in
    Z.sgn x * Z.shiftl q' e.

(** [x as f64] for an [i64] *)
Definition i64_as_f64 (x : Z) : Z := round_f64 x.

(** ** Lemmas *)

Lemma strip_prefix_app p s : strip_prefix p (p +:+ s) = Some s.
Proof.
  induction p as [|c p IH]; [done|].
  rewrite string_app_cons. simpl. by rewrite Ascii.eqb_refl.
Qed.

Lemma strip_prefix_Some p s r : strip_prefix p s = Some r ↔ s = p +:+ r.
Proof.
  split; [|intros ->; apply strip_prefix_app].
  revert s. induction p as [|c p IH]; intros s H.
  - by simpl in H; simplify_eq.
  - destruct s as [|c' s]; [done|]. simpl in H.
    destruct (Ascii.eqb c c') eqn:E; [|done].
    apply Ascii.eqb_eq in E as ->. rewrite string_app_cons. f_equal. by apply IH.
Qed.

Lemma starts_with_true p s : starts_with p s = true ↔ ∃ r, s = p +:+ r.
Proof.
  unfold starts_with. destruct (strip_prefix p s) as [r|] eqn:E.
  - apply strip_prefix_Some in E. naive_solver.
  - split; [done|]. intros [r ->]. by rewrite strip_prefix_app in E.
Qed.

Lemma starts_with_app p s : starts_with p (p +:+ s) = true.
Proof. apply starts_with_true. eauto. Qed.

Lemma strip_prefix_None p s : strip_prefix p s = None ↔ starts_with p s = false.
Proof. unfold starts_with. by destruct (strip_prefix p s). Qed.

(** A string in which the character [c] does not occur. *)
Definition no_char (c : ascii) (s : string) : Prop :=
  string_forall (λ a, negb (Ascii.eqb a c)) s = true.

Lemma no_char_cons c a s : no_char c (String a s) ↔ a ≠ c ∧ no_char c s.
Proof.
  unfold no_char. simpl. rewrite andb_true_iff, negb_true_iff.
  by rewrite <-Ascii.eqb_neq.
Qed.

Lemma split_once_app c l r : no_char c l → split_once c (l +:+ String c r) = Some (l, r).
Proof.
  induction l as [|a l IH]; intros H.
  - change ("" +:+ String c r) with (String c r). simpl. by rewrite Ascii.eqb_refl.
  - apply no_char_cons in H as [Ha H]. rewrite string_app_cons. simpl.
    apply Ascii.eqb_neq in Ha as ->. by rewrite IH.
Qed.

Lemma split_once_Some c s l r :
  split_once c s = Some (l, r) → s = l +:+ String c r ∧ no_char c l.
Proof.
  revert l. induction s as [|a s IH]; intros l H; [done|]. simpl in H.
  destruct (Ascii.eqb a c) eqn:E.
  - apply Ascii.eqb_eq in E as ->. by simplify_eq.
  - destruct (split_once c s) as [[l' r']|] eqn:Es; [|done]. simplify_eq.
    destruct (IH l' eq_refl) as [-> ?]. split; [done|].
    apply no_char_cons. split; [by apply Ascii.eqb_neq|done].
Qed.

(** Two decompositions of one string at a separator that occurs in neither
    left part are the same decomposition. *)
Lemma app_sep_inj c l1 l2 r1 r2 :
  no_char c l1 → no_char c l2 →
  l1 +:+ String c r1 = l2 +:+ String c r2 → l1 = l2 ∧ r1 = r2.
Proof.
  intros H1 H2 E. apply (f_equal (split_once c)) in E.
  rewrite !split_once_app in E by done. by simplify_eq.
Qed.

Lemma string_app_inj_l (s s1 s2 : string) : s +:+ s1 = s +:+ s2 → s1 = s2.
Proof.
  intros E. apply (f_equal (strip_prefix s)) in E.
  rewrite !strip_prefix_app in E. by simplify_eq.
Qed.

Lemma as_bytes_inj s1 s2 : as_bytes s1 = as_bytes s2 → s1 = s2.
Proof. apply list_byte_string_inj. Qed.

Lemma as_bytes_cons c s : as_bytes (String c s) = as_bytes (String c "") ++ as_bytes s.
Proof. done. Qed.

Lemma as_bytes_app s1 s2 : as_bytes (s1 +:+ s2) = as_bytes s1 ++ as_bytes s2.
Proof.
  induction s1 as [|c s1 IH]; [done|].
  by rewrite string_app_cons, as_bytes_cons, IH, (as_bytes_cons c s1).
Qed.

Lemma from_utf8_as_bytes s : utf8_valid s = true → from_utf8 (as_bytes s) = Some s.
Proof. intros H. unfold from_utf8, as_bytes. by rewrite list_byte_string_id, H. Qed.

Lemma from_utf8_Some b s : from_utf8 b = Some s ↔ as_bytes s = b ∧ utf8_valid s = true.
Proof.
  split.
  - unfold from_utf8. intros H. destruct (utf8_valid _) eqn:E; [|done]. simplify_eq.
    split; [|done]. apply byte_list_string_id.
  - intros [<- ?]. by apply from_utf8_as_bytes.
Qed.

(** *** Characters and [trim] *)

Lemma string_forall_impl (f g : ascii → bool) s :
  (∀ c, f c = true → g c = true) → string_forall f s = true → string_forall g s = true.
Proof.
  intros Hfg. induction s as [|c s IH]; simpl; [done|].
  rewrite !andb_true_iff. naive_solver.
Qed.

Lemma utf8_valid_ascii s : is_ascii s = true → utf8_valid s = true.
Proof.
  unfold is_ascii. induction s as [|c s IH]; [done|].
  simpl. rewrite andb_true_iff. intros [-> ?]. auto.
Qed.

Lemma trim_start_head c s : byte_in 0 127 c = true → ws1 c = false →
  trim_start (String c s) = String c s.
Proof.
  intros Ha Hw. unfold trim_start. simpl. rewrite Hw.
  assert (∀ b, ws2 c b = false) as H2.
  { intros b. revert Ha. destruct c as [[] [] [] [] [] [] [] []]; done. }
  assert (∀ a b, ws3 c a b = false) as H3.
  { intros a b. revert Ha. destruct c as [[] [] [] [] [] [] [] []]; done. }
  destruct s as [|b s]; [done|]. rewrite H2. destruct s as [|d s]; [done|]. by rewrite H3.
Qed.

Lemma trim_end_rev_head c s : byte_in 0 127 c = true → ws1 c = false →
  trim_end_rev (String c s) = String c s.
Proof.
  intros Ha Hw. unfold trim_end_rev. simpl. rewrite Hw.
  assert (∀ b, ws2 b c = false) as H2.
  { intros b. unfold ws2. rewrite andb_false_iff. right. revert Ha.
    destruct c as [[] [] [] [] [] [] [] []]; done. }
  assert (∀ a b, ws3 b a c = false) as H3.
  { intros a b. unfold ws3.
    assert (byte_is 128 c = false ∧ byte_in 128 138 c = false ∧ byte_is 168 c = false ∧
      byte_is 169 c = false ∧ byte_is 175 c = false ∧ byte_is 159 c = false) as Hc
      by (revert Ha; destruct c as [[] [] [] [] [] [] [] []]; done).
    destruct Hc as (-> & -> & -> & -> & -> & ->). by rewrite !andb_false_r. }
  destruct s as [|b s]; [done|]. rewrite H2. destruct s as [|d s]; [done|]. by rewrite H3.
Qed.

(** Text without white space and without non-ASCII characters. *)
Definition is_plain (c : ascii) : bool := byte_in 0 127 c && negb (ws1 c).

Lemma rev_app_forall f s1 s2 :
  string_forall f (String.rev_app s1 s2) = string_forall f s1 && string_forall f s2.
Proof.
  revert s2. induction s1 as [|c s1 IH]; intros s2; [done|]. simpl. rewrite IH. simpl.
  by destruct (f c), (string_forall f s1).
Qed.

Lemma rev_app_rev_app s1 s2 s3 :
  String.rev_app (String.rev_app s1 s2) s3 = String.rev_app s2 (s1 +:+ s3).
Proof.
  revert s2. induction s1 as [|c s1 IH]; intros s2; [done|].
  change (String.rev_app (String c s1) s2) with (String.rev_app s1 (String c s2)).
  rewrite IH, string_app_cons. done.
Qed.

Lemma string_rev_involutive s : String.rev (String.rev s) = s.
Proof. unfold String.rev. rewrite rev_app_rev_app. simpl. apply string_app_nil_r. Qed.

Lemma trim_plain s : string_forall is_plain s = true → trim s = s.
Proof.
  intros Hs.
  assert (trim_start s = s) as Hstart.
  { destruct s as [|c s]; [done|]. simpl in Hs.
    apply andb_true_iff in Hs as [Hc _]. apply andb_true_iff in Hc as [? Hw].
    apply negb_true_iff in Hw. by apply trim_start_head. }
  unfold trim, trim_end. rewrite Hstart.
  assert (trim_end_rev (String.rev s) = String.rev s) as ->.
  { assert (string_forall is_plain (String.rev s) = true) as Hr
      by (unfold String.rev; by rewrite rev_app_forall, Hs).
    destruct (String.rev s) as [|c r]; [done|]. simpl in Hr.
    apply andb_true_iff in Hr as [Hc _]. apply andb_true_iff in Hc as [? Hw].
    apply negb_true_iff in Hw. by apply trim_end_rev_head. }
  apply string_rev_involutive.
Qed.

(** *** [trim] is idempotent and keeps what holds of every character *)

Lemma string_app_forall f s1 s2 :
  string_forall f (s1 +:+ s2) = string_forall f s1 && string_forall f s2.
Proof.
  induction s1 as [|c s1 IH]; [done|]. rewrite string_app_cons. simpl.
  by rewrite IH, andb_assoc.
Qed.

Lemma string_rev_forall f s : string_forall f (String.rev s) = string_forall f s.
Proof. unfold String.rev. rewrite rev_app_forall. apply andb_true_r. Qed.

Lemma string_rev_app s1 s2 : String.rev (s1 +:+ s2) = String.rev s2 +:+ String.rev s1.
Proof.
  assert (∀ a b, String.rev_app a b = String.rev a +:+ b) as Hra.
  { intros a. unfold String.rev. intros b.
    enough (∀ c, String.rev_app a (c +:+ b) = String.rev_app a c +:+ b) as H by exact (H "").
    induction a as [|x a IH]; [done|]. intros c. simpl. rewrite <-IH. by rewrite string_app_cons. }
  induction s1 as [|c s1 IH].
  - change ("" +:+ s2) with s2. by rewrite string_app_nil_r.
  - rewrite string_app_cons. unfold String.rev at 1 3. simpl.
    rewrite !(Hra _ (String c "")), IH. by rewrite string_app_assoc.
Qed.

(** Trimming removes a prefix, and does nothing the second time. *)
Lemma trim_by_spec two three s :
  (∃ p, s = p +:+ trim_by two three s) ∧
  trim_by two three (trim_by two three s) = trim_by two three s.
Proof.
  remember (String.length s) as n eqn:En. revert s En.
  induction (lt_wf n) as [n _ IH]. intros s ->.
  assert (∀ x r, s = x +:+ r → (String.length r < String.length s)%nat →
    trim_by two three s = trim_by two three r →
    (∃ p, s = p +:+ trim_by two three s) ∧
    trim_by two three (trim_by two three s) = trim_by two three s) as Hstep.
  { intros x r Hs Hl Ht. destruct (IH _ Hl r eq_refl) as [[p Hp] Hi]. rewrite Ht.
    split; [|done]. exists (x +:+ p). by rewrite Hs, Hp at 1; rewrite string_app_assoc. }
  destruct s as [|a r]; [by split; [exists ""|]|].
  destruct (ws1 a) eqn:E1.
  { apply (Hstep (String a "") r); [done|simpl; lia|simpl; by rewrite E1]. }
  destruct r as [|b r2]; [simpl; rewrite E1; split; [by exists ""|simpl; by rewrite E1]|].
  destruct (two a b) eqn:E2.
  { apply (Hstep (String a (String b "")) r2); [done|simpl; lia|simpl; by rewrite E1, E2]. }
  destruct r2 as [|c r3];
    [simpl; rewrite E1, E2; split; [by exists ""|simpl; by rewrite E1, E2]|].
  destruct (three a b c) eqn:E3.
  { apply (Hstep (String a (String b (String c ""))) r3);
      [done|simpl; lia|simpl; by rewrite E1, E2, E3]. }
  simpl. rewrite E1, E2, E3. split; [by exists ""|]. simpl. by rewrite E1, E2, E3.
Qed.

Lemma trim_by_length two three s :
  (String.length (trim_by two three s) <= String.length s)%nat.
Proof.
  destruct (trim_by_spec two three s) as [[p Hp] _].
  rewrite Hp at 2. generalize (trim_by two three s). clear.
  induction p as [|c p IH]; intros t; [done|]. rewrite string_app_cons. simpl. by apply le_S.
Qed.

(** A prefix of a string that begins with no white space begins with none. *)
Lemma trim_by_prefix two three q r :
  trim_by two three (q +:+ r) = q +:+ r → trim_by two three q = q.
Proof.
  intros H. pose proof (trim_by_length two three) as Hlen.
  destruct q as [|a q]; [done|]. rewrite string_app_cons in H. cbn [trim_by] in *.
  destruct (ws1 a).
  { specialize (Hlen (q +:+ r)). rewrite H in Hlen. simpl in Hlen. lia. }
  destruct q as [|b q]; [done|]. rewrite string_app_cons in H.
  destruct (two a b).
  { specialize (Hlen (q +:+ r)). rewrite H in Hlen. simpl in Hlen. lia. }
  destruct q as [|c q]; [done|]. rewrite string_app_cons in H.
  destruct (three a b c); [|done].
  specialize (Hlen (q +:+ r)). rewrite H in Hlen. simpl in Hlen. lia.
Qed.

Lemma trim_end_prefix s : ∃ r, s = trim_end s +:+ r.
Proof.
  destruct (trim_by_spec (λ b a, ws2 a b) (λ c b a, ws3 a b c) (String.rev s)) as [[p Hp] _].
  exists (String.rev p). unfold trim_end. rewrite <-string_rev_app.
  unfold trim_end_rev. by rewrite <-Hp, string_rev_involutive.
Qed.

Lemma trim_idem s : trim (trim s) = trim s.
Proof.
  unfold trim. destruct (trim_end_prefix (trim_start s)) as [r Hr].
  assert (trim_start (trim_end (trim_start s)) = trim_end (trim_start s)) as ->
    by (apply (trim_by_prefix _ _ _ r); rewrite <-Hr; apply trim_by_spec).
  unfold trim_end. rewrite string_rev_involutive. f_equal. apply trim_by_spec.
Qed.

Lemma trim_forall f s : string_forall f s = true → string_forall f (trim s) = true.
Proof.
  intros Hs. destruct (trim_by_spec ws2 ws3 s) as [[p Hp] _]. fold (trim_start s) in Hp.
  destruct (trim_end_prefix (trim_start s)) as [r Hr]. fold (trim s) in Hr.
  rewrite Hp, Hr, !string_app_forall, !andb_true_iff in Hs. tauto.
Qed.

(** *** Parsing integers *)
Local Open Scope N_scope.

Lemma parse_digits_bound max acc s n : acc ≤ max → parse_digits max acc s = Ok n → n ≤ max.
Proof.
  revert acc. induction s as [|c s IH]; intros acc Hacc H; simpl in H.
  - by simplify_eq.
  - destruct (to_digit c) as [d|]; [|done].
    destruct (max <? acc * 10) eqn:?; [done|].
    destruct (max <? acc * 10 + d) eqn:E; [done|].
    apply N.ltb_ge in E. by eapply IH.
Qed.

Lemma parse_unsigned_bound max s n : parse_unsigned max s = Ok n → n ≤ max.
Proof.
  unfold parse_unsigned. destruct s as [|c r]; [done|].
  destruct (_ && _); [done|].
  destruct (byte_is 43 c); apply parse_digits_bound; lia.
Qed.

Lemma to_digit_pretty d : d < 10 → to_digit (pretty_N_char d) = Some d.
Proof.
  intros H.
  assert (d = 0 ∨ d = 1 ∨ d = 2 ∨ d = 3 ∨ d = 4 ∨ d = 5 ∨ d = 6 ∨ d = 7 ∨ d = 8 ∨ d = 9)
    as Hd by lia.
  naive_solver.
Qed.

(** Printing [x] in front of [s] and parsing back: the digits of [x] are
    consumed and [s] is parsed with the accumulator they give. *)
Lemma parse_digits_pretty_go max x s :
  x ≤ max → parse_digits max 0 (pretty_N_go x s) = parse_digits max x s.
Proof.
  revert s. induction (N.lt_wf_0 x) as [x _ IH]; intros s Hx.
  destruct (decide (x = 0)) as [->|Hnz]; [by rewrite pretty_N_go_0|].
  assert (x = 10 * (x `div` 10) + x `mod` 10) as Hdm by (apply N.div_mod; lia).
  assert (x `mod` 10 < 10) by (apply N.mod_lt; lia).
  rewrite pretty_N_go_step by lia.
  assert (x `div` 10 < x) by (apply N.div_lt; lia).
  rewrite IH by lia.
  cbn [parse_digits]. rewrite to_digit_pretty by done.
  replace (x `div` 10 * 10 + x `mod` 10) with x by lia.
  assert (x `div` 10 * 10 ≤ max)
    by (pose proof (N.le_0_l (x `mod` 10)); etrans; [|exact Hx]; rewrite Hdm at 2; lia).
  rewrite (proj2 (N.ltb_ge max (x `div` 10 * 10))) by done.
  by rewrite (proj2 (N.ltb_ge max x)) by lia.
Qed.

Lemma pretty_N_go_head x s : 0 < x → ∃ d r, d < 10 ∧ pretty_N_go x s = String (pretty_N_char d) r.
Proof.
  revert s. induction (N.lt_wf_0 x) as [x _ IH]; intros s Hx.
  rewrite pretty_N_go_step by done.
  destruct (decide (x `div` 10 = 0)) as [E|E].
  - rewrite E, pretty_N_go_0. eexists _, _. split; [|done]. apply N.mod_lt; lia.
  - apply IH; [by apply N.div_lt|by apply N.neq_0_lt_0].
Qed.

(** [n.to_string().parse()] gives [n] back, for every [n] that fits. *)
Lemma parse_unsigned_to_string max n : n ≤ max → parse_unsigned max (n_to_string n) = Ok n.
Proof.
  intros Hn. unfold n_to_string, pretty, pretty_N. case_decide as Hz.
  - subst n. by destruct max.
  - destruct (pretty_N_go_head n "") as (d & r & Hd & E); [lia|].
    assert (byte_is 43 (pretty_N_char d) = false ∧ byte_is 45 (pretty_N_char d) = false)
      as [E43 E45].
    { assert (d = 0 ∨ d = 1 ∨ d = 2 ∨ d = 3 ∨ d = 4 ∨ d = 5 ∨ d = 6 ∨ d = 7 ∨ d = 8 ∨ d = 9)
        as Hd' by lia. naive_solver. }
    unfold parse_unsigned. rewrite E, E43, E45, andb_false_r, <-E.
    by rewrite parse_digits_pretty_go.
Qed.

(** *** Casts *)
Local Open Scope Z_scope.

Lemma wrap_unsigned_small w z : 0 <= z < 2 ^ w → wrap_unsigned w z = z.
Proof. intros. unfold wrap_unsigned. by apply Z.mod_small. Qed.

Lemma wrap_signed_small w z : 0 < w → - 2 ^ (w - 1) <= z < 2 ^ (w - 1) → wrap_signed w z = z.
Proof.
  intros Hw Hz. unfold wrap_signed.
  assert (2 ^ w = 2 * 2 ^ (w - 1)) by (rewrite <-Z.pow_succ_r by lia; f_equal; lia).
  rewrite Z.mod_small by lia. lia.
Qed.

Lemma wrap_signed_range w z : 0 < w → - 2 ^ (w - 1) <= wrap_signed w z < 2 ^ (w - 1).
Proof.
  intros Hw. unfold wrap_signed.
  assert (2 ^ w = 2 * 2 ^ (w - 1)) by (rewrite <-Z.pow_succ_r by lia; f_equal; lia).
  pose proof (Z.mod_pos_bound (z + 2 ^ (w - 1)) (2 ^ w)).
  assert (0 < 2 ^ (w - 1)) by (apply Z.pow_pos_nonneg; lia). lia.
Qed.

#[export] Hint Rewrite strip_prefix_app starts_with_app from_utf8_as_bytes
  using done : sdb.
