(* ===== verification/Platform.v ===== *)
(** * The code the crate calls: interfaces and their laws

    Everything that is not in the repository is a parameter here: the [base64],
    [hex], [ring], [sha2], [hmac], [uuid] and [serde_json] crates, the
    secret-broker adapter, and the host (clocks, random numbers, the network
    between the client and PostgreSQL). Each interface is an operational class;
    a [...Laws] class states the documented behaviour that theorems rely on.
    [Reference.v] gives concrete functions and proves the laws for them. *)
From S2P Require Import Prelude RustStd.

(** ** [base64::engine::general_purpose::STANDARD] *)
Class Base64 := {
  b64_encode : bytes → string;
  b64_decode : bytes → option bytes;
}.
Class Base64Laws `{Base64} : Prop := {
  b64_decode_encode b : b64_decode (as_bytes (b64_encode b)) = Some b;
  (** the alphabet is [A-Za-z0-9+/=] *)
  b64_no_colon b : no_char ":"%char (b64_encode b);
}.

(** ** [hex::encode], [hex::decode] / [Vec::from_hex] *)
Class Hex := {
  hex_encode : bytes → string;
  hex_decode : string → option bytes;
}.
Class HexLaws `{Hex} : Prop := {
  hex_decode_encode b : hex_decode (hex_encode b) = Some b;
  (** digits are [0-9a-f] *)
  hex_encode_lower b : to_ascii_lowercase (hex_encode b) = hex_encode b;
  hex_encode_trim b : trim (hex_encode b) = hex_encode b;
  hex_encode_ascii b : is_ascii (hex_encode b) = true;
}.

(** ** [ring::aead] with [AES_256_GCM] *)
Class Ring := {
  (** [UnboundKey::new(&AES_256_GCM, key).is_ok()] *)
  unbound_key_ok : bytes → bool;
  (** [Nonce::try_assume_unique_for_key(bytes).is_ok()] *)
  nonce_ok : bytes → bool;
  (** key, nonce, associated data, plaintext; [None] is [Unspecified] *)
  seal_in_place_append_tag : bytes → bytes → bytes → bytes → option bytes;
  open_in_place : bytes → bytes → bytes → bytes → option bytes;
}.
Class RingLaws `{Ring} : Prop := {
  unbound_key_len k : unbound_key_ok k = true ↔ length k = 32;
  nonce_ok_len n : nonce_ok n = true ↔ length n = 12;
  seal_length k n aad p c :
    seal_in_place_append_tag k n aad p = Some c → length c = length p + 16;
  open_seal k n aad p c :
    length k = 32 → length n = 12 →
    seal_in_place_append_tag k n aad p = Some c → open_in_place k n aad c = Some p;
  seal_total k n aad p :
    length k = 32 → length n = 12 → (N.of_nat (length p) < 2 ^ 32)%N →
    is_Some (seal_in_place_append_tag k n aad p);
}.

(** ** [sha2], [hmac] *)
Class Digests := {
  sha256 : bytes → bytes;
  sha512 : bytes → bytes;
  (** [None]: the key is refused *)
  hmac_sha256 : bytes → bytes → option bytes;
}.
Class DigestLaws `{Digests} : Prop := {
  sha256_length b : length (sha256 b) = 32;
  sha512_length b : length (sha512 b) = 64;
}.

(** ** [pasta::Fp], the base field of the Pallas curve *)
Definition PALLAS_MODULUS : Z :=
  28948022309329048855892746252171976963363056481941560715954676764349967630337.
Class PastaField := {
  Fp : Type;
  fp_eq_dec :: EqDecision Fp;
  fp_add : Fp → Fp → Fp;
  fp_sub : Fp → Fp → Fp;
  fp_mul : Fp → Fp → Fp;
  (** [Fp::from(u64)], [Fp::from_raw([u64; 4])] *)
  fp_from_u64 : N → Fp;
  fp_from_raw : N → N → N → N → Fp;
  fp_to_repr : Fp → bytes;
  fp_from_repr : bytes → option Fp;
}.
(** [fp_val x] is the residue that [x] stands for. *)
Class PastaLaws `{PastaField} := {
  fp_val : Fp → Z;
  fp_val_inj x y : fp_val x = fp_val y → x = y;
  fp_val_range x : (0 <= fp_val x < PALLAS_MODULUS)%Z;
  fp_val_add x y : fp_val (fp_add x y) = ((fp_val x + fp_val y) mod PALLAS_MODULUS)%Z;
  fp_val_sub x y : fp_val (fp_sub x y) = ((fp_val x - fp_val y) mod PALLAS_MODULUS)%Z;
  fp_val_mul x y : fp_val (fp_mul x y) = ((fp_val x * fp_val y) mod PALLAS_MODULUS)%Z;
  fp_val_u64 n : (n <= u64_max)%N → fp_val (fp_from_u64 n) = Z.of_N n;
  fp_val_raw a b c d : (a <= u64_max)%N → (b <= u64_max)%N → (c <= u64_max)%N → (d <= u64_max)%N →
    fp_val (fp_from_raw a b c d) =
    (Z.of_N (a + 2 ^ 64 * b + 2 ^ 128 * c + 2 ^ 192 * d) mod PALLAS_MODULUS)%Z;
  (** the encoding is canonical *)
  fp_repr_length x : length (fp_to_repr x) = 32;
  fp_from_to_repr x : fp_from_repr (fp_to_repr x) = Some x;
  fp_to_from_repr b x : fp_from_repr b = Some x → fp_to_repr x = b;
}.

(** ** [uuid::Uuid] *)
Class UuidApi := {
  Uuid : Type;
  uuid_eq_dec :: EqDecision Uuid;
  uuid_countable :: Countable Uuid;
  uuid_nil : Uuid;
  (** the [Display] form: hyphenated lower-case hexadecimal *)
  uuid_to_string : Uuid → string;
}.
Class UuidLaws `{UuidApi} : Prop := {
  uuid_to_string_inj (a b : Uuid) : uuid_to_string a = uuid_to_string b → a = b;
  uuid_no_nul a : no_char "000"%char (uuid_to_string a);
}.

(** ** [str::to_lowercase] and the [Debug] form of a string

    Both read Unicode tables; on ASCII text the first is
    [to_ascii_lowercase]. *)
Class UnicodeTables := {
  to_lowercase : string → string;
  debug_str : string → string;
}.
Class UnicodeLaws `{UnicodeTables} : Prop := {
  to_lowercase_ascii s : is_ascii s = true → to_lowercase s = to_ascii_lowercase s;
}.

(** ** [anyhow::Error]: the context messages, outermost first *)
Abbreviation AnyhowError := (list string).
Definition anyhow (msg : string) : AnyhowError := [msg].
Definition context (msg : string) (e : AnyhowError) : AnyhowError := msg :: e.
Definition anyhow_display (e : AnyhowError) : string := from_option id "" (head e).

(** ** Points in time

    [Timestamp] is [TIMESTAMPTZ]: microseconds since the PostgreSQL epoch, the
    first of January 2000. [DateTime] is [chrono::DateTime<Utc>]: nanoseconds,
    counted here from the same instant. [sqlx] sends a [DateTime<Utc>] as the
    whole microseconds of its distance from that instant
    ([TimeDelta::num_microseconds], which rounds towards zero), and reads a
    [TIMESTAMPTZ] back without loss. (Every [DateTime<Utc>] fits; those outside
    the range of [TIMESTAMPTZ], before 4714 BC, are not considered.) *)
Abbreviation Timestamp := Z.
Record DateTime := utc { nanos : Z }.
#[export] Instance datetime_eq_dec : EqDecision DateTime.
Proof. solve_decision. Defined.

Definition to_timestamptz (t : DateTime) : Timestamp := Z.quot (nanos t) 1000.
Definition of_timestamptz (t : Timestamp) : DateTime := utc (t * 1000).
(** What a column gives back of the time it was given. *)
Definition stored_time (t : DateTime) : DateTime := of_timestamptz (to_timestamptz t).

Lemma to_of_timestamptz t : to_timestamptz (of_timestamptz t) = t.
Proof. unfold to_timestamptz, of_timestamptz. simpl. by rewrite Z.quot_mul. Qed.
Lemma stored_time_near t : (Z.abs (nanos t - nanos (stored_time t)) < 1000)%Z.
Proof.
  unfold stored_time, of_timestamptz, to_timestamptz. simpl.
  pose proof (Z.quot_rem (nanos t) 1000 ltac:(done)).
  pose proof (Z.rem_bound_abs (nanos t) 1000 ltac:(done)). lia.
Qed.
Lemma stored_time_exact t : stored_time t = t ↔ (1000 | nanos t)%Z.
Proof.
  unfold stored_time, of_timestamptz, to_timestamptz. destruct t as [n]. simpl. split.
  - intros [= E]. exists (Z.quot n 1000). lia.
  - intros [k ->]. by rewrite Z.quot_mul.
Qed.

(** ** [serde_json::Value] *)
Class JsonApi := {
  JsonValue : Type;
  json_eq_dec :: EqDecision JsonValue;
  (** [v.as_object().is_some()], and [v.as_object().get(key)] *)
  json_is_object : JsonValue → bool;
  json_get : JsonValue → string → option JsonValue;
  json_as_u64 : JsonValue → option N;
  json_as_str : JsonValue → option string;
  json_as_array : JsonValue → option (list JsonValue);
  (** [json!] on an integer, on a string and on an object literal *)
  json_u64 : N → JsonValue;
  json_str : string → JsonValue;
  json_object : list (string * JsonValue) → JsonValue;
  (** What a [JSONB] column of PostgreSQL gives back of a value, or why the
      server refuses it (an escaped NUL, for instance). *)
  jsonb : JsonValue → result string JsonValue;
}.
Class JsonLaws `{JsonApi} : Prop := {
  json_object_is_object kvs : json_is_object (json_object kvs) = true;
  json_get_object kvs k v :
    NoDup kvs.*1 → (k, v) ∈ kvs → json_get (json_object kvs) k = Some v;
  json_as_u64_u64 n : (n <= u64_max)%N → json_as_u64 (json_u64 n) = Some n;
  json_as_str_str s : json_as_str (json_str s) = Some s;
  (** integers, texts without NUL and objects of such are kept *)
  jsonb_u64 n : (n <= u64_max)%N → jsonb (json_u64 n) = Ok (json_u64 n);
  jsonb_str s : no_char "000"%char s → jsonb (json_str s) = Ok (json_str s);
  jsonb_object kvs :
    NoDup kvs.*1 → Forall (λ kv, no_char "000"%char kv.1 ∧ jsonb kv.2 = Ok kv.2) kvs →
    jsonb (json_object kvs) = Ok (json_object kvs);
}.

(** [serde_json::from_str], [to_string_pretty], [Value::Null], and the text of a
    [DateTime<Utc>]; errors are their [Display] form. *)
Class JsonText `{JsonApi} := {
  json_from_str : string → result string JsonValue;
  json_to_string_pretty : JsonValue → result string string;
  json_null : JsonValue;
  to_rfc3339 : DateTime → string;
}.

(** ** The secret-broker adapter ([broker_protocol_client]) *)

(** The variants the crate names. *)
Inductive SecretLifecycle := SingleUseUnwrap | RenewableLease | ServiceBootstrap.
#[export] Instance secret_lifecycle_eq_dec : EqDecision SecretLifecycle.
Proof. solve_decision. Defined.

Record MintAeadKeyV2Params := {
  mint_ttl_seconds : option N;
  mint_label : option string;
  mint_tenant_id : option string;
  mint_provider : option string;
  mint_threshold : option N;
  mint_num_shares : option N;
  mint_lifecycle : option SecretLifecycle;
  mint_initial_lease_seconds : option N;
  mint_unwrap_principal_id : option string;
  mint_custodian_ids : option (list string);
}.

Record MintAeadKeyV2Lease := {
  lease_handle : string;
  lease_redeem_token : option string;
  lease_key : bytes;
}.

Record PostgresCredentialParams := {
  pcp_audience : string;
  pcp_scope : list string;
  pcp_ttl_seconds : option N;
  pcp_application_name : option string;
}.

Record PostgresCredentialLease := {
  pcl_database_url : string;
  pcl_username : option string;
  pcl_password : option string;
  pcl_expires_at : option DateTime;
}.

Record WrapV2Params := {
  wrap_lifecycle : option SecretLifecycle;
  wrap_label : option string;
  wrap_unwrap_principal_id : option string;
}.

Record WrapResponse := {
  wrap_handle : string;
  wrap_redeem_token : option string;
  wrap_created_at : DateTime;
}.

(** Share and discharge material is only ever passed through. *)
Record UnwrapSecretV2Params (Share Discharge : Type) := {
  unwrap_handle : string;
  unwrap_redeem_token : option string;
  unwrap_redeem_shares : list Share;
  unwrap_tenant_id : option string;
  unwrap_provider : option string;
  unwrap_circuit_id : option string;
  unwrap_node_id : option string;
  unwrap_discharges : list Discharge;
}.
Arguments unwrap_handle {_ _} _.
Arguments unwrap_redeem_token {_ _} _.

(** Redeeming a handle with a token and nothing else. *)
Definition token_params {Share Discharge} (handle tok : string) :
    UnwrapSecretV2Params Share Discharge :=
  {| unwrap_handle := handle; unwrap_redeem_token := Some tok; unwrap_redeem_shares := [];
     unwrap_tenant_id := None; unwrap_provider := None; unwrap_circuit_id := None;
     unwrap_node_id := None; unwrap_discharges := [] |}.

Class BrokerApi := {
  Broker : Type;
  ThresholdShareMaterial : Type;
  DischargeMaterial : Type;
  RenewLeaseResult : Type;
  RevokeResult : Type;
  RotateParams : Type;
  RotateResult : Type;
  AttenuateHandleV2Params : Type;
  (** Each call sees the time at which it is made (an index into the host's
      clock) and the broker's state, and returns the new state. *)
  adapter_mint_aead_key_v2 :
    MintAeadKeyV2Params → nat → Broker → result AnyhowError MintAeadKeyV2Lease * Broker;
  adapter_unwrap_secret_v2 :
    UnwrapSecretV2Params ThresholdShareMaterial DischargeMaterial →
    nat → Broker → result AnyhowError bytes * Broker;
  adapter_renew_lease :
    string → N → nat → Broker → result AnyhowError RenewLeaseResult * Broker;
  adapter_issue_postgres_credentials :
    PostgresCredentialParams → nat → Broker →
    result AnyhowError PostgresCredentialLease * Broker;
  adapter_wrap_bytes_v2 :
    bytes → WrapV2Params → nat → Broker → result AnyhowError WrapResponse * Broker;
  adapter_preload_redeem_token :
    string → string → option DateTime → nat → Broker → result AnyhowError () * Broker;
  adapter_preload_redeem_shares :
    string → list ThresholdShareMaterial → option DateTime → nat → Broker →
    result AnyhowError () * Broker;
  adapter_revoke_secret :
    string → option string → nat → Broker → result AnyhowError RevokeResult * Broker;
  adapter_rotate_secret :
    string → bytes → RotateParams → nat → Broker → result AnyhowError RotateResult * Broker;
  (** the [handle] of the result *)
  adapter_attenuate_handle_v2 :
    AttenuateHandleV2Params → nat → Broker → result AnyhowError string * Broker;
}.

(** What the crate relies on for keys minted as renewable leases. [bound b h
    tok k] says that by the state [b] the broker issued the key [k] under the
    handle [h] and the redeem token [tok]. It is a fact of the broker's history
    and says nothing about redeeming: a lease may have expired, and a token may
    have been used up, after which redeeming fails; but what redeeming returns
    is the key that was issued. *)
Class BrokerLaws `{BrokerApi} := {
  bound : Broker → string → string → bytes → Prop;
  mint_bound p t b l b' tok :
    adapter_mint_aead_key_v2 p t b = (Ok l, b') →
    mint_lifecycle p = Some RenewableLease →
    lease_redeem_token l = Some tok →
    bound b' (trim (lease_handle l)) (trim tok) (lease_key l);
  mint_keeps p t b h tok k :
    bound b h tok k → bound (snd (adapter_mint_aead_key_v2 p t b)) h tok k;
  unwrap_faithful t b h tok k k' :
    bound b h tok k → fst (adapter_unwrap_secret_v2 (token_params h tok) t b) = Ok k' → k' = k;
  unwrap_keeps t b h tok k h' tok' :
    bound b h tok k →
    bound (snd (adapter_unwrap_secret_v2 (token_params h' tok') t b)) h tok k;
  renew_keeps t b h tok k h' n :
    bound b h tok k → bound (snd (adapter_renew_lease h' n t b)) h tok k;
  (** handles and tokens travel as text *)
  mint_utf8 p t b l b' tok :
    adapter_mint_aead_key_v2 p t b = (Ok l, b') →
    lease_redeem_token l = Some tok →
    utf8_valid (lease_handle l) = true ∧ utf8_valid tok = true;
}.

(** ** The host *)

(** What PostgreSQL refuses in the statements of this crate, and what the
    driver reports. *)
Inductive SqlError :=
  | UniqueViolation (constraint : string)
  | ForeignKeyViolation (constraint : string)
  | IntegerOutOfRange
  | IntervalOutOfRange
  | TimestampOutOfRange
  | NegativeLimit
  | ServerError (message : string)
  | DriverError (message : string).

(** A statement that did not reach the server, and one whose effect was
    committed but whose acknowledgement was lost. *)
Inductive Fault :=
  | NotExecuted (message : string)
  | NotAcknowledged (message : string).

(** The host is read through an index that grows with every interaction, so that
    two readings of a clock may differ. *)
Class Host `{UuidApi} := {
  server_now : nat → Timestamp;
  client_now : nat → DateTime;
  new_v4 : nat → Uuid;
  (** [SystemRandom::fill] on a 12-byte buffer; [None] is [Unspecified] *)
  rng_fill_nonce : nat → option bytes;
  sql_fault : nat → option Fault;
  (** [sqlx::Error::to_string] *)
  sql_error_string : SqlError → string;
}.
Class HostLaws `{Host} : Prop := {
  server_now_mono i j : (i ≤ j)%nat → (server_now i <= server_now j)%Z;
  rng_nonce_len i n : rng_fill_nonce i = Some n → length n = 12;
}.
