(* ===== verification/World.v ===== *)
(** * Errors, tables and the state an operation runs in

    [DatabaseError] (src/error.rs), the tables of migrations/0001_initial.sql,
    and the effect type of the [PgPool] methods: an operation reads and changes
    a [World] (tables, broker, metrics, and the index into the host's clocks)
    and returns a [DbResult]. *)
From S2P Require Import Prelude RustStd Platform.
From Corelib Require Import Floats.SpecFloat.

(** ** src/error.rs *)

Inductive DatabaseError :=
  | Connection (msg : string)
  | Query (msg : string)
  | Migration (msg : string)
  | Encryption (msg : string)
  | Configuration (msg : string)
  | Io (msg : string)
  | Integrity (msg : string)
  | Attestation (msg : string)
  | ZeroKnowledge (msg : string)
  | Unsupported (msg : string).

#[export] Instance database_error_eq_dec : EqDecision DatabaseError.
Proof. solve_decision. Defined.

Definition database_error_display (e : DatabaseError) : string :=
  match e with
  | Connection m => "database connection error: " +:+ m
  | Query m => "database query error: " +:+ m
  | Migration m => "migration error: " +:+ m
  | Encryption m => "encryption error: " +:+ m
  | Configuration m => "configuration error: " +:+ m
  | Io m => "io error: " +:+ m
  | Integrity m => "integrity violation: " +:+ m
  | Attestation m => "tee attestation error: " +:+ m
  | ZeroKnowledge m => "zero-knowledge error: " +:+ m
  | Unsupported m => "unsupported feature: " +:+ m
  end.

(** [impl From<sqlx::Error>], [impl From<std::io::Error>] (on the error's text)
    and [impl From<ring::error::Unspecified>]. *)
Definition from_sqlx `{Host} (e : SqlError) : DatabaseError := Query (sql_error_string e).
Definition from_io (err : string) : DatabaseError := Io err.
Definition from_unspecified : DatabaseError := Encryption "ring::error::Unspecified".

Abbreviation DbResult := (result DatabaseError).

(** IEEE doubles are only stored and returned. *)
Abbreviation f64 := spec_float.

Section tables.
Context `{UuidApi, JsonApi}.

(** ** Rows, in the order of the migration *)

Record ConnectAuditRow := { ca_user_id : Uuid; ca_occurred_at : Timestamp }.

Record GuardHealthRow := {
  gh_guard_fpr : string;
  gh_first_seen : Timestamp;
  gh_last_ok : Timestamp;
  gh_fail_count : Z;
  gh_uptime_ratio : option f64;
  gh_asn : option Z;
  gh_rpki_valid : option bool;
  gh_pow_score : option f64;
  gh_rtt_p50_ms : option f64;
  gh_rtt_p95_ms : option f64;
  gh_tee_capable : bool;
  gh_tee_label : option string;
  gh_tee_policy : option string;
  gh_tee_verified_at : option Timestamp;
}.

Record AuditLogRow := {
  al_user_id : Uuid;
  al_operation : string;
  al_payload_hash : string;
  al_created_at : Timestamp;
}.

Record ZkProofRow := {
  zr_protocol : string;
  zr_circuit : string;
  zr_circuit_security : Z;
  zr_expected_hash : string;
  zr_public_inputs : JsonValue;
  zr_proof : bytes;
  zr_created_at : Timestamp;
  zr_verified : bool;
  zr_verified_at : option Timestamp;
}.

Record TeeAttestationRow := {
  ta_user_id : Uuid;
  ta_app_id : string;
  ta_instance_id : string;
  ta_device_id : string;
  ta_compose_hash : string;
  ta_key_provider_info : string;
  ta_quote : bytes;
  ta_rtmr : JsonValue;
  ta_event_log : JsonValue;
  ta_recorded_at : Timestamp;
}.

Record CredentialRow := {
  cr_onion_entry : string;
  cr_tier : string;
  cr_credential_hash : string;
  cr_operational_onion : option string;
  cr_guard_nodes : list string;
  cr_created_at : Timestamp;
  cr_updated_at : Timestamp;
  cr_expires_at : option Timestamp;
  cr_disabled : bool;
  cr_rate_limit_per_minute : Z;
  cr_last_rotated_at : option Timestamp;
}.

Record SessionRow := {
  sr_credential_id : Uuid;
  sr_session_key : Uuid;
  sr_circuit_id : option string;
  sr_fingerprint : option string;
  sr_guard_nodes : list string;
  sr_client_onion : option string;
  sr_issued_at : Timestamp;
  sr_expires_at : option Timestamp;
}.

Record TicketRow := {
  tr_credential_id : Uuid;
  tr_token_hash : string;
  tr_entry_onion : string;
  tr_client_fingerprint : option string;
  tr_created_at : Timestamp;
  tr_expires_at : Timestamp;
  tr_redeemed_at : option Timestamp;
  tr_redeemed_operational_onion : option string;
  tr_client_auth_public_key : string;
  tr_client_auth_secret_path : string;
  tr_client_auth_secret_redeem_token : option string;
  tr_attestation_session_id : Uuid;
  tr_attestation_nonce_digest : string;
  tr_attestation_quote_hash : string;
  tr_attested_at : Timestamp;
  tr_tee_kind : string;
  tr_tee_label : option string;
  tr_tee_policy : option string;
  tr_tls_pubkey_digest : string;
}.

Record NonceRow := { nr_enclave_id : string; nr_seen_at : Timestamp }.

Record AttestationCacheRow := {
  ac_tee : string;
  ac_decision : JsonValue;
  ac_expires_at : Timestamp;
}.

(** The tables keyed by their primary keys. The two audit tables and the TEE
    table have a generated key that nothing reads: they are lists, newest
    last. *)
Record Tables := mk_tables {
  t_tor_connect_audits : list ConnectAuditRow;
  t_guard_health : gmap string GuardHealthRow;
  t_audit_logs : list AuditLogRow;
  t_zk_proofs : gmap (Uuid * Uuid) ZkProofRow;
  t_tee_attestations : list TeeAttestationRow;
  t_credentials : gmap Uuid CredentialRow;
  t_sessions : gmap Uuid SessionRow;
  t_tickets : gmap Uuid TicketRow;
  t_nonce_log : gmap bytes NonceRow;
  t_attestation_cache : gmap bytes AttestationCacheRow;
}.

Definition empty_tables : Tables := mk_tables [] ∅ [] ∅ [] ∅ ∅ ∅ ∅ ∅.

Definition set_tor_connect_audits x (d : Tables) : Tables :=
  mk_tables x (t_guard_health d) (t_audit_logs d) (t_zk_proofs d) (t_tee_attestations d)
    (t_credentials d) (t_sessions d) (t_tickets d) (t_nonce_log d) (t_attestation_cache d).
Definition set_guard_health x (d : Tables) : Tables :=
  mk_tables (t_tor_connect_audits d) x (t_audit_logs d) (t_zk_proofs d) (t_tee_attestations
    d) (t_credentials d) (t_sessions d) (t_tickets d) (t_nonce_log d) (t_attestation_cache d).
Definition set_audit_logs x (d : Tables) : Tables :=
  mk_tables (t_tor_connect_audits d) (t_guard_health d) x (t_zk_proofs d)
    (t_tee_attestations d) (t_credentials d) (t_sessions d) (t_tickets d) (t_nonce_log d)
    (t_attestation_cache d).
Definition set_zk_proofs x (d : Tables) : Tables :=
  mk_tables (t_tor_connect_audits d) (t_guard_health d) (t_audit_logs d) x
    (t_tee_attestations d) (t_credentials d) (t_sessions d) (t_tickets d) (t_nonce_log d)
    (t_attestation_cache d).
Definition set_tee_attestations x (d : Tables) : Tables :=
  mk_tables (t_tor_connect_audits d) (t_guard_health d) (t_audit_logs d) (t_zk_proofs d) x
    (t_credentials d) (t_sessions d) (t_tickets d) (t_nonce_log d) (t_attestation_cache d).
Definition set_credentials x (d : Tables) : Tables :=
  mk_tables (t_tor_connect_audits d) (t_guard_health d) (t_audit_logs d) (t_zk_proofs d)
    (t_tee_attestations d) x (t_sessions d) (t_tickets d) (t_nonce_log d) (t_attestation_cache
    d).
Definition set_sessions x (d : Tables) : Tables :=
  mk_tables (t_tor_connect_audits d) (t_guard_health d) (t_audit_logs d) (t_zk_proofs d)
    (t_tee_attestations d) (t_credentials d) x (t_tickets d) (t_nonce_log d)
    (t_attestation_cache d).
Definition set_tickets x (d : Tables) : Tables :=
  mk_tables (t_tor_connect_audits d) (t_guard_health d) (t_audit_logs d) (t_zk_proofs d)
    (t_tee_attestations d) (t_credentials d) (t_sessions d) x (t_nonce_log d)
    (t_attestation_cache d).
Definition set_nonce_log x (d : Tables) : Tables :=
  mk_tables (t_tor_connect_audits d) (t_guard_health d) (t_audit_logs d) (t_zk_proofs d)
    (t_tee_attestations d) (t_credentials d) (t_sessions d) (t_tickets d) x
    (t_attestation_cache d).
Definition set_attestation_cache x (d : Tables) : Tables :=
  mk_tables (t_tor_connect_audits d) (t_guard_health d) (t_audit_logs d) (t_zk_proofs d)
    (t_tee_attestations d) (t_credentials d) (t_sessions d) (t_tickets d) (t_nonce_log d) x.
End tables.

(** ** The state of an operation *)

Record Metric := { m_name : string; m_label : option string }.
#[export] Instance metric_eq_dec : EqDecision Metric.
Proof. solve_decision. Defined.

Record World `{UuidApi, JsonApi, BrokerApi} := mk_world {
  w_tick : nat;
  w_db : Tables;
  w_broker : Broker;
  w_metrics : list Metric;
}.
Arguments mk_world {_ _ _} _ _ _ _.

(** [M A]: an [async fn] returning [DbResult<A>]; [MA A]: [anyhow::Result<A>]. *)
Abbreviation M := (eff World DatabaseError).
Abbreviation MA := (eff World AnyhowError).

Section world.
Context `{UuidApi, JsonApi, BrokerApi} `{!Host}.

Definition tick (w : World) : World :=
  mk_world (S (w_tick w)) (w_db w) (w_broker w) (w_metrics w).
Definition with_db (d : Tables) (w : World) : World :=
  mk_world (w_tick w) d (w_broker w) (w_metrics w).

(** [metrics::counter!(name, 1, "label" => label)] *)
Definition counter {E} (name : string) (label : option string) : eff World E () :=
  modify (λ w, mk_world (w_tick w) (w_db w) (w_broker w)
                 (w_metrics w ++ [{| m_name := name; m_label := label |}])).

(** A call of the broker adapter. *)
Definition adapter {E A} (f : nat → Broker → result E A * Broker) : eff World E A := λ w,
  let '(r, b) := f (w_tick w) (w_broker w) in
  (r, mk_world (S (w_tick w)) (w_db w) b (w_metrics w)).

(** [Utc::now()], [Uuid::new_v4()] and [SystemRandom::fill]. *)
Definition utc_now {E} : eff World E DateTime := λ w, (Ok (client_now (w_tick w)), tick w).
Definition uuid_new_v4 {E} : eff World E Uuid := λ w, (Ok (new_v4 (w_tick w)), tick w).
Definition fill_nonce : M bytes := λ w,
  (ok_or (rng_fill_nonce (w_tick w))
     (Encryption "rng failure: ring::error::Unspecified"), tick w).

(** A request to another service, whose answer depends on the moment. *)
Definition network {E A} (f : nat → result E A) : eff World E A := λ w, (f (w_tick w), tick w).

(** One SQL statement: it sees [NOW()] and the tables, and either fails and
    changes nothing or returns its rows and the new tables. *)
Definition stmt (A : Type) : Type := Timestamp → Tables → result SqlError (A * Tables).

Definition run_stmt {A} (q : stmt A) (now : Timestamp) (d : Tables) : result SqlError A * Tables :=
  match q now d with
  | Ok (a, d') => (Ok a, d')
  | Err e => (Err e, d)
  end.

(** [....execute(pool)] and [.fetch_...(pool)], with [DatabaseError::from] on
    the error. *)
Definition execute {A} (q : stmt A) : M A := λ w,
  let now := server_now (w_tick w) in
  match sql_fault (w_tick w) with
  | Some (NotExecuted m) => (Err (from_sqlx (DriverError m)), tick w)
  | Some (NotAcknowledged m) =>
      (Err (from_sqlx (DriverError m)), tick (with_db (snd (run_stmt q now (w_db w))) w))
  | None =>
      let '(r, d) := run_stmt q now (w_db w) in
      (map_err from_sqlx r, tick (with_db d w))
  end.

(** *** Reasoning about one statement *)

Lemma execute_Ok {A} (q : stmt A) w a w' :
  execute q w = (Ok a, w') ↔
  sql_fault (w_tick w) = None ∧
  ∃ d, q (server_now (w_tick w)) (w_db w) = Ok (a, d) ∧ w' = tick (with_db d w).
Proof.
  unfold execute, run_stmt.
  destruct (sql_fault (w_tick w)) as [[m|m]|]; [naive_solver..|].
  destruct (q _ _) as [[a' d]|e]; simpl; naive_solver.
Qed.

Lemma execute_run {A} (q : stmt A) w a d :
  sql_fault (w_tick w) = None →
  q (server_now (w_tick w)) (w_db w) = Ok (a, d) →
  execute q w = (Ok a, tick (with_db d w)).
Proof. intros. apply execute_Ok. eauto. Qed.

Lemma execute_refused {A} (q : stmt A) w e :
  sql_fault (w_tick w) = None →
  q (server_now (w_tick w)) (w_db w) = Err e →
  execute q w = (Err (from_sqlx e), tick w).
Proof.
  intros Hf Hq. unfold execute, run_stmt. rewrite Hf, Hq. simpl. by destruct w.
Qed.

(** Whatever happens to the connection, the tables are the old ones or the
    ones of a successful statement. *)
Lemma execute_db {A} (q : stmt A) w :
  w_db (snd (execute q w)) = w_db w ∨
  ∃ a, q (server_now (w_tick w)) (w_db w) = Ok (a, w_db (snd (execute q w))).
Proof.
  unfold execute, run_stmt.
  destruct (sql_fault (w_tick w)) as [[m|m]|]; [by left| |];
    destruct (q _ _) as [[a d]|e]; simpl; eauto.
Qed.

(** *** Frames *)

Definition same_db (w w' : World) : Prop := w_db w' = w_db w.
Definition same_broker (w w' : World) : Prop := w_broker w' = w_broker w.
Definition same_metrics (w w' : World) : Prop := w_metrics w' = w_metrics w.

#[export] Instance same_db_refl : Reflexive same_db.
Proof. by intros w. Qed.
#[export] Instance same_db_trans : Transitive same_db.
Proof. intros w1 w2 w3 E1 E2. unfold same_db in *. congruence. Qed.
#[export] Instance same_broker_refl : Reflexive same_broker.
Proof. by intros w. Qed.
#[export] Instance same_broker_trans : Transitive same_broker.
Proof. intros w1 w2 w3 E1 E2. unfold same_broker in *. congruence. Qed.
#[export] Instance same_metrics_refl : Reflexive same_metrics.
Proof. by intros w. Qed.
#[export] Instance same_metrics_trans : Transitive same_metrics.
Proof. intros w1 w2 w3 E1 E2. unfold same_metrics in *. congruence. Qed.

(** Time only passes. *)
Definition later (w w' : World) : Prop := w_tick w ≤ w_tick w'.
#[export] Instance later_refl : Reflexive later.
Proof. intros w. unfold later. lia. Qed.
#[export] Instance later_trans : Transitive later.
Proof. intros w1 w2 w3 E1 E2. unfold later in *. lia. Qed.

Lemma counter_later {E} n l : preserves later (counter (E:=E) n l).
Proof. intros w. unfold later. cbn. lia. Qed.
Lemma adapter_later {E A} (f : nat → Broker → result E A * Broker) :
  preserves later (adapter f).
Proof. intros w. unfold adapter, later. destruct (f _ _). cbn. lia. Qed.
Lemma network_later {E A} (f : nat → result E A) : preserves later (network f).
Proof. intros w. unfold later. cbn. lia. Qed.
Lemma utc_now_later {E} : preserves later (utc_now (E:=E)).
Proof. intros w. unfold later. cbn. lia. Qed.
Lemma uuid_new_v4_later {E} : preserves later (uuid_new_v4 (E:=E)).
Proof. intros w. unfold later. cbn. lia. Qed.
Lemma fill_nonce_later : preserves later fill_nonce.
Proof. intros w. unfold later. cbn. lia. Qed.
Lemma execute_later {A} (q : stmt A) : preserves later (execute q).
Proof.
  intros w. unfold execute, later. destruct (sql_fault _) as [[]|]; [cbn; lia..|].
  destruct (run_stmt _ _ _). cbn. lia.
Qed.

Lemma counter_same_db {E} n l : preserves same_db (counter (E:=E) n l).
Proof. by intros w. Qed.
Lemma counter_same_broker {E} n l : preserves same_broker (counter (E:=E) n l).
Proof. by intros w. Qed.
Lemma adapter_same_db {E A} (f : nat → Broker → result E A * Broker) :
  preserves same_db (adapter f).
Proof. intros w. unfold adapter. by destruct (f _ _). Qed.
Lemma adapter_same_metrics {E A} (f : nat → Broker → result E A * Broker) :
  preserves same_metrics (adapter f).
Proof. intros w. unfold adapter. by destruct (f _ _). Qed.
Lemma network_same_db {E A} (f : nat → result E A) : preserves same_db (network f).
Proof. by intros w. Qed.
Lemma utc_now_same_db {E} : preserves same_db (utc_now (E:=E)).
Proof. by intros w. Qed.
Lemma uuid_new_v4_same_db {E} : preserves same_db (uuid_new_v4 (E:=E)).
Proof. by intros w. Qed.
Lemma fill_nonce_same_db : preserves same_db fill_nonce.
Proof. by intros w. Qed.
Lemma fill_nonce_same_broker : preserves same_broker fill_nonce.
Proof. by intros w. Qed.
Lemma execute_same_broker {A} (q : stmt A) : preserves same_broker (execute q).
Proof.
  intros w. unfold execute. destruct (sql_fault _) as [[]|]; [done..|].
  by destruct (run_stmt _ _ _).
Qed.
Lemma execute_same_metrics {A} (q : stmt A) : preserves same_metrics (execute q).
Proof.
  intros w. unfold execute. destruct (sql_fault _) as [[]|]; [done..|].
  by destruct (run_stmt _ _ _).
Qed.

(** A statement that only reads. *)
Definition read_only {A} (q : stmt A) : Prop :=
  ∀ now d a d', q now d = Ok (a, d') → d' = d.

Lemma execute_read_only {A} (q : stmt A) : read_only q → preserves same_db (execute q).
Proof.
  intros Hq w. destruct (execute_db q w) as [E|[a E]]; [done|].
  by apply Hq in E.
Qed.

(** *** Invariants of the tables *)

Definition stmt_keeps {A} (I : Tables → Prop) (q : stmt A) : Prop :=
  ∀ now d a d', I d → q now d = Ok (a, d') → I d'.

Definition db_keeps (I : Tables → Prop) (w w' : World) : Prop := I (w_db w) → I (w_db w').
#[export] Instance db_keeps_refl I : Reflexive (db_keeps I).
Proof. intros w Hw. exact Hw. Qed.
#[export] Instance db_keeps_trans I : Transitive (db_keeps I).
Proof. intros w1 w2 w3 H12 H23 Hw. apply H23, H12, Hw. Qed.

Lemma execute_keeps {A} I (q : stmt A) : stmt_keeps I q → preserves (db_keeps I) (execute q).
Proof.
  intros Hq w Hw. destruct (execute_db q w) as [->|[a E]]; [done|]. by eapply Hq.
Qed.

Lemma same_db_keeps {E A} I (m : eff World E A) :
  preserves same_db m → preserves (db_keeps I) m.
Proof. intros Hm w Hw. by rewrite (Hm w). Qed.

(** *** All or nothing *)

(** No acknowledgement is lost: a statement that fails was not executed. *)
Definition acknowledged : Prop := ∀ i m, sql_fault i ≠ Some (NotAcknowledged m).

(** A call that fails leaves the tables alone. *)
Definition atomic {E A} (m : eff World E A) : Prop :=
  ∀ w e w', m w = (Err e, w') → w_db w' = w_db w.

Lemma execute_atomic {A} (q : stmt A) : acknowledged → atomic (execute q).
Proof.
  intros Ha w e w'. unfold execute, run_stmt. specialize (Ha (w_tick w)).
  destruct (sql_fault _) as [[m|m]|]; [naive_solver..|].
  destruct (q _ _) as [[a d]|e']; naive_solver.
Qed.

Lemma atomic_same_db {E A} (m : eff World E A) : preserves same_db m → atomic m.
Proof. intros Hm w e w' E1. specialize (Hm w). by rewrite E1 in Hm. Qed.

Lemma atomic_ret {E A} (a : A) : atomic (mret a : eff World E A).
Proof. done. Qed.

(** What comes before a statement reads, and what comes after cannot fail. *)
Lemma atomic_bind {E A B} (m : eff World E A) (f : A → eff World E B) :
  preserves same_db m → (∀ a, atomic (f a)) → atomic (m ≫= f).
Proof.
  intros Hm Hf w e w'. unfold mbind, eff_bind. specialize (Hm w).
  destruct (m w) as [[a|e1] w1]; simpl in Hm.
  - intros E1%Hf. unfold same_db in *. congruence.
  - intros [= -> ->]. done.
Qed.
Lemma atomic_bind_total {E A B} (m : eff World E A) (f : A → eff World E B) :
  atomic m → (∀ a w, is_ok (fst (f a w)) = true) → atomic (m ≫= f).
Proof.
  intros Hm Hf w e w'. unfold mbind, eff_bind.
  destruct (m w) as [[a|e1] w1] eqn:E1.
  - intros E2. specialize (Hf a w1). by rewrite E2 in Hf.
  - intros [= -> ->]. by eapply Hm.
Qed.
End world.

#[export] Hint Resolve execute_read_only same_db_keeps atomic_ret execute_atomic : sdb.
#[export] Hint Resolve counter_later adapter_later network_later utc_now_later uuid_new_v4_later
  fill_nonce_later execute_later : sdb.
#[export] Hint Resolve counter_same_db counter_same_broker adapter_same_db
  adapter_same_metrics network_same_db utc_now_same_db uuid_new_v4_same_db fill_nonce_same_db
  fill_nonce_same_broker execute_same_broker execute_same_metrics : sdb.
