(* ===== verification/Environment.v ===== *)
(** * The process environment ([std::env])

    [env::var], [env::var_os], [VarError] and its [Display] form. A variable
    holds text, or bytes that are not Unicode, of which only the [Debug] form is
    ever shown. *)
From S2P Require Import Prelude RustStd.

Inductive EnvValue :=
  | Unicode (text : string)
  | NotUnicode (debug : string).

Abbreviation Env := (gmap string EnvValue).

Inductive VarError :=
  | VarNotPresent
  | VarNotUnicode (debug : string).

(** [env::var(key)] *)
Definition env_var (env : Env) (key : string) : result VarError string :=
  match env !! key with
  | Some (Unicode text) => Ok text
  | Some (NotUnicode debug) => Err (VarNotUnicode debug)
  | None => Err VarNotPresent
  end.

(** [env::var_os(key).is_some()] *)
Definition env_var_set (env : Env) (key : string) : bool := bool_decide (is_Some (env !! key)).

Definition var_error_display (e : VarError) : string :=
  match e with
  | VarNotPresent => "environment variable not found"
  | VarNotUnicode debug => "environment variable was not valid unicode: " +:+ debug
  end.

(** White space only. *)
Definition blank (s : string) : bool := is_empty (trim s).

Lemma env_var_Some env key text : env !! key = Some (Unicode text) → env_var env key = Ok text.
Proof. unfold env_var. by intros ->. Qed.
Lemma env_var_None env key : env !! key = None → env_var env key = Err VarNotPresent.
Proof. unfold env_var. by intros ->. Qed.
Lemma env_var_ok env key text : ok (env_var env key) = Some text ↔ env !! key = Some (Unicode text).
Proof. unfold env_var. destruct (env !! key) as [[]|]; naive_solver. Qed.
