(* ===== verification/Sql.v ===== *)
(** * SQL expressions of the crate's statements

    Interval arithmetic on [NOW()], existence tests (for unique indexes and
    foreign keys), [ORDER BY ... LIMIT]. A session's time zone is UTC. *)
From S2P Require Import Prelude RustStd Platform World.
Local Open Scope Z_scope.

(** ** Timestamps and intervals *)

Definition MIN_TIMESTAMP : Timestamp := -211813488000000000.
Definition END_TIMESTAMP : Timestamp := 9223371331200000000.
Definition USECS_PER_SEC : Z := 1000000.
Definition USECS_PER_DAY : Z := 86400 * USECS_PER_SEC.

Definition timestamp_ok (t : Z) : bool := (MIN_TIMESTAMP <=? t) && (t <? END_TIMESTAMP).
Definition int64_ok (z : Z) : bool := (i64_min <=? z) && (z <=? i64_max).

(** [t - i] for an interval [i] of the given number of microseconds *)
Definition minus_usecs (t : Timestamp) (us : Z) : result SqlError Timestamp :=
  if int64_ok us then
    if timestamp_ok (t - us) then Ok (t - us) else Err TimestampOutOfRange
  else Err IntervalOutOfRange.

(** [x * INTERVAL '1 second'] and [make_interval(secs => x)] for a double [x] with
    an integral value; the product is a double, too *)
Definition secs_f64_usecs (x : Z) : Z := round_f64 (x * USECS_PER_SEC).

(** [x::bigint * INTERVAL '1 second']: the [bigint] becomes a double first *)
Definition secs_bigint_usecs (x : Z) : Z := secs_f64_usecs (i64_as_f64 x).

(** [t - make_interval(days => n)] *)
Definition minus_days (t : Timestamp) (days : Z) : result SqlError Timestamp :=
  let t' := t - days * USECS_PER_DAY in
  if timestamp_ok t' then Ok t' else Err TimestampOutOfRange.

(** A parameter for a [JSONB] column. *)
Definition jsonb_column `{JsonApi} (v : JsonValue) : result SqlError JsonValue :=
  map_err ServerError (jsonb v).

Lemma jsonb_column_Ok `{JsonApi} v v' : jsonb_column v = Ok v' ↔ jsonb v = Ok v'.
Proof. unfold jsonb_column. destruct (jsonb v); naive_solver. Qed.

Lemma round_f64_small x : Z.abs x < 2 ^ 53 → round_f64 x = x.
Proof. intros Hx. unfold round_f64. by rewrite (proj2 (Z.ltb_lt _ _)). Qed.

(** For windows below [2^53] microseconds (285 years) the arithmetic is exact. *)
Lemma secs_bigint_exact x : Z.abs x * USECS_PER_SEC < 2 ^ 53 → secs_bigint_usecs x = x * USECS_PER_SEC.
Proof.
  unfold USECS_PER_SEC. intros Hx. unfold secs_bigint_usecs, secs_f64_usecs, i64_as_f64.
  rewrite (round_f64_small x) by lia. apply round_f64_small. unfold USECS_PER_SEC. lia.
Qed.

Lemma minus_usecs_Ok t us t' : minus_usecs t us = Ok t' → t' = t - us.
Proof. unfold minus_usecs. repeat case_match; naive_solver. Qed.
Lemma minus_days_Ok t d t' : minus_days t d = Ok t' → t' = t - d * USECS_PER_DAY.
Proof. unfold minus_days. repeat case_match; naive_solver. Qed.

(** ** Existence, counting, deletion *)

Section maps.
Context `{Countable K} {A : Type}.

(** [EXISTS (SELECT ... WHERE p)] *)
Definition exists_row (p : K → A → bool) (m : gmap K A) : bool :=
  existsb (λ kv, p kv.1 kv.2) (map_to_list m).
(** the rows [WHERE p] *)
Definition where_rows (p : K → A → bool) (m : gmap K A) : gmap K A :=
  filter (λ kv, p kv.1 kv.2 = true) m.
(** [DELETE ... WHERE p]: the rows that stay *)
Definition delete_rows (p : K → A → bool) (m : gmap K A) : gmap K A :=
  filter (λ kv, p kv.1 kv.2 = false) m.
(** the first row [WHERE p], in the order of the table's enumeration *)
Definition find_row (p : K → A → bool) (m : gmap K A) : option (K * A) :=
  head (map_to_list (where_rows p m)).
(** [COUNT] over the rows [WHERE p] *)
Definition count_rows (p : K → A → bool) (m : gmap K A) : Z := Z.of_nat (size (where_rows p m)).

Lemma exists_row_true p (m : gmap K A) :
  exists_row p m = true ↔ ∃ k a, m !! k = Some a ∧ p k a = true.
Proof.
  unfold exists_row. rewrite existsb_exists. split.
  - intros ([k a] & Hin & Hp). exists k, a. split; [|done].
    by apply elem_of_map_to_list, list_elem_of_In.
  - intros (k & a & Hk & Hp). exists (k, a). split; [|done].
    by apply list_elem_of_In, elem_of_map_to_list.
Qed.

Lemma exists_row_false p (m : gmap K A) :
  exists_row p m = false ↔ ∀ k a, m !! k = Some a → p k a = false.
Proof.
  rewrite <-not_true_iff_false, exists_row_true. split.
  - intros Hn k a Hk. destruct (p k a) eqn:E; naive_solver.
  - intros Hf (k & a & Hk & Hp). rewrite (Hf k a Hk) in Hp. done.
Qed.

Lemma delete_rows_Some p (m : gmap K A) k a :
  delete_rows p m !! k = Some a ↔ m !! k = Some a ∧ p k a = false.
Proof. unfold delete_rows. by rewrite map_lookup_filter_Some. Qed.

Lemma where_rows_Some p (m : gmap K A) k a :
  where_rows p m !! k = Some a ↔ m !! k = Some a ∧ p k a = true.
Proof. unfold where_rows. by rewrite map_lookup_filter_Some. Qed.

Lemma find_row_Some p (m : gmap K A) k a :
  find_row p m = Some (k, a) → m !! k = Some a ∧ p k a = true.
Proof.
  unfold find_row. intros Hh. apply where_rows_Some, elem_of_map_to_list.
  destruct (map_to_list _); simplify_eq/=. by left.
Qed.

Lemma find_row_None p (m : gmap K A) :
  find_row p m = None ↔ ∀ k a, m !! k = Some a → p k a = false.
Proof.
  unfold find_row. rewrite head_None, map_to_list_empty_iff. split.
  - intros He k a Hk. destruct (p k a) eqn:E; [|done].
    assert (where_rows p m !! k = Some a) as Hw by (by apply where_rows_Some).
    by rewrite He in Hw.
  - intros Hf. apply map_empty. intros k. destruct (where_rows p m !! k) as [a|] eqn:E; [|done].
    apply where_rows_Some in E as [Hk Hp]. by rewrite (Hf k a Hk) in Hp.
Qed.

(** Each row is either deleted or kept. *)
Lemma delete_rows_count p (m : gmap K A) :
  Z.of_nat (size m) = count_rows p m + Z.of_nat (size (delete_rows p m)).
Proof.
  unfold count_rows.
  assert (delete_rows p m = filter (λ kv, ¬ p kv.1 kv.2 = true) m) as ->.
  { apply map_filter_ext. intros k a _. simpl. by rewrite not_true_iff_false. }
  rewrite <-Nat2Z.inj_add. f_equal. unfold where_rows.
  rewrite <-(map_filter_union_complement (λ kv, p kv.1 kv.2 = true) m) at 1.
  apply map_size_disj_union. apply map_disjoint_filter_complement.
Qed.
End maps.

(** ** [ORDER BY ... LIMIT n]: the order of equal keys is left to the server; the
    executable definition takes the order of the table's enumeration. *)
Definition by_key {A} (key : A → Z) (a b : A) : Prop := key a <= key b.
#[export] Instance by_key_dec {A} (key : A → Z) : RelDecision (by_key key).
Proof. intros a b. unfold by_key. apply _. Defined.
#[export] Instance by_key_total {A} (key : A → Z) : Total (by_key key).
Proof. intros a b. unfold by_key. lia. Qed.
#[export] Instance by_key_trans {A} (key : A → Z) : Transitive (by_key key).
Proof. intros a b c. unfold by_key. lia. Qed.

Definition order_by {A} (key : A → Z) (l : list A) : list A := merge_sort (by_key key) l.

Definition limit_rows {A} (n : Z) (l : list A) : result SqlError (list A) :=
  if n <? 0 then Err NegativeLimit else Ok (take (Z.to_nat n) l).

Lemma order_by_perm {A} (key : A → Z) (l : list A) : order_by key l ≡ₚ l.
Proof. apply merge_sort_Permutation. Qed.
Lemma order_by_sorted {A} (key : A → Z) (l : list A) : StronglySorted (by_key key) (order_by key l).
Proof. apply (StronglySorted_merge_sort _). Qed.

Lemma limit_rows_Ok {A} n (l l' : list A) :
  limit_rows n l = Ok l' ↔ 0 <= n ∧ l' = take (Z.to_nat n) l.
Proof.
  unfold limit_rows. destruct (n <? 0) eqn:E; [apply Z.ltb_lt in E|apply Z.ltb_ge in E];
    split; [done|lia| |]; naive_solver.
Qed.

(** The first rows of a sorted list: they are sorted, they are rows of the table,
    and no row that was cut off precedes one that was returned. *)
Lemma sorted_limit {A} (key : A → Z) n (l l' : list A) :
  limit_rows n (order_by key l) = Ok l' →
  StronglySorted (by_key key) l' ∧
  length l' = Nat.min (Z.to_nat n) (length l) ∧
  ∃ rest, l ≡ₚ l' ++ rest ∧ ∀ a b, a ∈ l' → b ∈ rest → key a <= key b.
Proof.
  intros [_ ->]%limit_rows_Ok.
  pose proof (order_by_sorted key l) as Hs. pose proof (order_by_perm key l) as Hp.
  rewrite <-(take_drop (Z.to_nat n) (order_by key l)) in Hs.
  split_and!.
  - by apply StronglySorted_app in Hs as (_ & ? & _).
  - by rewrite length_take, Hp.
  - exists (drop (Z.to_nat n) (order_by key l)). split; [by rewrite take_drop|].
    apply StronglySorted_app in Hs as (Hab & _ & _). done.
Qed.
