(* ===== verification/Reference.v ===== *)
(** * Reference implementations of the platform interfaces

    Concrete functions for every interface of [Platform.v], with proofs of their
    laws: the laws are satisfiable, and the concrete runs of the other files
    evaluate on these functions. They are not models of the real crates (the
    cipher is a checksum, the broker an association of handles and keys). *)
From S2P Require Import Prelude RustStd Platform World.

(** ** Generic helpers *)

Lemma pretty_N_go_forall f x s :
  (∀ d, (d < 10)%N → f (pretty_N_char d) = true) →
  string_forall f s = true → string_forall f (pretty_N_go x s) = true.
Proof.
  intros Hf. revert s. induction (N.lt_wf_0 x) as [x _ IH]; intros s Hs.
  destruct (decide (x = 0%N)) as [->|Hx]; [by rewrite pretty_N_go_0|].
  assert (0 < x)%N by lia.
  rewrite pretty_N_go_step by done. apply IH; [by apply N.div_lt|].
  simpl. rewrite Hf by (by apply N.mod_lt). done.
Qed.

Lemma pretty_N_digits (n : N) : string_forall is_ascii_digit (pretty n) = true.
Proof.
  unfold pretty, pretty_N. case_decide; [done|].
  apply pretty_N_go_forall; [|done]. intros d Hd.
  assert (d = 0 ∨ d = 1 ∨ d = 2 ∨ d = 3 ∨ d = 4 ∨ d = 5 ∨ d = 6 ∨ d = 7 ∨ d = 8 ∨ d = 9)%N
    as Hd' by lia. naive_solver.
Qed.

Ltac by_all_bytes := intros [] ; vm_compute; done.

(** ** Hexadecimal text, also used in place of base64 *)

Definition hex_digit (n : N) : ascii :=
  if (n <? 10)%N then Ascii.ascii_of_N (48 + n) else Ascii.ascii_of_N (87 + n).
Definition hex_value (c : ascii) : option N :=
  if is_ascii_digit c then Some (code c - 48)%N
  else if byte_in 97 102 c then Some (code c - 87)%N
  else if byte_in 65 70 c then Some (code c - 55)%N
  else None.

Fixpoint hex_of (b : bytes) : string :=
  match b with
  | [] => ""
  | x :: b' =>
      String (hex_digit (Byte.to_N x / 16)) (String (hex_digit (Byte.to_N x mod 16)) (hex_of b'))
  end.
Fixpoint of_hex (s : string) : option bytes :=
  match s with
  | EmptyString => Some []
  | String a (String b s') =>
      h ← hex_value a; l ← hex_value b; x ← Byte.of_N (16 * h + l)%N;
      r ← of_hex s'; Some (x :: r)
  | _ => None
  end.

Lemma hex_head x :
  hex_value (hex_digit (Byte.to_N x / 16)) ≫= (λ h,
    hex_value (hex_digit (Byte.to_N x mod 16)) ≫= (λ l, Byte.of_N (16 * h + l)%N)) = Some x.
Proof. revert x. by_all_bytes. Qed.

Lemma of_hex_of b : of_hex (hex_of b) = Some b.
Proof.
  induction b as [|x b IH]; [done|].
  change (hex_of (x :: b)) with
    (String (hex_digit (Byte.to_N x / 16)) (String (hex_digit (Byte.to_N x mod 16)) (hex_of b))).
  pose proof (hex_head x) as Hx. cbn [of_hex].
  destruct (hex_value (hex_digit (Byte.to_N x / 16))) as [h|]; [|done].
  cbn [mbind option_bind] in Hx |- *.
  destruct (hex_value (hex_digit (Byte.to_N x mod 16))) as [l|]; [|done].
  cbn [mbind option_bind] in Hx |- *. rewrite Hx, IH. done.
Qed.

Definition is_hex_char (c : ascii) : bool := is_ascii_digit c || byte_in 97 102 c.

Lemma hex_of_chars b : string_forall is_hex_char (hex_of b) = true.
Proof.
  induction b as [|x b IH]; [done|]. cbn [hex_of string_forall].
  rewrite IH, andb_true_r. revert x. by_all_bytes.
Qed.

Lemma hex_char_facts c :
  is_hex_char c = true →
  Ascii.eqb c ":" = false ∧ char_to_ascii_lowercase c = c ∧ byte_in 0 127 c = true
  ∧ ws1 c = false.
Proof. destruct c as [[] [] [] [] [] [] [] []]; vm_compute; done. Qed.

Lemma hex_of_lower b : to_ascii_lowercase (hex_of b) = hex_of b.
Proof.
  pose proof (hex_of_chars b) as Hc. revert Hc. generalize (hex_of b) as s.
  unfold to_ascii_lowercase. induction s as [|c s IH]; [done|]. simpl.
  rewrite andb_true_iff. intros [Hc Hs]. rewrite IH by done.
  by destruct (hex_char_facts c Hc) as (_ & -> & _).
Qed.

Lemma hex_of_plain b : string_forall is_plain (hex_of b) = true.
Proof.
  eapply string_forall_impl; [|apply hex_of_chars]. intros c Hc.
  destruct (hex_char_facts c Hc) as (_ & _ & Ha & Hw). unfold is_plain. by rewrite Ha, Hw.
Qed.

Lemma digits_plain s : string_forall is_ascii_digit s = true → string_forall is_plain s = true.
Proof.
  apply string_forall_impl. intros c. destruct c as [[] [] [] [] [] [] [] []]; done.
Qed.

(** ** Instances: active where [Ref] is imported *)

Module Ref.

#[export] Instance ref_base64 : Base64 := {|
  b64_encode := hex_of;
  b64_decode b := of_hex (String.string_of_list_byte b);
|}.
#[export] Instance ref_base64_laws : Base64Laws.
Proof.
  split.
  - intros b. simpl. unfold as_bytes. rewrite list_byte_string_id. apply of_hex_of.
  - intros b. unfold no_char. eapply string_forall_impl; [|apply hex_of_chars].
    intros c Hc. simpl. by destruct (hex_char_facts c Hc) as (-> & _).
Qed.

#[export] Instance ref_hex : Hex := {| hex_encode := hex_of; hex_decode := of_hex |}.
#[export] Instance ref_hex_laws : HexLaws.
Proof.
  split; intros b; simpl.
  - apply of_hex_of.
  - apply hex_of_lower.
  - apply trim_plain, hex_of_plain.
  - eapply string_forall_impl; [|apply hex_of_chars]. intros c Hc.
    by destruct (hex_char_facts c Hc) as (_ & _ & -> & _).
Qed.

(** A polynomial checksum, as [n] little-endian bytes. *)
Definition checksum (b : bytes) : N :=
  foldl (λ acc x, acc * 257 + Byte.to_N x + 1)%N 7%N b.
Fixpoint n_bytes (n : nat) (z : N) : bytes :=
  match n with
  | O => []
  | S n' => default Byte.x00 (Byte.of_N (z mod 256)) :: n_bytes n' (z / 256)
  end.
Lemma n_bytes_length n z : length (n_bytes n z) = n.
Proof. revert z. induction n; simpl; auto. Qed.

Arguments n_bytes : simpl never.

Definition ref_tag (k n aad p : bytes) : bytes :=
  n_bytes 16 (checksum (k ++ n ++ Byte.x00 :: aad ++ Byte.x00 :: p)).
Lemma ref_tag_length k n aad p : length (ref_tag k n aad p) = 16.
Proof. apply n_bytes_length. Qed.

#[export] Instance ref_ring : Ring := {|
  unbound_key_ok k := bool_decide (length k = 32);
  nonce_ok n := bool_decide (length n = 12);
  seal_in_place_append_tag k n aad p := Some (p ++ ref_tag k n aad p);
  open_in_place k n aad c :=
    let p := take (length c - 16) c in
    if decide (drop (length c - 16) c = ref_tag k n aad p) then Some p else None;
|}.
#[export] Instance ref_ring_laws : RingLaws.
Proof.
  split; simpl.
  - intros k. apply bool_decide_eq_true.
  - intros n. apply bool_decide_eq_true.
  - intros. simplify_eq. by rewrite length_app, ref_tag_length.
  - intros k n aad p c _ _ [= <-].
    rewrite length_app, ref_tag_length, Nat.add_sub, drop_app_length, take_app_length.
    by rewrite decide_True.
  - eauto.
Qed.

#[export] Instance ref_digests : Digests := {|
  sha256 b := n_bytes 32 (checksum b);
  sha512 b := n_bytes 64 (checksum b);
  hmac_sha256 k b := Some (n_bytes 32 (checksum (k ++ Byte.x00 :: b)));
|}.
#[export] Instance ref_digest_laws : DigestLaws.
Proof. split; intros; apply n_bytes_length. Qed.

(** Residues, with their binary digits as canonical encoding. *)
Fixpoint n_of_bytes (b : bytes) : N :=
  match b with [] => 0%N | x :: b' => (Byte.to_N x + 256 * n_of_bytes b')%N end.
Lemma n_of_bytes_n n z : n_of_bytes (n_bytes n z) = (z mod 256 ^ N.of_nat n)%N.
Proof.
  revert z. induction n as [|n IH]; intros z; [by rewrite N.mod_1_r|].
  unfold n_bytes; fold n_bytes. cbn [n_of_bytes]. rewrite IH.
  assert (∃ x, Byte.of_N (z mod 256) = Some x) as [x Hx].
  { destruct (Byte.of_N (z mod 256)) eqn:E; [eauto|].
    apply Byte.of_N_None_iff in E. pose proof (N.mod_lt z 256). lia. }
  rewrite Hx. cbn [from_option id]. apply Byte.to_of_N in Hx. rewrite Hx.
  rewrite Nat2N.inj_succ, N.pow_succ_r', N.Div0.mod_mul_r by lia. done.
Qed.

Record ref_fp := { ref_residue : Z; ref_residue_ok : bool_decide (0 <= ref_residue < PALLAS_MODULUS)%Z }.
Lemma ref_fp_eq (x y : ref_fp) : ref_residue x = ref_residue y → x = y.
Proof. destruct x as [x Hx], y as [y Hy]. simpl. intros ->. f_equal. apply proof_irrel. Qed.
Lemma ref_mod_ok z : bool_decide (0 <= z mod PALLAS_MODULUS < PALLAS_MODULUS)%Z.
Proof. apply bool_decide_pack, Z.mod_pos_bound. done. Qed.
Definition ref_of_z (z : Z) : ref_fp := {| ref_residue := z mod PALLAS_MODULUS; ref_residue_ok := ref_mod_ok z |}.
Lemma ref_residue_range x : (0 <= ref_residue x < PALLAS_MODULUS)%Z.
Proof. exact (bool_decide_unpack _ (ref_residue_ok x)). Qed.
Lemma ref_of_residue x : ref_of_z (ref_residue x) = x.
Proof. apply ref_fp_eq. cbn. apply Z.mod_small, ref_residue_range. Qed.
#[export] Instance ref_fp_dec : EqDecision ref_fp.
Proof.
  intros x y. destruct (decide (ref_residue x = ref_residue y)) as [E|E];
    [left; by apply ref_fp_eq|right; congruence].
Defined.

#[export] Instance ref_pasta : PastaField := {|
  Fp := ref_fp;
  fp_add x y := ref_of_z (ref_residue x + ref_residue y);
  fp_sub x y := ref_of_z (ref_residue x - ref_residue y);
  fp_mul x y := ref_of_z (ref_residue x * ref_residue y);
  fp_from_u64 n := ref_of_z (Z.of_N n);
  fp_from_raw a b c d := ref_of_z (Z.of_N (a + 2 ^ 64 * b + 2 ^ 128 * c + 2 ^ 192 * d));
  fp_to_repr x := n_bytes 32 (Z.to_N (ref_residue x));
  fp_from_repr b :=
    let x := ref_of_z (Z.of_N (n_of_bytes b)) in
    if decide (n_bytes 32 (Z.to_N (ref_residue x)) = b) then Some x else None;
|}.
#[export] Instance ref_pasta_laws : PastaLaws.
Proof.
  refine {| fp_val := (ref_residue : @Fp ref_pasta → Z) |}; try done.
  - apply ref_fp_eq.
  - apply ref_residue_range.
  - intros n Hn. cbn. apply Z.mod_small. unfold u64_max in Hn. unfold PALLAS_MODULUS. lia.
  - intros x. cbn [fp_from_repr fp_to_repr ref_pasta]. rewrite n_of_bytes_n.
    pose proof (ref_residue_range x) as Hx.
    rewrite N.mod_small; [|unfold PALLAS_MODULUS in Hx; cbn; lia].
    rewrite Z2N.id by lia. rewrite ref_of_residue. by rewrite decide_True.
  - intros b x. cbn [fp_from_repr fp_to_repr ref_pasta]. case_decide as E; [|done]. by intros [= <-].
Defined.

#[export] Instance ref_uuid : UuidApi := {|
  Uuid := N;
  uuid_nil := 0%N;
  uuid_to_string := pretty;
|}.
#[export] Instance ref_uuid_laws : UuidLaws.
Proof.
  split.
  - intros a b. simpl. apply (inj pretty).
  - intros a. unfold no_char. eapply string_forall_impl; [|apply pretty_N_digits].
    intros c. destruct c as [[] [] [] [] [] [] [] []]; done.
Qed.

#[export] Instance ref_unicode : UnicodeTables := {|
  to_lowercase := to_ascii_lowercase;
  debug_str s := String (Ascii.ascii_of_N 34) (s +:+ String (Ascii.ascii_of_N 34) "");
|}.
#[export] Instance ref_unicode_laws : UnicodeLaws.
Proof. by split. Qed.

Inductive ref_json :=
  | JNull
  | JNum (n : N)
  | JStr (s : string)
  | JArr (l : list ref_json)
  | JObj (kvs : list (string * ref_json)).
#[export] Instance ref_json_eq_dec : EqDecision ref_json.
Proof.
  refine (fix go (x y : ref_json) : Decision (x = y) :=
    match x, y with
    | JNull, JNull => left eq_refl
    | JNum a, JNum b => cast_if (decide (a = b))
    | JStr a, JStr b => cast_if (decide (a = b))
    | JArr a, JArr b => cast_if (@decide (a = b) (@list_eq_dec _ go a b))
    | JObj a, JObj b =>
        cast_if (@decide (a = b)
          (@list_eq_dec _ (@prod_eq_dec _ String.eq_dec _ go) a b))
    | _, _ => right _
    end); clear go; abstract congruence.
Defined.

Fixpoint assoc {A} (k : string) (l : list (string * A)) : option A :=
  match l with
  | [] => None
  | (k', v) :: l' => if decide (k' = k) then Some v else assoc k l'
  end.
Lemma assoc_elem {A} k (v : A) l : NoDup l.*1 → (k, v) ∈ l → assoc k l = Some v.
Proof.
  induction l as [|[k' v'] l IH]; intros Hnd Hin; [by apply elem_of_nil in Hin|].
  simpl in *. apply NoDup_cons in Hnd as [Hk Hnd].
  apply elem_of_cons in Hin as [E|Hin]; simplify_eq; [by rewrite decide_True|].
  rewrite decide_False; [by apply IH|]. intros ->. apply Hk.
  apply list_elem_of_fmap. by exists (k, v).
Qed.

#[export] Instance ref_json_api : JsonApi := {|
  JsonValue := ref_json;
  json_is_object v := match v with JObj _ => true | _ => false end;
  json_get v k := match v with JObj kvs => assoc k kvs | _ => None end;
  json_as_u64 v := match v with JNum n => if (n <=? u64_max)%N then Some n else None | _ => None end;
  json_as_str v := match v with JStr s => Some s | _ => None end;
  json_as_array v := match v with JArr l => Some l | _ => None end;
  json_u64 := JNum;
  json_str := JStr;
  json_object := JObj;
  jsonb := Ok;
|}.
#[export] Instance ref_json_laws : JsonLaws.
Proof.
  split; simpl; intros; [done|by apply assoc_elem| |done..].
  by rewrite (proj2 (N.leb_le _ _)).
Qed.

(** *** A broker that remembers the keys it minted *)

Definition ref_broker_state : Type := N * gmap (string * string) bytes.

Definition ref_mint (p : MintAeadKeyV2Params) (t : nat) (b : ref_broker_state) :
    result AnyhowError MintAeadKeyV2Lease * ref_broker_state :=
  let '(n, m) := b in
  match m !! (n_to_string n, n_to_string n) with
  | Some _ => (Err (anyhow "handle in use"), b)
  | None =>
      let k := n_bytes 32 (n + 1) in
      (Ok {| lease_handle := n_to_string n;
             lease_redeem_token := Some (n_to_string n);
             lease_key := k |},
       ((n + 1)%N, <[(n_to_string n, n_to_string n) := k]> m))
  end.

Arguments ref_mint : simpl never.

#[export] Instance ref_broker : BrokerApi := {|
  Broker := ref_broker_state;
  ThresholdShareMaterial := unit; DischargeMaterial := unit; RenewLeaseResult := unit;
  RevokeResult := unit; RotateParams := unit; RotateResult := unit;
  AttenuateHandleV2Params := string;
  adapter_mint_aead_key_v2 := ref_mint;
  adapter_unwrap_secret_v2 p _ b :=
    (ok_or (unwrap_redeem_token p ≫= λ tok, b.2 !! (unwrap_handle p, tok))
       (anyhow "unknown handle"), b);
  adapter_renew_lease h _ _ b := (Ok (), b);
  adapter_issue_postgres_credentials p t b :=
    (Ok {| pcl_database_url := "postgres://broker"; pcl_username := Some (pcp_audience p);
           pcl_password := None; pcl_expires_at := (λ s, utc (Z.of_N s)) <$> pcp_ttl_seconds p |}, b);
  adapter_wrap_bytes_v2 p q t b :=
    (Ok {| wrap_handle := n_to_string b.1; wrap_redeem_token := Some (n_to_string b.1);
           wrap_created_at := utc 0 |}, b);
  adapter_preload_redeem_token _ _ _ _ b := (Ok (), b);
  adapter_preload_redeem_shares _ _ _ _ b := (Ok (), b);
  adapter_revoke_secret _ _ _ b := (Ok (), b);
  adapter_rotate_secret _ _ _ _ b := (Ok (), b);
  adapter_attenuate_handle_v2 h _ b := (Ok h, b);
|}.

Lemma n_to_string_plain n : string_forall is_plain (n_to_string n) = true.
Proof. apply digits_plain, pretty_N_digits. Qed.

Lemma n_to_string_utf8 n : utf8_valid (n_to_string n) = true.
Proof.
  apply utf8_valid_ascii. eapply string_forall_impl; [|apply n_to_string_plain].
  unfold is_plain. intros c ?%andb_true_iff. naive_solver.
Qed.

(** Minting either fails and changes nothing, or adds the new key at a free
    handle. *)
Lemma ref_mint_spec p t n m :
  (∃ e, ref_mint p t (n, m) = (Err e, (n, m))) ∨
  (m !! (n_to_string n, n_to_string n) = None ∧ ∃ k,
    ref_mint p t (n, m) =
      (Ok {| lease_handle := n_to_string n; lease_redeem_token := Some (n_to_string n);
             lease_key := k |}, ((n + 1)%N, <[(n_to_string n, n_to_string n) := k]> m))).
Proof.
  unfold ref_mint. generalize (n_bytes 32 (n + 1)). intros k.
  destruct (m !! _); [left|right]; eauto.
Qed.

#[export] Instance ref_broker_laws : BrokerLaws.
Proof.
  refine {| bound (b : @Broker ref_broker) h tok k := b.2 !! (h, tok) = Some k |}.
  - intros p t [n m] l b' tok E _ Etok. cbn in E, b'.
    destruct (ref_mint_spec p t n m) as [(e & E')|(_ & k & E')]; rewrite E' in E; simplify_eq.
    cbn [lease_handle lease_redeem_token lease_key fst snd] in *. simplify_eq.
    rewrite !trim_plain by apply n_to_string_plain.
    apply lookup_insert_eq.
  - intros p t [n m] h tok k Hk. cbn in Hk |- *.
    destruct (ref_mint_spec p t n m) as [(e & ->)|(Hn & k' & ->)]; [done|]. cbn.
    rewrite lookup_insert_ne; [done|]. intros E. rewrite E, Hk in Hn. done.
  - intros t b h tok k k' Hk. cbn in Hk |- *. rewrite Hk. by intros [= <-].
  - done.
  - done.
  - intros p t [n m] l b' tok E Etok. cbn in E, b'.
    destruct (ref_mint_spec p t n m) as [(e & E')|(_ & k & E')]; rewrite E' in E; simplify_eq.
    cbn in Etok |- *. simplify_eq. split; apply n_to_string_utf8.
Defined.

(** *** A broker whose redeem tokens can be used only once

    Its state is the other broker's, with the tokens that have been used. *)

Definition once_state : Type := ref_broker_state * list (string * string).
Definition once_of {E A} (r : result E A * ref_broker_state) (used : list (string * string)) :
    result E A * once_state := (fst r, (snd r, used)).

Definition once_unwrap (p : UnwrapSecretV2Params unit unit) (b : once_state) :
    result AnyhowError bytes * once_state :=
  let at_token := default "" (unwrap_redeem_token p) in
  if decide ((unwrap_handle p, at_token) ∈ b.2) then (Err (anyhow "redeem token already used"), b)
  else (fst (adapter_unwrap_secret_v2 (BrokerApi := ref_broker) p 0 b.1),
        (b.1, (unwrap_handle p, at_token) :: b.2)).

Definition once_broker : BrokerApi := {|
  Broker := once_state;
  ThresholdShareMaterial := unit; DischargeMaterial := unit; RenewLeaseResult := unit;
  RevokeResult := unit; RotateParams := unit; RotateResult := unit;
  AttenuateHandleV2Params := string;
  adapter_mint_aead_key_v2 p t b := once_of (ref_mint p t b.1) b.2;
  adapter_unwrap_secret_v2 p _ b := once_unwrap p b;
  adapter_renew_lease h _ _ b := (Ok (), b);
  adapter_issue_postgres_credentials p t b :=
    once_of (adapter_issue_postgres_credentials (BrokerApi := ref_broker) p t b.1) b.2;
  adapter_wrap_bytes_v2 p q t b :=
    once_of (adapter_wrap_bytes_v2 (BrokerApi := ref_broker) p q t b.1) b.2;
  adapter_preload_redeem_token _ _ _ _ b := (Ok (), b);
  adapter_preload_redeem_shares _ _ _ _ b := (Ok (), b);
  adapter_revoke_secret _ _ _ b := (Ok (), b);
  adapter_rotate_secret _ _ _ _ b := (Ok (), b);
  adapter_attenuate_handle_v2 h _ b := (Ok h, b);
|}.

Lemma once_broker_laws : BrokerLaws (H := once_broker).
Proof.
  refine {| bound (b : @Broker once_broker) h tok k :=
    bound (BrokerLaws := ref_broker_laws) (fst b) h tok k |}.
  - intros p t b l b' tok E Hl Ht. cbn in E. unfold once_of in E.
    destruct (ref_mint p t b.1) as [r b1] eqn:Em. injection E as -> <-.
    by eapply (mint_bound (BrokerLaws := ref_broker_laws)).
  - intros p t b h tok k Hk. exact (mint_keeps (BrokerLaws := ref_broker_laws) p t b.1 h tok k Hk).
  - intros t b h tok k k' Hk E. cbn in E. unfold once_unwrap in E. case_decide; [done|].
    by eapply (unwrap_faithful (BrokerLaws := ref_broker_laws) 0).
  - intros t b h tok k h' tok' Hk. cbn. unfold once_unwrap. by case_decide.
  - done.
  - intros p t b l b' tok E Ht. cbn in E. unfold once_of in E.
    destruct (ref_mint p t b.1) as [r b1] eqn:Em. injection E as -> <-.
    by eapply (mint_utf8 (BrokerLaws := ref_broker_laws)).
Defined.

Definition once_world : World (H1 := once_broker) :=
  mk_world (H1 := once_broker) 0 empty_tables (((0%N, ∅), []) : once_state) [].

(** *** A host without faults: one second per interaction *)

Definition host_with (faults : nat → option Fault) : Host := {|
  server_now i := (1000000 * Z.of_nat i)%Z;
  client_now i := utc (1000000000 * Z.of_nat i);
  new_v4 i := (1000 + N.of_nat i)%N;
  rng_fill_nonce i := Some (n_bytes 12 (N.of_nat i));
  sql_fault := faults;
  sql_error_string e := "sql error";
|}.
#[export] Instance ref_host : Host := host_with (λ _, None).
#[export] Instance ref_host_laws : HostLaws.
Proof.
  split; simpl.
  - intros i j Hij. lia.
  - intros i n [= <-]. apply n_bytes_length.
Qed.

Definition ref_world : World := mk_world 0 empty_tables (0%N, ∅) [].
End Ref.
