(* ===== verification/Aead.v ===== *)
(** * Cryptographic helpers and the AEAD payload format (src/lib.rs)

    [Module Crypto]: [hmac_sign], [aes_encrypt], [aes_encrypt_with_aad],
    [aes_decrypt], [aes_decrypt_with_aad].
    [Module Payload]: [encode_aead_payload], [decode_aead_payload],
    [is_aead_payload], [is_aead_payload_v2]. *)
From S2P Require Import Prelude RustStd Platform World Reference.

(** [aead::NONCE_LEN] *)
Definition NONCE_LEN : nat := 12.
Definition TAG_LENGTH : nat := 16.

Module Crypto.
Section crypto.
Context `{UuidApi, JsonApi, BrokerApi} `{!Host} `{Ring, Digests}.

Definition hmac_sign (key payload : bytes) : DbResult bytes :=
  ok_or (hmac_sha256 key payload) (Encryption "invalid HMAC key").

Definition aes_encrypt_with_aad (key plaintext aad : bytes) : M bytes :=
  nonce_bytes ← fill_nonce;
  if unbound_key_ok key then
    match seal_in_place_append_tag key nonce_bytes aad plaintext with
    | Some in_out => mret (nonce_bytes ++ in_out)
    | None => fail (Encryption "ring::error::Unspecified")
    end
  else fail from_unspecified.

Definition aes_encrypt (key plaintext : bytes) : M bytes :=
  aes_encrypt_with_aad key plaintext [].

Definition aes_decrypt_with_aad (key ciphertext aad : bytes) : DbResult bytes :=
  if length ciphertext <? NONCE_LEN + TAG_LENGTH then
    Err (Encryption "ciphertext too short")
  else
    let nonce_bytes := take NONCE_LEN ciphertext in
    let body := drop NONCE_LEN ciphertext in
    if nonce_ok nonce_bytes then
      if unbound_key_ok key then
        match open_in_place key nonce_bytes aad body with
        | Some plaintext => Ok plaintext
        | None => Err (Encryption "decryption failed")
        end
      else Err from_unspecified
    else Err (Encryption "invalid nonce").

Definition aes_decrypt (key ciphertext : bytes) : DbResult bytes :=
  aes_decrypt_with_aad key ciphertext [].

(** A ciphertext in the layout [nonce || ciphertext || tag]. *)
Definition sealed (key aad plaintext ciphertext : bytes) : Prop :=
  length key = 32 ∧ ∃ nonce body, length nonce = 12 ∧
    seal_in_place_append_tag key nonce aad plaintext = Some body ∧
    ciphertext = nonce ++ body.

Context `{!RingLaws} `{!HostLaws}.

Lemma aes_encrypt_sealed key p aad w c w' :
  aes_encrypt_with_aad key p aad w = (Ok c, w') →
  sealed key aad p c ∧ w' = tick w.
Proof.
  unfold aes_encrypt_with_aad. intros Hrun. inv_run Hrun.
  unfold fill_nonce in Hrun0. injection Hrun0 as Hn <-. apply ok_or_Ok in Hn.
  destruct (unbound_key_ok key) eqn:Hk; [|by apply fail_Ok in Hrun].
  destruct (seal_in_place_append_tag key a aad p) as [body|] eqn:Hs;
    [|by apply fail_Ok in Hrun].
  apply eff_ret_Ok in Hrun as [<- <-]. split; [|done].
  split; [by apply unbound_key_len|]. exists a, body. split; [|done].
  by eapply rng_nonce_len.
Qed.

Lemma aes_decrypt_sealed key aad p c :
  sealed key aad p c → aes_decrypt_with_aad key c aad = Ok p.
Proof.
  intros (Hk & nonce & body & Hn & Hs & ->). unfold aes_decrypt_with_aad.
  pose proof (seal_length _ _ _ _ _ Hs) as Hlen.
  rewrite (proj2 (Nat.ltb_ge _ _))
    by (rewrite length_app, Hlen, Hn; unfold NONCE_LEN, TAG_LENGTH; lia).
  rewrite take_app_length', drop_app_length' by done.
  rewrite (proj2 (nonce_ok_len nonce)), (proj2 (unbound_key_len key)) by done.
  by erewrite open_seal.
Qed.

(** Encrypting with a 32-byte key succeeds whenever the random generator
    does, and decrypting the result with the same key and the same
    associated data gives the plaintext back; the ciphertext is 28 bytes
    (nonce and tag) longer than the plaintext. *)
Theorem aes_round_trip key p aad w n :
  length key = 32 → (N.of_nat (length p) < 2 ^ 32)%N →
  rng_fill_nonce (w_tick w) = Some n →
  ∃ c, aes_encrypt_with_aad key p aad w = (Ok c, tick w) ∧
    length c = length p + 28 ∧
    aes_decrypt_with_aad key c aad = Ok p.
Proof.
  intros Hk Hp Hrng. pose proof (rng_nonce_len _ _ Hrng) as Hn.
  destruct (seal_total key n aad p Hk Hn Hp) as [body Hs].
  exists (n ++ body). split_and!.
  - unfold aes_encrypt_with_aad. erewrite eff_bind_step
      by (unfold fill_nonce; by rewrite Hrng).
    by rewrite (proj2 (unbound_key_len key) Hk), Hs.
  - rewrite length_app, Hn, (seal_length _ _ _ _ _ Hs). lia.
  - apply aes_decrypt_sealed. split; [done|]. by exists n, body.
Qed.

(** [aes_decrypt_with_aad] on every input: it answers "too short" exactly
    on inputs below 28 bytes, and otherwise succeeds exactly when the key has
    32 bytes and [ring] opens the body under the first 12 bytes as nonce. *)
Theorem aes_decrypt_cases key c aad :
  (aes_decrypt_with_aad key c aad = Err (Encryption "ciphertext too short")
    ↔ length c < 28) ∧
  (∀ p, aes_decrypt_with_aad key c aad = Ok p ↔
    28 ≤ length c ∧ length key = 32 ∧
    open_in_place key (take 12 c) aad (drop 12 c) = Some p).
Proof.
  unfold aes_decrypt_with_aad, NONCE_LEN, TAG_LENGTH, from_unspecified.
  destruct (length c <? 12 + 16) eqn:E; [apply Nat.ltb_lt in E|apply Nat.ltb_ge in E];
    simpl in E; [split; [naive_solver|]; split; [done|lia]|].
  rewrite (proj2 (nonce_ok_len (take 12 c))) by (rewrite length_take; lia).
  pose proof (unbound_key_len key) as Hk.
  destruct (unbound_key_ok key), (open_in_place _ _ _ _); split;
    try split; naive_solver lia.
Qed.
End crypto.
End Crypto.

Module Payload.
Definition AEAD_PREFIX_V1 : string := "aead:v1:".
Definition AEAD_PREFIX_V2 : string := "aead:v2:".
Definition AEAD_SEPARATOR : ascii := ":"%char.

(** [is_aead_payload], [is_aead_payload_v2] *)
Definition is_aead_payload (value : string) : bool :=
  starts_with AEAD_PREFIX_V1 value || starts_with AEAD_PREFIX_V2 value.
Definition is_aead_payload_v2 (value : string) : bool := starts_with AEAD_PREFIX_V2 value.

Section payload.
Context `{Base64}.

Definition encode_aead_payload (handle redeem_token_b64 : string) (ciphertext : bytes) : string :=
  let handle_b64 := b64_encode (as_bytes handle) in
  let redeem_token_b64 := b64_encode (as_bytes redeem_token_b64) in
  let ciphertext_b64 := b64_encode ciphertext in
  AEAD_PREFIX_V2 +:+ handle_b64 +:+ String AEAD_SEPARATOR
    (redeem_token_b64 +:+ String AEAD_SEPARATOR ciphertext_b64).

(** The prefix and the version it stands for. *)
Definition payload_version (encoded : string) : DbResult (string * N) :=
  match strip_prefix AEAD_PREFIX_V2 encoded with
  | Some remainder => Ok (remainder, 2%N)
  | None =>
      match strip_prefix AEAD_PREFIX_V1 encoded with
      | Some remainder => Ok (remainder, 1%N)
      | None => Err (Encryption "value missing aead:v1/v2 prefix")
      end
  end.

(** The base64 parts: [splitn(3, ':')] for v2, [split_once(':')] for v1. *)
Definition payload_parts (remainder : string) (version : N) :
    DbResult (string * option string * string) :=
  if (version =? 2)%N then
    match splitn 3 AEAD_SEPARATOR remainder with
    | handle_b64 :: redeem_token_b64 :: ciphertext_b64 :: _ =>
        Ok (handle_b64, Some redeem_token_b64, ciphertext_b64)
    | _ => Err (Encryption "invalid AEAD v2 payload format")
    end
  else
    match split_once AEAD_SEPARATOR remainder with
    | Some (handle_b64, ciphertext_b64) => Ok (handle_b64, None, ciphertext_b64)
    | None => Err (Encryption "invalid AEAD v1 payload format")
    end.

Definition decode_redeem_token (redeem_token_b64 : option string) : DbResult (option string) :=
  match redeem_token_b64 with
  | Some token_b64 =>
      token_bytes ← ok_or (b64_decode (as_bytes token_b64))
                      (Encryption "invalid AEAD redeem token encoding");
      token ← ok_or (from_utf8 token_bytes)
                (Encryption "AEAD redeem token is not valid UTF-8");
      mret (Some token)
  | None => mret None
  end.

Definition decode_aead_payload (encoded : string) :
    DbResult (string * option string * bytes) :=
  '(remainder, version) ← payload_version encoded;
  '(handle_b64, redeem_token_b64, ciphertext_b64) ← payload_parts remainder version;
  handle_bytes ← ok_or (b64_decode (as_bytes handle_b64))
                   (Encryption "invalid AEAD handle encoding");
  redeem_token ← decode_redeem_token redeem_token_b64;
  ciphertext ← ok_or (b64_decode (as_bytes ciphertext_b64))
                 (Encryption "invalid AEAD ciphertext encoding");
  handle ← ok_or (from_utf8 handle_bytes)
             (Encryption "AEAD handle is not valid UTF-8");
  mret (handle, redeem_token, ciphertext).

Lemma encode_is_v2 h t c : is_aead_payload_v2 (encode_aead_payload h t c) = true.
Proof. apply starts_with_app. Qed.

Lemma is_v2_is_payload s : is_aead_payload_v2 s = true → is_aead_payload s = true.
Proof. unfold is_aead_payload, is_aead_payload_v2. intros ->. apply orb_true_r. Qed.

(** A string with the v2 prefix does not have the v1 prefix. *)
Lemma v1_not_v2 r : is_aead_payload_v2 (AEAD_PREFIX_V1 +:+ r) = false.
Proof. done. Qed.

Context `{!Base64Laws}.

Lemma encode_parts h t c :
  splitn 3 AEAD_SEPARATOR
    (b64_encode (as_bytes h) +:+ String AEAD_SEPARATOR
      (b64_encode (as_bytes t) +:+ String AEAD_SEPARATOR (b64_encode c))) =
  [b64_encode (as_bytes h); b64_encode (as_bytes t); b64_encode c].
Proof. cbn [splitn]. by rewrite !split_once_app by apply b64_no_colon. Qed.

Lemma decode_encode_payload h t c :
  utf8_valid h = true → utf8_valid t = true →
  decode_aead_payload (encode_aead_payload h t c) = Ok (h, Some t, c).
Proof.
  intros Hh Ht. unfold decode_aead_payload, payload_version, encode_aead_payload.
  rewrite strip_prefix_app. cbn [mbind result_bind].
  unfold payload_parts. cbn [N.eqb Pos.eqb]. rewrite encode_parts.
  cbn [mbind result_bind]. unfold decode_redeem_token.
  rewrite !b64_decode_encode. cbn [ok_or mbind result_bind].
  by rewrite !from_utf8_as_bytes.
Qed.

(** C36. Decoding an encoded payload gives back the broker handle, the redeem
    token and the ciphertext, for every handle and token that is text; so
    two payloads with the same encoding carry the same three parts. *)
Theorem payload_round_trip h t c :
  utf8_valid h = true → utf8_valid t = true →
  decode_aead_payload (encode_aead_payload h t c) = Ok (h, Some t, c) ∧
  is_aead_payload_v2 (encode_aead_payload h t c) = true ∧
  ∀ h' t' c', utf8_valid h' = true → utf8_valid t' = true →
    encode_aead_payload h' t' c' = encode_aead_payload h t c →
    h' = h ∧ t' = t ∧ c' = c.
Proof.
  intros Hh Ht. split_and!; [by apply decode_encode_payload|apply encode_is_v2|].
  intros h' t' c' Hh' Ht' E.
  pose proof (decode_encode_payload h' t' c' Hh' Ht') as D.
  rewrite E, decode_encode_payload in D by done. by simplify_eq.
Qed.

(** The redeem token of a decoded value tells the payload version: a
    decoded value has a token exactly when it carries the v2 prefix, and a
    value with neither prefix never decodes. *)
Theorem decode_token_iff_v2 s h tok c :
  decode_aead_payload s = Ok (h, tok, c) →
  is_aead_payload s = true ∧ utf8_valid h = true ∧
  (is_Some tok ↔ is_aead_payload_v2 s = true).
Proof.
  unfold decode_aead_payload. intros D.
  apply result_bind_Ok in D as ([r v] & Dv & D).
  apply result_bind_Ok in D as ([[h64 t64] c64] & Dp & D).
  apply result_bind_Ok in D as (hb & _ & D).
  apply result_bind_Ok in D as (tok' & Dt & D).
  apply result_bind_Ok in D as (cb & _ & D).
  apply result_bind_Ok in D as (h' & Du & [= -> -> ->]).
  apply ok_or_Ok, from_utf8_Some in Du as [_ Du].
  unfold is_aead_payload, is_aead_payload_v2, starts_with, payload_version in *.
  destruct (strip_prefix AEAD_PREFIX_V2 s) as [r2|] eqn:E2.
  - injection Dv as <- <-. unfold payload_parts in Dp. cbn [N.eqb Pos.eqb] in Dp.
    destruct (splitn _ _ _) as [|? [|? [|? ?]]]; simplify_eq.
    unfold decode_redeem_token in Dt.
    apply result_bind_Ok in Dt as (? & _ & Dt).
    apply result_bind_Ok in Dt as (? & _ & [= <-]).
    split_and!; [by rewrite orb_true_r|done|]. split; eauto.
  - destruct (strip_prefix AEAD_PREFIX_V1 s) as [r1|] eqn:E1; [|done].
    injection Dv as <- <-. unfold payload_parts in Dp. cbn [N.eqb Pos.eqb] in Dp.
    destruct (split_once _ _) as [[? ?]|]; simplify_eq.
    unfold decode_redeem_token, mret, result_ret in Dt. injection Dt as <-.
    split_and!; [done|done|]. split; [by intros [? ?]|done].
Qed.
End payload.
End Payload.

(** ** Concrete runs *)
Section concrete.
Import Ref.

Definition ex_key : bytes := replicate 32 Byte.x07.
Definition ex_plain : bytes := as_bytes "secure-database-roundtrip".

Lemma aes_round_trip_witness :
  ∃ c, Crypto.aes_encrypt_with_aad ex_key ex_plain [] ref_world = (Ok c, tick ref_world) ∧
    length c = length ex_plain + 28 ∧
    Crypto.aes_decrypt_with_aad ex_key c [] = Ok ex_plain.
Proof.
  apply (Crypto.aes_round_trip ex_key ex_plain [] ref_world (n_bytes 12 0));
    vm_compute; reflexivity.
Defined.

Lemma aes_decrypt_cases_witness :
  Crypto.aes_decrypt_with_aad ex_key [Byte.x00] [] =
    Err (Encryption "ciphertext too short").
Proof.
  apply (Crypto.aes_decrypt_cases ex_key [Byte.x00] []). simpl. lia.
Defined.

Lemma payload_round_trip_witness :
  Payload.decode_aead_payload (Payload.encode_aead_payload "h-1" "tok:1" ex_plain) =
    Ok ("h-1", Some "tok:1", ex_plain).
Proof.
  apply (Payload.payload_round_trip "h-1" "tok:1" ex_plain); reflexivity.
Defined.

Lemma decode_token_iff_v2_witness :
  Payload.decode_aead_payload "aead:v1:6831:00ff" = Ok ("h1", None, [Byte.x00; Byte.xff]) ∧
  ¬ Payload.is_aead_payload_v2 "aead:v1:6831:00ff" = true.
Proof.
  assert (Payload.decode_aead_payload "aead:v1:6831:00ff" =
    Ok ("h1", None, [Byte.x00; Byte.xff])) as D by (vm_compute; reflexivity).
  split; [exact D|].
  destruct (Payload.decode_token_iff_v2 _ _ _ _ D) as (_ & _ & Hiff).
  intros Hv2. apply Hiff in Hv2. destruct Hv2 as [x Hx]. discriminate Hx.
Defined.

Example decode_v2_bad_base64 :
  Payload.decode_aead_payload "aead:v2:zz:00:00" =
    Err (Encryption "invalid AEAD handle encoding").
Proof. vm_compute. reflexivity. Qed.
Example decode_v2_missing_part :
  Payload.decode_aead_payload "aead:v2:6831:00" =
    Err (Encryption "invalid AEAD v2 payload format").
Proof. vm_compute. reflexivity. Qed.
End concrete.
