(* ===== verification/Broker.v ===== *)
(** * The secret-broker client's operations (src/secret_broker_client.rs)

    [SecretBrokerClient] forwards each operation to the protocol adapter and
    counts attempts and outcomes. Its configuration and the verification of the
    broker's certificate are in [BrokerConfig.v] and [PeerVerification.v]. *)
From S2P Require Import Prelude RustStd Platform World Reference.

Module SecretBrokerClient.
(** [PostgresCredentialRequest] *)
Record PostgresCredentialRequest := {
  pcr_audience : string;
  pcr_scope : list string;
  pcr_ttl_seconds : N;
  pcr_application_name : option string;
}.

Section client.
Context `{UuidApi, JsonApi, BrokerApi}.

(** Count the attempt, run the call, count its outcome and return it. *)
Definition counted {A} (attempted succeeded failed : string) (call : MA A) : MA A :=
  counter attempted None;;
  r ← attempt call;
  match r with
  | Ok a => counter succeeded None;; mret a
  | Err err => counter failed None;; fail err
  end.

Definition issue_postgres_credentials (request : PostgresCredentialRequest) :
    MA PostgresCredentialLease :=
  let params := {|
    pcp_audience := trim (pcr_audience request);
    pcp_scope := pcr_scope request;
    pcp_ttl_seconds :=
      if (pcr_ttl_seconds request =? 0)%N then None else Some (pcr_ttl_seconds request);
    pcp_application_name := pcr_application_name request |} in
  counted "secure_database_broker_lease_attempt_total"
    "secure_database_broker_lease_success_total"
    "secure_database_broker_lease_failure_total"
    (adapter (adapter_issue_postgres_credentials params)).

Definition mint_aead_key_v2 (params : MintAeadKeyV2Params) : MA MintAeadKeyV2Lease :=
  counted "secure_database_broker_aead_v2_request_total"
    "secure_database_broker_aead_v2_success_total"
    "secure_database_broker_aead_v2_failure_total"
    (adapter (adapter_mint_aead_key_v2 params)).

Definition wrap_secret_v2 (plaintext : bytes) (params : WrapV2Params) : MA WrapResponse :=
  counted "secure_database_broker_wrap_v2_attempt_total"
    "secure_database_broker_wrap_v2_success_total"
    "secure_database_broker_wrap_v2_failure_total"
    (adapter (adapter_wrap_bytes_v2 plaintext params)).

Definition preload_redeem_token (handle token : string) (expires_at : option DateTime) : MA () :=
  adapter (adapter_preload_redeem_token handle token expires_at).

Definition preload_redeem_shares (handle : string) (shares : list ThresholdShareMaterial)
    (expires_at : option DateTime) : MA () :=
  adapter (adapter_preload_redeem_shares handle shares expires_at).

Definition unwrap_secret_v2
    (params : UnwrapSecretV2Params ThresholdShareMaterial DischargeMaterial) : MA bytes :=
  counted "secure_database_broker_unwrap_v2_attempt_total"
    "secure_database_broker_unwrap_v2_success_total"
    "secure_database_broker_unwrap_v2_failure_total"
    (adapter (adapter_unwrap_secret_v2 params)).

Definition unwrap_secret_v2_with_token (handle redeem_token_b64 : string) : MA bytes :=
  unwrap_secret_v2 (token_params (trim handle) (trim redeem_token_b64)).

Definition renew_lease (handle : string) (lease_duration_seconds : N) : MA RenewLeaseResult :=
  adapter (adapter_renew_lease handle lease_duration_seconds).

Definition revoke_secret (handle : string) (reason : option string) : MA RevokeResult :=
  adapter (adapter_revoke_secret handle reason).

Definition rotate_secret (old_handle : string) (new_plaintext : bytes) (params : RotateParams) :
    MA RotateResult :=
  adapter (adapter_rotate_secret old_handle new_plaintext params).

Definition attenuate_handle_v2 (params : AttenuateHandleV2Params) : MA string :=
  adapter (adapter_attenuate_handle_v2 params).

(** What a counted call does: the adapter's result, the adapter's state
    change, and two metrics. *)
Lemma counted_run {A} a s f (g : nat → Broker → result AnyhowError A * Broker) w :
  counted a s f (adapter g) w =
  let '(r, b) := g (w_tick w) (w_broker w) in
  (r, mk_world (S (w_tick w)) (w_db w) b
        (w_metrics w ++ [{| m_name := a; m_label := None |};
                         {| m_name := if is_ok r then s else f; m_label := None |}])).
Proof.
  unfold counted, counter, modify, attempt, adapter, mbind, eff_bind. simpl.
  destruct (g _ _) as [[x|e] b]; simpl;
    unfold mret, eff_ret, fail; by rewrite <-app_assoc.
Qed.

Lemma counted_same_db {A} a s f (g : nat → Broker → result AnyhowError A * Broker) :
  preserves same_db (counted a s f (adapter g)).
Proof. intros w. rewrite counted_run. by destruct (g _ _). Qed.

Lemma counted_later {A} a s f (g : nat → Broker → result AnyhowError A * Broker) :
  preserves later (counted a s f (adapter g)).
Proof. intros w. unfold later. rewrite counted_run. destruct (g _ _). cbn. lia. Qed.

(** [unwrap_secret_v2_with_token] redeems the trimmed handle with the
    trimmed token and passes no other authority. *)
Lemma unwrap_with_token_run h t w :
  unwrap_secret_v2_with_token h t w =
  let '(r, b) := adapter_unwrap_secret_v2 (token_params (trim h) (trim t))
                   (w_tick w) (w_broker w) in
  (r, mk_world (S (w_tick w)) (w_db w) b
        (w_metrics w ++
          [{| m_name := "secure_database_broker_unwrap_v2_attempt_total"; m_label := None |};
           {| m_name := if is_ok r then "secure_database_broker_unwrap_v2_success_total"
                        else "secure_database_broker_unwrap_v2_failure_total";
              m_label := None |}])).
Proof. apply counted_run. Qed.
End client.
End SecretBrokerClient.

#[export] Hint Resolve SecretBrokerClient.counted_same_db SecretBrokerClient.counted_later : sdb.
