(* ===== verification/Protected.v ===== *)
(** * Protected fields (src/tor_auth.rs, lines 14-23 and 1020-1175)

    Associated data bound to a record, encryption of a field under a key minted
    at the broker, and decryption with the key redeemed from the broker. *)
From S2P Require Import Prelude RustStd Platform World Reference Aead Broker.
Import Crypto Payload SecretBrokerClient.

Module Protected.
Definition CLIENT_ONION_AAD : bytes := as_bytes "tor-session-client-onion".
Definition REDEEMED_ONION_AAD : bytes := as_bytes "tor-ticket-redeemed-onion".
Definition TICKET_CLIENT_PUBLIC_KEY_AAD : bytes := as_bytes "tor-ticket-client-auth-public-key".
Definition TICKET_CLIENT_SECRET_PATH_AAD : bytes := as_bytes "tor-ticket-client-auth-secret-path".
Definition TICKET_CLIENT_SECRET_REDEEM_TOKEN_AAD : bytes :=
  as_bytes "tor-ticket-client-auth-secret-redeem-token".
Definition TICKET_ATTESTATION_NONCE_AAD : bytes := as_bytes "tor-ticket-attestation-nonce".
Definition TICKET_ATTESTATION_QUOTE_AAD : bytes := as_bytes "tor-ticket-attestation-quote".
Definition TICKET_TLS_PUBKEY_DIGEST_AAD : bytes := as_bytes "tor-ticket-tls-pubkey-digest".
Definition AEAD_KEY_TTL_SECONDS : N := 900.

Definition NUL : ascii := "000"%char.

Section protected.
Context `{UuidApi, JsonApi, BrokerApi} `{!Host} `{Base64, Ring, Digests}.

Definition record_bound_aad (table field : string) (row_id : Uuid) (purpose : bytes) : bytes :=
  as_bytes ("schema:v2" +:+ String NUL ("table:" +:+ table +:+ String NUL
    ("field:" +:+ field +:+ String NUL ("row:" +:+ uuid_to_string row_id +:+
      String NUL "")))) ++ purpose.

Definition encrypt_with_new_aead (plaintext aad : bytes) (label : string) : M string :=
  counter "secure_database_aead_encrypt_attempt_total" (Some label);;
  lease ← attempt (mint_aead_key_v2 {|
    mint_ttl_seconds := Some AEAD_KEY_TTL_SECONDS;
    mint_label := Some label;
    mint_tenant_id := None;
    mint_provider := None;
    mint_threshold := None;
    mint_num_shares := None;
    mint_lifecycle := Some RenewableLease;
    mint_initial_lease_seconds := Some AEAD_KEY_TTL_SECONDS;
    mint_unwrap_principal_id := None;
    mint_custodian_ids := None |});
  match lease with
  | Err err =>
      counter "secure_database_aead_encrypt_failure_total" (Some label);;
      fail (Encryption (anyhow_display err))
  | Ok lease =>
      match lease_redeem_token lease with
      | None =>
          counter "secure_database_aead_encrypt_failure_total" (Some label);;
          fail (Encryption "broker v2 AEAD lease missing redeem token")
      | Some redeem_token =>
          ciphertext ← attempt (aes_encrypt_with_aad (lease_key lease) plaintext aad);
          match ciphertext with
          | Err err =>
              counter "secure_database_aead_encrypt_failure_total" (Some label);;
              fail err
          | Ok ciphertext =>
              counter "secure_database_aead_encrypt_success_total" (Some label);;
              mret (encode_aead_payload (lease_handle lease) redeem_token ciphertext)
          end
      end
  end.

(** Count a failed decryption and return its error. *)
Definition decrypt_failure {A} (label : string) (err : DatabaseError) : M A :=
  counter "secure_database_aead_decrypt_failure_total" (Some label);; fail err.

Definition decrypt_with_broker (encoded : string) (aad : bytes) (label : string) : M string :=
  match decode_aead_payload encoded with
  | Err err => decrypt_failure label err
  | Ok (_, None, _) =>
      decrypt_failure label (Encryption
        "legacy AEAD v1 payload encountered during decrypt; backfill to canonical v2 first")
  | Ok (handle, Some redeem_token_b64, ciphertext) =>
      key ← attempt (unwrap_secret_v2_with_token handle redeem_token_b64);
      match key with
      | Err err => decrypt_failure label (Encryption (anyhow_display err))
      | Ok key =>
          attempt (renew_lease handle AEAD_KEY_TTL_SECONDS);;
          match aes_decrypt_with_aad key ciphertext aad with
          | Err err => decrypt_failure label err
          | Ok plaintext =>
              match from_utf8 plaintext with
              | None =>
                  decrypt_failure label
                    (Encryption "decrypted AEAD payload is not valid UTF-8")
              | Some plaintext_str =>
                  counter "secure_database_aead_decrypt_success_total" (Some label);;
                  mret plaintext_str
              end
          end
      end
  end.

Definition legacy_error (label : string) : DatabaseError :=
  Encryption ("legacy AEAD payload in protected field " +:+ label +:+
              "; canonical v2 required").
Definition plaintext_error (label : string) : DatabaseError :=
  Encryption ("plaintext in protected field " +:+ label).
Definition missing_error (field : string) : DatabaseError :=
  Encryption (field +:+ " missing from tor ticket").

Definition ensure_aead_encrypted (value : option string) (aad : bytes) (label : string) :
    M (option string) :=
  match value with
  | Some existing =>
      if is_aead_payload_v2 existing then mret (Some existing)
      else if is_aead_payload existing then fail (legacy_error label)
      else
        encrypted ← encrypt_with_new_aead (as_bytes existing) aad label;
        mret (Some encrypted)
  | None => mret None
  end.

Definition ensure_aead_encrypted_required (value : string) (aad : bytes)
    (label field : string) : M string :=
  r ← ensure_aead_encrypted (Some value) aad label;
  lift (ok_or r (missing_error field)).

Definition decrypt_aead_optional (value : option string) (aad : bytes) (label : string) :
    M (option string) :=
  match value with
  | Some v =>
      if is_aead_payload_v2 v then
        plaintext ← decrypt_with_broker v aad label;
        mret (Some plaintext)
      else if is_aead_payload v then fail (legacy_error label)
      else fail (plaintext_error label)
  | None => mret None
  end.

Definition decrypt_aead_required (value : string) (aad : bytes) (label field : string) :
    M string :=
  r ← decrypt_aead_optional (Some value) aad label;
  lift (ok_or r (missing_error field)).

(** ** Metrics *)

Definition metric_count (name : string) (label : option string) (w : World) : nat :=
  length (filter (λ m, m = {| m_name := name; m_label := label |}) (w_metrics w)).

Lemma metric_count_app n l w ms :
  metric_count n l (mk_world (w_tick w) (w_db w) (w_broker w) (w_metrics w ++ ms)) =
  metric_count n l w +
    length (filter (λ m, m = {| m_name := n; m_label := l |}) ms).
Proof. unfold metric_count. simpl. by rewrite filter_app, length_app. Qed.

(** [m] appends the metrics [ms r] when its outcome is [r]. *)
Definition emits {E A} (m : eff World E A) (w : World) (ms : list Metric) : Prop :=
  w_metrics (snd (m w)) = w_metrics w ++ ms.

Definition metric (n : string) (l : option string) : Metric :=
  {| m_name := n; m_label := l |}.

Definition encrypt_metrics (label : string) (minted succeeded : bool) : list Metric :=
  [metric "secure_database_aead_encrypt_attempt_total" (Some label);
   metric "secure_database_broker_aead_v2_request_total" None;
   metric (if minted then "secure_database_broker_aead_v2_success_total"
           else "secure_database_broker_aead_v2_failure_total") None;
   metric (if succeeded then "secure_database_aead_encrypt_success_total"
           else "secure_database_aead_encrypt_failure_total") (Some label)].

Ltac emitted := cbv [counter modify fail mret eff_ret mbind eff_bind]; cbn;
  by rewrite <-?app_assoc.

Lemma encrypt_emits p aad label w :
  ∃ minted, emits (encrypt_with_new_aead p aad label) w
    (encrypt_metrics label minted (is_ok (fst (encrypt_with_new_aead p aad label w)))).
Proof.
  unfold emits, encrypt_with_new_aead.
  erewrite !eff_bind_step by (unfold counter, modify; reflexivity).
  rewrite !bind_attempt. unfold mint_aead_key_v2. rewrite counted_run.
  destruct (adapter_mint_aead_key_v2 _ _ _) as [[lease|e] b]; cbn [fst snd];
    [exists true|exists false; emitted].
  destruct (lease_redeem_token lease); [|emitted].
  rewrite !bind_attempt. unfold aes_encrypt_with_aad, fill_nonce, mbind, eff_bind.
  cbn [w_tick]. destruct (rng_fill_nonce _); cbn [ok_or]; [|emitted].
  destruct (unbound_key_ok _); [|emitted].
  destruct (seal_in_place_append_tag _ _ _ _); emitted.
Qed.

Lemma decrypt_emits s aad label w :
  ∃ ms, emits (decrypt_with_broker s aad label) w
    (ms ++ [metric (if is_ok (fst (decrypt_with_broker s aad label w))
                    then "secure_database_aead_decrypt_success_total"
                    else "secure_database_aead_decrypt_failure_total") (Some label)]) ∧
    Forall (λ m, m_label m = None) ms.
Proof.
  unfold emits, decrypt_with_broker, decrypt_failure.
  destruct (decode_aead_payload s) as [[[h [t|]] c]|e];
    [|exists []; split; [emitted|done]..].
  rewrite !bind_attempt, unwrap_with_token_run.
  destruct (adapter_unwrap_secret_v2 _ _ _) as [[k|e] b]; cbn [fst snd];
    (eexists [metric _ None; metric _ None]; split;
      [|by repeat constructor]); [|emitted].
  rewrite !bind_attempt. unfold renew_lease, adapter. cbn [w_tick w_broker].
  destruct (adapter_renew_lease _ _ _ _) as [r b']. cbn [fst snd].
  destruct (aes_decrypt_with_aad k c aad) as [p|e]; [|emitted].
  destruct (from_utf8 p); emitted.
Qed.

(** Observability counts every operation exactly once: an encryption adds
    one attempt and exactly one of success and failure, according to its
    outcome; a decryption adds exactly one of success and failure. *)
Theorem metrics_account p aad s label w :
  let name n := "secure_database_aead_" +:+ n in
  let c n := metric_count (name n) (Some label) in
  (let '(r, w') := encrypt_with_new_aead p aad label w in
    c "encrypt_attempt_total" w' = c "encrypt_attempt_total" w + 1 ∧
    c "encrypt_success_total" w' =
      c "encrypt_success_total" w + (if is_ok r then 1 else 0) ∧
    c "encrypt_failure_total" w' =
      c "encrypt_failure_total" w + (if is_ok r then 0 else 1)) ∧
  (let '(r, w') := decrypt_with_broker s aad label w in
    c "decrypt_success_total" w' =
      c "decrypt_success_total" w + (if is_ok r then 1 else 0) ∧
    c "decrypt_failure_total" w' =
      c "decrypt_failure_total" w + (if is_ok r then 0 else 1)).
Proof.
  cbv zeta beta. split.
  - destruct (encrypt_emits p aad label w) as [minted He]. unfold emits in He.
    destruct (encrypt_with_new_aead p aad label w) as [r w']. cbn [fst snd] in He.
    unfold metric_count. rewrite He, !filter_app, !length_app.
    unfold encrypt_metrics, metric. destruct minted, (is_ok r);
      repeat (rewrite filter_cons; case_decide; try done); cbn; lia.
  - destruct (decrypt_emits s aad label w) as (ms & Hd & Hms). unfold emits in Hd.
    destruct (decrypt_with_broker s aad label w) as [r w']. cbn [fst snd] in Hd.
    unfold metric_count. rewrite Hd, !filter_app, !length_app.
    assert (∀ n, filter (λ m, m = metric n (Some label)) ms = []) as Hnil.
    { intros n. clear Hd. induction Hms as [|m ms Hm _ IH]; [done|].
      by rewrite filter_cons_False by (by intros ->). }
    unfold metric in *. rewrite !Hnil. destruct (is_ok r);
      repeat (rewrite filter_cons; case_decide; try done); cbn; lia.
Qed.

(** ** Associated data *)

Lemma aad_text table field row purpose :
  String.string_of_list_byte (record_bound_aad table field row purpose) =
  "schema:v2" +:+ String NUL ("table:" +:+ table +:+ String NUL
    ("field:" +:+ field +:+ String NUL ("row:" +:+ uuid_to_string row +:+
      String NUL (String.string_of_list_byte purpose)))).
Proof.
  unfold record_bound_aad. rewrite <-(byte_list_string_id purpose) at 1.
  fold (as_bytes (String.string_of_list_byte purpose)).
  rewrite <-as_bytes_app. unfold as_bytes. rewrite list_byte_string_id.
  repeat (rewrite string_app_assoc || rewrite string_app_cons). done.
Qed.

Lemma record_bound_aad_inj `{!UuidLaws} t1 f1 (r1 : Uuid) p1 t2 f2 r2 p2 :
  no_char NUL t1 → no_char NUL t2 → no_char NUL f1 → no_char NUL f2 →
  record_bound_aad t1 f1 r1 p1 = record_bound_aad t2 f2 r2 p2 →
  t1 = t2 ∧ f1 = f2 ∧ r1 = r2 ∧ p1 = p2.
Proof.
  intros Ht1 Ht2 Hf1 Hf2 E. apply (f_equal String.string_of_list_byte) in E.
  rewrite !aad_text in E. apply string_app_inj_l in E. injection E as E.
  apply (app_sep_inj NUL) in E as [-> E]; [|done..].
  injection E as E. apply (app_sep_inj NUL) in E as [-> E]; [|done..].
  injection E as E.
  apply (app_sep_inj NUL) in E as [Er E]; [|apply uuid_no_nul..].
  apply uuid_to_string_inj in Er as ->. split_and!; try done.
  by rewrite <-(byte_list_string_id p1), E, byte_list_string_id.
Qed.

(** C6. The associated data of a protected value determines the table, the
    field, the record and the purpose it was built from: two protected
    positions never share associated data. (Table and field names are the
    crate's own literals, which contain no NUL.) *)
Theorem record_bound_aad_injective `{!UuidLaws} t1 f1 (r1 : Uuid) p1 t2 f2 r2 p2 :
  no_char NUL t1 → no_char NUL t2 → no_char NUL f1 → no_char NUL f2 →
  record_bound_aad t1 f1 r1 p1 = record_bound_aad t2 f2 r2 p2 →
  t1 = t2 ∧ f1 = f2 ∧ r1 = r2 ∧ p1 = p2.
Proof. apply record_bound_aad_inj. Qed.

(** ** Keys at the broker *)

Context `{!BrokerLaws}.

(** What the broker issued before is issued after. *)
Definition keeps_keys (w w' : World) : Prop :=
  ∀ h t k, bound (w_broker w) h t k → bound (w_broker w') h t k.

(** In state [w'] the broker redeems what it had issued by state [w]. *)
Definition serves (w w' : World) : Prop :=
  ∀ h t k, bound (w_broker w) h t k →
    fst (adapter_unwrap_secret_v2 (token_params h t) (w_tick w') (w_broker w')) = Ok k.

(** The calls in which the broker refused to redeem a token, as the client
    counts them. *)
Definition refusals (w : World) : nat :=
  metric_count "secure_database_broker_unwrap_v2_failure_total" None w.

#[export] Instance keeps_keys_refl : Reflexive keeps_keys.
Proof. by intros w h t k. Qed.
#[export] Instance keeps_keys_trans : Transitive keeps_keys.
Proof. intros w1 w2 w3 E1 E2 h t k Hk. by apply E2, E1. Qed.

Lemma same_broker_keeps {E A} (m : eff World E A) :
  preserves same_broker m → preserves keeps_keys m.
Proof. intros Hm w h t k. by rewrite (Hm w). Qed.

Lemma mint_keeps_keys p : preserves keeps_keys (mint_aead_key_v2 p).
Proof.
  intros w h t k Hk. unfold mint_aead_key_v2. rewrite counted_run.
  pose proof (mint_keeps p (w_tick w) (w_broker w) h t k Hk) as Hm.
  by destruct (adapter_mint_aead_key_v2 _ _ _).
Qed.
Lemma unwrap_keeps_keys h0 t0 : preserves keeps_keys (unwrap_secret_v2_with_token h0 t0).
Proof.
  intros w h t k Hk. rewrite unwrap_with_token_run.
  pose proof (unwrap_keeps (w_tick w) (w_broker w) h t k (trim h0) (trim t0) Hk) as Hm.
  by destruct (adapter_unwrap_secret_v2 _ _ _).
Qed.
Lemma renew_keeps_keys h0 n : preserves keeps_keys (renew_lease h0 n).
Proof.
  intros w h t k Hk. unfold renew_lease, adapter.
  pose proof (renew_keeps (w_tick w) (w_broker w) h t k h0 n Hk) as Hm.
  by destruct (adapter_renew_lease _ _ _ _).
Qed.
Lemma aes_encrypt_same_broker k p a : preserves same_broker (aes_encrypt_with_aad k p a).
Proof. unfold aes_encrypt_with_aad. solve_preserves. Qed.
Lemma aes_encrypt_same_db k p a : preserves same_db (aes_encrypt_with_aad k p a).
Proof. unfold aes_encrypt_with_aad. solve_preserves. Qed.
Lemma counter_keeps_keys {E} n l : preserves keeps_keys (counter (E:=E) n l).
Proof. apply same_broker_keeps. auto with sdb. Qed.
Lemma execute_keeps_keys {A} (q : stmt A) : preserves keeps_keys (execute q).
Proof. apply same_broker_keeps. auto with sdb. Qed.
Lemma aes_encrypt_keeps_keys k p a : preserves keeps_keys (aes_encrypt_with_aad k p a).
Proof. apply same_broker_keeps, aes_encrypt_same_broker. Qed.
Lemma renew_same_db h n : preserves same_db (renew_lease h n).
Proof. unfold renew_lease. solve_preserves. Qed.
Lemma unwrap_same_db h t : preserves same_db (unwrap_secret_v2_with_token h t).
Proof. unfold unwrap_secret_v2_with_token, unwrap_secret_v2. solve_preserves. Qed.
Lemma mint_same_db p : preserves same_db (mint_aead_key_v2 p).
Proof. unfold mint_aead_key_v2. solve_preserves. Qed.

#[local] Hint Resolve mint_keeps_keys unwrap_keeps_keys renew_keeps_keys
  counter_keeps_keys execute_keeps_keys aes_encrypt_keeps_keys aes_encrypt_same_db
  renew_same_db unwrap_same_db mint_same_db : sdb.

Lemma encrypt_same_db p a l : preserves same_db (encrypt_with_new_aead p a l).
Proof. unfold encrypt_with_new_aead. solve_preserves. Qed.
Lemma encrypt_keeps_keys p a l : preserves keeps_keys (encrypt_with_new_aead p a l).
Proof. unfold encrypt_with_new_aead. solve_preserves. Qed.
Lemma encrypt_later p a l : preserves later (encrypt_with_new_aead p a l).
Proof.
  unfold encrypt_with_new_aead, aes_encrypt_with_aad, mint_aead_key_v2. solve_preserves.
Qed.
#[local] Hint Resolve encrypt_same_db encrypt_keeps_keys : sdb.
Lemma decrypt_same_db s a l : preserves same_db (decrypt_with_broker s a l).
Proof. unfold decrypt_with_broker, decrypt_failure. solve_preserves. Qed.
Lemma decrypt_keeps_keys s a l : preserves keeps_keys (decrypt_with_broker s a l).
Proof. unfold decrypt_with_broker, decrypt_failure. solve_preserves. Qed.
#[local] Hint Resolve decrypt_same_db decrypt_keeps_keys : sdb.
Lemma ensure_same_db v a l : preserves same_db (ensure_aead_encrypted v a l).
Proof. unfold ensure_aead_encrypted. solve_preserves. Qed.
Lemma ensure_keeps_keys v a l : preserves keeps_keys (ensure_aead_encrypted v a l).
Proof. unfold ensure_aead_encrypted. solve_preserves. Qed.
Lemma decrypt_optional_same_db v a l : preserves same_db (decrypt_aead_optional v a l).
Proof. unfold decrypt_aead_optional. solve_preserves. Qed.
Lemma decrypt_later s a l : preserves later (decrypt_with_broker s a l).
Proof.
  unfold decrypt_with_broker, decrypt_failure, renew_lease, unwrap_secret_v2_with_token,
    unwrap_secret_v2. solve_preserves.
Qed.
#[local] Hint Resolve decrypt_later : sdb.
Lemma decrypt_optional_later v a l : preserves later (decrypt_aead_optional v a l).
Proof. unfold decrypt_aead_optional. solve_preserves. Qed.
Lemma decrypt_optional_keeps_keys v a l : preserves keeps_keys (decrypt_aead_optional v a l).
Proof. unfold decrypt_aead_optional. solve_preserves. Qed.

(** ** Encryption and decryption of one field *)

Context `{!Base64Laws, !RingLaws, !HostLaws}.

(** [stored] is the payload of [plain], bound to [aad], under the key that the
    broker issued for the payload's handle and token. *)
Definition protects (b : Broker) (aad : bytes) (stored : string) (plain : bytes) : Prop :=
  ∃ h tok key c,
    stored = encode_aead_payload h tok c ∧
    utf8_valid h = true ∧ utf8_valid tok = true ∧
    bound b (trim h) (trim tok) key ∧ sealed key aad plain c.

Lemma protects_v2 b aad s p : protects b aad s p → is_aead_payload_v2 s = true.
Proof. intros (h & t & k & c & -> & _). apply encode_is_v2. Qed.

Lemma protects_keeps w w' aad s p :
  keeps_keys w w' → protects (w_broker w) aad s p → protects (w_broker w') aad s p.
Proof.
  intros Hk (h & t & k & c & Hs & Hh & Ht & Hon & Hse).
  exists h, t, k, c. split_and!; auto.
Qed.

Lemma encrypt_protects p aad label w s w' :
  encrypt_with_new_aead p aad label w = (Ok s, w') → protects (w_broker w') aad s p.
Proof.
  unfold encrypt_with_new_aead. intros Hrun. inv_run Hrun.
  destruct a0 as [lease|err]; [|inv_run Hrun].
  destruct (lease_redeem_token lease) as [tok|] eqn:Htok; [|inv_run Hrun].
  inv_run Hrun. destruct a0 as [c|err]; [|inv_run Hrun]. inv_run Hrun.
  apply aes_encrypt_sealed in Hrun2 as [Hse ->].
  unfold mint_aead_key_v2 in Hrun1. rewrite counted_run in Hrun1.
  destruct (adapter_mint_aead_key_v2 _ _ _) as [r b] eqn:Em. injection Hrun1 as -> <-.
  exists (lease_handle lease), tok, (lease_key lease), c. simpl.
  pose proof (mint_utf8 _ _ _ _ _ _ Em Htok) as [? ?].
  split_and!; try done.
  apply modify_Ok in Hrun3 as ->. by eapply mint_bound.
Qed.

(** From [w] on, the broker answers [e] to redeeming a token of a key that it
    issued. *)
Definition refused (w : World) (e : AnyhowError) : Prop := ∃ w' h t k,
  later w w' ∧ bound (w_broker w') h t k ∧
  fst (adapter_unwrap_secret_v2 (token_params h t) (w_tick w') (w_broker w')) = Err e.

#[local] Ltac count_metrics :=
  unfold refusals, metric_count;
  cbv [counter modify fail mret eff_ret mbind eff_bind]; cbn [fst snd w_metrics is_ok];
  rewrite ?filter_app, ?length_app;
  repeat (rewrite filter_cons; case_decide; try done); cbn; lia.

(** Redeeming the token of a key gives the key, or is refused and counted. *)
Lemma unwrap_bound h t k w :
  bound (w_broker w) (trim h) (trim t) k →
  let r := fst (unwrap_secret_v2_with_token h t w) in
  let w' := snd (unwrap_secret_v2_with_token h t w) in
  r = Ok k ∧ refusals w' = refusals w ∨
  (∃ e, refused w e ∧ r = Err e) ∧ refusals w' = S (refusals w).
Proof.
  intros Hb. rewrite unwrap_with_token_run.
  destruct (adapter_unwrap_secret_v2 _ _ _) as [[k'|e] b] eqn:E; cbn [fst snd].
  - left. assert (k' = k) as -> by (eapply unwrap_faithful; [exact Hb|by rewrite E]).
    split; [done|]. count_metrics.
  - right. split; [|count_metrics]. exists e. split; [|done].
    exists w, (trim h), (trim t), k. by rewrite E.
Qed.

(** The run of [m] reads [a], or fails because the broker refused to redeem a
    key, with the broker's error; the client counts the refusal. *)
Definition reads_or_refused {A} (a : A) (m : M A) (w : World) : Prop :=
  fst (m w) = Ok a ∧ refusals (snd (m w)) = refusals w ∨
  (∃ e, refused w e ∧ fst (m w) = Err (Encryption (anyhow_display e))) ∧
  refusals (snd (m w)) = S (refusals w).

Lemma reads_ret {A} (a : A) w : reads_or_refused a (mret a) w.
Proof. by left. Qed.

Lemma reads_bind {A B} (m : M A) (f : A → M B) a b w :
  preserves later m → reads_or_refused a m w →
  (∀ w1, m w = (Ok a, w1) → reads_or_refused b (f a) w1) →
  reads_or_refused b (m ≫= f) w.
Proof.
  intros Hl Hm Hf. unfold reads_or_refused, mbind, eff_bind in *. specialize (Hl w).
  destruct (m w) as [[a'|e'] w1]; cbn [fst snd] in *;
    destruct Hm as [[E Hr]|[(e & He & E) Hr]]; try discriminate E; injection E as ->.
  - destruct (Hf w1 eq_refl) as [[E Hr1]|[(e & He & E) Hr1]]; [left; split; [done|congruence]|].
    right. split; [|congruence]. exists e. split; [|done].
    destruct He as (w' & h & t & k & Hw' & Hk). exists w', h, t, k. split; [by etrans|done].
  - right. split; [by exists e|done].
Qed.

(** Decrypting what protects a text reads the text. *)
Lemma decrypt_protects w aad s p label text :
  protects (w_broker w) aad s p → from_utf8 p = Some text →
  reads_or_refused text (decrypt_with_broker s aad label) w.
Proof.
  intros (h & t & k & c & -> & Hh & Ht & Hon & Hse) Htext.
  unfold reads_or_refused, decrypt_with_broker. rewrite decode_encode_payload by done.
  rewrite bind_attempt. pose proof (unwrap_bound h t k w Hon) as Hu. cbv zeta in Hu.
  destruct (unwrap_secret_v2_with_token h t w) as [r w1]. cbn [fst snd] in Hu.
  destruct Hu as [[-> Hr]|[(e & He & ->) Hr]]; [left|right].
  - cbn [fst snd]. rewrite !bind_attempt. unfold renew_lease, adapter.
    destruct (adapter_renew_lease _ _ _ _) as [r b].
    rewrite aes_decrypt_sealed with (p := p) by done. rewrite Htext.
    split; [done|]. rewrite <-Hr. count_metrics.
  - split; [by exists e|]. rewrite <-Hr. unfold decrypt_failure. count_metrics.
Qed.

(** C1. A value encrypted for a protected field is a v2 payload; whatever
    happens afterwards at the broker, decrypting it with the same associated
    data gives the original text or an error; and it gives the text in every
    state in which the broker still redeems the keys it had issued by then.
    Neither operation touches the tables. *)
Theorem field_round_trip text aad label w s w1 w2 label' :
  utf8_valid text = true →
  encrypt_with_new_aead (as_bytes text) aad label w = (Ok s, w1) →
  is_aead_payload_v2 s = true ∧ w_db w1 = w_db w ∧
  (keeps_keys w1 w2 → ∀ r w3, decrypt_with_broker s aad label' w2 = (Ok r, w3) → r = text) ∧
  (serves w1 w2 →
    ∃ w3, decrypt_with_broker s aad label' w2 = (Ok text, w3) ∧ w_db w3 = w_db w2).
Proof.
  intros Hu He. pose proof (encrypt_protects _ _ _ _ _ _ He) as Hp.
  pose proof (from_utf8_as_bytes text Hu) as Htext.
  split_and!; [by eapply protects_v2| | |].
  - pose proof (encrypt_same_db (as_bytes text) aad label w) as Hdb. by rewrite He in Hdb.
  - intros Hk r w3 Hd.
    destruct (decrypt_protects w2 aad s (as_bytes text) label' text) as [[E _]|[(e & _ & E) _]];
      [by eapply protects_keeps|done|..]; rewrite Hd in E; naive_solver.
  - intros Hs. destruct Hp as (h & t & k & c & -> & Hh & Ht & Hon & Hse).
    pose proof (decrypt_same_db (encode_aead_payload h t c) aad label' w2) as Hdb.
    assert (fst (decrypt_with_broker (encode_aead_payload h t c) aad label' w2) = Ok text) as E.
    { unfold decrypt_with_broker. rewrite decode_encode_payload by done.
      rewrite bind_attempt, unwrap_with_token_run. specialize (Hs _ _ _ Hon).
      destruct (adapter_unwrap_secret_v2 _ _ _) as [r b]. cbn [fst] in Hs. subst r.
      cbn [fst snd]. rewrite bind_attempt, aes_decrypt_sealed with (p := as_bytes text) by done.
      by rewrite Htext. }
    destruct (decrypt_with_broker _ _ _ _) as [r w3]. cbn in E. subst r. by exists w3.
Qed.

(** C5. Transplanting a ciphertext: if a stored value that protects a field of
    one record is moved to another protected position and decryption accepts
    it there, then the run itself is a forgery against AES-GCM: the key that
    the broker issued for this value's handle and token, and that this run
    redeemed, opens this value's ciphertext, which was sealed under it with the
    associated data of the first position, under the different associated data
    of the second, and the text that is returned is what it opens to. *)
Theorem transplant_is_forgery `{!UuidLaws} t1 f1 (r1 : Uuid) p1 t2 f2 r2 p2 w s plain label text w' :
  no_char NUL t1 → no_char NUL t2 → no_char NUL f1 → no_char NUL f2 →
  (t1, f1, r1) ≠ (t2, f2, r2) →
  protects (w_broker w) (record_bound_aad t1 f1 r1 p1) s plain →
  decrypt_with_broker s (record_bound_aad t2 f2 r2 p2) label w = (Ok text, w') →
  ∃ h tok c key, s = encode_aead_payload h tok c ∧
    bound (w_broker w) (trim h) (trim tok) key ∧
    fst (unwrap_secret_v2_with_token h tok w) = Ok key ∧
    record_bound_aad t1 f1 r1 p1 ≠ record_bound_aad t2 f2 r2 p2 ∧
    sealed key (record_bound_aad t1 f1 r1 p1) plain c ∧
    aes_decrypt_with_aad key c (record_bound_aad t2 f2 r2 p2) = Ok (as_bytes text).
Proof.
  intros Ht1 Ht2 Hf1 Hf2 Hne (h & t & k & c & -> & Hh & Ht & Hon & Hse) Hd.
  exists h, t, c, k. unfold decrypt_with_broker, decrypt_failure in Hd.
  rewrite decode_encode_payload, bind_attempt in Hd by done.
  pose proof (unwrap_bound h t k w Hon) as Hu. cbv zeta in Hu.
  destruct (unwrap_secret_v2_with_token h t w) as [r w1]. cbn [fst snd] in *.
  destruct Hu as [[-> _]|[(e & _ & ->) _]]; [|by inv_run Hd]. rewrite bind_attempt in Hd.
  split_and!; try done.
  { intros E. apply record_bound_aad_inj in E as (-> & -> & -> & _); done. }
  destruct (aes_decrypt_with_aad k c _) as [p'|e]; [|by inv_run Hd].
  destruct (from_utf8 p') as [x|] eqn:Ex; [|by inv_run Hd].
  inv_run Hd. by apply from_utf8_Some in Ex as [<- _].
Qed.

(** C18. A protected column that holds anything but a v2 payload is refused:
    plaintext and v1 payloads give their own errors, no key is redeemed, no
    metric moves and the state is unchanged; and a read that succeeds read a
    v2 payload (or an absent value). *)
Theorem decrypt_rejects_unprotected v aad label w :
  (is_aead_payload v = false →
    decrypt_aead_optional (Some v) aad label w = (Err (plaintext_error label), w)) ∧
  (starts_with AEAD_PREFIX_V1 v = true →
    decrypt_aead_optional (Some v) aad label w = (Err (legacy_error label), w)) ∧
  (∀ r w', decrypt_aead_optional (Some v) aad label w = (Ok r, w') →
    is_aead_payload_v2 v = true ∧ is_Some r).
Proof.
  unfold decrypt_aead_optional, is_aead_payload, is_aead_payload_v2. split_and!.
  - intros [-> ->]%orb_false_iff. done.
  - intros Hv1. pose proof Hv1 as [r ->]%starts_with_true.
    rewrite Hv1. done.
  - intros r w' Hrun. destruct (starts_with AEAD_PREFIX_V2 v).
    + inv_run Hrun. split; eauto.
    + by destruct (_ || _).
Qed.

(** C7. What [ensure_aead_encrypted] hands to the database is never
    plaintext: on every path that succeeds, a present value comes back as a
    v2 payload, an absent one as absent; a v1 payload is refused; a v2
    payload is passed through without asking the broker. *)
Theorem ensure_encrypts value aad label w :
  (∀ r w', ensure_aead_encrypted value aad label w = (Ok r, w') →
    match value, r with
    | Some v, Some s => is_aead_payload_v2 s = true ∧
        (is_aead_payload v = false → protects (w_broker w') aad s (as_bytes v)) ∧
        (is_aead_payload v = true → s = v ∧ w' = w)
    | None, None => w' = w
    | _, _ => False
    end) ∧
  (∀ v, value = Some (AEAD_PREFIX_V1 +:+ v) →
    ensure_aead_encrypted value aad label w = (Err (legacy_error label), w)).
Proof.
  unfold ensure_aead_encrypted. split; [|by intros v ->].
  intros r w' Hrun. destruct value as [v|]; [|by inv_run Hrun].
  destruct (is_aead_payload_v2 v) eqn:E2.
  { inv_run Hrun. rewrite is_v2_is_payload by done. done. }
  destruct (is_aead_payload v) eqn:E; [inv_run Hrun|].
  inv_run Hrun. apply encrypt_protects in Hrun0.
  split_and!; [by eapply protects_v2|done|done].
Qed.
End protected.
End Protected.

#[export] Hint Resolve Protected.counter_keeps_keys Protected.execute_keeps_keys
  Protected.encrypt_same_db Protected.encrypt_later Protected.encrypt_keeps_keys Protected.decrypt_same_db
  Protected.decrypt_keeps_keys Protected.ensure_same_db Protected.ensure_keeps_keys
  Protected.decrypt_optional_same_db Protected.decrypt_optional_keeps_keys
  Protected.decrypt_later Protected.decrypt_optional_later Protected.reads_ret : sdb.

(** ** Concrete runs *)
Section concrete.
Import Ref Protected.

Definition ex_aad : bytes :=
  record_bound_aad "gateway_secrets.tor_auth_sessions" "client_onion" 7%N CLIENT_ONION_AAD.
Definition ex_encrypted : result DatabaseError string * World :=
  encrypt_with_new_aead (as_bytes "abc.onion") ex_aad "tor-session-client-onion" ref_world.
Definition ex_stored : string :=
  unwrap_or "" (fst ex_encrypted).

Lemma record_bound_aad_injective_witness :
  record_bound_aad "t" "f" 1%N REDEEMED_ONION_AAD ≠ record_bound_aad "t" "f" 2%N REDEEMED_ONION_AAD.
Proof.
  intros E.
  pose proof (record_bound_aad_injective "t" "f" 1%N REDEEMED_ONION_AAD "t" "f" 2%N
    REDEEMED_ONION_AAD eq_refl eq_refl eq_refl eq_refl E) as (_ & _ & Hr & _).
  discriminate Hr.
Defined.

Lemma ref_serves (w : World) : serves w w.
Proof. intros h t k Hk. cbn in Hk |- *. by rewrite Hk. Qed.

Lemma field_round_trip_witness :
  is_aead_payload_v2 ex_stored = true ∧ w_db (snd ex_encrypted) = w_db ref_world ∧
  ∃ w3, decrypt_with_broker ex_stored ex_aad "l" (snd ex_encrypted) = (Ok "abc.onion", w3) ∧
    w_db w3 = w_db (snd ex_encrypted).
Proof.
  destruct (field_round_trip "abc.onion" ex_aad "tor-session-client-onion" ref_world ex_stored
    (snd ex_encrypted) (snd ex_encrypted) "l") as (Hv & Hdb & _ & Hr).
  - reflexivity.
  - apply (run_eta EmptyString). vm_compute. reflexivity.
  - split; [exact Hv|]. split; [exact Hdb|]. apply Hr, ref_serves.
Defined.

Lemma decrypt_rejects_unprotected_witness :
  decrypt_aead_optional (Some "abc.onion") ex_aad "l" ref_world =
    (Err (Encryption "plaintext in protected field l"), ref_world) ∧
  decrypt_aead_optional (Some "aead:v1:00:00") ex_aad "l" ref_world =
    (Err (Encryption "legacy AEAD payload in protected field l; canonical v2 required"),
     ref_world).
Proof.
  split.
  - apply (decrypt_rejects_unprotected "abc.onion" ex_aad "l" ref_world). reflexivity.
  - apply (decrypt_rejects_unprotected "aead:v1:00:00" ex_aad "l" ref_world). reflexivity.
Defined.

Lemma ensure_encrypts_witness :
  ensure_aead_encrypted (Some (AEAD_PREFIX_V1 +:+ "00:00")) ex_aad "l" ref_world =
    (Err (Encryption "legacy AEAD payload in protected field l; canonical v2 required"),
     ref_world).
Proof.
  apply (ensure_encrypts (Some (AEAD_PREFIX_V1 +:+ "00:00")) ex_aad "l" ref_world) with "00:00".
  reflexivity.
Defined.
End concrete.

(** With a cipher whose tag ignores the associated data, a transplanted value is
    accepted, and the forgery is there. *)
Section weak_cipher.
Import Ref Protected.

Definition ex_id1 : Uuid := 1%N.
Definition ex_id2 : Uuid := 2%N.

Definition weak_ring : Ring := {|
  unbound_key_ok k := bool_decide (length k = 32);
  nonce_ok n := bool_decide (length n = 12);
  seal_in_place_append_tag k n aad p := Some (p ++ n_bytes 16 0);
  open_in_place k n aad c := Some (take (length c - 16) c);
|}.
#[local] Existing Instance weak_ring.
Lemma weak_ring_laws : RingLaws.
Proof.
  split; simpl.
  - intros k. apply bool_decide_eq_true.
  - intros n. apply bool_decide_eq_true.
  - intros. simplify_eq. by rewrite length_app, n_bytes_length.
  - intros k n aad p c _ _ [= <-].
    by rewrite length_app, n_bytes_length, Nat.add_sub, take_app_length.
  - eauto.
Qed.
#[local] Existing Instance weak_ring_laws.

Definition ex_weak_encrypted : result DatabaseError string * World :=
  encrypt_with_new_aead (as_bytes "abc.onion") (record_bound_aad "t" "f" ex_id1 []) "l" ref_world.
Definition ex_weak_stored : string :=
  unwrap_or "" (fst ex_weak_encrypted).

Lemma transplant_is_forgery_witness :
  ∃ h tok c key, ex_weak_stored = encode_aead_payload h tok c ∧
    bound (w_broker (snd ex_weak_encrypted)) (trim h) (trim tok) key ∧
    fst (unwrap_secret_v2_with_token h tok (snd ex_weak_encrypted)) = Ok key ∧
    record_bound_aad "t" "f" ex_id1 [] ≠ record_bound_aad "t" "f" ex_id2 [] ∧
    sealed key (record_bound_aad "t" "f" ex_id1 []) (as_bytes "abc.onion") c ∧
    aes_decrypt_with_aad key c (record_bound_aad "t" "f" ex_id2 []) = Ok (as_bytes "abc.onion").
Proof.
  apply (transplant_is_forgery "t" "f" ex_id1 [] "t" "f" ex_id2 [] (snd ex_weak_encrypted)
    ex_weak_stored (as_bytes "abc.onion") "l" "abc.onion"
    (snd (decrypt_with_broker ex_weak_stored (record_bound_aad "t" "f" ex_id2 []) "l"
            (snd ex_weak_encrypted)))).
  - reflexivity.
  - reflexivity.
  - reflexivity.
  - reflexivity.
  - discriminate.
  - apply (encrypt_protects (as_bytes "abc.onion") (record_bound_aad "t" "f" ex_id1 []) "l"
      ref_world). apply (run_eta EmptyString). vm_compute. reflexivity.
  - apply run_fst. vm_compute. reflexivity.
Defined.
End weak_cipher.
