(* ===== verification/TorAuth.v ===== *)
(** * Tor credentials, sessions and tickets (src/tor_auth.rs, lines 25-1018)

    The records and the [PgPool] methods of the module. A statement is a [stmt]
    over the tables, with the constraints of migrations/0001_initial.sql; a
    method composes broker calls and statements in the order of the code. The
    theorems are in [TorAuthProps.v]. *)
From S2P Require Import Prelude RustStd Platform World Sql Aead Broker Protected.
Import Payload Protected.
Local Open Scope Z_scope.

Module TorAuth.
Section records.
Context `{UuidApi}.

Record TorCredential := {
  tc_id : Uuid;
  tc_onion_entry : string;
  tc_tier : string;
  tc_credential_hash : string;
  tc_operational_onion : option string;
  tc_guard_nodes : list string;
  tc_created_at : DateTime;
  tc_updated_at : DateTime;
  tc_expires_at : option DateTime;
  tc_disabled : bool;
  tc_rate_limit_per_minute : Z;
  tc_last_rotated_at : option DateTime;
}.

Record TorSessionRecord := {
  ts_id : Uuid;
  ts_credential_id : Uuid;
  ts_circuit_id : option string;
  ts_fingerprint : option string;
  ts_guard_nodes : list string;
  ts_client_onion : option string;
  ts_expires_at : option DateTime;
}.

Record TorCredentialRow := {
  tcr_id : Uuid;
  tcr_onion_entry : string;
  tcr_tier : string;
  tcr_credential_hash : string;
  tcr_operational_onion : option string;
  tcr_guard_nodes : option (list string);
  tcr_created_at : DateTime;
  tcr_updated_at : DateTime;
  tcr_expires_at : option DateTime;
  tcr_disabled : bool;
  tcr_rate_limit_per_minute : Z;
  tcr_last_rotated_at : option DateTime;
}.

(** [impl From<TorCredentialRow> for TorCredential] *)
Definition credential_from_row (row : TorCredentialRow) : TorCredential := {|
  tc_id := tcr_id row;
  tc_onion_entry := tcr_onion_entry row;
  tc_tier := tcr_tier row;
  tc_credential_hash := tcr_credential_hash row;
  tc_operational_onion := tcr_operational_onion row;
  tc_guard_nodes := default [] (tcr_guard_nodes row);
  tc_created_at := tcr_created_at row;
  tc_updated_at := tcr_updated_at row;
  tc_expires_at := tcr_expires_at row;
  tc_disabled := tcr_disabled row;
  tc_rate_limit_per_minute := tcr_rate_limit_per_minute row;
  tc_last_rotated_at := tcr_last_rotated_at row;
|}.

Record IssuedTorAccessTicket := {
  it_id : Uuid;
  it_credential_id : Uuid;
  it_entry_onion : string;
  it_client_fingerprint : option string;
  it_created_at : DateTime;
  it_expires_at : DateTime;
  it_redeemed_at : option DateTime;
  it_redeemed_operational_onion : option string;
  it_client_auth_public_key : string;
  it_client_auth_secret_path : string;
  it_client_auth_secret_redeem_token : option string;
  it_attestation_session_id : Uuid;
  it_attestation_nonce_digest : string;
  it_attestation_quote_hash : string;
  it_attested_at : DateTime;
  it_tee_kind : string;
  it_tee_label : option string;
  it_tee_policy : option string;
  it_tls_pubkey_digest : string;
}.

(** [TicketVerificationRecord]; [TicketVerificationRow] has the same fields,
    with the protected ones encrypted. *)
Record TicketVerificationRecord := {
  tv_id : Uuid;
  tv_credential_id : Uuid;
  tv_token_hash : string;
  tv_client_fingerprint : option string;
  tv_expires_at : DateTime;
  tv_redeemed_at : option DateTime;
  tv_client_auth_public_key : string;
  tv_client_auth_secret_path : string;
  tv_client_auth_secret_redeem_token : option string;
  tv_attestation_session_id : Uuid;
  tv_attestation_nonce_digest : string;
  tv_attestation_quote_hash : string;
  tv_attested_at : DateTime;
  tv_tee_kind : string;
  tv_tee_label : option string;
  tv_tee_policy : option string;
  tv_tls_pubkey_digest : string;
}.
Definition TicketVerificationRow : Type := TicketVerificationRecord.

Record TicketStatusRecord := {
  tst_id : Uuid;
  tst_credential_id : Uuid;
  tst_expires_at : DateTime;
  tst_redeemed_at : option DateTime;
}.

Record TicketStatusRow := {
  tsr_id : Uuid;
  tsr_credential_id : Uuid;
  tsr_expires_at : DateTime;
  tsr_redeemed_at : option DateTime;
}.

Record NewTorAccessTicket := {
  nt_id : Uuid;
  nt_credential_id : Uuid;
  nt_entry_onion : string;
  nt_token_hash : string;
  nt_expires_at : DateTime;
  nt_client_fingerprint : option string;
  nt_client_auth_public_key : string;
  nt_client_auth_secret_path : string;
  nt_client_auth_secret_redeem_token : option string;
  nt_attestation_session_id : Uuid;
  nt_attestation_nonce_digest : string;
  nt_attestation_quote_hash : string;
  nt_attested_at : DateTime;
  nt_tee_kind : string;
  nt_tee_label : option string;
  nt_tee_policy : option string;
  nt_tls_pubkey_digest : string;
}.

Record IssuedTorAccessTicketRow := {
  itr_id : Uuid;
  itr_created_at : DateTime;
  itr_expires_at : DateTime;
}.

Record TorSessionRow := {
  tsw_id : Uuid;
  tsw_credential_id : Uuid;
  tsw_circuit_id : option string;
  tsw_fingerprint : option string;
  tsw_guard_nodes : option (list string);
  tsw_client_onion : option string;
  tsw_expires_at : option DateTime;
}.

Definition map_ticket_status_row (row : TicketStatusRow) : TicketStatusRecord := {|
  tst_id := tsr_id row;
  tst_credential_id := tsr_credential_id row;
  tst_expires_at := tsr_expires_at row;
  tst_redeemed_at := tsr_redeemed_at row;
|}.
End records.

(** ** Statements *)

Section statements.
Context `{UuidApi, JsonApi}.

Definition select_credential (id : Uuid) (r : CredentialRow) : TorCredentialRow := {|
  tcr_id := id;
  tcr_onion_entry := cr_onion_entry r;
  tcr_tier := cr_tier r;
  tcr_credential_hash := cr_credential_hash r;
  tcr_operational_onion := cr_operational_onion r;
  tcr_guard_nodes := Some (cr_guard_nodes r);
  tcr_created_at := of_timestamptz (cr_created_at r);
  tcr_updated_at := of_timestamptz (cr_updated_at r);
  tcr_expires_at := of_timestamptz <$> cr_expires_at r;
  tcr_disabled := cr_disabled r;
  tcr_rate_limit_per_minute := cr_rate_limit_per_minute r;
  tcr_last_rotated_at := of_timestamptz <$> cr_last_rotated_at r;
|}.

Definition select_by_onion (onion_entry : string) : stmt (option TorCredentialRow) := λ now d,
  Ok ((λ kr, select_credential kr.1 kr.2) <$>
        find_row (λ _ r, bool_decide (cr_onion_entry r = onion_entry)) (t_credentials d), d).
Definition select_by_id (id : Uuid) : stmt (option TorCredentialRow) := λ now d,
  Ok (select_credential id <$> t_credentials d !! id, d).

(** The unique index on [onion_entry], for the row [id]. *)
Definition onion_taken (id : Uuid) (onion : string) (m : gmap Uuid CredentialRow) : bool :=
  exists_row (λ id' r', negb (bool_decide (id' = id)) &&
                        bool_decide (cr_onion_entry r' = onion)) m.

Definition put_credential (id : Uuid) (r : CredentialRow) (d : Tables) :
    result SqlError Tables :=
  if onion_taken id (cr_onion_entry r) (t_credentials d)
  then Err (UniqueViolation "tor_auth_credentials_onion_entry_key")
  else Ok (set_credentials (<[id := r]> (t_credentials d)) d).

(** [trg_tor_auth_credentials_touch], before every update *)
Definition touch_updated_at (now : Timestamp) (r : CredentialRow) : CredentialRow := {|
  cr_onion_entry := cr_onion_entry r; cr_tier := cr_tier r;
  cr_credential_hash := cr_credential_hash r;
  cr_operational_onion := cr_operational_onion r; cr_guard_nodes := cr_guard_nodes r;
  cr_created_at := cr_created_at r; cr_updated_at := now;
  cr_expires_at := cr_expires_at r; cr_disabled := cr_disabled r;
  cr_rate_limit_per_minute := cr_rate_limit_per_minute r;
  cr_last_rotated_at := cr_last_rotated_at r |}.

(** [UPDATE ... WHERE id = $1]; the result is the number of rows *)
Definition update_credential (f : Timestamp → CredentialRow → CredentialRow) (id : Uuid) :
    stmt N := λ now d,
  match t_credentials d !! id with
  | None => Ok (0%N, d)
  | Some r =>
      d' ← put_credential id (touch_updated_at now (f now r)) d;
      Ok (1%N, d')
  end.

Definition new_credential_row (entry_onion credential_hash tier : string)
    (rate_limit_per_minute : Z) (expires_at : option Timestamp)
    (guard_nodes : list string) (now : Timestamp) : CredentialRow := {|
  cr_onion_entry := entry_onion; cr_tier := tier;
  cr_credential_hash := credential_hash; cr_operational_onion := None;
  cr_guard_nodes := guard_nodes; cr_created_at := now; cr_updated_at := now;
  cr_expires_at := expires_at; cr_disabled := false;
  cr_rate_limit_per_minute := rate_limit_per_minute; cr_last_rotated_at := None |}.

Definition insert_credential (id : Uuid) (r : CredentialRow) : stmt () := λ now d,
  match t_credentials d !! id with
  | Some _ => Err (UniqueViolation "tor_auth_credentials_pkey")
  | None => d' ← put_credential id r d; Ok ((), d')
  end.

(** [INSERT ... ON CONFLICT (id) DO UPDATE SET ...]: what the update leaves of
    the old row is its operational onion, its creation time and the time of
    its last rotation. *)
Definition import_credential (id : Uuid) (r : CredentialRow) : stmt () := λ now d,
  match t_credentials d !! id with
  | Some old =>
      d' ← put_credential id (touch_updated_at now {|
        cr_onion_entry := cr_onion_entry r; cr_tier := cr_tier r;
        cr_credential_hash := cr_credential_hash r;
        cr_operational_onion := cr_operational_onion old;
        cr_guard_nodes := cr_guard_nodes r; cr_created_at := cr_created_at old;
        cr_updated_at := now; cr_expires_at := cr_expires_at r; cr_disabled := false;
        cr_rate_limit_per_minute := cr_rate_limit_per_minute r;
        cr_last_rotated_at := cr_last_rotated_at old |}) d;
      Ok ((), d')
  | None => d' ← put_credential id r d; Ok ((), d')
  end.

(** [ON DELETE CASCADE] from sessions and tickets *)
Definition delete_credential (id : Uuid) : stmt N := λ now d,
  match t_credentials d !! id with
  | None => Ok (0%N, d)
  | Some _ =>
      Ok (1%N,
        set_tickets (delete_rows (λ _ r, bool_decide (tr_credential_id r = id)) (t_tickets d))
          (set_sessions
            (delete_rows (λ _ r, bool_decide (sr_credential_id r = id)) (t_sessions d))
            (set_credentials (delete id (t_credentials d)) d)))
  end.

Definition select_credentials (limit : Z) : stmt (list TorCredentialRow) := λ now d,
  rows ← limit_rows limit
    (order_by (λ kr, cr_created_at kr.2) (map_to_list (t_credentials d)));
  Ok ((λ kr, select_credential kr.1 kr.2) <$> (rows : list (Uuid * CredentialRow)), d).

Definition insert_session (id : Uuid) (f : Timestamp → SessionRow) : stmt () := λ now d,
  let r := f now in
  match t_sessions d !! id, t_credentials d !! sr_credential_id r with
  | Some _, _ => Err (UniqueViolation "tor_auth_sessions_pkey")
  | None, None => Err (ForeignKeyViolation "tor_auth_sessions_credential_id_fkey")
  | None, Some _ => Ok ((), set_sessions (<[id := r]> (t_sessions d)) d)
  end.

(** The partial unique index on [attestation_session_id]. *)
Definition attestation_session_taken (s : Uuid) (m : gmap Uuid TicketRow) : bool :=
  negb (bool_decide (s = uuid_nil)) &&
  exists_row (λ _ r, bool_decide (tr_attestation_session_id r = s)) m.

Definition insert_ticket (id : Uuid) (f : Timestamp → TicketRow) : stmt IssuedTorAccessTicketRow :=
  λ now d,
  let r := f now in
  if bool_decide (is_Some (t_tickets d !! id)) then
    Err (UniqueViolation "tor_access_tickets_pkey")
  else if attestation_session_taken (tr_attestation_session_id r) (t_tickets d) then
    Err (UniqueViolation "idx_tor_access_tickets_attestation_session")
  else
    match t_credentials d !! tr_credential_id r with
    | None => Err (ForeignKeyViolation "tor_access_tickets_credential_id_fkey")
    | Some _ =>
        Ok ({| itr_id := id; itr_created_at := of_timestamptz (tr_created_at r);
               itr_expires_at := of_timestamptz (tr_expires_at r) |},
            set_tickets (<[id := r]> (t_tickets d)) d)
    end.

Definition verification_row (id : Uuid) (r : TicketRow) : TicketVerificationRow := {|
  tv_id := id; tv_credential_id := tr_credential_id r; tv_token_hash := tr_token_hash r;
  tv_client_fingerprint := tr_client_fingerprint r;
  tv_expires_at := of_timestamptz (tr_expires_at r);
  tv_redeemed_at := of_timestamptz <$> tr_redeemed_at r;
  tv_client_auth_public_key := tr_client_auth_public_key r;
  tv_client_auth_secret_path := tr_client_auth_secret_path r;
  tv_client_auth_secret_redeem_token := tr_client_auth_secret_redeem_token r;
  tv_attestation_session_id := tr_attestation_session_id r;
  tv_attestation_nonce_digest := tr_attestation_nonce_digest r;
  tv_attestation_quote_hash := tr_attestation_quote_hash r;
  tv_attested_at := of_timestamptz (tr_attested_at r); tv_tee_kind := tr_tee_kind r;
  tv_tee_label := tr_tee_label r; tv_tee_policy := tr_tee_policy r;
  tv_tls_pubkey_digest := tr_tls_pubkey_digest r |}.

Definition select_ticket (id : Uuid) : stmt (option TicketVerificationRow) := λ now d,
  Ok (verification_row id <$> t_tickets d !! id, d).

Definition select_ticket_status (id : Uuid) : stmt (option TicketStatusRow) := λ now d,
  Ok ((λ r, {| tsr_id := id; tsr_credential_id := tr_credential_id r;
               tsr_expires_at := of_timestamptz (tr_expires_at r);
               tsr_redeemed_at := of_timestamptz <$> tr_redeemed_at r |}) <$> t_tickets d !! id, d).

(** [UPDATE ... WHERE id = $1] on columns that no constraint mentions *)
Definition update_ticket (f : Timestamp → TicketRow → TicketRow) (id : Uuid) : stmt N := λ now d,
  match t_tickets d !! id with
  | None => Ok (0%N, d)
  | Some r => Ok (1%N, set_tickets (<[id := f now r]> (t_tickets d)) d)
  end.

Definition set_redeemed (stored_onion : string) (now : Timestamp) (r : TicketRow) : TicketRow := {|
  tr_credential_id := tr_credential_id r; tr_token_hash := tr_token_hash r;
  tr_entry_onion := tr_entry_onion r; tr_client_fingerprint := tr_client_fingerprint r;
  tr_created_at := tr_created_at r; tr_expires_at := tr_expires_at r;
  tr_redeemed_at := Some now; tr_redeemed_operational_onion := Some stored_onion;
  tr_client_auth_public_key := tr_client_auth_public_key r;
  tr_client_auth_secret_path := tr_client_auth_secret_path r;
  tr_client_auth_secret_redeem_token := tr_client_auth_secret_redeem_token r;
  tr_attestation_session_id := tr_attestation_session_id r;
  tr_attestation_nonce_digest := tr_attestation_nonce_digest r;
  tr_attestation_quote_hash := tr_attestation_quote_hash r;
  tr_attested_at := tr_attested_at r; tr_tee_kind := tr_tee_kind r;
  tr_tee_label := tr_tee_label r; tr_tee_policy := tr_tee_policy r;
  tr_tls_pubkey_digest := tr_tls_pubkey_digest r |}.

Definition set_expired (now : Timestamp) (r : TicketRow) : TicketRow := {|
  tr_credential_id := tr_credential_id r; tr_token_hash := tr_token_hash r;
  tr_entry_onion := tr_entry_onion r; tr_client_fingerprint := tr_client_fingerprint r;
  tr_created_at := tr_created_at r; tr_expires_at := now - USECS_PER_SEC;
  tr_redeemed_at := tr_redeemed_at r;
  tr_redeemed_operational_onion := tr_redeemed_operational_onion r;
  tr_client_auth_public_key := tr_client_auth_public_key r;
  tr_client_auth_secret_path := tr_client_auth_secret_path r;
  tr_client_auth_secret_redeem_token := tr_client_auth_secret_redeem_token r;
  tr_attestation_session_id := tr_attestation_session_id r;
  tr_attestation_nonce_digest := tr_attestation_nonce_digest r;
  tr_attestation_quote_hash := tr_attestation_quote_hash r;
  tr_attested_at := tr_attested_at r; tr_tee_kind := tr_tee_kind r;
  tr_tee_label := tr_tee_label r; tr_tee_policy := tr_tee_policy r;
  tr_tls_pubkey_digest := tr_tls_pubkey_digest r |}.

(** [WHERE expires_at < NOW() - make_interval(days => $1)
    AND (redeemed_at IS NOT NULL OR expires_at < NOW())] *)
Definition gc_eligible (cutoff now : Timestamp) (r : TicketRow) : bool :=
  (tr_expires_at r <? cutoff) &&
  (bool_decide (is_Some (tr_redeemed_at r)) || (tr_expires_at r <? now)).

Definition delete_expired_tickets (retention_days : Z) : stmt N := λ now d,
  cutoff ← minus_days now retention_days;
  Ok (Z.to_N (count_rows (λ _, gc_eligible cutoff now) (t_tickets d)),
      set_tickets (delete_rows (λ _, gc_eligible cutoff now) (t_tickets d)) d).

Definition count_tickets_since (credential_id : Uuid) (window_seconds : Z) : stmt Z := λ now d,
  cutoff ← minus_usecs now (secs_bigint_usecs window_seconds);
  Ok (count_rows (λ _ r, bool_decide (tr_credential_id r = credential_id) &&
                         (cutoff <? tr_created_at r)) (t_tickets d), d).

Definition count_sessions_since (credential_id : Uuid) (window_seconds : Z) : stmt Z := λ now d,
  cutoff ← minus_usecs now (secs_bigint_usecs window_seconds);
  Ok (count_rows (λ _ r, bool_decide (sr_credential_id r = credential_id) &&
                         (cutoff <=? sr_issued_at r)) (t_sessions d), d).

Definition session_active (now : Timestamp) (r : SessionRow) : bool :=
  match sr_expires_at r with None => true | Some e => now <? e end.

Definition select_session (id : Uuid) : stmt (option TorSessionRow) := λ now d,
  Ok ((λ r, {| tsw_id := id; tsw_credential_id := sr_credential_id r;
               tsw_circuit_id := sr_circuit_id r; tsw_fingerprint := sr_fingerprint r;
               tsw_guard_nodes := Some (sr_guard_nodes r);
               tsw_client_onion := sr_client_onion r;
               tsw_expires_at := of_timestamptz <$> sr_expires_at r |}) <$> t_sessions d !! id, d).
End statements.

(** ** [impl PgPool] *)

Section methods.
Context `{UuidApi, JsonApi, BrokerApi} `{!Host} `{Base64, Ring, Digests}.

Definition fetch_tor_credential (onion_entry : string) : M (option TorCredential) :=
  record ← execute (select_by_onion onion_entry);
  mret (credential_from_row <$> record).

Definition fetch_tor_credential_by_id (credential_id : Uuid) : M (option TorCredential) :=
  record ← execute (select_by_id credential_id);
  mret (credential_from_row <$> record).

Definition session_aad (id : Uuid) : bytes :=
  record_bound_aad "gateway_secrets.tor_auth_sessions" "client_onion" id CLIENT_ONION_AAD.

Definition record_tor_session (session : TorSessionRecord) : M () :=
  client_onion_db ← ensure_aead_encrypted (ts_client_onion session)
                      (session_aad (ts_id session)) "tor-session-client-onion";
  session_key ← uuid_new_v4;
  execute (insert_session (ts_id session) (λ now, {|
    sr_credential_id := ts_credential_id session;
    sr_session_key := session_key;
    sr_circuit_id := ts_circuit_id session;
    sr_fingerprint := ts_fingerprint session;
    sr_guard_nodes := ts_guard_nodes session;
    sr_client_onion := client_onion_db;
    sr_issued_at := now;
    sr_expires_at := to_timestamptz <$> ts_expires_at session |})).

Definition count_recent_sessions (credential_id : Uuid) (window_seconds : Z) : M Z :=
  execute (count_sessions_since credential_id window_seconds).

Definition count_active_sessions : M Z :=
  execute (λ now d, Ok (count_rows (λ _, session_active now) (t_sessions d), d)).

Definition count_total_sessions : M Z :=
  execute (λ now d, Ok (Z.of_nat (size (t_sessions d)), d)).

Definition count_active_credentials : M Z :=
  execute (λ now d, Ok (count_rows (λ _ r, negb (cr_disabled r)) (t_credentials d), d)).

Definition set_operational_onion (new_onion : string) (guard_nodes : list string)
    (now : Timestamp) (r : CredentialRow) : CredentialRow := {|
  cr_onion_entry := cr_onion_entry r; cr_tier := cr_tier r;
  cr_credential_hash := cr_credential_hash r;
  cr_operational_onion := Some new_onion; cr_guard_nodes := guard_nodes;
  cr_created_at := cr_created_at r; cr_updated_at := now;
  cr_expires_at := cr_expires_at r; cr_disabled := cr_disabled r;
  cr_rate_limit_per_minute := cr_rate_limit_per_minute r;
  cr_last_rotated_at := Some now |}.

Definition rotate_operational_onion (credential_id : Uuid) (new_onion : string)
    (guard_nodes : list string) : M () :=
  execute (update_credential (set_operational_onion new_onion guard_nodes) credential_id);;
  mret ().

Definition set_onion_entry (entry_onion : string) (guard_nodes : list string)
    (now : Timestamp) (r : CredentialRow) : CredentialRow := {|
  cr_onion_entry := entry_onion; cr_tier := cr_tier r;
  cr_credential_hash := cr_credential_hash r;
  cr_operational_onion := cr_operational_onion r; cr_guard_nodes := guard_nodes;
  cr_created_at := cr_created_at r; cr_updated_at := now;
  cr_expires_at := cr_expires_at r; cr_disabled := cr_disabled r;
  cr_rate_limit_per_minute := cr_rate_limit_per_minute r;
  cr_last_rotated_at := cr_last_rotated_at r |}.

Definition set_entry_onion (credential_id : Uuid) (entry_onion : string)
    (guard_nodes : list string) : M () :=
  execute (update_credential (set_onion_entry entry_onion guard_nodes) credential_id);;
  mret ().

(** The [TorCredential] that [import_...] and [create_...] return. *)
Definition returned_credential (id : Uuid) (entry_onion credential_hash tier : string)
    (rate_limit_per_minute : Z) (expires_at : option DateTime)
    (guard_nodes : list string) (now : DateTime) : TorCredential := {|
  tc_id := id; tc_onion_entry := trim entry_onion; tc_tier := tier;
  tc_credential_hash := credential_hash; tc_operational_onion := None;
  tc_guard_nodes := guard_nodes; tc_created_at := now; tc_updated_at := now;
  tc_expires_at := expires_at; tc_disabled := false;
  tc_rate_limit_per_minute := rate_limit_per_minute; tc_last_rotated_at := None |}.

Definition import_bootstrap_tor_credential (credential_id : Uuid)
    (entry_onion credential_hash tier : string) (rate_limit_per_minute : Z)
    (expires_at : option DateTime) (guard_nodes : list string) : M TorCredential :=
  now ← utc_now;
  execute (import_credential credential_id
    (new_credential_row (trim entry_onion) credential_hash tier rate_limit_per_minute
       (to_timestamptz <$> expires_at) guard_nodes (to_timestamptz now)));;
  mret (returned_credential credential_id entry_onion credential_hash tier
          rate_limit_per_minute expires_at guard_nodes now).

Definition create_tor_credential (entry_onion credential_hash tier : string)
    (rate_limit_per_minute : Z) (expires_at : option DateTime)
    (guard_nodes : list string) : M TorCredential :=
  id ← uuid_new_v4;
  now ← utc_now;
  execute (insert_credential id
    (new_credential_row (trim entry_onion) credential_hash tier rate_limit_per_minute
       (to_timestamptz <$> expires_at) guard_nodes (to_timestamptz now)));;
  mret (returned_credential id entry_onion credential_hash tier
          rate_limit_per_minute expires_at guard_nodes now).

Definition capped_limit (limit : Z) : Z := if limit <=? 0 then 100 else limit `min` 1000.

Definition list_tor_credentials (limit : Z) : M (list TorCredential) :=
  records ← execute (select_credentials (capped_limit limit));
  mret (credential_from_row <$> records).

Definition set_disabled (disabled : bool) (now : Timestamp) (r : CredentialRow) :
    CredentialRow := {|
  cr_onion_entry := cr_onion_entry r; cr_tier := cr_tier r;
  cr_credential_hash := cr_credential_hash r;
  cr_operational_onion := cr_operational_onion r; cr_guard_nodes := cr_guard_nodes r;
  cr_created_at := cr_created_at r; cr_updated_at := now;
  cr_expires_at := cr_expires_at r; cr_disabled := disabled;
  cr_rate_limit_per_minute := cr_rate_limit_per_minute r;
  cr_last_rotated_at := cr_last_rotated_at r |}.

Definition update_tor_credential_disabled (id : Uuid) (disabled : bool) : M () :=
  execute (update_credential (set_disabled disabled) id);; mret ().

Definition delete_tor_credential (id : Uuid) : M bool :=
  rows_affected ← execute (delete_credential id);
  mret (0 <? rows_affected)%N.

Definition ticket_aad (field : string) (id : Uuid) (purpose : bytes) : bytes :=
  record_bound_aad "gateway_secrets.tor_access_tickets" field id purpose.

Definition issue_tor_ticket (ticket : NewTorAccessTicket) : M IssuedTorAccessTicket :=
  let id := nt_id ticket in
  client_auth_public_key_db ← ensure_aead_encrypted_required (nt_client_auth_public_key ticket)
    (ticket_aad "client_auth_public_key" id TICKET_CLIENT_PUBLIC_KEY_AAD)
    "tor-ticket-client-auth-public-key" "client_auth_public_key";
  client_auth_secret_path_db ← ensure_aead_encrypted_required (nt_client_auth_secret_path ticket)
    (ticket_aad "client_auth_secret_path" id TICKET_CLIENT_SECRET_PATH_AAD)
    "tor-ticket-client-auth-secret-path" "client_auth_secret_path";
  attestation_nonce_digest_db ← ensure_aead_encrypted_required (nt_attestation_nonce_digest ticket)
    (ticket_aad "attestation_nonce_digest" id TICKET_ATTESTATION_NONCE_AAD)
    "tor-ticket-attestation-nonce" "attestation_nonce_digest";
  attestation_quote_hash_db ← ensure_aead_encrypted_required (nt_attestation_quote_hash ticket)
    (ticket_aad "attestation_quote_hash" id TICKET_ATTESTATION_QUOTE_AAD)
    "tor-ticket-attestation-quote" "attestation_quote_hash";
  client_auth_secret_redeem_token_db ← ensure_aead_encrypted
    (nt_client_auth_secret_redeem_token ticket)
    (ticket_aad "client_auth_secret_redeem_token" id TICKET_CLIENT_SECRET_REDEEM_TOKEN_AAD)
    "tor-ticket-client-auth-secret-redeem-token";
  tls_pubkey_digest_db ← ensure_aead_encrypted_required (nt_tls_pubkey_digest ticket)
    (ticket_aad "tls_pubkey_digest" id TICKET_TLS_PUBKEY_DIGEST_AAD)
    "tor-ticket-tls-pubkey-digest" "tls_pubkey_digest";
  record ← execute (insert_ticket id (λ now, {|
    tr_credential_id := nt_credential_id ticket;
    tr_token_hash := nt_token_hash ticket;
    tr_entry_onion := nt_entry_onion ticket;
    tr_client_fingerprint := nt_client_fingerprint ticket;
    tr_created_at := now;
    tr_expires_at := to_timestamptz (nt_expires_at ticket);
    tr_redeemed_at := None;
    tr_redeemed_operational_onion := None;
    tr_client_auth_public_key := client_auth_public_key_db;
    tr_client_auth_secret_path := client_auth_secret_path_db;
    tr_client_auth_secret_redeem_token := client_auth_secret_redeem_token_db;
    tr_attestation_session_id := nt_attestation_session_id ticket;
    tr_attestation_nonce_digest := attestation_nonce_digest_db;
    tr_attestation_quote_hash := attestation_quote_hash_db;
    tr_attested_at := to_timestamptz (nt_attested_at ticket);
    tr_tee_kind := nt_tee_kind ticket;
    tr_tee_label := nt_tee_label ticket;
    tr_tee_policy := nt_tee_policy ticket;
    tr_tls_pubkey_digest := tls_pubkey_digest_db |}));
  mret {|
    it_id := itr_id record;
    it_credential_id := nt_credential_id ticket;
    it_entry_onion := nt_entry_onion ticket;
    it_client_fingerprint := nt_client_fingerprint ticket;
    it_created_at := itr_created_at record;
    it_expires_at := itr_expires_at record;
    it_redeemed_at := None;
    it_redeemed_operational_onion := None;
    it_client_auth_public_key := nt_client_auth_public_key ticket;
    it_client_auth_secret_path := nt_client_auth_secret_path ticket;
    it_client_auth_secret_redeem_token := nt_client_auth_secret_redeem_token ticket;
    it_attestation_session_id := nt_attestation_session_id ticket;
    it_attestation_nonce_digest := nt_attestation_nonce_digest ticket;
    it_attestation_quote_hash := nt_attestation_quote_hash ticket;
    it_attested_at := nt_attested_at ticket;
    it_tee_kind := nt_tee_kind ticket;
    it_tee_label := nt_tee_label ticket;
    it_tee_policy := nt_tee_policy ticket;
    it_tls_pubkey_digest := nt_tls_pubkey_digest ticket |}.

Definition decrypt_ticket (row : TicketVerificationRow) : M TicketVerificationRecord :=
  client_auth_public_key ← decrypt_aead_required (tv_client_auth_public_key row)
    (ticket_aad "client_auth_public_key" (tv_id row) TICKET_CLIENT_PUBLIC_KEY_AAD)
    "tor-ticket-client-auth-public-key" "client_auth_public_key";
  client_auth_secret_path ← decrypt_aead_required (tv_client_auth_secret_path row)
    (ticket_aad "client_auth_secret_path" (tv_id row) TICKET_CLIENT_SECRET_PATH_AAD)
    "tor-ticket-client-auth-secret-path" "client_auth_secret_path";
  client_auth_secret_redeem_token ← decrypt_aead_optional
    (tv_client_auth_secret_redeem_token row)
    (ticket_aad "client_auth_secret_redeem_token" (tv_id row)
       TICKET_CLIENT_SECRET_REDEEM_TOKEN_AAD)
    "tor-ticket-client-auth-secret-redeem-token";
  attestation_nonce_digest ← decrypt_aead_required (tv_attestation_nonce_digest row)
    (ticket_aad "attestation_nonce_digest" (tv_id row) TICKET_ATTESTATION_NONCE_AAD)
    "tor-ticket-attestation-nonce" "attestation_nonce_digest";
  attestation_quote_hash ← decrypt_aead_required (tv_attestation_quote_hash row)
    (ticket_aad "attestation_quote_hash" (tv_id row) TICKET_ATTESTATION_QUOTE_AAD)
    "tor-ticket-attestation-quote" "attestation_quote_hash";
  tls_pubkey_digest ← decrypt_aead_required (tv_tls_pubkey_digest row)
    (ticket_aad "tls_pubkey_digest" (tv_id row) TICKET_TLS_PUBKEY_DIGEST_AAD)
    "tor-ticket-tls-pubkey-digest" "tls_pubkey_digest";
  mret {|
    tv_id := tv_id row;
    tv_credential_id := tv_credential_id row;
    tv_token_hash := tv_token_hash row;
    tv_client_fingerprint := tv_client_fingerprint row;
    tv_expires_at := tv_expires_at row;
    tv_redeemed_at := tv_redeemed_at row;
    tv_client_auth_public_key := client_auth_public_key;
    tv_client_auth_secret_path := client_auth_secret_path;
    tv_client_auth_secret_redeem_token := client_auth_secret_redeem_token;
    tv_attestation_session_id := tv_attestation_session_id row;
    tv_attestation_nonce_digest := attestation_nonce_digest;
    tv_attestation_quote_hash := attestation_quote_hash;
    tv_attested_at := tv_attested_at row;
    tv_tee_kind := tv_tee_kind row;
    tv_tee_label := tv_tee_label row;
    tv_tee_policy := tv_tee_policy row;
    tv_tls_pubkey_digest := tls_pubkey_digest |}.

Definition fetch_tor_ticket_for_verification (ticket_id : Uuid) :
    M (option TicketVerificationRecord) :=
  record ← execute (select_ticket ticket_id);
  match record with
  | None => mret None
  | Some row => record ← decrypt_ticket row; mret (Some record)
  end.

Definition get_tor_ticket_status (ticket_id : Uuid) : M (option TicketStatusRecord) :=
  record ← execute (select_ticket_status ticket_id);
  mret (map_ticket_status_row <$> record).

Definition redeemed_onion_aad (ticket_id : Uuid) : bytes :=
  ticket_aad "redeemed_operational_onion" ticket_id REDEEMED_ONION_AAD.

Definition mark_tor_ticket_redeemed (ticket_id : Uuid) (operational_onion : string) : M () :=
  stored_onion ←
    (if is_aead_payload operational_onion then mret operational_onion
     else encrypt_with_new_aead (as_bytes operational_onion)
            (redeemed_onion_aad ticket_id) "tor-ticket-redeemed-onion");
  execute (update_ticket (set_redeemed stored_onion) ticket_id);;
  mret ().

Definition expire_tor_ticket_now (ticket_id : Uuid) : M bool :=
  rows_affected ← execute (update_ticket set_expired ticket_id);
  mret (0 <? rows_affected)%N.

Definition gc_expired_tickets (retention_days : Z) : M N :=
  execute (delete_expired_tickets retention_days).

Definition count_recent_tickets (credential_id : Uuid) (window_seconds : Z) : M Z :=
  execute (count_tickets_since credential_id window_seconds).

(** [TorSessionRow::into_record] *)
Definition session_into_record (row : TorSessionRow) : M TorSessionRecord :=
  decrypted_onion ← decrypt_aead_optional (tsw_client_onion row) (session_aad (tsw_id row))
                      "tor-session-client-onion";
  mret {|
    ts_id := tsw_id row;
    ts_credential_id := tsw_credential_id row;
    ts_circuit_id := tsw_circuit_id row;
    ts_fingerprint := tsw_fingerprint row;
    ts_guard_nodes := default [] (tsw_guard_nodes row);
    ts_client_onion := decrypted_onion;
    ts_expires_at := tsw_expires_at row |}.

Definition fetch_tor_session (session_id : Uuid) : M (option TorSessionRecord) :=
  row ← execute (select_session session_id);
  match row with
  | Some row => record ← session_into_record row; mret (Some record)
  | None => mret None
  end.
End methods.
End TorAuth.
