(* ===== verification/TorAuthProps.v ===== *)
(** * Properties of credentials, sessions and tickets

    What the operations of [TorAuth.v] store, return and leave alone. *)
From S2P Require Import Prelude RustStd Platform World Sql Reference Aead Broker Protected TorAuth.
Import Payload Protected TorAuth.
Local Open Scope Z_scope.

Module TorAuthProps.
Section props.
Context `{UuidApi, JsonApi, BrokerApi} `{!Host} `{Base64, Ring, Digests}.

(** ** What a stored column says about the value it was made from *)

Section fields.
Context `{!BrokerLaws, !Base64Laws, !RingLaws, !HostLaws}.

(** The column [s] is a v2 payload; unless the caller passed a payload, it
    is the encryption of [v] for the position [aad]. *)
Definition stores (b : Broker) (aad : bytes) (s v : string) : Prop :=
  is_aead_payload_v2 s = true ∧
  (is_aead_payload v = false → protects b aad s (as_bytes v)).
Definition stores_opt (b : Broker) (aad : bytes) (s v : option string) : Prop :=
  match s, v with
  | Some s, Some v => stores b aad s v
  | None, None => True
  | _, _ => False
  end.

Lemma stores_keeps w w' aad s v :
  keeps_keys w w' → stores (w_broker w) aad s v → stores (w_broker w') aad s v.
Proof. intros Hk [Hv2 Hp]. split; [done|]. intros Hv. by eapply protects_keeps, Hp. Qed.
Lemma stores_opt_keeps w w' aad s v :
  keeps_keys w w' → stores_opt (w_broker w) aad s v → stores_opt (w_broker w') aad s v.
Proof. destruct s, v; simpl; eauto using stores_keeps. Qed.

Lemma ensure_stores v aad l w s w' :
  ensure_aead_encrypted v aad l w = (Ok s, w') → stores_opt (w_broker w') aad s v.
Proof.
  unfold ensure_aead_encrypted. intros Hrun. destruct v as [v|]; [|by inv_run Hrun].
  destruct (is_aead_payload_v2 v) eqn:E2.
  { inv_run Hrun. split; [done|]. rewrite is_v2_is_payload by done. done. }
  destruct (is_aead_payload v) eqn:E; [inv_run Hrun|].
  inv_run Hrun. apply encrypt_protects in Hrun0.
  split; [by eapply protects_v2|done].
Qed.

Lemma ensure_required_run v aad l f w s w' :
  ensure_aead_encrypted_required v aad l f w = (Ok s, w') →
  ensure_aead_encrypted (Some v) aad l w = (Ok (Some s), w').
Proof.
  unfold ensure_aead_encrypted_required. intros Hrun. inv_run Hrun.
  match goal with Ho : ok_or _ _ = _ |- _ => apply ok_or_Ok in Ho as -> end. done.
Qed.

Lemma ensure_required_stores v aad l f w s w' :
  ensure_aead_encrypted_required v aad l f w = (Ok s, w') → stores (w_broker w') aad s v.
Proof. intros Hrun%ensure_required_run. by apply ensure_stores in Hrun. Qed.

(** The text of a field that encryption turns into a v2 payload. *)
Definition plain_text (v : string) : Prop := is_aead_payload v = false ∧ utf8_valid v = true.

(** Reading a column back gives the plain text that was stored. *)
Lemma decrypt_optional_reads aad s v l w :
  stores_opt (w_broker w) aad s v → (∀ x, v = Some x → plain_text x) →
  reads_or_refused v (decrypt_aead_optional s aad l) w.
Proof.
  intros Hs Hv. unfold decrypt_aead_optional.
  destruct s as [s|], v as [v|]; simpl in Hs; try done; [|apply reads_ret].
  destruct Hs as [Hv2 Hp]. destruct (Hv v eq_refl) as [Hn Hu]. rewrite Hv2.
  apply reads_bind with (a := v); [apply decrypt_later| |intros; apply reads_ret].
  eapply decrypt_protects; [by apply Hp|by apply from_utf8_as_bytes].
Qed.

Lemma decrypt_required_reads aad s v l f w :
  stores (w_broker w) aad s v → plain_text v →
  reads_or_refused v (decrypt_aead_required s aad l f) w.
Proof.
  intros Hs Hv. apply reads_bind with (a := Some v); [auto with sdb| |by left].
  apply decrypt_optional_reads; [done|by intros ? [= <-]].
Qed.
End fields.

(** ** Tickets *)

Section tickets.
Context `{!BrokerLaws, !Base64Laws, !RingLaws, !HostLaws}.

(** The row of a ticket under [b], expiry and redemption aside: the plain columns are the ticket's, the
    protected ones store its fields for this very ticket. *)
Record ticket_stored (b : Broker) (t : NewTorAccessTicket) (r : TicketRow) : Prop := {
  st_credential : tr_credential_id r = nt_credential_id t;
  st_token : tr_token_hash r = nt_token_hash t;
  st_entry : tr_entry_onion r = nt_entry_onion t;
  st_fpr : tr_client_fingerprint r = nt_client_fingerprint t;
  st_session : tr_attestation_session_id r = nt_attestation_session_id t;
  st_attested : tr_attested_at r = to_timestamptz (nt_attested_at t);
  st_kind : tr_tee_kind r = nt_tee_kind t;
  st_label : tr_tee_label r = nt_tee_label t;
  st_policy : tr_tee_policy r = nt_tee_policy t;
  st_public_key : stores b
    (ticket_aad "client_auth_public_key" (nt_id t) TICKET_CLIENT_PUBLIC_KEY_AAD)
    (tr_client_auth_public_key r) (nt_client_auth_public_key t);
  st_secret_path : stores b
    (ticket_aad "client_auth_secret_path" (nt_id t) TICKET_CLIENT_SECRET_PATH_AAD)
    (tr_client_auth_secret_path r) (nt_client_auth_secret_path t);
  st_nonce : stores b
    (ticket_aad "attestation_nonce_digest" (nt_id t) TICKET_ATTESTATION_NONCE_AAD)
    (tr_attestation_nonce_digest r) (nt_attestation_nonce_digest t);
  st_quote : stores b
    (ticket_aad "attestation_quote_hash" (nt_id t) TICKET_ATTESTATION_QUOTE_AAD)
    (tr_attestation_quote_hash r) (nt_attestation_quote_hash t);
  st_redeem_token : stores_opt b
    (ticket_aad "client_auth_secret_redeem_token" (nt_id t)
       TICKET_CLIENT_SECRET_REDEEM_TOKEN_AAD)
    (tr_client_auth_secret_redeem_token r) (nt_client_auth_secret_redeem_token t);
  st_tls : stores b
    (ticket_aad "tls_pubkey_digest" (nt_id t) TICKET_TLS_PUBKEY_DIGEST_AAD)
    (tr_tls_pubkey_digest r) (nt_tls_pubkey_digest t);
}.

Lemma ticket_stored_keeps w w' t r :
  keeps_keys w w' → ticket_stored (w_broker w) t r → ticket_stored (w_broker w') t r.
Proof. intros Hk []. split; eauto using stores_keeps, stores_opt_keeps. Qed.

Definition fresh_ticket (t : NewTorAccessTicket) (r : TicketRow) : Prop :=
  tr_expires_at r = to_timestamptz (nt_expires_at t) ∧ tr_redeemed_at r = None ∧
  tr_redeemed_operational_onion r = None.

Definition insertable (id : Uuid) (r : TicketRow) (d : Tables) : Prop :=
  t_tickets d !! id = None ∧
  attestation_session_taken (tr_attestation_session_id r) (t_tickets d) = false ∧
  is_Some (t_credentials d !! tr_credential_id r).

Lemma insert_ticket_Ok id f now d x d' :
  insert_ticket id f now d = Ok (x, d') ↔
  insertable id (f now) d ∧ d' = set_tickets (<[id := f now]> (t_tickets d)) d ∧
  x = {| itr_id := id; itr_created_at := of_timestamptz (tr_created_at (f now));
         itr_expires_at := of_timestamptz (tr_expires_at (f now)) |}.
Proof.
  unfold insert_ticket, insertable. case_bool_decide as Hid.
  { split; [done|]. intros ((Hn & _) & _). rewrite Hn in Hid. by destruct Hid. }
  apply eq_None_not_Some in Hid.
  destruct (attestation_session_taken _ _); [naive_solver|].
  destruct (t_credentials d !! _); [|split; [done|intros ((_ & _ & [? [=]]) & _)]].
  split; [intros [= <- <-]|intros (_ & -> & ->)]; eauto.
Qed.

Lemma ensure_required_same_db v aad l f :
  preserves same_db (ensure_aead_encrypted_required v aad l f).
Proof. unfold ensure_aead_encrypted_required. solve_preserves. Qed.
Lemma ensure_required_keeps v aad l f :
  preserves keeps_keys (ensure_aead_encrypted_required v aad l f).
Proof. unfold ensure_aead_encrypted_required. solve_preserves. Qed.
#[local] Hint Resolve ensure_required_same_db ensure_required_keeps : sdb.

(** The record that [issue_tor_ticket] returns for [t]: the creation and the
    expiry come from the database, the other fields from the caller. *)
Definition issued (t : NewTorAccessTicket) (created_at : DateTime) : IssuedTorAccessTicket := {|
  it_id := nt_id t; it_credential_id := nt_credential_id t;
  it_entry_onion := nt_entry_onion t; it_client_fingerprint := nt_client_fingerprint t;
  it_created_at := created_at; it_expires_at := stored_time (nt_expires_at t);
  it_redeemed_at := None; it_redeemed_operational_onion := None;
  it_client_auth_public_key := nt_client_auth_public_key t;
  it_client_auth_secret_path := nt_client_auth_secret_path t;
  it_client_auth_secret_redeem_token := nt_client_auth_secret_redeem_token t;
  it_attestation_session_id := nt_attestation_session_id t;
  it_attestation_nonce_digest := nt_attestation_nonce_digest t;
  it_attestation_quote_hash := nt_attestation_quote_hash t;
  it_attested_at := nt_attested_at t; it_tee_kind := nt_tee_kind t;
  it_tee_label := nt_tee_label t; it_tee_policy := nt_tee_policy t;
  it_tls_pubkey_digest := nt_tls_pubkey_digest t |}.

(** What the frames say of the run [Hrun]. *)
Ltac run_keeps Hrun Hk :=
  lazymatch type of Hrun with ?m ?s = (_, ?s') =>
    assert (keeps_keys s s') as Hk by
      (refine (preserves_run keeps_keys m s _ s' _ Hrun); auto with sdb)
  end.
Ltac run_facts Hrun Hdb Hk :=
  run_keeps Hrun Hk;
  lazymatch type of Hrun with ?m ?s = (_, ?s') =>
    assert (w_db s' = w_db s) as Hdb by
      (refine (preserves_run same_db m s _ s' _ Hrun); auto with sdb)
  end.

(** What a successful issue did. *)
Lemma issue_run t w it w' :
  issue_tor_ticket t w = (Ok it, w') →
  ∃ r, insertable (nt_id t) r (w_db w) ∧ ticket_stored (w_broker w') t r ∧
    fresh_ticket t r ∧
    w_db w' = set_tickets (<[nt_id t := r]> (t_tickets (w_db w))) (w_db w) ∧
    it = issued t (of_timestamptz (tr_created_at r)) ∧ keeps_keys w w'.
Proof.
  unfold issue_tor_ticket. intros Hrun. inv_run Hrun.
  run_facts Hrun0 E0 K0. run_facts Hrun1 E1 K1. run_facts Hrun2 E2 K2.
  run_facts Hrun3 E3 K3. run_facts Hrun4 E4 K4. run_facts Hrun5 E5 K5.
  run_keeps Hrun6 K6.
  apply execute_Ok in Hrun6 as (_ & d & (Hins & -> & ->)%insert_ticket_Ok & ->).
  pose proof (transitivity K5 K6) as K5'. pose proof (transitivity K4 K5') as K4'.
  pose proof (transitivity K3 K4') as K3'. pose proof (transitivity K2 K3') as K2'.
  pose proof (transitivity K1 K2') as K1'. pose proof (transitivity K0 K1') as K0'.
  assert (w_db w5 = w_db w) as Edb by congruence.
  rewrite Edb in *. eexists. split_and!; [exact Hins| |done..].
  split; try (split; done || reflexivity); try reflexivity;
    first [eapply stores_keeps; [|eapply ensure_required_stores; eassumption]
          |eapply stores_opt_keeps; [|eapply ensure_stores; eassumption]]; assumption.
Qed.


Record plain_ticket (t : NewTorAccessTicket) : Prop := {
  pt_public_key : plain_text (nt_client_auth_public_key t);
  pt_secret_path : plain_text (nt_client_auth_secret_path t);
  pt_redeem_token : ∀ x, nt_client_auth_secret_redeem_token t = Some x → plain_text x;
  pt_nonce : plain_text (nt_attestation_nonce_digest t);
  pt_quote : plain_text (nt_attestation_quote_hash t);
  pt_tls : plain_text (nt_tls_pubkey_digest t);
}.

(** What verification reads of [t], with the given expiry and redemption. *)
Definition verification (t : NewTorAccessTicket) (expires_at : DateTime)
    (redeemed_at : option DateTime) : TicketVerificationRecord := {|
  tv_id := nt_id t; tv_credential_id := nt_credential_id t;
  tv_token_hash := nt_token_hash t; tv_client_fingerprint := nt_client_fingerprint t;
  tv_expires_at := expires_at; tv_redeemed_at := redeemed_at;
  tv_client_auth_public_key := nt_client_auth_public_key t;
  tv_client_auth_secret_path := nt_client_auth_secret_path t;
  tv_client_auth_secret_redeem_token := nt_client_auth_secret_redeem_token t;
  tv_attestation_session_id := nt_attestation_session_id t;
  tv_attestation_nonce_digest := nt_attestation_nonce_digest t;
  tv_attestation_quote_hash := nt_attestation_quote_hash t;
  tv_attested_at := stored_time (nt_attested_at t); tv_tee_kind := nt_tee_kind t;
  tv_tee_label := nt_tee_label t; tv_tee_policy := nt_tee_policy t;
  tv_tls_pubkey_digest := nt_tls_pubkey_digest t |}.

(** The next decryption of a ticket, by [lem]. *)
#[local] Ltac reads_step lem :=
  eapply reads_bind; [unfold decrypt_aead_required; solve_preserves
    |apply lem; [first [eapply stores_keeps; [|eassumption] | eapply stores_opt_keeps; [|eassumption]];
       repeat (etrans; [eassumption|]); reflexivity|assumption]
    |let w' := fresh "w" in let Hd := fresh "Hd" in intros w' Hd;
     match type of Hd with ?m ?w = _ =>
       assert (keeps_keys w w') by
         (refine (preserves_run keeps_keys m w _ w' _ Hd);
          unfold decrypt_aead_required; solve_preserves)
     end].

(** Decrypting a row that stores [t] gives back [t]; what the row says of
    expiry and redemption is passed through. *)
Lemma decrypt_ticket_reads t r w :
  plain_ticket t → ticket_stored (w_broker w) t r →
  reads_or_refused (verification t (of_timestamptz (tr_expires_at r))
      (of_timestamptz <$> tr_redeemed_at r))
    (decrypt_ticket (verification_row (nt_id t) r)) w.
Proof.
  intros [] []. unfold decrypt_ticket. cbn [verification_row tv_id tv_client_auth_public_key
    tv_client_auth_secret_path tv_client_auth_secret_redeem_token tv_attestation_nonce_digest
    tv_attestation_quote_hash tv_tls_pubkey_digest].
  reads_step decrypt_required_reads. reads_step decrypt_required_reads.
  reads_step decrypt_optional_reads. reads_step decrypt_required_reads.
  reads_step decrypt_required_reads. reads_step decrypt_required_reads.
  left. split; [|done]. cbn. unfold verification, stored_time. congruence.
Qed.

#[local] Hint Extern 2 (preserves same_db (execute (select_ticket _))) =>
  (apply execute_read_only; by intros ? ? ? ? [= _ <-]) : sdb.
Lemma fetch_ticket_frames id :
  preserves keeps_keys (fetch_tor_ticket_for_verification id) ∧
  preserves later (fetch_tor_ticket_for_verification id) ∧
  preserves same_db (fetch_tor_ticket_for_verification id).
Proof.
  unfold fetch_tor_ticket_for_verification, decrypt_ticket, decrypt_aead_required.
  split_and!; solve_preserves.
Qed.

Lemma fetch_reads t r w :
  plain_ticket t → ticket_stored (w_broker w) t r →
  sql_fault (w_tick w) = None → t_tickets (w_db w) !! nt_id t = Some r →
  reads_or_refused (Some (verification t (of_timestamptz (tr_expires_at r))
      (of_timestamptz <$> tr_redeemed_at r)))
    (fetch_tor_ticket_for_verification (nt_id t)) w.
Proof.
  intros Hp Hst Hf Hr. unfold fetch_tor_ticket_for_verification.
  assert (execute (select_ticket (nt_id t)) w =
    (Ok (Some (verification_row (nt_id t) r)), tick (with_db (w_db w) w))) as E.
  { apply execute_run; [done|]. unfold select_ticket. by rewrite Hr. }
  eapply reads_bind; [apply execute_later|left; by rewrite E|].
  intros w1 E1. rewrite E in E1. injection E1 as <-.
  eapply reads_bind; [unfold decrypt_ticket, decrypt_aead_required; solve_preserves
    |by apply decrypt_ticket_reads|intros; apply reads_ret].
Qed.

(** Redemptions and expiries of a ticket, in any number and order. *)
Definition evolves : TicketRow → TicketRow → Prop :=
  rtc (λ r r', (∃ onion now, r' = set_redeemed onion now r) ∨ (∃ now, r' = set_expired now r)).

Lemma evolves_stored b t r r' : evolves r r' → ticket_stored b t r → ticket_stored b t r'.
Proof.
  induction 1 as [|r r1 r' Hstep _ IH]; [done|]. intros []. apply IH.
  destruct Hstep as [(onion & now & ->)|(now & ->)]; by split.
Qed.

(** C4. What was issued can be verified. Take a ticket whose protected fields
    were given in the clear, and a later state in which the ticket's row has at
    most been redeemed or expired (any number of times). Then fetching the
    ticket changes no row, and it decrypts every protected field to the text it
    was issued with and returns the other fields as they were given, the time of
    attestation in whole microseconds; or the broker refused to redeem a key it
    had issued, the error is the broker's, and the client counted it. *)
Theorem ticket_round_trip t w it w1 w2 r r2 :
  plain_ticket t → issue_tor_ticket t w = (Ok it, w1) → keeps_keys w1 w2 →
  t_tickets (w_db w1) !! nt_id t = Some r →
  evolves r r2 →
  t_tickets (w_db w2) !! nt_id t = Some r2 → sql_fault (w_tick w2) = None →
  reads_or_refused (Some (verification t (of_timestamptz (tr_expires_at r2))
      (of_timestamptz <$> tr_redeemed_at r2)))
    (fetch_tor_ticket_for_verification (nt_id t)) w2 ∧
  w_db (snd (fetch_tor_ticket_for_verification (nt_id t) w2)) = w_db w2.
Proof.
  intros Hp (r' & _ & Hst & _ & Hdb & _)%issue_run Hk Hr Hr2 Hr2' Hf.
  assert (r' = r) as ->.
  { rewrite Hdb in Hr. cbn in Hr. rewrite lookup_insert_eq in Hr. congruence. }
  split; [|apply fetch_ticket_frames]. apply fetch_reads; [done| |done|done].
  eapply evolves_stored; [done|]. by eapply ticket_stored_keeps.
Qed.

Lemma update_ticket_Ok f id now d n d' :
  update_ticket f id now d = Ok (n, d') ↔
  d' = set_tickets (alter (f now) id (t_tickets d)) d ∧
  n = (if decide (is_Some (t_tickets d !! id)) then 1%N else 0%N).
Proof.
  unfold update_ticket. destruct (t_tickets d !! id) as [r|] eqn:E.
  - rewrite decide_True by eauto.
    assert (alter (f now) id (t_tickets d) = <[id := f now r]> (t_tickets d)) as ->; [|naive_solver].
    apply map_eq. intros k. destruct (decide (k = id)) as [->|].
    + by rewrite lookup_alter_eq, lookup_insert_eq, E.
    + by rewrite lookup_alter_ne, lookup_insert_ne.
  - rewrite decide_False by (by intros [? [=]]).
    assert (alter (f now) id (t_tickets d) = t_tickets d) as ->; [|destruct d; naive_solver].
    apply map_eq. intros k. destruct (decide (k = id)) as [->|].
    + by rewrite lookup_alter_eq, E.
    + by rewrite lookup_alter_ne.
Qed.

(** A redemption that succeeds changes the one ticket it names: its
    redemption time becomes the server's time and its onion the stored one,
    which is the encryption of the given onion for this ticket, or the given
    text itself when that has the form of a payload (of either version,
    bound to any position). Every other row and column stays. *)
Theorem redeem_sets_one_ticket id onion w w' :
  mark_tor_ticket_redeemed id onion w = (Ok (), w') →
  ∃ stored now,
    w_db w' = set_tickets (alter (set_redeemed stored now) id (t_tickets (w_db w))) (w_db w) ∧
    server_now (w_tick w) <= now ∧
    (is_aead_payload onion = false →
      protects (w_broker w') (redeemed_onion_aad id) stored (as_bytes onion)) ∧
    (is_aead_payload onion = true → stored = onion ∧ w_broker w' = w_broker w).
Proof.
  unfold mark_tor_ticket_redeemed. intros Hrun. inv_run Hrun.
  apply execute_Ok in Hrun1 as (_ & d & [-> _]%update_ticket_Ok & ->).
  exists a, (server_now (w_tick w0)).
  destruct (is_aead_payload onion) eqn:E.
  { inv_run Hrun0. split_and!; [done|lia|done|done]. }
  pose proof (preserves_run later _ _ _ _ (encrypt_later _ _ _) Hrun0) as Hl.
  pose proof (preserves_run same_db _ _ _ _ (encrypt_same_db _ _ _) Hrun0) as Hdb.
  rewrite <-Hdb. split_and!; [done|apply server_now_mono, Hl| |done].
  intros _. exact (encrypt_protects _ _ _ _ _ _ Hrun0).
Qed.
End tickets.

(** ** Sessions *)

Section sessions.
Context `{!BrokerLaws, !Base64Laws, !RingLaws, !HostLaws}.

Lemma insert_session_Ok id f now d d' :
  insert_session id f now d = Ok ((), d') ↔
  t_sessions d !! id = None ∧ is_Some (t_credentials d !! sr_credential_id (f now)) ∧
  d' = set_sessions (<[id := f now]> (t_sessions d)) d.
Proof.
  unfold insert_session.
  destruct (t_sessions d !! id), (t_credentials d !! _); split; naive_solver.
Qed.

(** The session as the database gives it back. *)
Definition stored_session (s : TorSessionRecord) : TorSessionRecord := {|
  ts_id := ts_id s; ts_credential_id := ts_credential_id s; ts_circuit_id := ts_circuit_id s;
  ts_fingerprint := ts_fingerprint s; ts_guard_nodes := ts_guard_nodes s;
  ts_client_onion := ts_client_onion s; ts_expires_at := stored_time <$> ts_expires_at s |}.

End sessions.

(** ** Garbage collection and windows *)

(** C32. Garbage collection: it deletes exactly the tickets whose expiry lies
      before the cutoff and which are redeemed or expired, and returns their
      number. So whatever the retention, no ticket that is neither redeemed nor
      expired is deleted; and for a retention of zero days or more the second
      condition is implied by the first, so that no unexpired ticket is. *)
Theorem gc_deletes_expired days w n w' :
  gc_expired_tickets days w = (Ok n, w') →
  let now := server_now (w_tick w) in
  let cutoff := now - days * USECS_PER_DAY in
  (∀ id r, t_tickets (w_db w') !! id = Some r ↔
    t_tickets (w_db w) !! id = Some r ∧ gc_eligible cutoff now r = false) ∧
  Z.of_nat (size (t_tickets (w_db w))) = Z.of_N n + Z.of_nat (size (t_tickets (w_db w'))) ∧
  (∀ id r, t_tickets (w_db w) !! id = Some r → tr_redeemed_at r = None → now <= tr_expires_at r →
    t_tickets (w_db w') !! id = Some r) ∧
  (0 <= days → ∀ id r, t_tickets (w_db w) !! id = Some r →
    t_tickets (w_db w') !! id = (if tr_expires_at r <? cutoff then None else Some r)).
Proof.
  intros (_ & d & Hq & ->)%execute_Ok. unfold delete_expired_tickets in Hq.
  apply result_bind_Ok in Hq as (cutoff & ->%minus_days_Ok & [= <- <-]).
  cbv zeta. cbn. split_and!.
  - intros id r. apply (delete_rows_Some (λ _, gc_eligible _ _)).
  - rewrite Z2N.id by (unfold count_rows; lia).
    apply (delete_rows_count (λ _, gc_eligible _ _)).
  - intros id r Hr Hn He. apply (delete_rows_Some (λ _, gc_eligible _ _)). split; [done|].
    unfold gc_eligible. rewrite Hn. rewrite (proj2 (Z.ltb_ge _ _) He). by rewrite andb_false_r.
  - intros Hd id r Hr.
    assert (gc_eligible (server_now (w_tick w) - days * USECS_PER_DAY) (server_now (w_tick w)) r
      = (tr_expires_at r <? server_now (w_tick w) - days * USECS_PER_DAY)) as Hg.
    { unfold gc_eligible. destruct (_ <? _ - _) eqn:Hc; [|done]. simpl.
      unfold USECS_PER_DAY, USECS_PER_SEC in Hc. rewrite (proj2 (Z.ltb_lt _ _)) by lia.
      apply orb_true_r. }
    rewrite <-Hg. unfold delete_rows. rewrite map_lookup_filter, Hr. simpl.
    destruct (gc_eligible _ _ _) eqn:E; by case_guard.
Qed.

(** The windows of the two rate limits, in seconds, for every length up to
      285 years: a session counts when it was issued no earlier than the start
      of the window, a ticket only when it was created strictly after it. *)
Theorem windows_exact credential_id secs w n w' :
  Z.abs secs * USECS_PER_SEC < 2 ^ 53 →
  let start := server_now (w_tick w) - secs * USECS_PER_SEC in
  (count_recent_sessions credential_id secs w = (Ok n, w') →
    n = count_rows (λ _ r, bool_decide (sr_credential_id r = credential_id ∧
                                        start <= sr_issued_at r)) (t_sessions (w_db w)) ∧
    w_db w' = w_db w) ∧
  (count_recent_tickets credential_id secs w = (Ok n, w') →
    n = count_rows (λ _ r, bool_decide (tr_credential_id r = credential_id ∧
                                        start < tr_created_at r)) (t_tickets (w_db w)) ∧
    w_db w' = w_db w).
Proof.
  intros Hs. cbv zeta. unfold count_recent_sessions, count_recent_tickets.
  split; intros (_ & d & Hq & ->)%execute_Ok;
    unfold count_sessions_since, count_tickets_since in Hq;
    apply result_bind_Ok in Hq as (start & Hm%minus_usecs_Ok & [= <- <-]);
    rewrite secs_bigint_exact in Hm by done; subst start; (split; [|done]);
    unfold count_rows, where_rows; do 2 f_equal; apply map_filter_ext; intros k r _; simpl;
    rewrite bool_decide_eq_true, andb_true_iff, bool_decide_eq_true;
    [by rewrite Z.leb_le|by rewrite Z.ltb_lt].
Qed.

(** ** Credentials *)

Definition onions_unique (d : Tables) : Prop :=
  ∀ i j ri rj, t_credentials d !! i = Some ri → t_credentials d !! j = Some rj →
    cr_onion_entry ri = cr_onion_entry rj → i = j.

Lemma onion_taken_false id onion (m : gmap Uuid CredentialRow) :
  onion_taken id onion m = false ↔
  ∀ j r, m !! j = Some r → cr_onion_entry r = onion → j = id.
Proof.
  unfold onion_taken. rewrite exists_row_false. split.
  - intros Hf j r Hj Ho. specialize (Hf j r Hj).
    apply andb_false_iff in Hf as [Hf|Hf].
    + apply negb_false_iff, bool_decide_eq_true in Hf. done.
    + by apply bool_decide_eq_false in Hf.
  - intros Hu j r Hj. apply andb_false_iff. destruct (decide (cr_onion_entry r = onion)).
    + left. apply negb_false_iff, bool_decide_eq_true. eauto.
    + right. by apply bool_decide_eq_false.
Qed.

Lemma put_credential_Ok id r d d' :
  put_credential id r d = Ok d' ↔
  onion_taken id (cr_onion_entry r) (t_credentials d) = false ∧
  d' = set_credentials (<[id := r]> (t_credentials d)) d.
Proof. unfold put_credential. destruct (onion_taken _ _ _); naive_solver. Qed.

Lemma put_credential_unique id r d d' :
  onions_unique d → put_credential id r d = Ok d' → onions_unique d'.
Proof.
  intros Hu [Ht ->]%put_credential_Ok i j ri rj. rewrite onion_taken_false in Ht. cbn.
  rewrite !lookup_insert_Some. intros [[<- <-]|[Hi Hri]] [[<- <-]|[Hj Hrj]] E; eauto.
  symmetry. eauto.
Qed.

Lemma update_credential_Ok f id now d n d' :
  update_credential f id now d = Ok (n, d') →
  match t_credentials d !! id with
  | None => n = 0%N ∧ d' = d
  | Some r => n = 1%N ∧ put_credential id (touch_updated_at now (f now r)) d = Ok d'
  end.
Proof.
  unfold update_credential. destruct (t_credentials d !! id); [|naive_solver].
  intros (d1 & Hp & [= <- <-])%result_bind_Ok. done.
Qed.

(** The credential a row stands for. *)
Definition credential_of (id : Uuid) (r : CredentialRow) : TorCredential :=
  credential_from_row (select_credential id r).

Lemma fetch_by_id_run id w :
  sql_fault (w_tick w) = None →
  fetch_tor_credential_by_id id w =
    (Ok (credential_of id <$> t_credentials (w_db w) !! id), tick (with_db (w_db w) w)).
Proof.
  intros Hf. unfold fetch_tor_credential_by_id.
  erewrite eff_bind_step by (by apply execute_run).
  unfold mret, eff_ret. by destruct (t_credentials _ !! id).
Qed.

Lemma fetch_by_onion_run onion id r w :
  sql_fault (w_tick w) = None → onions_unique (w_db w) →
  t_credentials (w_db w) !! id = Some r → cr_onion_entry r = onion →
  fetch_tor_credential onion w = (Ok (Some (credential_of id r)), tick (with_db (w_db w) w)).
Proof.
  intros Hf Hu Hr Ho. unfold fetch_tor_credential.
  erewrite eff_bind_step by (by apply execute_run).
  destruct (find_row _ _) as [[j r']|] eqn:E; simpl.
  - apply find_row_Some in E as [Hj Hb%bool_decide_eq_true].
    assert (j = id) as -> by (eapply Hu; [done..|by rewrite Hb, Ho]). by simplify_eq.
  - rewrite find_row_None in E. specialize (E id r Hr). by apply bool_decide_eq_false in E.
Qed.

(** The credential as the database gives it back: its times in whole
    microseconds. *)
Definition stored_credential (c : TorCredential) : TorCredential := {|
  tc_id := tc_id c; tc_onion_entry := tc_onion_entry c; tc_tier := tc_tier c;
  tc_credential_hash := tc_credential_hash c;
  tc_operational_onion := tc_operational_onion c; tc_guard_nodes := tc_guard_nodes c;
  tc_created_at := stored_time (tc_created_at c); tc_updated_at := stored_time (tc_updated_at c);
  tc_expires_at := stored_time <$> tc_expires_at c; tc_disabled := tc_disabled c;
  tc_rate_limit_per_minute := tc_rate_limit_per_minute c;
  tc_last_rotated_at := stored_time <$> tc_last_rotated_at c |}.

Lemma credential_of_new id onion hash tier rate expires guards now :
  credential_of id (new_credential_row (trim onion) hash tier rate (to_timestamptz <$> expires)
    guards (to_timestamptz now)) =
  stored_credential (returned_credential id onion hash tier rate expires guards now).
Proof. by destruct expires. Qed.

(** C28. Creating a credential that succeeds: its identifier and its (trimmed)
    entry onion were free; the tables gain exactly this row; the returned record
    has the caller's values and the client's clock; and later reads by
    identifier or by entry onion return that record with its three times cut to
    whole microseconds, as long as the row stays. *)
Theorem create_then_fetch onion hash tier rate expires guards w c w1 w2 :
  create_tor_credential onion hash tier rate expires guards w = (Ok c, w1) →
  onions_unique (w_db w) →
  t_credentials (w_db w2) = t_credentials (w_db w1) → sql_fault (w_tick w2) = None →
  c = returned_credential (tc_id c) onion hash tier rate expires guards
        (client_now (S (w_tick w))) ∧
  t_credentials (w_db w) !! tc_id c = None ∧
  (∃ r, w_db w1 = set_credentials (<[tc_id c := r]> (t_credentials (w_db w))) (w_db w)) ∧
  onions_unique (w_db w1) ∧
  fst (fetch_tor_credential_by_id (tc_id c) w2) = Ok (Some (stored_credential c)) ∧
  fst (fetch_tor_credential (trim onion) w2) = Ok (Some (stored_credential c)).
Proof.
  intros Hrun Hu Hw2 Hf. unfold create_tor_credential in Hrun. inv_run Hrun.
  injection Hrun0 as <- <-. injection Hrun1 as <- <-.
  apply execute_Ok in Hrun2 as (_ & d & Hins & ->).
  unfold insert_credential in Hins. cbn in Hins.
  destruct (t_credentials (w_db w) !! _) eqn:Hid; [done|].
  apply result_bind_Ok in Hins as (d1 & Hput & [= <- <-]).
  pose proof (put_credential_unique _ _ _ _ Hu Hput) as Hu1.
  apply put_credential_Ok in Hput as [_ ->]. cbn in Hw2 |- *.
  set (r := new_credential_row _ _ _ _ _ _ _) in *.
  assert (t_credentials (w_db w2) !! new_v4 (w_tick w) = Some r) as Hr.
  { by rewrite Hw2, lookup_insert_eq. }
  pose proof (credential_of_new (new_v4 (w_tick w)) onion hash tier rate expires guards
    (client_now (S (w_tick w)))) as Hof.
  split_and!; [done|done|by eexists|done| |].
  - rewrite fetch_by_id_run by done. rewrite Hr. cbn. by rewrite <-Hof.
  - rewrite (fetch_by_onion_run _ (new_v4 (w_tick w)) r); [by rewrite <-Hof|done| |done|done].
    unfold onions_unique in *. by rewrite Hw2.
Qed.

(** Importing a bootstrap credential over an existing row: the imported
    columns are replaced and the credential is enabled, but the row keeps its
    operational onion, its creation time and the time of its last rotation,
    although the returned record has none of the three (it is the stored one,
    up to fractions of a microsecond, only when the row was new). *)
Theorem import_keeps_history id onion hash tier rate expires guards w c w1 :
  import_bootstrap_tor_credential id onion hash tier rate expires guards w = (Ok c, w1) →
  ∃ r, t_credentials (w_db w1) = <[id := r]> (t_credentials (w_db w)) ∧
    w_db w1 = set_credentials (t_credentials (w_db w1)) (w_db w) ∧
    tc_operational_onion c = None ∧ tc_last_rotated_at c = None ∧
    cr_onion_entry r = trim onion ∧ cr_credential_hash r = hash ∧ cr_tier r = tier ∧
    cr_guard_nodes r = guards ∧ cr_rate_limit_per_minute r = rate ∧
    cr_expires_at r = to_timestamptz <$> expires ∧ cr_disabled r = false ∧
    match t_credentials (w_db w) !! id with
    | None => credential_of id r = stored_credential c
    | Some old =>
        cr_operational_onion r = cr_operational_onion old ∧
        cr_created_at r = cr_created_at old ∧
        cr_last_rotated_at r = cr_last_rotated_at old ∧
        server_now (w_tick w + 1) = cr_updated_at r
    end.
Proof.
  intros Hrun. unfold import_bootstrap_tor_credential in Hrun. inv_run Hrun.
  injection Hrun0 as <- <-. apply execute_Ok in Hrun1 as (_ & d & Hins & ->).
  unfold import_credential in Hins. cbn in Hins |- *. rewrite Nat.add_1_r.
  destruct (t_credentials (w_db w) !! id) as [old|];
    apply result_bind_Ok in Hins as (d1 & [_ ->]%put_credential_Ok & [= <- <-]);
    eexists; split_and!; first [reflexivity|apply credential_of_new].
Qed.

Lemma delete_credential_Ok id now d n d' :
  delete_credential id now d = Ok (n, d') →
  (n = 0%N ∧ d' = d ∧ t_credentials d !! id = None) ∨
  (n = 1%N ∧ is_Some (t_credentials d !! id) ∧
    t_credentials d' = delete id (t_credentials d) ∧
    t_sessions d' =
      delete_rows (λ _ r, bool_decide (sr_credential_id r = id)) (t_sessions d) ∧
    t_tickets d' =
      delete_rows (λ _ r, bool_decide (tr_credential_id r = id)) (t_tickets d) ∧
    d' = set_tickets (t_tickets d') (set_sessions (t_sessions d')
           (set_credentials (t_credentials d') d))).
Proof.
  unfold delete_credential. destruct (t_credentials d !! id) eqn:E; [right|left]; naive_solver.
Qed.

(** Deleting a credential reports whether it existed, and takes exactly its
    own sessions and tickets with it. *)
Theorem delete_cascades id w b w' :
  delete_tor_credential id w = (Ok b, w') →
  b = bool_decide (is_Some (t_credentials (w_db w) !! id)) ∧
  (b = false → w_db w' = w_db w) ∧
  (b = true →
    t_credentials (w_db w') = delete id (t_credentials (w_db w)) ∧
    (∀ k r, t_sessions (w_db w') !! k = Some r ↔
      t_sessions (w_db w) !! k = Some r ∧ sr_credential_id r ≠ id) ∧
    (∀ k r, t_tickets (w_db w') !! k = Some r ↔
      t_tickets (w_db w) !! k = Some r ∧ tr_credential_id r ≠ id) ∧
    w_db w' = set_tickets (t_tickets (w_db w')) (set_sessions (t_sessions (w_db w'))
                (set_credentials (t_credentials (w_db w')) (w_db w)))).
Proof.
  unfold delete_tor_credential. intros Hrun. inv_run Hrun.
  apply execute_Ok in Hrun0 as (_ & d & [(-> & -> & E)|(-> & E & Hc & Hs & Ht & Hd)]%delete_credential_Ok & ->).
  - rewrite E. split_and!; done.
  - rewrite bool_decide_true by done. split_and!; [done|done|]. intros _. cbn.
    rewrite Hs, Ht, Hc in *. split_and!; [done| | |done].
    + intros k r. by rewrite delete_rows_Some, bool_decide_eq_false.
    + intros k r. by rewrite delete_rows_Some, bool_decide_eq_false.
Qed.

(** Listing credentials returns at most a thousand (a hundred when the limit
    is zero or negative), in order of creation; every returned record is a row
    of the table, none twice, and no row that was cut off is older than one
    that was returned. *)
Theorem list_is_oldest_first limit w l w' :
  list_tor_credentials limit w = (Ok l, w') →
  w_db w' = w_db w ∧
  length l = Nat.min (Z.to_nat (if limit <=? 0 then 100 else limit `min` 1000))
               (size (t_credentials (w_db w))) ∧
  StronglySorted (by_key (λ c, nanos (tc_created_at c))) l ∧
  ∃ rest, l ++ rest ≡ₚ (λ kr, credential_of kr.1 kr.2) <$> map_to_list (t_credentials (w_db w)) ∧
    ∀ a b, a ∈ l → b ∈ rest → nanos (tc_created_at a) <= nanos (tc_created_at b).
Proof.
  unfold list_tor_credentials. intros Hrun. inv_run Hrun.
  apply execute_Ok in Hrun0 as (_ & d & Hq & ->). unfold select_credentials in Hq.
  apply result_bind_Ok in Hq as (rows & Hl & [= <- <-]).
  apply sorted_limit in Hl as (Hs & Hlen & rest & Hp & Hab).
  cbn. rewrite !length_fmap. unfold capped_limit in Hlen. split_and!; [done| | |].
  { by rewrite Hlen, length_map_to_list. }
  - clear -Hs. induction Hs as [|r rows Hs IH Hf]; constructor; [done|].
    apply Forall_fmap, Forall_fmap. eapply Forall_impl; [exact Hf|].
    intros x. unfold by_key. cbn. lia.
  - exists ((λ kr, credential_of kr.1 kr.2) <$> rest). split.
    + rewrite <-list_fmap_compose, <-fmap_app. by rewrite <-Hp.
    + intros a b (? & -> & (ra & -> & Ha)%list_elem_of_fmap)%list_elem_of_fmap
        (rb & -> & Hb)%list_elem_of_fmap. specialize (Hab ra rb Ha Hb). cbn. lia.
Qed.
End props.
End TorAuthProps.

#[export] Hint Resolve TorAuthProps.ensure_required_same_db TorAuthProps.ensure_required_keeps : sdb.

(** ** Concrete runs *)
Section concrete.
Import Ref TorAuthProps.

Definition ex_credential : TorCredential := {|
  tc_id := 0%N; tc_onion_entry := ""; tc_tier := ""; tc_credential_hash := "";
  tc_operational_onion := None; tc_guard_nodes := []; tc_created_at := utc 0; tc_updated_at := utc 0;
  tc_expires_at := None; tc_disabled := false; tc_rate_limit_per_minute := 0;
  tc_last_rotated_at := None |}.
Definition ex_create : World → result DatabaseError TorCredential * World :=
  create_tor_credential " entry.onion " "hash" "basic" 30 (Some (utc 3600000000001)) ["g1"].
Definition ex_created : result DatabaseError TorCredential * World := ex_create ref_world.
Definition ex_w1 : World := snd ex_created.
Definition ex_cred_id : Uuid := 1000%N.

Definition ex_ticket : NewTorAccessTicket := {|
  nt_id := 5%N; nt_credential_id := 1000%N; nt_entry_onion := "entry.onion";
  nt_token_hash := "th"; nt_expires_at := utc 60000000000; nt_client_fingerprint := None;
  nt_client_auth_public_key := "pk"; nt_client_auth_secret_path := "path";
  nt_client_auth_secret_redeem_token := Some "tok"; nt_attestation_session_id := 9%N;
  nt_attestation_nonce_digest := "nonce"; nt_attestation_quote_hash := "quote";
  nt_attested_at := utc 1234567; nt_tee_kind := "tdx"; nt_tee_label := None; nt_tee_policy := None;
  nt_tls_pubkey_digest := "tls" |}.
Definition ex_issued : result DatabaseError IssuedTorAccessTicket * World :=
  issue_tor_ticket ex_ticket ex_w1.
Definition ex_w2 : World := snd ex_issued.
Lemma ex_issued_ok : is_ok (fst ex_issued) = true.
Proof. vm_compute. reflexivity. Qed.

Definition ex_row : TicketRow := {|
  tr_credential_id := 0%N; tr_token_hash := ""; tr_entry_onion := "";
  tr_client_fingerprint := None; tr_created_at := 0; tr_expires_at := 0;
  tr_redeemed_at := None; tr_redeemed_operational_onion := None;
  tr_client_auth_public_key := ""; tr_client_auth_secret_path := "";
  tr_client_auth_secret_redeem_token := None; tr_attestation_session_id := 0%N;
  tr_attestation_nonce_digest := ""; tr_attestation_quote_hash := ""; tr_attested_at := 0;
  tr_tee_kind := ""; tr_tee_label := None; tr_tee_policy := None; tr_tls_pubkey_digest := "" |}.
Definition ex_stored_row : TicketRow :=
  default ex_row (t_tickets (w_db ex_w2) !! nt_id ex_ticket).

Lemma ex_ticket_plain : plain_ticket ex_ticket.
Proof. split; try (split; reflexivity). intros x [= <-]. split; reflexivity. Qed.


Definition ex_verified : M (option TicketVerificationRecord) :=
  fetch_tor_ticket_for_verification (nt_id ex_ticket).
Lemma ticket_round_trip_witness :
  fst (ex_verified ex_w2) = Ok (Some (verification ex_ticket
    (of_timestamptz (tr_expires_at ex_stored_row))
    (of_timestamptz <$> tr_redeemed_at ex_stored_row))) ∧
  w_db (snd (ex_verified ex_w2)) = w_db ex_w2.
Proof.
  assert (is_ok (fst (ex_verified ex_w2)) = true) as Hok by (vm_compute; reflexivity).
  destruct (ticket_round_trip ex_ticket ex_w1 (unwrap_or (issued ex_ticket (utc 0)) (fst ex_issued))
    ex_w2 ex_w2 ex_stored_row ex_stored_row) as [Hr Hdb].
  - apply ex_ticket_plain.
  - exact (run_eta (issued ex_ticket (utc 0)) ex_issued ex_issued_ok).
  - apply keeps_keys_refl.
  - apply option_eta. vm_compute. reflexivity.
  - apply rtc_refl.
  - apply option_eta. vm_compute. reflexivity.
  - reflexivity.
  - split; [|exact Hdb]. destruct Hr as [[E _]|[(e & _ & E) _]]; [exact E|].
    exfalso. revert Hok. unfold ex_verified. rewrite E. discriminate.
Defined.

Definition ex_redeem : result DatabaseError () * World :=
  mark_tor_ticket_redeemed (nt_id ex_ticket) "op.onion" ex_w2.
Lemma redeem_sets_one_ticket_witness :
  ∃ stored now,
    w_db (snd ex_redeem) = set_tickets
      (alter (set_redeemed stored now) (nt_id ex_ticket) (t_tickets (w_db ex_w2))) (w_db ex_w2) ∧
    server_now (w_tick ex_w2) <= now ∧
    (is_aead_payload "op.onion" = false →
      protects (w_broker (snd ex_redeem)) (redeemed_onion_aad (nt_id ex_ticket)) stored
        (as_bytes "op.onion")) ∧
    (is_aead_payload "op.onion" = true →
      stored = "op.onion" ∧ w_broker (snd ex_redeem) = w_broker ex_w2).
Proof.
  apply (redeem_sets_one_ticket (nt_id ex_ticket) "op.onion" ex_w2 (snd ex_redeem)).
  apply run_fst. vm_compute. reflexivity.
Defined.

Definition ex_session : TorSessionRecord := {|
  ts_id := 7%N; ts_credential_id := 1000%N; ts_circuit_id := Some "c"; ts_fingerprint := None;
  ts_guard_nodes := ["g1"; "g2"]; ts_client_onion := Some "client.onion";
  ts_expires_at := Some (utc 7000000999) |}.
Definition ex_recorded : result DatabaseError () * World := record_tor_session ex_session ex_w1.
Definition ex_fetched : M (option TorSessionRecord) := fetch_tor_session (ts_id ex_session).

(** With no retention, the ticket is gone 100 seconds later. *)
Definition ex_late : World := mk_world 100 (w_db ex_w2) (w_broker ex_w2) [].
Definition ex_gc : result DatabaseError N * World := gc_expired_tickets 0 ex_late.
Lemma gc_deletes_expired_witness :
  fst ex_gc = Ok 1%N ∧
  (∀ id r, t_tickets (w_db (snd ex_gc)) !! id = Some r ↔
    t_tickets (w_db ex_late) !! id = Some r ∧
    gc_eligible (server_now (w_tick ex_late) - 0 * USECS_PER_DAY) (server_now (w_tick ex_late)) r = false).
Proof.
  assert (fst ex_gc = Ok 1%N) as E by (vm_compute; reflexivity).
  split; [exact E|].
  apply (gc_deletes_expired 0 ex_late 1%N (snd ex_gc)), run_fst, E.
Defined.

Lemma windows_exact_witness :
  count_rows (λ _ r, bool_decide (tr_credential_id r = ex_cred_id ∧
    server_now (w_tick ex_w2) - 60 * USECS_PER_SEC < tr_created_at r)) (t_tickets (w_db ex_w2)) = 1.
Proof.
  symmetry. eapply (windows_exact ex_cred_id 60 ex_w2 1
    (snd (count_recent_tickets ex_cred_id 60 ex_w2))); [vm_compute; reflexivity|].
  apply run_fst. vm_compute. reflexivity.
Defined.

Lemma create_then_fetch_witness :
  fst (fetch_tor_credential "entry.onion" ex_w1) =
    Ok (Some (stored_credential (unwrap_or ex_credential (fst ex_created)))).
Proof.
  apply (create_then_fetch " entry.onion " "hash" "basic" 30 (Some (utc 3600000000001)) ["g1"]
    ref_world (unwrap_or ex_credential (fst ex_created)) ex_w1 ex_w1).
  - apply run_eta. vm_compute. reflexivity.
  - intros i j ri rj Hi. discriminate Hi.
  - reflexivity.
  - reflexivity.
Defined.

Definition ex_rotated : World :=
  snd (rotate_operational_onion ex_cred_id "op.onion" ["g3"] ex_w1).
Definition ex_import : result DatabaseError TorCredential * World :=
  import_bootstrap_tor_credential ex_cred_id "entry2.onion" "hash2" "pro" 60 None [] ex_rotated.
Lemma import_keeps_history_witness :
  is_ok (fst ex_import) = true ∧
  ∃ r, t_credentials (w_db (snd ex_import)) =
      <[ex_cred_id := r]> (t_credentials (w_db ex_rotated)) ∧
    tc_operational_onion (unwrap_or ex_credential (fst ex_import)) = None ∧
    cr_operational_onion r = Some "op.onion".
Proof.
  assert (is_ok (fst ex_import) = true) as E by (vm_compute; reflexivity).
  split; [exact E|].
  destruct (import_keeps_history ex_cred_id "entry2.onion" "hash2" "pro" 60 None [] ex_rotated
    (unwrap_or ex_credential (fst ex_import)) (snd ex_import))
    as (r & Hr & _ & Ho & _ & _ & _ & _ & _ & _ & _ & _ & Hm); [by apply run_eta|].
  exists r. split; [exact Hr|]. split; [exact Ho|].
  destruct (t_credentials (w_db ex_rotated) !! ex_cred_id) as [old|] eqn:Eo.
  - destruct Hm as (-> & _).
    assert ((t_credentials (w_db ex_rotated) !! ex_cred_id) ≫= cr_operational_onion
      = Some "op.onion") as Hx by (vm_compute; reflexivity).
    rewrite Eo in Hx. exact Hx.
  - exfalso. assert (is_some (t_credentials (w_db ex_rotated) !! ex_cred_id) = true) as Hx
      by (vm_compute; reflexivity).
    rewrite Eo in Hx. discriminate Hx.
Defined.

Definition ex_delete : result DatabaseError bool * World := delete_tor_credential ex_cred_id ex_w2.
Lemma delete_cascades_witness :
  fst ex_delete = Ok true ∧
  (∀ k r, t_tickets (w_db (snd ex_delete)) !! k = Some r ↔
    t_tickets (w_db ex_w2) !! k = Some r ∧ tr_credential_id r ≠ ex_cred_id).
Proof.
  assert (fst ex_delete = Ok true) as E by (vm_compute; reflexivity).
  split; [exact E|].
  apply (delete_cascades ex_cred_id ex_w2 true (snd ex_delete)); [by apply run_fst|reflexivity].
Defined.

Definition ex_list : result DatabaseError (list TorCredential) * World := list_tor_credentials 0 ex_w1.
Lemma list_is_oldest_first_witness :
  length (unwrap_or [] (fst ex_list)) = 1%nat ∧
  StronglySorted (by_key (λ c, nanos (tc_created_at c))) (unwrap_or [] (fst ex_list)).
Proof.
  destruct (list_is_oldest_first 0 ex_w1 (unwrap_or [] (fst ex_list)) (snd ex_list))
    as (_ & Hl & Hs & _).
  { apply run_eta. vm_compute. reflexivity. }
  split; [|exact Hs]. rewrite Hl. vm_compute. reflexivity.
Defined.
End concrete.
