(* ===== verification/TicketSpec.v ===== *)
(** * An abstract ticket store, and that the ticket operations refine it

    The store of [Module TicketSpec] keeps tickets in the clear, knows neither
    the broker nor the columns of the database, and answers every call of the
    ticket interface (src/tor_auth.rs) at one moment. [impl_refines] is the forward
    simulation: any history of calls on [World], with any faults of the connection
    and of the broker and with other operations in between, is a history of the
    store. [TicketSystem.v] says so of the whole interface. *)
From S2P Require Import Prelude RustStd Platform World Sql Reference Aead Broker Protected.
From S2P Require Import TorAuth TorAuthProps.
Import Payload SecretBrokerClient Protected TorAuth TorAuthProps.
Local Open Scope Z_scope.

(** ** What failed runs tell, and shared frames *)

Section runs.
Context `{UuidApi, JsonApi, BrokerApi} `{!Host}.

Lemma eff_bind_run {S E A B} (m : eff S E A) (f : A → eff S E B) s r s' :
  (m ≫= f) s = (r, s') →
  (∃ e, m s = (Err e, s') ∧ r = Err e) ∨ (∃ a s1, m s = (Ok a, s1) ∧ f a s1 = (r, s')).
Proof. unfold mbind, eff_bind. destruct (m s) as [[a|e] s1]; naive_solver. Qed.

Lemma eff_bind_assoc {S E A B C} (m : eff S E A) (f : A → eff S E B) (g : B → eff S E C) s :
  ((m ≫= f) ≫= g) s = (m ≫= (λ a, f a ≫= g)) s.
Proof. unfold mbind, eff_bind. by destruct (m s) as [[a|e] s1]. Qed.

(** A statement took effect, acknowledged or not, or it did not. *)
Lemma execute_outcome {A} (q : stmt A) w r w' :
  execute q w = (r, w') →
  let run := q (server_now (w_tick w)) (w_db w) in
  (∃ a d, run = Ok (a, d) ∧ w' = tick (with_db d w) ∧
    (r = Ok a ∧ sql_fault (w_tick w) = None ∨
     ∃ e, r = Err e ∧ is_Some (sql_fault (w_tick w)))) ∨
  (∃ e, r = Err e ∧ w' = tick w ∧
    (is_Some (sql_fault (w_tick w)) ∨ ∃ e', run = Err e')).
Proof.
  cbv zeta. unfold execute, run_stmt. destruct (sql_fault (w_tick w)) as [[m|m]|].
  - intros [= <- <-]. right. eauto 10.
  - destruct (q _ _) as [[a d]|e] eqn:Eq; intros [= <- <-]; [left; eauto 10|right].
    eexists. split; [done|]. split; [by destruct w|eauto].
  - destruct (q _ _) as [[a d]|e] eqn:Eq; intros [= <- <-]; [left; eauto 10|right].
    eexists. split; [done|]. split; [by destruct w|eauto].
Qed.
End runs.

Module TicketSpec.
Section spec.
Context `{UuidApi}.

(** ** The store *)

Record Ticket := {
  at_fields : NewTorAccessTicket;
  at_expires_at : Timestamp;
  at_redeemed : option (Timestamp * string);
}.

Record Store := {
  a_clock : Timestamp;
  a_credentials : gset Uuid;
  a_tickets : gmap Uuid Ticket;
}.

Inductive call :=
  | Issue (t : NewTorAccessTicket)
  | Verify (id : Uuid)
  | Status (id : Uuid)
  | Redeem (id : Uuid) (onion : string)
  | Expire (id : Uuid)
  | Collect (days : Z)
  | Revoke (credential : Uuid).

Inductive reply :=
  | Issued (t : IssuedTorAccessTicket)
  | Verified (t : option TicketVerificationRecord)
  | StatusIs (t : option TicketStatusRecord)
  | Redeemed
  | Expired (found : bool)
  | Collected (n : N)
  | Revoked (found : bool).

Definition with_tickets (m : gmap Uuid Ticket) (a : Store) : Store :=
  {| a_clock := a_clock a; a_credentials := a_credentials a; a_tickets := m |}.
Definition at_time (now : Timestamp) (a : Store) : Store :=
  {| a_clock := now; a_credentials := a_credentials a; a_tickets := a_tickets a |}.

Definition issued_ticket (t : NewTorAccessTicket) : Ticket :=
  {| at_fields := t; at_expires_at := to_timestamptz (nt_expires_at t); at_redeemed := None |}.
Definition redeem_ticket (now : Timestamp) (onion : string) (x : Ticket) : Ticket :=
  {| at_fields := at_fields x; at_expires_at := at_expires_at x;
     at_redeemed := Some (now, onion) |}.
(** Expiring a ticket backdates it by a second. *)
Definition expire_ticket (now : Timestamp) (x : Ticket) : Ticket :=
  {| at_fields := at_fields x; at_expires_at := now - USECS_PER_SEC;
     at_redeemed := at_redeemed x |}.

(** Which tickets garbage collection drops. *)
Definition collectable (cutoff now : Timestamp) (x : Ticket) : bool :=
  (at_expires_at x <? cutoff) &&
  (bool_decide (is_Some (at_redeemed x)) || (at_expires_at x <? now)).

(** An attestation session backs one ticket; the nil session backs any number. *)
Definition session_used (s : Uuid) (m : gmap Uuid Ticket) : bool :=
  negb (bool_decide (s = uuid_nil)) &&
  exists_row (λ _ x, bool_decide (nt_attestation_session_id (at_fields x) = s)) m.

Definition ticket_status (id : Uuid) (x : Ticket) : TicketStatusRecord :=
  {| tst_id := id; tst_credential_id := nt_credential_id (at_fields x);
     tst_expires_at := of_timestamptz (at_expires_at x);
     tst_redeemed_at := of_timestamptz <$> (fst <$> at_redeemed x) |}.
(** What verification reads of a ticket. *)
Definition ticket_verification (x : Ticket) : TicketVerificationRecord :=
  verification (at_fields x) (of_timestamptz (at_expires_at x))
    (of_timestamptz <$> (fst <$> at_redeemed x)).

(** The call [c], carried out at [now]; [None] when the store refuses it. *)
Definition carry_out (now : Timestamp) (c : call) (a : Store) : option (reply * Store) :=
  match c with
  | Issue t =>
      if bool_decide (a_tickets a !! nt_id t = None ∧ nt_credential_id t ∈ a_credentials a) &&
         negb (session_used (nt_attestation_session_id t) (a_tickets a))
      then Some (Issued (issued t (of_timestamptz now)),
                 with_tickets (<[nt_id t := issued_ticket t]> (a_tickets a)) a)
      else None
  | Verify id =>
      Some (Verified (ticket_verification <$> a_tickets a !! id), a)
  | Status id => Some (StatusIs (ticket_status id <$> a_tickets a !! id), a)
  | Redeem id onion =>
      Some (Redeemed, with_tickets (alter (redeem_ticket now onion) id (a_tickets a)) a)
  | Expire id =>
      Some (Expired (bool_decide (is_Some (a_tickets a !! id))),
            with_tickets (alter (expire_ticket now) id (a_tickets a)) a)
  | Collect days =>
      match minus_days now days with
      | Ok cutoff =>
          Some (Collected (Z.to_N (count_rows (λ _, collectable cutoff now) (a_tickets a))),
                with_tickets (delete_rows (λ _, collectable cutoff now) (a_tickets a)) a)
      | Err _ => None
      end
  | Revoke c =>
      if bool_decide (c ∈ a_credentials a) then
        Some (Revoked true,
              {| a_clock := a_clock a; a_credentials := a_credentials a ∖ {[c]};
                 a_tickets := delete_rows
                   (λ _ x, bool_decide (nt_credential_id (at_fields x) = c)) (a_tickets a) |})
      else Some (Revoked false, a)
  end.

(** The calls that encrypt, and so need the broker to mint a key. *)
Definition encrypts (c : call) : bool :=
  match c with Issue _ | Redeem _ _ => true | _ => false end.

(** One call, with or without a fault; the reply is [None] for an error. A fault
    is a failure of the connection, or a refusal of the broker to redeem a key
    that verification needs. A call that neither encrypts nor meets a fault fails only when the
    store refuses it, and then changes nothing; a call that may fail leaves the
    store as it was or carries the call out without saying so. *)
Inductive spec_step (fault : bool) (c : call) (a : Store) : option reply → Store → Prop :=
  | step_done now ρ a' :
      a_clock a <= now → (fault = true → encrypts c = true) →
      carry_out now c a = Some (ρ, a') → spec_step fault c a (Some ρ) (at_time now a')
  | step_unacknowledged now ρ a' :
      a_clock a <= now → encrypts c || fault = true →
      carry_out now c a = Some (ρ, a') → spec_step fault c a None (at_time now a')
  | step_failed now :
      a_clock a <= now → encrypts c || fault = true ∨ carry_out now c a = None →
      spec_step fault c a None (at_time now a).

(** Histories: calls, and operations on other parts of the database, which may
    add credentials. *)
Inductive event :=
  | Called (fault : bool) (c : call) (ρ : option reply)
  | Elsewhere.

Inductive spec_run : Store → list event → Store → Prop :=
  | spec_nil a : spec_run a [] a
  | spec_call fault c ρ a a1 es a2 :
      spec_step fault c a ρ a1 → spec_run a1 es a2 → spec_run a (Called fault c ρ :: es) a2
  | spec_elsewhere now C a es a2 :
      a_clock a <= now → a_credentials a ⊆ C →
      spec_run {| a_clock := now; a_credentials := C; a_tickets := a_tickets a |} es a2 →
      spec_run a (Elsewhere :: es) a2.
End spec.

(** ** The implementation *)

Section refinement.
Context `{UuidApi, JsonApi, BrokerApi} `{!Host} `{Base64, Ring, Digests}.

(** The call on [PgPool]. *)
Definition run_call (c : call) : M reply :=
  match c with
  | Issue t => it ← issue_tor_ticket t; mret (Issued it)
  | Verify id => r ← fetch_tor_ticket_for_verification id; mret (Verified r)
  | Status id => r ← get_tor_ticket_status id; mret (StatusIs r)
  | Redeem id onion => mark_tor_ticket_redeemed id onion;; mret Redeemed
  | Expire id => b ← expire_tor_ticket_now id; mret (Expired b)
  | Collect days => n ← gc_expired_tickets days; mret (Collected n)
  | Revoke c => b ← delete_tor_credential c; mret (Revoked b)
  end.

(** A call meets a fault when its statement does, or when the broker refuses to
    redeem a key during it, which the client counts. *)
Definition faulty (c : call) (w : World) : bool :=
  bool_decide (is_Some (sql_fault (w_tick w))) ||
  negb (refusals (snd (run_call c w)) =? refusals w)%nat.

Context `{!BrokerLaws, !Base64Laws, !RingLaws, !HostLaws}.

(** The other operations: they leave the tickets alone and remove no credential,
    and what the broker issued stays issued. *)
Definition elsewhere (w w' : World) : Prop :=
  later w w' ∧ keeps_keys w w' ∧ t_tickets (w_db w') = t_tickets (w_db w) ∧
  dom (t_credentials (w_db w)) ⊆ dom (t_credentials (w_db w')).

Inductive impl_run : World → list event → World → Prop :=
  | impl_nil w : impl_run w [] w
  | impl_call c w w1 es w2 :
      snd (run_call c w) = w1 → impl_run w1 es w2 →
      impl_run w (Called (faulty c w) c (ok (fst (run_call c w))) :: es) w2
  | impl_elsewhere w w1 es w2 :
      elsewhere w w1 → impl_run w1 es w2 → impl_run w (Elsewhere :: es) w2.

(** The onion of a redemption is encrypted for its ticket, unless the caller
    passed something that looks like a payload, which is stored as it is. *)
Definition onion_stored (b : Broker) (id : Uuid) (s : option string) (onion : option string) :
    Prop :=
  match s, onion with
  | Some s, Some o =>
      if is_aead_payload o then s = o
      else protects b (redeemed_onion_aad id) s (as_bytes o)
  | None, None => True
  | _, _ => False
  end.

(** The row [r] stands for the ticket [x]. *)
Record row_is (b : Broker) (id : Uuid) (r : TicketRow) (x : Ticket) : Prop := {
  ri_id : nt_id (at_fields x) = id;
  ri_plain : plain_ticket (at_fields x);
  ri_stored : ticket_stored b (at_fields x) r;
  ri_expires : tr_expires_at r = at_expires_at x;
  ri_redeemed : tr_redeemed_at r = fst <$> at_redeemed x;
  ri_onion : onion_stored b id (tr_redeemed_operational_onion r) (snd <$> at_redeemed x);
}.

(** The tables [d], under the keys of the broker [b], hold the store [a]. *)
Record represents (b : Broker) (d : Tables) (a : Store) : Prop := {
  rep_credentials : a_credentials a = dom (t_credentials d);
  rep_tickets id : option_Forall2 (row_is b id) (t_tickets d !! id) (a_tickets a !! id);
}.
Definition refines (w : World) (a : Store) : Prop :=
  represents (w_broker w) (w_db w) a ∧ a_clock a <= server_now (w_tick w).

(** *** The relation under the operations of the tables *)

Lemma row_is_keeps w w' id r x :
  keeps_keys w w' → row_is (w_broker w) id r x → row_is (w_broker w') id r x.
Proof.
  intros Hk []. split; eauto using ticket_stored_keeps. unfold onion_stored in *.
  destruct (tr_redeemed_operational_onion r), (at_redeemed x) as [[? o]|]; simpl in *; try done.
  destruct (is_aead_payload o); [done|]. by eapply protects_keeps.
Qed.

Lemma represents_keeps w w' d a :
  keeps_keys w w' → represents (w_broker w) d a → represents (w_broker w') d a.
Proof.
  intros Hk [Hc Ht]. split; [done|]. intros id. specialize (Ht id).
  inversion_clear Ht; constructor. by eapply row_is_keeps.
Qed.

Section tables.
Context (b : Broker) (d : Tables) (a : Store) (Hrep : represents b d a).

Lemma rep_lookup id :
  (∃ r x, t_tickets d !! id = Some r ∧ a_tickets a !! id = Some x ∧ row_is b id r x) ∨
  t_tickets d !! id = None ∧ a_tickets a !! id = None.
Proof. destruct (rep_tickets _ _ _ Hrep id); eauto 10. Qed.

Lemma rep_insert id r x :
  row_is b id r x →
  represents b (set_tickets (<[id := r]> (t_tickets d)) d)
    (with_tickets (<[id := x]> (a_tickets a)) a).
Proof.
  intros Hr. split; [apply Hrep|]. intros k. cbn. destruct (decide (k = id)) as [->|Hne].
  - rewrite !lookup_insert_eq. by constructor.
  - rewrite !lookup_insert_ne by done. apply Hrep.
Qed.

Lemma rep_alter f g id :
  (∀ r x, row_is b id r x → row_is b id (f r) (g x)) →
  represents b (set_tickets (alter f id (t_tickets d)) d)
    (with_tickets (alter g id (a_tickets a)) a).
Proof.
  intros Hfg. split; [apply Hrep|]. intros k. cbn. destruct (decide (k = id)) as [->|Hne].
  - rewrite !lookup_alter_eq. destruct (rep_tickets _ _ _ Hrep id); constructor. auto.
  - rewrite !lookup_alter_ne by done. apply Hrep.
Qed.

(** A condition on rows that says the same of the tickets they stand for. *)
Definition agree (p : Uuid → TicketRow → bool) (q : Uuid → Ticket → bool) : Prop :=
  ∀ id r x, row_is b id r x → p id r = q id x.

Lemma rep_exists p q : agree p q → exists_row p (t_tickets d) = exists_row q (a_tickets a).
Proof.
  intros Hpq. apply eq_bool_prop_intro. rewrite !Is_true_true, !exists_row_true.
  split; intros (k & y & Hk & Hp);
    destruct (rep_lookup k) as [(r & x & Hr & Hx & Hrx)|[Hr Hx]]; simplify_eq;
    exists k; eexists; (split; [done|]); specialize (Hpq _ _ _ Hrx); congruence.
Qed.

Lemma rep_delete p q : agree p q → ∀ id,
  option_Forall2 (row_is b id) (delete_rows p (t_tickets d) !! id)
    (delete_rows q (a_tickets a) !! id).
Proof.
  intros Hpq id. unfold delete_rows. rewrite !map_lookup_filter.
  destruct (rep_lookup id) as [(r & x & -> & -> & Hrx)|[-> ->]]; [|constructor]. simpl.
  rewrite (Hpq _ _ _ Hrx). destruct (q id x); repeat case_guard; try done; by constructor.
Qed.

Lemma rep_count p q : agree p q → count_rows p (t_tickets d) = count_rows q (a_tickets a).
Proof.
  intros Hpq. unfold count_rows. f_equal. rewrite <-!(size_dom (D := gset Uuid)). f_equal.
  apply set_eq. intros k. rewrite !elem_of_dom. unfold is_Some.
  setoid_rewrite where_rows_Some.
  destruct (rep_lookup k) as [(r & x & -> & -> & Hrx)|[-> ->]]; [|naive_solver].
  specialize (Hpq _ _ _ Hrx). split; intros (? & [= <-] & ?); eexists; split;
    [done|congruence|done|congruence].
Qed.
End tables.

(** *** Issuing, in two parts: the columns, then the row *)

Definition prepare_ticket (t : NewTorAccessTicket) : M (Timestamp → TicketRow) :=
  let id := nt_id t in
  pk ← ensure_aead_encrypted_required (nt_client_auth_public_key t)
    (ticket_aad "client_auth_public_key" id TICKET_CLIENT_PUBLIC_KEY_AAD)
    "tor-ticket-client-auth-public-key" "client_auth_public_key";
  path ← ensure_aead_encrypted_required (nt_client_auth_secret_path t)
    (ticket_aad "client_auth_secret_path" id TICKET_CLIENT_SECRET_PATH_AAD)
    "tor-ticket-client-auth-secret-path" "client_auth_secret_path";
  nonce ← ensure_aead_encrypted_required (nt_attestation_nonce_digest t)
    (ticket_aad "attestation_nonce_digest" id TICKET_ATTESTATION_NONCE_AAD)
    "tor-ticket-attestation-nonce" "attestation_nonce_digest";
  quote ← ensure_aead_encrypted_required (nt_attestation_quote_hash t)
    (ticket_aad "attestation_quote_hash" id TICKET_ATTESTATION_QUOTE_AAD)
    "tor-ticket-attestation-quote" "attestation_quote_hash";
  token ← ensure_aead_encrypted (nt_client_auth_secret_redeem_token t)
    (ticket_aad "client_auth_secret_redeem_token" id TICKET_CLIENT_SECRET_REDEEM_TOKEN_AAD)
    "tor-ticket-client-auth-secret-redeem-token";
  tls ← ensure_aead_encrypted_required (nt_tls_pubkey_digest t)
    (ticket_aad "tls_pubkey_digest" id TICKET_TLS_PUBKEY_DIGEST_AAD)
    "tor-ticket-tls-pubkey-digest" "tls_pubkey_digest";
  mret (λ now, {|
    tr_credential_id := nt_credential_id t; tr_token_hash := nt_token_hash t;
    tr_entry_onion := nt_entry_onion t; tr_client_fingerprint := nt_client_fingerprint t;
    tr_created_at := now; tr_expires_at := to_timestamptz (nt_expires_at t);
    tr_redeemed_at := None;
    tr_redeemed_operational_onion := None; tr_client_auth_public_key := pk;
    tr_client_auth_secret_path := path; tr_client_auth_secret_redeem_token := token;
    tr_attestation_session_id := nt_attestation_session_id t;
    tr_attestation_nonce_digest := nonce; tr_attestation_quote_hash := quote;
    tr_attested_at := to_timestamptz (nt_attested_at t); tr_tee_kind := nt_tee_kind t;
    tr_tee_label := nt_tee_label t; tr_tee_policy := nt_tee_policy t;
    tr_tls_pubkey_digest := tls |}).

Definition issued_record (t : NewTorAccessTicket) (record : IssuedTorAccessTicketRow) :
    IssuedTorAccessTicket := {|
  it_id := itr_id record; it_credential_id := nt_credential_id t;
  it_entry_onion := nt_entry_onion t; it_client_fingerprint := nt_client_fingerprint t;
  it_created_at := itr_created_at record; it_expires_at := itr_expires_at record;
  it_redeemed_at := None; it_redeemed_operational_onion := None;
  it_client_auth_public_key := nt_client_auth_public_key t;
  it_client_auth_secret_path := nt_client_auth_secret_path t;
  it_client_auth_secret_redeem_token := nt_client_auth_secret_redeem_token t;
  it_attestation_session_id := nt_attestation_session_id t;
  it_attestation_nonce_digest := nt_attestation_nonce_digest t;
  it_attestation_quote_hash := nt_attestation_quote_hash t;
  it_attested_at := nt_attested_at t; it_tee_kind := nt_tee_kind t;
  it_tee_label := nt_tee_label t; it_tee_policy := nt_tee_policy t;
  it_tls_pubkey_digest := nt_tls_pubkey_digest t |}.

Lemma bind_run_ext {S E A B} (m : eff S E A) (f g : A → eff S E B) s :
  (∀ a s1, f a s1 = g a s1) → (m ≫= f) s = (m ≫= g) s.
Proof. intros Hfg. unfold mbind, eff_bind. destruct (m s) as [[a|e] s1]; auto. Qed.

Lemma issue_prepared t w :
  issue_tor_ticket t w =
  (prepare_ticket t ≫= λ f, execute (insert_ticket (nt_id t) f) ≫= λ record,
     mret (issued_record t record)) w.
Proof.
  unfold prepare_ticket, issue_tor_ticket.
  do 6 (rewrite eff_bind_assoc; apply bind_run_ext; intros ??). reflexivity.
Qed.

Lemma ensure_later v a l : preserves later (ensure_aead_encrypted v a l).
Proof. unfold ensure_aead_encrypted. solve_preserves. Qed.
#[local] Hint Resolve ensure_later execute_later : sdb.
Lemma ensure_required_later v a l f : preserves later (ensure_aead_encrypted_required v a l f).
Proof. unfold ensure_aead_encrypted_required. solve_preserves. Qed.
#[local] Hint Resolve ensure_required_later : sdb.

Lemma prepare_same_db t : preserves same_db (prepare_ticket t).
Proof. unfold prepare_ticket. solve_preserves. Qed.
Lemma prepare_keeps t : preserves keeps_keys (prepare_ticket t).
Proof. unfold prepare_ticket. solve_preserves. Qed.
Lemma prepare_later t : preserves later (prepare_ticket t).
Proof. unfold prepare_ticket. solve_preserves. Qed.

(** What follows a frame of a run. *)
Ltac frame P Hrun :=
  lazymatch type of Hrun with ?m ?s = (?r, ?s') =>
    lazymatch goal with
    | K : P s s' |- _ => idtac
    | _ => let K := fresh "K" in
           assert (P s s') as K by (refine (preserves_run P m s r s' _ Hrun); auto with sdb)
    end
  end.

(** The prepared row stores the ticket. *)
Lemma prepare_stores t w f w' now :
  prepare_ticket t w = (Ok f, w') →
  ticket_stored (w_broker w') t (f now) ∧ fresh_ticket t (f now) ∧ tr_created_at (f now) = now.
Proof.
  unfold prepare_ticket. intros Hrun. inv_run Hrun.
  repeat match goal with H : _ _ = (Ok _, _) |- _ => progress frame keeps_keys H end.
  split; [|done].
  split; try reflexivity;
    first [eapply stores_keeps; [|eapply ensure_required_stores; eassumption]
          |eapply stores_opt_keeps; [|eapply ensure_stores; eassumption]];
    repeat (etrans; [eassumption|]); reflexivity.
Qed.

(** *** One call *)

Lemma faulty_fault c w : is_Some (sql_fault (w_tick w)) → faulty c w = true.
Proof. intros Hf. unfold faulty. by rewrite bool_decide_true. Qed.
Lemma faulty_none c w :
  sql_fault (w_tick w) = None → refusals (snd (run_call c w)) = refusals w → faulty c w = false.
Proof.
  intros Hf Hr. unfold faulty. rewrite Hf, Hr, Nat.eqb_refl.
  by rewrite bool_decide_false by (by intros [? [=]]).
Qed.
Lemma faulty_refused c w :
  refusals (snd (run_call c w)) = S (refusals w) → faulty c w = true.
Proof.
  intros Hr. unfold faulty. rewrite Hr. rewrite (proj2 (Nat.eqb_neq _ _)) by lia.
  apply orb_true_r.
Qed.

Definition simulated (c : call) (w : World) (a : Store) : Prop :=
  ∃ a', spec_step (faulty c w) c a (ok (fst (run_call c w))) a' ∧
    refines (snd (run_call c w)) a'.

Lemma represents_time b d now a : represents b d a → represents b d (at_time now a).
Proof. intros []. by split. Qed.

Lemma refines_after w w' d now a :
  now <= server_now (w_tick w') → w_db w' = d → keeps_keys w w' →
  represents (w_broker w) d a → refines w' (at_time now a).
Proof.
  intros Hn <- Hk Hr. split; [|done]. by eapply represents_time, represents_keeps.
Qed.

Lemma ticked w d : server_now (w_tick w) <= server_now (w_tick (tick (with_db d w))).
Proof. apply server_now_mono. simpl. lia. Qed.
Lemma ticked_keeps w d : keeps_keys w (tick (with_db d w)).
Proof. by intros h t k. Qed.
Lemma same_tick w : tick w = tick (with_db (w_db w) w).
Proof. by destruct w. Qed.

(** A call that is one statement. *)
Lemma simulate_statement {A} c a w (q : stmt A) (mk : A → reply) :
  refines w a → encrypts c = false →
  run_call c w = (execute q ≫= λ x, mret (mk x)) w →
  (∀ now x d, q now (w_db w) = Ok (x, d) →
    ∃ a', carry_out now c a = Some (mk x, a') ∧ represents (w_broker w) d a') →
  (∀ now e, q now (w_db w) = Err e → carry_out now c a = None) →
  simulated c w a.
Proof.
  intros [Hr Hc] Hen Hrun Hok Herr. unfold simulated. rewrite Hrun.
  destruct ((execute q ≫= _) w) as [r w'] eqn:E. cbn [fst snd].
  set (now := server_now (w_tick w)) in *.
  assert (∀ a', represents (w_broker w) (w_db w') a' → w' = tick (with_db (w_db w') w) →
    refines w' (at_time now a')) as Hafter.
  { intros a' Ha' Ew. eapply refines_after; [|done| |done]; rewrite Ew;
      [apply ticked|apply ticked_keeps]. }
  apply eff_bind_run in E as [(e & E & ->)|(x & w1 & E & E1)].
  - destruct (execute_outcome _ _ _ _ E) as
      [(x & d & Hq & -> & [[[=] _]|(e' & [= <-] & Hf)])|(e' & [= <-] & -> & Hf)].
    + destruct (Hok now x d Hq) as (a' & Hca & Ha'). exists (at_time now a').
      split; [|by apply Hafter]. eapply step_unacknowledged; [done| |done].
      rewrite faulty_fault by done. apply orb_true_r.
    + exists (at_time now a). split; [|apply Hafter; [exact Hr|exact (same_tick w)]].
      eapply step_failed; [done|].
      destruct Hf as [Hf|(e' & Hq)]; [left|right; by eapply Herr].
      rewrite faulty_fault by done. apply orb_true_r.
  - unfold mret, eff_ret in E1. injection E1 as <- <-.
    apply execute_Ok in E as (Hf & d & Hq & ->).
    destruct (Hok now x d Hq) as (a' & Hca & Ha'). exists (at_time now a').
    split; [|by apply Hafter]. cbn [ok]. eapply step_done; [done| |done].
    rewrite faulty_none; [done|done|].
    by rewrite Hrun.
Qed.

(** A call that prepares a value with the broker and ends with a statement. *)
Lemma simulate_encrypting {A B} c a w (prep : M B) (q : B → stmt A) (mk : A → reply) :
  refines w a → encrypts c = true →
  run_call c w = (prep ≫= λ b, execute (q b) ≫= λ x, mret (mk x)) w →
  preserves same_db prep → preserves keeps_keys prep → preserves later prep →
  (∀ b w1 now x d, prep w = (Ok b, w1) → represents (w_broker w1) (w_db w) a →
    q b now (w_db w) = Ok (x, d) →
    ∃ a', carry_out now c a = Some (mk x, a') ∧ represents (w_broker w1) d a') →
  simulated c w a.
Proof.
  intros [Hr Hc] Hen Hrun Hsd Hsk Hsl Hok. unfold simulated. rewrite Hrun.
  destruct ((prep ≫= _) w) as [r w'] eqn:E. cbn [fst snd].
  apply eff_bind_run in E as [(e & E & ->)|(b & w1 & E & E1)].
  { pose proof (preserves_run _ _ _ _ _ Hsd E) as Kd.
    pose proof (preserves_run _ _ _ _ _ Hsk E) as Kk.
    pose proof (preserves_run _ _ _ _ _ Hsl E) as Kl%server_now_mono.
    exists (at_time (server_now (w_tick w)) a).
    split; [|by eapply refines_after]. eapply step_failed; [done|]. left. by rewrite Hen. }
  pose proof (preserves_run _ _ _ _ _ Hsd E) as Kd. unfold same_db in Kd.
  pose proof (preserves_run _ _ _ _ _ Hsk E) as Kk.
  pose proof (preserves_run _ _ _ _ _ Hsl E) as Kl%server_now_mono.
  set (now := server_now (w_tick w1)) in *.
  assert (a_clock a <= now) as Hnow by lia.
  pose proof (represents_keeps _ _ _ _ Kk Hr) as Hr1.
  assert (∀ a', represents (w_broker w1) (w_db w') a' → w' = tick (with_db (w_db w') w1) →
    refines w' (at_time now a')) as Hafter.
  { intros a' Ha' Ew. eapply refines_after; [|done| |exact Ha']; rewrite Ew;
      [apply ticked|apply ticked_keeps]. }
  assert (encrypts c || faulty c w = true) as Hfal by (by rewrite Hen).
  apply eff_bind_run in E1 as [(e & E1 & ->)|(x & w2 & E1 & E2)].
  - destruct (execute_outcome _ _ _ _ E1) as
      [(x & d & Hq & -> & [[[=] _]|_])|(e' & _ & -> & _)].
    + rewrite Kd in Hq. destruct (Hok b w1 now x d E Hr1 Hq) as (a' & Hca & Ha').
      exists (at_time now a'). split; [|by apply Hafter]. by eapply step_unacknowledged.
    + exists (at_time now a). split; [|apply Hafter; [by cbn; rewrite Kd|exact (same_tick w1)]].
      by eapply step_failed; [done|left].
  - unfold mret, eff_ret in E2. injection E2 as <- <-.
    apply execute_Ok in E1 as (Hf & d & Hq & ->). rewrite Kd in Hq.
    destruct (Hok b w1 now x d E Hr1 Hq) as (a' & Hca & Ha'). exists (at_time now a').
    split; [|by apply Hafter]. by eapply step_done.
Qed.

(** *** Each call *)

Lemma agree_session b s :
  agree b (λ _ r, bool_decide (tr_attestation_session_id r = s))
    (λ _ x, bool_decide (nt_attestation_session_id (at_fields x) = s)).
Proof. intros id r x []. by rewrite (st_session _ _ _ ri_stored0). Qed.
Lemma agree_credential b c :
  agree b (λ _ r, bool_decide (tr_credential_id r = c))
    (λ _ x, bool_decide (nt_credential_id (at_fields x) = c)).
Proof. intros id r x []. by rewrite (st_credential _ _ _ ri_stored0). Qed.
Lemma agree_collectable b cutoff now :
  agree b (λ _, gc_eligible cutoff now) (λ _, collectable cutoff now).
Proof.
  intros id r x []. unfold gc_eligible, collectable. rewrite ri_expires0, ri_redeemed0.
  by destruct (at_redeemed x).
Qed.

Lemma represents_session b d a s :
  represents b d a → attestation_session_taken s (t_tickets d) = session_used s (a_tickets a).
Proof.
  intros Hr. unfold attestation_session_taken, session_used. f_equal.
  eapply rep_exists; [done|]. apply agree_session.
Qed.

Lemma simulate_issue t w a : plain_ticket t → refines w a → simulated (Issue t) w a.
Proof.
  intros Hp Hr.
  eapply (simulate_encrypting _ _ _ (prepare_ticket t) (insert_ticket (nt_id t))
    (λ record, Issued (issued_record t record))); [done..| | | | |].
  - unfold run_call. unfold mbind at 1, eff_bind at 1. rewrite issue_prepared.
    unfold mbind, eff_bind.
    destruct (prepare_ticket t w) as [[f|e] w1]; [|done]. by destruct (execute _ w1) as [[x|e] w2].
  - apply prepare_same_db.
  - apply prepare_keeps.
  - apply prepare_later.
  - intros f w1 now x d Hf Hrep ((Hn & Hs & Hc) & -> & ->)%insert_ticket_Ok.
    destruct (prepare_stores t w f w1 now Hf) as (Hst & (Hx & Hrd & Hro) & Hcr).
    assert (a_tickets a !! nt_id t = None) as Ha.
    { destruct (rep_lookup _ _ _ Hrep (nt_id t)) as [(?&?&?&_)|[_ ?]]; [congruence|done]. }
    rewrite (st_credential _ _ _ Hst) in Hc. rewrite (st_session _ _ _ Hst) in Hs.
    rewrite (represents_session _ _ _ _ Hrep) in Hs.
    eexists. split.
    + cbn. rewrite Hs, bool_decide_true.
      * unfold issued_record. cbn. by rewrite Hcr, Hx.
      * split; [done|]. rewrite (rep_credentials _ _ _ Hrep). by apply elem_of_dom.
    + apply rep_insert; [done|]. split; try done; cbn. by rewrite Hro.
Qed.

Lemma simulate_redeem id onion w a : refines w a → simulated (Redeem id onion) w a.
Proof.
  intros Hr.
  set (prep := (if is_aead_payload onion then mret onion
     else encrypt_with_new_aead (as_bytes onion) (redeemed_onion_aad id)
            "tor-ticket-redeemed-onion") : M string).
  eapply (simulate_encrypting _ _ _ prep (λ s, update_ticket (set_redeemed s) id)
    (λ _, Redeemed)); [done..| | | | |].
  - unfold run_call, mark_tor_ticket_redeemed. fold prep. unfold mbind, eff_bind.
    destruct (prep w) as [[s|e] w1]; [|done]. by destruct (execute _ w1) as [[n|e] w2].
  - unfold prep. destruct (is_aead_payload onion); solve_preserves.
  - unfold prep. destruct (is_aead_payload onion); solve_preserves.
  - unfold prep. destruct (is_aead_payload onion); solve_preserves.
  - intros s w1 now x d Hs Hrep [-> _]%update_ticket_Ok.
    eexists. split; [done|]. apply rep_alter; [done|]. intros r y [].
    split; try done; [by destruct ri_stored0|]. cbn.
    unfold prep in Hs. destruct (is_aead_payload onion); [by inv_run Hs|].
    by eapply encrypt_protects.
Qed.

(** The call is one statement, up to the associativity of sequencing. *)
Ltac one_statement :=
  unfold run_call, get_tor_ticket_status, expire_tor_ticket_now, delete_tor_credential;
  rewrite eff_bind_assoc; reflexivity.

Lemma simulate_status id w a : refines w a → simulated (Status id) w a.
Proof.
  intros Hr. eapply (simulate_statement _ _ _ (select_ticket_status id)
    (λ r, StatusIs (map_ticket_status_row <$> r))); [done..| | |done].
  { one_statement. }
  intros now x d [= <- <-]. eexists. split; [|apply Hr]. cbn.
  destruct (rep_lookup _ _ _ (proj1 Hr) id) as [(r & y & -> & -> & [])|[-> ->]]; [|done].
  cbn. unfold map_ticket_status_row, ticket_status. cbn. do 4 f_equal.
  by rewrite ri_expires0, ri_redeemed0, (st_credential _ _ _ ri_stored0).
Qed.

Lemma simulate_expire id w a : refines w a → simulated (Expire id) w a.
Proof.
  intros Hr. eapply (simulate_statement _ _ _ (update_ticket set_expired id)
    (λ n, Expired (0 <? n)%N)); [done..| | |].
  { one_statement. }
  - intros now x d [-> ->]%update_ticket_Ok. eexists. split.
    + cbn. do 3 f_equal.
      destruct (rep_lookup _ _ _ (proj1 Hr) id) as [(r & y & -> & -> & _)|[-> ->]]; [|done].
      by rewrite decide_True by eauto.
    + apply rep_alter; [apply Hr|]. intros r y []. split; try done. by destruct ri_stored0.
  - intros now e. unfold update_ticket. by destruct (t_tickets _ !! id).
Qed.

Lemma simulate_collect days w a : refines w a → simulated (Collect days) w a.
Proof.
  intros Hr. eapply (simulate_statement _ _ _ (delete_expired_tickets days) Collected);
    [done..|reflexivity| |]; unfold delete_expired_tickets; cbn.
  - intros now x d Hq. destruct (minus_days now days) as [cutoff|e]; [|done].
    injection Hq as <- <-. eexists. split.
    + by rewrite (rep_count _ _ _ (proj1 Hr) _ _ (agree_collectable _ cutoff now)).
    + split; [apply Hr|]. apply (rep_delete _ _ _ (proj1 Hr)), agree_collectable.
  - intros now e. by destruct (minus_days now days).
Qed.

Lemma simulate_revoke c w a : refines w a → simulated (Revoke c) w a.
Proof.
  intros Hr. pose proof (rep_credentials _ _ _ (proj1 Hr)) as Hcr.
  eapply (simulate_statement _ _ _ (delete_credential c) (λ n, Revoked (0 <? n)%N));
    [done..| | |].
  { one_statement. }
  - intros now x d Hq. cbn. rewrite Hcr.
    apply delete_credential_Ok in Hq as [(-> & -> & Hn)|(-> & Hs & Hc & _ & Ht & _)].
    + rewrite bool_decide_false by (by rewrite not_elem_of_dom). eexists. split; [done|apply Hr].
    + rewrite bool_decide_true by (by rewrite elem_of_dom). eexists. split; [done|].
      split; [by cbn; rewrite Hc, dom_delete_L|]. intros id. rewrite Ht.
      apply (rep_delete _ _ _ (proj1 Hr)), agree_credential.
  - intros now e. unfold delete_credential. by destruct (t_credentials _ !! c).
Qed.

Lemma verify_reads id w a :
  sql_fault (w_tick w) = None → represents (w_broker w) (w_db w) a →
  reads_or_refused (ticket_verification <$> a_tickets a !! id)
    (fetch_tor_ticket_for_verification id) w.
Proof.
  intros Hf Hr. destruct (rep_lookup _ _ _ Hr id) as [(r & x & Ht & -> & [])|[Ht ->]].
  - subst id. cbn [fmap option_fmap option_map]. unfold ticket_verification.
    rewrite <-ri_expires0, <-ri_redeemed0. by apply fetch_reads.
  - unfold fetch_tor_ticket_for_verification. left.
    erewrite eff_bind_step; [|apply execute_run; [done|unfold select_ticket; by rewrite Ht]].
    done.
Qed.

(** Verification decrypts with keys that the broker issued, so only the
    connection and the broker can make it fail. *)
Lemma simulate_verify id w a : refines w a → simulated (Verify id) w a.
Proof.
  intros [Hr Hc]. unfold simulated.
  destruct (fetch_ticket_frames id) as (Hk & Hl & Hdb).
  specialize (Hk w). specialize (Hl w). specialize (Hdb w). apply server_now_mono in Hl.
  pose proof (verify_reads id w a) as Hv. pose proof (faulty_refused (Verify id) w) as Hfr.
  pose proof (faulty_none (Verify id) w) as Hfn. pose proof (faulty_fault (Verify id) w) as Hff.
  exists (at_time (server_now (w_tick w)) a). unfold reads_or_refused in Hv.
  cbn [run_call] in *. unfold mbind, eff_bind in *.
  destruct (fetch_tor_ticket_for_verification id w) as [r w'] eqn:E. cbn [fst snd] in *.
  assert (refines w' (at_time (server_now (w_tick w)) a)) as Ha by (by eapply refines_after).
  destruct (sql_fault (w_tick w)) as [f|] eqn:Hf.
  - rewrite Hff by eauto.
    assert (∃ e, r = Err e) as [e ->].
    { unfold fetch_tor_ticket_for_verification in E. apply eff_bind_run in E as [(e & _ & ->)|
        (x & w1 & E & _)]; [by exists e|]. apply execute_Ok in E as [E _]. congruence. }
    split; [|done]. by eapply step_failed; [done|left].
  - destruct (Hv eq_refl Hr) as [[-> Hrf]|[(e & _ & ->) Hrf]]; cbn [fst snd] in *;
      (split; [|done]).
    + rewrite Hfn by done. by eapply step_done.
    + rewrite Hfr by done. by eapply step_failed; [done|left].
Qed.

(** The forward simulation, along a history. *)
Lemma impl_refines es w w' a :
  impl_run w es w' → refines w a →
  (∀ fault t ρ, Called fault (Issue t) ρ ∈ es → plain_ticket t) →
  ∃ a', spec_run a es a' ∧ refines w' a'.
Proof.
  intros Hrun. revert a. induction Hrun as [w|c w w1 es w2 <- _ IH|w w1 es w2 He _ IH];
    intros a Hr Hp.
  - exists a. split; [constructor|done].
  - assert (simulated c w a) as (a1 & Hs & Hr1).
    { destruct c; eauto using simulate_verify, simulate_status, simulate_redeem, simulate_expire,
        simulate_collect, simulate_revoke.
      apply simulate_issue; [|done]. eapply Hp. by left. }
    destruct (IH a1 Hr1) as (a' & ? & ?); [intros; eapply Hp; by right|].
    exists a'. split; [by econstructor|done].
  - destruct He as (Hl & Hk & Ht & Hc), Hr as [[Hrc Hrt] Hclk].
    set (a1 := {| a_clock := server_now (w_tick w); a_credentials := dom (t_credentials (w_db w1));
                  a_tickets := a_tickets a |}).
    destruct (IH a1) as (a' & ? & ?); [|intros; eapply Hp; by right|].
    + split; [|by apply server_now_mono]. apply (represents_keeps w w1); [done|].
      split; [done|]. intros id. rewrite Ht. apply Hrt.
    + exists a'. split; [|done]. eapply spec_elsewhere; [exact Hclk|by rewrite Hrc|done].
Qed.

(** Without tickets, the database holds the empty store. *)
Definition initial (w : World) : Store := {|
  a_clock := server_now (w_tick w); a_credentials := dom (t_credentials (w_db w));
  a_tickets := ∅ |}.
Lemma initial_refines w : t_tickets (w_db w) = ∅ → refines w (initial w).
Proof. intros Ht. split; [|done]. split; [done|]. intros id. rewrite Ht. constructor. Qed.
End refinement.
End TicketSpec.
