(* ===== verification/Guard.v ===== *)
(** * Guard health (src/guard.rs)

    The telemetry row of a guard relay: upserts that keep what the caller did
    not measure, the failure counter, the listing and the TEE status. *)
From S2P Require Import Prelude RustStd Platform World Sql Reference.
Local Open Scope Z_scope.

Module Guard.
Record GuardSuccessUpdate := {
  gu_uptime_ratio : option f64;
  gu_asn : option Z;
  gu_rpki_valid : option bool;
  gu_pow_score : option f64;
  gu_rtt_p50_ms : option f64;
  gu_rtt_p95_ms : option f64;
}.

Record GuardHealthSnapshot := {
  gs_guard_fpr : string;
  gs_first_seen : DateTime;
  gs_last_ok : DateTime;
  gs_fail_count : Z;
  gs_uptime_ratio : option f64;
  gs_asn : option Z;
  gs_rpki_valid : option bool;
  gs_pow_score : option f64;
  gs_rtt_p50_ms : option f64;
  gs_rtt_p95_ms : option f64;
  gs_tee_capable : bool;
  gs_tee_label : option string;
  gs_tee_policy : option string;
  gs_tee_verified_at : option DateTime;
}.

(** [impl From<GuardHealthRow> for GuardHealthSnapshot] *)
Definition snapshot_from_row (row : GuardHealthRow) : GuardHealthSnapshot := {|
  gs_guard_fpr := gh_guard_fpr row;
  gs_first_seen := of_timestamptz (gh_first_seen row);
  gs_last_ok := of_timestamptz (gh_last_ok row);
  gs_fail_count := gh_fail_count row;
  gs_uptime_ratio := gh_uptime_ratio row;
  gs_asn := gh_asn row;
  gs_rpki_valid := gh_rpki_valid row;
  gs_pow_score := gh_pow_score row;
  gs_rtt_p50_ms := gh_rtt_p50_ms row;
  gs_rtt_p95_ms := gh_rtt_p95_ms row;
  gs_tee_capable := gh_tee_capable row;
  gs_tee_label := gh_tee_label row;
  gs_tee_policy := gh_tee_policy row;
  gs_tee_verified_at := of_timestamptz <$> gh_tee_verified_at row;
|}.

(** [COALESCE(a, b)] *)
Definition coalesce {A} (a b : option A) : option A :=
  match a with Some _ => a | None => b end.

(** A row with the columns the inserts name; the others have their defaults. *)
Definition new_guard (fpr : string) (fail_count : Z) (now : Timestamp) : GuardHealthRow := {|
  gh_guard_fpr := fpr; gh_first_seen := now; gh_last_ok := now; gh_fail_count := fail_count;
  gh_uptime_ratio := None; gh_asn := None; gh_rpki_valid := None; gh_pow_score := None;
  gh_rtt_p50_ms := None; gh_rtt_p95_ms := None; gh_tee_capable := false;
  gh_tee_label := None; gh_tee_policy := None; gh_tee_verified_at := None |}.

Section guard.
Context `{UuidApi, JsonApi}.

Definition put_guard (fpr : string) (r : GuardHealthRow) (d : Tables) : Tables :=
  set_guard_health (<[fpr := r]> (t_guard_health d)) d.

Definition success_row (u : GuardSuccessUpdate) (now : Timestamp) (r : GuardHealthRow) :
    GuardHealthRow := {|
  gh_guard_fpr := gh_guard_fpr r; gh_first_seen := gh_first_seen r; gh_last_ok := now;
  gh_fail_count := gh_fail_count r;
  gh_uptime_ratio := coalesce (gu_uptime_ratio u) (gh_uptime_ratio r);
  gh_asn := coalesce (gu_asn u) (gh_asn r);
  gh_rpki_valid := coalesce (gu_rpki_valid u) (gh_rpki_valid r);
  gh_pow_score := coalesce (gu_pow_score u) (gh_pow_score r);
  gh_rtt_p50_ms := coalesce (gu_rtt_p50_ms u) (gh_rtt_p50_ms r);
  gh_rtt_p95_ms := coalesce (gu_rtt_p95_ms u) (gh_rtt_p95_ms r);
  gh_tee_capable := gh_tee_capable r; gh_tee_label := gh_tee_label r;
  gh_tee_policy := gh_tee_policy r; gh_tee_verified_at := gh_tee_verified_at r |}.

(** The inserted row has the update's values as they are, which is what
    coalescing them with the defaults gives. *)
Definition upsert_success (fpr : string) (u : GuardSuccessUpdate) : stmt () := λ now d,
  Ok ((), put_guard fpr (success_row u now
            (default (new_guard fpr 0 now) (t_guard_health d !! fpr))) d).

Definition with_fail_count (n : Z) (r : GuardHealthRow) : GuardHealthRow := {|
  gh_guard_fpr := gh_guard_fpr r; gh_first_seen := gh_first_seen r;
  gh_last_ok := gh_last_ok r; gh_fail_count := n; gh_uptime_ratio := gh_uptime_ratio r;
  gh_asn := gh_asn r; gh_rpki_valid := gh_rpki_valid r; gh_pow_score := gh_pow_score r;
  gh_rtt_p50_ms := gh_rtt_p50_ms r; gh_rtt_p95_ms := gh_rtt_p95_ms r;
  gh_tee_capable := gh_tee_capable r; gh_tee_label := gh_tee_label r;
  gh_tee_policy := gh_tee_policy r; gh_tee_verified_at := gh_tee_verified_at r |}.

(** [fail_count] is an [INTEGER]: its increment is checked by the server. *)
Definition upsert_failure (fpr : string) : stmt Z := λ now d,
  match t_guard_health d !! fpr with
  | None => Ok (1, put_guard fpr (new_guard fpr 1 now) d)
  | Some r =>
      let n := gh_fail_count r + 1 in
      if n <=? i32_max then Ok (n, put_guard fpr (with_fail_count n r) d)
      else Err IntegerOutOfRange
  end.

Definition select_guards (limit : Z) : stmt (list GuardHealthRow) := λ now d,
  rows ← limit_rows limit
    (order_by (λ r, - gh_last_ok r) ((map_to_list (t_guard_health d)).*2));
  Ok (rows, d).

Definition tee_row (capable : bool) (label policy : option string) (now : Timestamp)
    (r : GuardHealthRow) : GuardHealthRow := {|
  gh_guard_fpr := gh_guard_fpr r; gh_first_seen := gh_first_seen r;
  gh_last_ok := gh_last_ok r; gh_fail_count := gh_fail_count r;
  gh_uptime_ratio := gh_uptime_ratio r; gh_asn := gh_asn r;
  gh_rpki_valid := gh_rpki_valid r; gh_pow_score := gh_pow_score r;
  gh_rtt_p50_ms := gh_rtt_p50_ms r; gh_rtt_p95_ms := gh_rtt_p95_ms r;
  gh_tee_capable := capable; gh_tee_label := label; gh_tee_policy := policy;
  gh_tee_verified_at := Some now |}.

Definition upsert_tee_status (fpr : string) (capable : bool) (label policy : option string) :
    stmt () := λ now d,
  Ok ((), put_guard fpr (tee_row capable label policy now
            (default (new_guard fpr 0 now) (t_guard_health d !! fpr))) d).

Context `{BrokerApi} `{!Host}.

Definition note_guard_success (guard_fpr : string) (update : GuardSuccessUpdate) : M () :=
  execute (upsert_success guard_fpr update).

(** [record.fail_count as i64] widens. *)
Definition note_guard_failure (guard_fpr : string) : M Z := execute (upsert_failure guard_fpr).

Definition list_guard_health (limit : Z) : M (list GuardHealthSnapshot) :=
  records ← execute (select_guards limit);
  mret (snapshot_from_row <$> records).

Definition set_guard_tee_status (guard_fpr : string) (tee_capable : bool)
    (tee_label tee_policy : option string) : M () :=
  execute (upsert_tee_status guard_fpr tee_capable tee_label tee_policy).

(** ** Invariant and behaviour *)

(** Each row is kept under its own fingerprint, its counter is a
    non-negative [INTEGER], and it was first seen no later than last. *)
Definition guards_ok (d : Tables) : Prop :=
  ∀ fpr r, t_guard_health d !! fpr = Some r →
    gh_guard_fpr r = fpr ∧ 0 <= gh_fail_count r <= i32_max.

Lemma put_guard_ok fpr r d :
  guards_ok d → gh_guard_fpr r = fpr → 0 <= gh_fail_count r <= i32_max →
  guards_ok (put_guard fpr r d).
Proof.
  intros Hd Hf Hr k x. cbn. rewrite lookup_insert_Some. intros [[<- <-]|[_ Hx]]; eauto.
Qed.

Lemma default_guard_ok fpr now d :
  guards_ok d →
  let r := default (new_guard fpr 0 now) (t_guard_health d !! fpr) in
  gh_guard_fpr r = fpr ∧ 0 <= gh_fail_count r <= i32_max.
Proof.
  intros Hd. destruct (t_guard_health d !! fpr) as [r|] eqn:E; [by apply Hd in E|].
  cbn. unfold i32_max. split; [done|lia].
Qed.

Lemma upsert_success_ok fpr u : stmt_keeps guards_ok (upsert_success fpr u).
Proof.
  intros now d a d' Hd [= _ <-]. destruct (default_guard_ok fpr now d Hd).
  by apply put_guard_ok.
Qed.
Lemma upsert_tee_ok fpr c l p : stmt_keeps guards_ok (upsert_tee_status fpr c l p).
Proof.
  intros now d a d' Hd [= _ <-]. destruct (default_guard_ok fpr now d Hd).
  by apply put_guard_ok.
Qed.
Lemma upsert_failure_ok fpr : stmt_keeps guards_ok (upsert_failure fpr).
Proof.
  intros now d a d' Hd. unfold upsert_failure.
  destruct (t_guard_health d !! fpr) as [r|] eqn:E.
  - destruct (_ <=? _) eqn:Hm; [|done]. intros [= _ <-]. apply Hd in E as [? ?].
    apply put_guard_ok; [done|done|]. cbn. lia.
  - intros [= _ <-]. apply put_guard_ok; [done|done|]. cbn. unfold i32_max. lia.
Qed.

(** The columns of a row but the failure counter. *)
Definition other_columns (r : GuardHealthRow) :=
  (gh_guard_fpr r, gh_first_seen r, gh_last_ok r,
   (gh_uptime_ratio r, gh_asn r, gh_rpki_valid r, gh_pow_score r, gh_rtt_p50_ms r,
    gh_rtt_p95_ms r),
   (gh_tee_capable r, gh_tee_label r, gh_tee_policy r, gh_tee_verified_at r)).

(** [d'] is [d] with the row [r] for [fpr]: no other row and no other table
    differs. *)
Definition only_row (fpr : string) (r : GuardHealthRow) (d d' : Tables) : Prop :=
  t_guard_health d' = <[fpr := r]> (t_guard_health d) ∧
  set_guard_health (t_guard_health d) d' = d.

(** C37. The failure counter: each recorded failure returns the new count. For a
    known guard it is one more than before, and the counter is the only column of
    the only row of the only table that changes; an unknown guard gets a row with
    the count one, seen and last good now, and nothing else in it. At [2^31 - 1]
    the increment is refused and no table changes. A recorded success leaves the
    counter as it was. *)
Theorem failures_are_counted fpr w :
  sql_fault (w_tick w) = None → guards_ok (w_db w) →
  let '(res, w') := note_guard_failure fpr w in
  match t_guard_health (w_db w) !! fpr with
  | Some r =>
      (gh_fail_count r < i32_max → ∃ r', res = Ok (gh_fail_count r + 1) ∧
         gh_fail_count r' = gh_fail_count r + 1 ∧ other_columns r' = other_columns r ∧
         only_row fpr r' (w_db w) (w_db w')) ∧
      (gh_fail_count r = i32_max → res = Err (from_sqlx IntegerOutOfRange) ∧ w_db w' = w_db w) ∧
      ∀ u, gh_fail_count <$> t_guard_health (w_db (snd (note_guard_success fpr u w))) !! fpr =
           Some (gh_fail_count r)
  | None =>
      let now := server_now (w_tick w) in
      ∃ r', res = Ok 1 ∧ gh_fail_count r' = 1 ∧
        other_columns r' = (fpr, now, now, (None, None, None, None, None, None),
                            (false, None, None, None)) ∧
        only_row fpr r' (w_db w) (w_db w')
  end.
Proof.
  intros Hf Hok. unfold note_guard_failure.
  destruct (t_guard_health (w_db w) !! fpr) as [r|] eqn:E.
  - destruct (Hok _ _ E) as [_ Hr].
    assert (∀ u, gh_fail_count <$>
      t_guard_health (w_db (snd (note_guard_success fpr u w))) !! fpr = Some (gh_fail_count r)) as Hs.
    { intros u. unfold note_guard_success. erewrite execute_run by done.
      cbn. rewrite lookup_insert_eq. cbn. by rewrite E. }
    destruct (gh_fail_count r + 1 <=? i32_max) eqn:Hm.
    + erewrite execute_run; [|done|unfold upsert_failure; rewrite E, Hm; reflexivity].
      split; [intros _|split; [lia|done]]. exists (with_fail_count (gh_fail_count r + 1) r).
      do 3 (split; [done|]). split; [done|].
      by destruct (w_db w).
    + erewrite execute_refused; [|done|unfold upsert_failure; rewrite E, Hm; reflexivity].
      split; [lia|]. by split.
  - erewrite execute_run; [|done|unfold upsert_failure; rewrite E; reflexivity].
    exists (new_guard fpr 1 (server_now (w_tick w))). do 3 (split; [done|]). split; [done|].
    by destruct (w_db w).
Qed.

(** A recorded success replaces exactly the measurements the caller gives
    and refreshes the time of the last success; what it does not give, the
    first sighting, the failure counter and the TEE status are kept. A TEE
    status replaces the TEE columns and nothing else. *)
Theorem upserts_merge fpr u capable label policy w r :
  sql_fault (w_tick w) = None → t_guard_health (w_db w) !! fpr = Some r →
  let now := server_now (w_tick w) in
  let after m := t_guard_health (w_db (snd (m w))) in
  (∃ r', after (note_guard_success fpr u) = <[fpr := r']> (t_guard_health (w_db w)) ∧
    gh_last_ok r' = now ∧ gh_first_seen r' = gh_first_seen r ∧
    gh_fail_count r' = gh_fail_count r ∧ gh_tee_capable r' = gh_tee_capable r ∧
    gh_tee_label r' = gh_tee_label r ∧ gh_tee_policy r' = gh_tee_policy r ∧
    gh_tee_verified_at r' = gh_tee_verified_at r ∧
    (∀ x, gh_asn r' = Some x ↔ gu_asn u = Some x ∨ (gu_asn u = None ∧ gh_asn r = Some x)) ∧
    (∀ x, gh_rtt_p95_ms r' = Some x ↔
      gu_rtt_p95_ms u = Some x ∨ (gu_rtt_p95_ms u = None ∧ gh_rtt_p95_ms r = Some x)) ∧
    (gu_uptime_ratio u = None → gh_uptime_ratio r' = gh_uptime_ratio r) ∧
    (gu_rpki_valid u = None → gh_rpki_valid r' = gh_rpki_valid r) ∧
    (gu_pow_score u = None → gh_pow_score r' = gh_pow_score r) ∧
    (gu_rtt_p50_ms u = None → gh_rtt_p50_ms r' = gh_rtt_p50_ms r)) ∧
  (∃ r', after (set_guard_tee_status fpr capable label policy) =
      <[fpr := r']> (t_guard_health (w_db w)) ∧
    gh_tee_capable r' = capable ∧ gh_tee_label r' = label ∧ gh_tee_policy r' = policy ∧
    gh_tee_verified_at r' = Some now ∧
    (gh_last_ok r', gh_first_seen r', gh_fail_count r', gh_asn r', gh_uptime_ratio r') =
      (gh_last_ok r, gh_first_seen r, gh_fail_count r, gh_asn r, gh_uptime_ratio r)).
Proof.
  intros Hf Hr. cbv zeta. unfold note_guard_success, set_guard_tee_status.
  split; erewrite execute_run by done; cbn; rewrite Hr; eexists;
    (split; [reflexivity|]); cbn; [|done].
  destruct (gu_asn u), (gu_rtt_p95_ms u); cbn; split_and!; try naive_solver;
    by intros ->.
Qed.

(** The listing returns the guards with the most recent success first, at
    most [limit] of them, and refuses a negative limit. *)
Theorem list_guards_recent_first limit w :
  sql_fault (w_tick w) = None →
  let '(r, w') := list_guard_health limit w in
  w_db w' = w_db w ∧
  match r with
  | Err e => limit < 0 ∧ e = from_sqlx NegativeLimit
  | Ok l => 0 <= limit ∧
      StronglySorted (λ a b, nanos (gs_last_ok b) <= nanos (gs_last_ok a)) l ∧
      length l = Nat.min (Z.to_nat limit) (size (t_guard_health (w_db w))) ∧
      ∃ rest, l ++ rest ≡ₚ snapshot_from_row <$> (map_to_list (t_guard_health (w_db w))).*2 ∧
        ∀ a b, a ∈ l → b ∈ rest → nanos (gs_last_ok b) <= nanos (gs_last_ok a)
  end.
Proof.
  intros Hf. unfold list_guard_health.
  destruct (limit_rows limit (order_by (λ r, - gh_last_ok r)
    ((map_to_list (t_guard_health (w_db w))).*2))) as [rows|e] eqn:E.
  - erewrite eff_bind_step by (apply execute_run; [done|unfold select_guards; rewrite E; reflexivity]).
    cbn. split; [done|]. pose proof E as [Hl _]%limit_rows_Ok.
    apply sorted_limit in E as (Hs & Hlen & rest & Hp & Hab). split_and!; [done| | |].
    + clear -Hs. induction Hs as [|r rows Hs IH Hx]; constructor; [done|].
      apply Forall_fmap. eapply Forall_impl; [done|]. intros x. unfold by_key. cbn. lia.
    + by rewrite length_fmap, Hlen, length_fmap, length_map_to_list.
    + exists (snapshot_from_row <$> rest). split.
      * by rewrite <-fmap_app, <-Hp.
      * intros a b (ra & -> & Ha)%list_elem_of_fmap (rb & -> & Hb)%list_elem_of_fmap.
        specialize (Hab ra rb Ha Hb). cbn. lia.
  - erewrite eff_bind_fail by (apply execute_refused; [done|unfold select_guards; rewrite E; reflexivity]).
    split; [done|]. unfold limit_rows in E. destruct (limit <? 0) eqn:Hl; [|done].
    injection E as <-. split; [by apply Z.ltb_lt|done].
Qed.
End guard.
End Guard.

(** ** Concrete runs *)
Section concrete.
Import Ref Guard.

Definition ex_update : GuardSuccessUpdate := {|
  gu_uptime_ratio := None; gu_asn := Some 64500; gu_rpki_valid := Some true;
  gu_pow_score := None; gu_rtt_p50_ms := None; gu_rtt_p95_ms := None |}.
Definition ex_guards : World := snd (note_guard_success "fpr" ex_update ref_world).

Lemma ex_guards_ok : guards_ok (w_db ex_guards).
Proof.
  intros fpr r Hr. cbn in Hr. rewrite lookup_insert_Some in Hr.
  destruct Hr as [[<- <-]|[_ Hr]]; [|discriminate Hr].
  vm_compute. split; [reflexivity|split; discriminate].
Qed.

Lemma failures_are_counted_witness :
  fst (note_guard_failure "fpr" ex_guards) = Ok 1.
Proof.
  pose proof (failures_are_counted "fpr" ex_guards eq_refl ex_guards_ok) as Hc.
  destruct (note_guard_failure "fpr" ex_guards) as [r w'].
  assert (gh_fail_count <$> t_guard_health (w_db ex_guards) !! "fpr" = Some 0) as Hn
    by (vm_compute; reflexivity).
  destruct (t_guard_health (w_db ex_guards) !! "fpr") as [row|]; [|discriminate Hn].
  injection Hn as Hn. destruct Hc as (Hlt & _).
  destruct Hlt as (r' & -> & _); rewrite Hn; reflexivity.
Defined.

Definition ex_guard_row : GuardHealthRow :=
  default (new_guard "" 0 0) (t_guard_health (w_db ex_guards) !! "fpr").
Lemma upserts_merge_witness :
  ∃ r', t_guard_health (w_db (snd (set_guard_tee_status "fpr" true (Some "tdx") None ex_guards))) =
      <["fpr" := r']> (t_guard_health (w_db ex_guards)) ∧ gh_tee_capable r' = true.
Proof.
  destruct (upserts_merge "fpr" ex_update true (Some "tdx") None ex_guards ex_guard_row)
    as (_ & r' & Hr & Hc & _).
  - reflexivity.
  - apply option_eta. vm_compute. reflexivity.
  - exists r'. split; [exact Hr|exact Hc].
Defined.

Lemma list_guards_recent_first_witness :
  fst (list_guard_health (-1) ex_guards) = Err (from_sqlx NegativeLimit) ∧
  is_ok (fst (list_guard_health 10 ex_guards)) = true.
Proof.
  split.
  - pose proof (list_guards_recent_first (-1) ex_guards eq_refl) as Hl.
    destruct (list_guard_health (-1) ex_guards) as [[l|e] w']; destruct Hl as [_ Hl].
    + destruct Hl as [Hl _]. lia.
    + destruct Hl as [_ ->]. reflexivity.
  - vm_compute. reflexivity.
Defined.
End concrete.
