(* ===== verification/Attestation.v ===== *)
(** * Attestation artifacts (src/attestation.rs)

    The log of attestation nonces (replay protection) and the cache of
    attestation decisions. *)
From S2P Require Import Prelude RustStd Platform World Sql Reference.
Local Open Scope Z_scope.

Module Attestation.
Section attestation.
Context `{UuidApi, JsonApi}.

(** ** Statements *)

(** [DELETE ... WHERE seen_at < NOW() - ($1::bigint * INTERVAL '1 second')] *)
Definition prune_nonces (ttl : Z) : stmt () := λ now d,
  cutoff ← minus_usecs now (secs_bigint_usecs ttl);
  Ok ((), set_nonce_log (delete_rows (λ _ r, nr_seen_at r <? cutoff) (t_nonce_log d)) d).

(** [INSERT ... ON CONFLICT DO NOTHING] *)
Definition insert_nonce (nonce_digest : bytes) (enclave_id : string) : stmt N := λ now d,
  match t_nonce_log d !! nonce_digest with
  | Some _ => Ok (0%N, d)
  | None =>
      Ok (1%N, set_nonce_log (<[nonce_digest :=
        {| nr_enclave_id := enclave_id; nr_seen_at := now |}]> (t_nonce_log d)) d)
  end.

Definition delete_nonce (nonce_digest : bytes) : stmt () := λ now d,
  Ok ((), set_nonce_log (delete nonce_digest (t_nonce_log d)) d).

Definition prune_cache : stmt () := λ now d,
  Ok ((), set_attestation_cache
            (delete_rows (λ _ r, ac_expires_at r <? now) (t_attestation_cache d)) d).

Definition upsert_decision (quote_hash : bytes) (tee : string) (expires_at : Timestamp)
    (decision : JsonValue) : stmt () := λ now d,
  v ← jsonb_column decision;
  Ok ((), set_attestation_cache (<[quote_hash :=
    {| ac_tee := tee; ac_decision := v; ac_expires_at := expires_at |}]>
    (t_attestation_cache d)) d).

Lemma upsert_decision_other q t x v now d y d' :
  upsert_decision q t x v now d = Ok (y, d') →
  d' = set_attestation_cache (t_attestation_cache d') d.
Proof. unfold upsert_decision. by intros (v' & _ & [= _ <-])%result_bind_Ok. Qed.

Definition delete_decision (quote_hash : bytes) : stmt () := λ now d,
  Ok ((), set_attestation_cache (delete quote_hash (t_attestation_cache d)) d).

(** ** [impl PgPool] *)

Context `{BrokerApi} `{!Host} `{Hex}.

Definition register_attestation_nonce (nonce_digest : bytes) (enclave_id : string)
    (ttl_seconds : Z) : M bool :=
  let ttl := ttl_seconds `max` 0 in
  execute (prune_nonces ttl);;
  rows_affected ← execute (insert_nonce nonce_digest enclave_id);
  mret (0 <? rows_affected)%N.

Definition cache_attestation_decision (quote_hash : bytes) (tee : string)
    (expires_at : DateTime) (decision : JsonValue) : M () :=
  execute prune_cache;;
  execute (upsert_decision quote_hash tee (to_timestamptz expires_at) decision).

Definition invalidate_attestation_artifacts (quote_hash_hex : string)
    (nonce_digest_hex : option string) : M () :=
  quote_hash_bytes ← lift (ok_or (hex_decode (trim quote_hash_hex))
    (Integrity "invalid quote hash provided for attestation invalidation"));
  execute (delete_decision quote_hash_bytes);;
  match nonce_digest_hex with
  | Some nonce_hex =>
      if negb (is_empty (trim nonce_hex)) then
        nonce_bytes ← lift (ok_or (hex_decode (trim nonce_hex))
          (Integrity "invalid nonce digest provided for attestation invalidation"));
        execute (delete_nonce nonce_bytes)
      else mret ()
  | None => mret ()
  end.

(** ** Replay protection *)

Lemma prune_nonces_Ok ttl now d a d' :
  0 <= ttl → ttl * USECS_PER_SEC < 2 ^ 53 →
  prune_nonces ttl now d = Ok (a, d') →
  d' = set_nonce_log (delete_rows (λ _ r, nr_seen_at r <? now - ttl * USECS_PER_SEC)
         (t_nonce_log d)) d.
Proof.
  unfold prune_nonces. intros Hlo Ht (cutoff & ->%minus_usecs_Ok & [= _ <-])%result_bind_Ok.
  rewrite secs_bigint_exact by lia. done.
Qed.

Lemma prune_keeps ttl now d a d' n r :
  0 <= ttl → ttl * USECS_PER_SEC < 2 ^ 53 →
  prune_nonces ttl now d = Ok (a, d') →
  t_nonce_log d !! n = Some r → now - ttl * USECS_PER_SEC <= nr_seen_at r →
  t_nonce_log d' !! n = Some r.
Proof.
  intros Hlo Ht ->%prune_nonces_Ok Hn Hr; [|done..]. cbn.
  apply delete_rows_Some. split; [done|]. lia.
Qed.

Lemma insert_nonce_Ok n e now d k d' :
  insert_nonce n e now d = Ok (k, d') →
  match t_nonce_log d !! n with
  | Some _ => k = 0%N ∧ d' = d
  | None => k = 1%N ∧ d' = set_nonce_log (<[n :=
      {| nr_enclave_id := e; nr_seen_at := now |}]> (t_nonce_log d)) d
  end.
Proof. unfold insert_nonce. destruct (t_nonce_log d !! n); naive_solver. Qed.

Lemma register_run n e ttl w b w' :
  0 <= ttl → ttl * USECS_PER_SEC < 2 ^ 53 →
  register_attestation_nonce n e ttl w = (Ok b, w') →
  let live r := server_now (w_tick w) - ttl * USECS_PER_SEC <= nr_seen_at r in
  let old := t_nonce_log (w_db w) !! n in
  (b = false ↔ ∃ r, old = Some r ∧ live r) ∧
  t_nonce_log (w_db w') !! n =
    (if b then Some {| nr_enclave_id := e; nr_seen_at := server_now (S (w_tick w)) |} else old) ∧
  w_tick w' = S (S (w_tick w)) ∧
  ∀ m, m ≠ n → ∀ r, t_nonce_log (w_db w') !! m = Some r ↔
    t_nonce_log (w_db w) !! m = Some r ∧ live r.
Proof.
  intros Hlo Ht Hrun. cbv zeta. unfold register_attestation_nonce in Hrun. inv_run Hrun.
  rewrite Z.max_l in * by done.
  apply execute_Ok in Hrun0 as (_ & d & ->%prune_nonces_Ok & ->); [|done..].
  apply execute_Ok in Hrun1 as (_ & d' & Hins%insert_nonce_Ok & ->). cbn in Hins |- *.
  set (cut := server_now (w_tick w) - ttl * USECS_PER_SEC) in *.
  assert (∀ m r, delete_rows (λ _ r, nr_seen_at r <? cut) (t_nonce_log (w_db w)) !! m = Some r ↔
    t_nonce_log (w_db w) !! m = Some r ∧ cut <= nr_seen_at r) as Hd.
  { intros m r. rewrite delete_rows_Some. by rewrite Z.ltb_ge. }
  destruct (delete_rows _ _ !! n) as [r|] eqn:E; destruct Hins as [-> ->]; cbn.
  - apply Hd in E as [Hn Hr]. split_and!; [naive_solver| |done|by intros; apply Hd].
    rewrite Hn. apply Hd. done.
  - split_and!; [|by rewrite lookup_insert_eq|done|].
    + split; [done|]. intros (r & Hn & Hr).
      assert (delete_rows (λ _ r, nr_seen_at r <? cut) (t_nonce_log (w_db w)) !! n = Some r)
        as Hs by (by apply Hd). congruence.
    + intros m Hm r. rewrite lookup_insert_ne by done. apply Hd.
Qed.

(** One caller: a nonce is accepted exactly when, after the stale entries
    are gone, the log does not hold it; once accepted it is in the log with
    the server's time, and a refusal leaves its entry as it was. *)
Theorem nonce_registration n e ttl w b w' :
  0 <= ttl → ttl * USECS_PER_SEC < 2 ^ 53 →
  register_attestation_nonce n e ttl w = (Ok b, w') →
  let live r := server_now (w_tick w) - ttl * USECS_PER_SEC <= nr_seen_at r in
  let old := t_nonce_log (w_db w) !! n in
  (b = false ↔ ∃ r, old = Some r ∧ live r) ∧
  t_nonce_log (w_db w') !! n =
    (if b then Some {| nr_enclave_id := e; nr_seen_at := server_now (S (w_tick w)) |} else old) ∧
  ∀ m, m ≠ n → ∀ r, t_nonce_log (w_db w') !! m = Some r ↔
    t_nonce_log (w_db w) !! m = Some r ∧ live r.
Proof.
  intros Hlo Ht Hrun. destruct (register_run n e ttl w b w' Hlo Ht Hrun) as (? & ? & _ & ?).
  by split_and!.
Qed.

(** *** Many callers *)

(** The statements that concurrent calls send, in the order in which the
    server runs them: a registration sends [Prune] and then [Insert], an
    invalidation sends [Forget]; anything may come between. *)
Inductive nonce_event :=
  | Prune (ttl : Z)
  | Insert (nonce_digest : bytes) (enclave_id : string)
  | Forget (nonce_digest : bytes).

(** One statement: whether it inserted a row, and the tables after it. *)
Definition run_event (ev : nonce_event) (now : Timestamp) (d : Tables) :
    result SqlError (bool * Tables) :=
  match ev with
  | Prune ttl => r ← prune_nonces ttl now d; Ok (false, r.2)
  | Insert n e => r ← insert_nonce n e now d; Ok ((0 <? r.1)%N, r.2)
  | Forget n => r ← delete_nonce n now d; Ok (false, r.2)
  end.

(** The outcomes of a trace; a statement that fails changes nothing. *)
Fixpoint run_trace (tr : list (Timestamp * nonce_event)) (d : Tables) : list bool * Tables :=
  match tr with
  | [] => ([], d)
  | (now, ev) :: tr' =>
      match run_event ev now d with
      | Ok (b, d') => let '(bs, d2) := run_trace tr' d' in (b :: bs, d2)
      | Err _ => let '(bs, d2) := run_trace tr' d in (false :: bs, d2)
      end
  end.

(** [n] is accepted at time [t] by the statement at position [i]. *)
Definition accepted (tr : list (Timestamp * nonce_event)) (d : Tables) (i : nat) (n : bytes)
    (t : Timestamp) : Prop :=
  (∃ e, tr !! i = Some (t, Insert n e)) ∧ (run_trace tr d).1 !! i = Some true.

(** Every caller keeps nonces for at least [T] seconds, and nobody takes back
    the nonce [n]. *)
Definition honest (T : Z) (n : bytes) (ev : nonce_event) : Prop :=
  match ev with
  | Prune ttl => T <= ttl ∧ ttl * USECS_PER_SEC < 2 ^ 53
  | Insert _ _ => True
  | Forget m => m ≠ n
  end.

Lemma run_event_keeps T n ev now d b d' r :
  0 <= T → honest T n ev → run_event ev now d = Ok (b, d') →
  t_nonce_log d !! n = Some r → now - T * USECS_PER_SEC <= nr_seen_at r →
  t_nonce_log d' !! n = Some r.
Proof.
  intros HT Hev Hrun Hn Hr. unfold run_event in Hrun. destruct ev as [ttl|m e|m].
  - apply result_bind_Ok in Hrun as ([u d1] & Hp & [= _ <-]). destruct Hev as [Hle Hb].
    eapply prune_keeps in Hp; [done|lia|done|done|].
    unfold USECS_PER_SEC in *. nia.
  - apply result_bind_Ok in Hrun as ([k d1] & Hi & [= _ <-]). apply insert_nonce_Ok in Hi.
    destruct (t_nonce_log d !! m) eqn:E; destruct Hi as [_ ->]; [done|]. cbn.
    rewrite lookup_insert_ne by congruence. done.
  - injection Hrun as _ <-. cbn. by rewrite lookup_delete_ne by done.
Qed.

Lemma run_trace_cons now ev tr d :
  ∃ b d', (run_trace ((now, ev) :: tr) d).1 = b :: (run_trace tr d').1 ∧
    ((run_event ev now d = Ok (b, d')) ∨ (b = false ∧ d' = d)).
Proof.
  cbn. destruct (run_event ev now d) as [[b d']|e].
  - exists b, d'. destruct (run_trace tr d'). eauto.
  - exists false, d. destruct (run_trace tr d). eauto.
Qed.

(** While [n] is in the log, later acceptances are out of the window. *)
Lemma logged_not_accepted T n tr : ∀ d r j t,
  0 <= T → Forall (λ x, honest T n x.2) tr →
  StronglySorted (λ x y, x.1 <= y.1) tr →
  t_nonce_log d !! n = Some r → accepted tr d j n t →
  t - nr_seen_at r > T * USECS_PER_SEC.
Proof.
  induction tr as [|[now ev] tr IH]; intros d r j t HT Hh Hs Hn [[e Hj] Hb]; [done|].
  destruct (run_trace_cons now ev tr d) as (b & d' & Htr & Hstep). rewrite Htr in Hb.
  apply Forall_cons in Hh as [Hev Hh]. apply StronglySorted_inv in Hs as [Hs Hle].
  destruct (decide (t - nr_seen_at r <= T * USECS_PER_SEC)) as [Hin|]; [|lia]. exfalso.
  assert (now <= t) as Hnow.
  { destruct j as [|j]; simplify_eq/=; [lia|].
    rewrite Forall_lookup in Hle. by specialize (Hle j _ Hj). }
  assert (t_nonce_log d' !! n = Some r) as Hn'.
  { destruct Hstep as [Hrun|[_ ->]]; [|done].
    eapply run_event_keeps; [done..|]. lia. }
  destruct j as [|j].
  - simplify_eq/=. destruct Hstep as [Hrun|[? _]]; [|done].
    apply result_bind_Ok in Hrun as ([k d1] & Hi%insert_nonce_Ok & [= Hk <-]).
    rewrite Hn in Hi. by destruct Hi as [-> _].
  - assert (t - nr_seen_at r > T * USECS_PER_SEC); [|lia].
    eapply (IH d' r j t); [done..|]. split; [by eexists|done].
Qed.

(** C9. Replay protection under concurrency: in any interleaving of the
    statements of any number of callers (times do not decrease), if every
    caller's window is at least [T] seconds and the nonce is not invalidated,
    two acceptances of the same nonce are more than [T] seconds apart. *)
Theorem no_replay_within_window T n tr d i j ti tj :
  0 <= T → Forall (λ x, honest T n x.2) tr → StronglySorted (λ x y, x.1 <= y.1) tr →
  (i < j)%nat → accepted tr d i n ti → accepted tr d j n tj →
  tj - ti > T * USECS_PER_SEC.
Proof.
  revert d i j. induction tr as [|[now ev] tr IH]; intros d i j HT Hh Hs Hij Hi Hj.
  { destruct Hi as [[e ?] _]. done. }
  destruct (run_trace_cons now ev tr d) as (b & d' & Htr & Hstep).
  destruct Hi as [[e Hi] Hbi], Hj as [[e' Hj] Hbj]. rewrite Htr in Hbi, Hbj.
  apply Forall_cons in Hh as [Hev Hh]. apply StronglySorted_inv in Hs as [Hs Hle].
  destruct j as [|j]; [lia|]. cbn in Hj, Hbj.
  assert (accepted tr d' j n tj) as Hacc by (split; [by eexists|done]).
  destruct i as [|i].
  - simplify_eq/=. destruct Hstep as [Hrun|[? _]]; [|done].
    apply result_bind_Ok in Hrun as ([k d1] & Hins%insert_nonce_Ok & [= Hk <-]).
    destruct (t_nonce_log d !! n) eqn:E; destruct Hins as [-> ->]; [done|].
    eapply (logged_not_accepted T n tr _
      {| nr_enclave_id := e; nr_seen_at := ti |} j tj) in Hacc; [done..|].
    cbn. by rewrite lookup_insert_eq.
  - cbn in Hi, Hbi. eapply (IH d' i j); [done|done|done|lia| |done]. split; [by eexists|done].
Qed.

(** C19. The window that counts is that of the most impatient caller: a call
    with a zero window deletes every nonce the others logged earlier, and a
    nonce accepted before it is then accepted again, whatever the window of
    the caller that registers it. *)
Theorem short_window_readmits n m e ttl w w1 b2 w2 b3 w3 :
  m ≠ n → (∀ i j, (i < j)%nat → server_now i < server_now j) →
  0 <= ttl → ttl * USECS_PER_SEC < 2 ^ 53 →
  register_attestation_nonce n e ttl w = (Ok true, w1) →
  register_attestation_nonce m e 0 w1 = (Ok b2, w2) →
  register_attestation_nonce n e ttl w2 = (Ok b3, w3) →
  b3 = true.
Proof.
  intros Hne Hclock Hlo Ht Hr1 Hr2 Hr3.
  apply register_run in Hr1 as (_ & Hn1 & Htick & _); [|done..].
  apply register_run in Hr2 as (_ & _ & _ & Hothers); [|done..].
  apply register_run in Hr3 as (Hb3 & _); [|done..].
  destruct b3; [done|]. destruct Hb3 as [Hb3 _]. destruct (Hb3 eq_refl) as (r & Hr & _).
  apply Hothers in Hr as [Hr Hlive]; [|done]. rewrite Hn1 in Hr. simplify_eq/=.
  rewrite Htick in Hlive. specialize (Hclock (S (w_tick w)) (S (S (w_tick w)))). lia.
Qed.

(** ** Decisions and invalidation *)

(** Invalidating removes the cached decision and, when a non-empty nonce
    is given, the nonce with the digests that the (trimmed) hexadecimal texts
    denote, and nothing else; an invalid quote hash is refused before anything
    is deleted; an invalid nonce is refused, too, but after the decision was
    deleted. *)
Theorem invalidation_removes q nonce w :
  (∀ i, sql_fault i = None) →
  let '(r, w') := invalidate_attestation_artifacts q nonce w in
  match hex_decode (trim q) with
  | None => r = Err (Integrity "invalid quote hash provided for attestation invalidation") ∧ w' = w
  | Some qh =>
      t_attestation_cache (w_db w') = delete qh (t_attestation_cache (w_db w)) ∧
      match nonce with
      | Some nh =>
          if is_empty (trim nh) then r = Ok () ∧ t_nonce_log (w_db w') = t_nonce_log (w_db w)
          else
            match hex_decode (trim nh) with
            | None => is_ok r = false ∧ t_nonce_log (w_db w') = t_nonce_log (w_db w)
            | Some nb => r = Ok () ∧ t_nonce_log (w_db w') = delete nb (t_nonce_log (w_db w))
            end
      | None => r = Ok () ∧ t_nonce_log (w_db w') = t_nonce_log (w_db w)
      end
  end.
Proof.
  intros Hf. unfold invalidate_attestation_artifacts.
  destruct (hex_decode (trim q)) as [qh|]; [|done].
  erewrite eff_bind_step by reflexivity.
  erewrite eff_bind_step by (by apply execute_run).
  destruct nonce as [nh|]; [|done]. destruct (is_empty (trim nh)); [done|]. cbn [negb].
  destruct (hex_decode (trim nh)) as [nb|]; [|done].
  erewrite eff_bind_step by reflexivity. by erewrite execute_run by done.
Qed.

(** Caching a decision: afterwards the cache answers for this quote with
    the new decision and expiry; of the other entries exactly the expired ones
    are gone. *)
Theorem cached_decision q tee expires v w w' :
  cache_attestation_decision q tee expires v w = (Ok (), w') →
  (∃ v', jsonb v = Ok v' ∧ t_attestation_cache (w_db w') !! q =
    Some {| ac_tee := tee; ac_decision := v'; ac_expires_at := to_timestamptz expires |}) ∧
  (∀ k r, k ≠ q → t_attestation_cache (w_db w') !! k = Some r ↔
    t_attestation_cache (w_db w) !! k = Some r ∧ server_now (w_tick w) <= ac_expires_at r) ∧
  w_db w' = set_attestation_cache (t_attestation_cache (w_db w')) (w_db w).
Proof.
  unfold cache_attestation_decision. intros Hrun. inv_run Hrun.
  apply execute_Ok in Hrun0 as (_ & d & [= _ <-] & ->).
  apply execute_Ok in Hrun as (_ & d' & Hq & ->). unfold upsert_decision in Hq.
  apply result_bind_Ok in Hq as (v' & Hv%jsonb_column_Ok & [= <-]). cbn.
  split_and!; [exists v'; by rewrite lookup_insert_eq| |done].
  intros k r Hk. rewrite lookup_insert_ne by done.
  rewrite delete_rows_Some. by rewrite Z.ltb_ge.
Qed.
End attestation.
End Attestation.

(** ** Concrete runs *)
Section concrete.
Import Ref Attestation.

Definition ex_n : bytes := [Byte.x01].
Definition ex_m : bytes := [Byte.x02].
Definition ex_reg : result DatabaseError bool * World :=
  register_attestation_nonce ex_n "enclave" 300 ref_world.
Definition ex_reg2 : result DatabaseError bool * World :=
  register_attestation_nonce ex_m "enclave" 0 (snd ex_reg).
Definition ex_reg3 : result DatabaseError bool * World :=
  register_attestation_nonce ex_n "enclave" 300 (snd ex_reg2).
Definition ex_replay : result DatabaseError bool * World :=
  register_attestation_nonce ex_n "enclave" 300 (snd ex_reg).

Lemma nonce_registration_witness :
  fst ex_replay = Ok false ∧
  (false = false ↔ ∃ r, t_nonce_log (w_db (snd ex_reg)) !! ex_n = Some r ∧
    server_now (w_tick (snd ex_reg)) - 300 * USECS_PER_SEC <= nr_seen_at r).
Proof.
  assert (fst ex_replay = Ok false) as E by (vm_compute; reflexivity).
  split; [exact E|].
  apply (nonce_registration ex_n "enclave" 300 (snd ex_reg) false (snd ex_replay));
    [lia|vm_compute; reflexivity|by apply run_fst].
Defined.

Definition ex_trace : list (Timestamp * nonce_event) :=
  [(0, Prune 5); (1, Insert ex_n "a"); (2, Insert ex_n "b"); (5000003, Prune 5);
   (5000004, Insert ex_n "c")].
Lemma no_replay_within_window_witness :
  (run_trace ex_trace empty_tables).1 = [false; true; false; false; true] ∧
  5000004 - 1 > 5 * USECS_PER_SEC.
Proof.
  split; [vm_compute; reflexivity|].
  apply (no_replay_within_window 5 ex_n ex_trace empty_tables 1 4 1 5000004).
  - lia.
  - repeat (apply Forall_cons_2; [first [exact I | split; [lia|vm_compute; reflexivity]]|]).
    apply Forall_nil_2.
  - repeat first [apply SSorted_nil | apply SSorted_cons | apply Forall_nil_2
                 | apply Forall_cons_2 | cbn; lia].
  - lia.
  - split; [by eexists|vm_compute; reflexivity].
  - split; [by eexists|vm_compute; reflexivity].
Defined.

Lemma short_window_readmits_witness :
  is_ok (fst ex_reg3) = true ∧ unwrap_or false (fst ex_reg3) = true.
Proof.
  assert (is_ok (fst ex_reg3) = true) as E3 by (vm_compute; reflexivity).
  split; [exact E3|].
  apply (short_window_readmits ex_n ex_m "enclave" 300 ref_world (snd ex_reg)
    (unwrap_or false (fst ex_reg2)) (snd ex_reg2) _ (snd ex_reg3)).
  - discriminate.
  - intros i j Hij. cbn. lia.
  - lia.
  - vm_compute. reflexivity.
  - apply run_fst. vm_compute. reflexivity.
  - apply run_eta. vm_compute. reflexivity.
  - by apply run_eta.
Defined.

Lemma invalidation_removes_witness :
  t_nonce_log (w_db (snd (invalidate_attestation_artifacts " ff" (Some "01 ") (snd ex_reg)))) =
    delete ex_n (t_nonce_log (w_db (snd ex_reg))).
Proof.
  pose proof (invalidation_removes " ff" (Some "01 ") (snd ex_reg)) as Hi.
  destruct (invalidate_attestation_artifacts _ _ _) as [r w'].
  destruct (Hi (λ i, eq_refl)) as (_ & _ & Hn). exact Hn.
Defined.

Definition ex_cached : result DatabaseError () * World :=
  cache_attestation_decision [Byte.xff] "tdx" (utc 60000000999) (json_str "allow") ref_world.
Lemma cached_decision_witness :
  t_attestation_cache (w_db (snd ex_cached)) !! [Byte.xff] =
    Some {| ac_tee := "tdx"; ac_decision := json_str "allow"; ac_expires_at := 60000000 |}.
Proof.
  destruct (cached_decision [Byte.xff] "tdx" (utc 60000000999) (json_str "allow") ref_world
    (snd ex_cached)) as [(v' & [= <-] & Hc) _]; [|exact Hc].
  apply run_fst. vm_compute. reflexivity.
Defined.
End concrete.
