(* ===== verification/AuditLog.v ===== *)
(** * Audit records and stored TEE attestations (src/lib.rs, lines 290-301 and
    384-483; src/tee.rs, lines 167-192)

    Append-only tables: connection audits, operation audits (which keep a digest
    of the payload, not the payload), and attestation records. *)
From S2P Require Import Prelude RustStd Platform World Sql Reference.
Local Open Scope Z_scope.

Module AuditLog.
Section audit.
Context `{UuidApi, JsonApi, BrokerApi} `{!Host} `{Digests, Hex}.

Record TeeAttestation := {
  tee_app_id : string;
  tee_instance_id : string;
  tee_device_id : string;
  tee_compose_hash : string;
  tee_key_provider_info : string;
  tee_quote : bytes;
  tee_rtmr : JsonValue;
  tee_event_log : JsonValue;
  tee_recorded_at : DateTime;
}.

Definition audit_tor_connect (user_id : Uuid) : M () :=
  execute (λ now d, Ok ((), set_tor_connect_audits
    (t_tor_connect_audits d ++ [{| ca_user_id := user_id; ca_occurred_at := now |}]) d)).

Definition audit_operation (user_id : Uuid) (operation : string) (payload : bytes) : M () :=
  let digest := hex_encode (sha256 payload) in
  execute (λ now d, Ok ((), set_audit_logs
    (t_audit_logs d ++ [{| al_user_id := user_id; al_operation := operation;
                           al_payload_hash := digest; al_created_at := now |}]) d)).

Definition attestation_row (user_id : Uuid) (attestation : TeeAttestation)
    (rtmr event_log : JsonValue) : TeeAttestationRow := {|
  ta_user_id := user_id;
  ta_app_id := tee_app_id attestation;
  ta_instance_id := tee_instance_id attestation;
  ta_device_id := tee_device_id attestation;
  ta_compose_hash := tee_compose_hash attestation;
  ta_key_provider_info := tee_key_provider_info attestation;
  ta_quote := tee_quote attestation;
  ta_rtmr := rtmr;
  ta_event_log := event_log;
  ta_recorded_at := to_timestamptz (tee_recorded_at attestation) |}.

Definition insert_attestation (user_id : Uuid) (attestation : TeeAttestation) : stmt () := λ now d,
  rtmr ← jsonb_column (tee_rtmr attestation);
  event_log ← jsonb_column (tee_event_log attestation);
  Ok ((), set_tee_attestations
    (t_tee_attestations d ++ [attestation_row user_id attestation rtmr event_log]) d).

Definition record_tee_attestation (user_id : Uuid) (attestation : TeeAttestation) : M () :=
  execute (insert_attestation user_id attestation).

Lemma insert_attestation_Ok user_id a now d x d' :
  insert_attestation user_id a now d = Ok (x, d') →
  ∃ rtmr event_log, jsonb (tee_rtmr a) = Ok rtmr ∧ jsonb (tee_event_log a) = Ok event_log ∧
    d' = set_tee_attestations
      (t_tee_attestations d ++ [attestation_row user_id a rtmr event_log]) d.
Proof.
  unfold insert_attestation. intros (rtmr & Hr%jsonb_column_Ok & Hq)%result_bind_Ok.
  apply result_bind_Ok in Hq as (event_log & He%jsonb_column_Ok & [= _ <-]). eauto.
Qed.

Definition attestation_from_row (r : TeeAttestationRow) : TeeAttestation := {|
  tee_app_id := ta_app_id r;
  tee_instance_id := ta_instance_id r;
  tee_device_id := ta_device_id r;
  tee_compose_hash := ta_compose_hash r;
  tee_key_provider_info := ta_key_provider_info r;
  tee_quote := ta_quote r;
  tee_rtmr := ta_rtmr r;
  tee_event_log := ta_event_log r;
  tee_recorded_at := of_timestamptz (ta_recorded_at r) |}.

Definition user_attestations (user_id : Uuid) (d : Tables) : list TeeAttestationRow :=
  filter (λ r, ta_user_id r = user_id) (t_tee_attestations d).

Definition recent_tee_attestations (user_id : Uuid) (limit : Z) : M (list TeeAttestation) :=
  if limit <=? 0 then
    fail (Configuration "attestation query limit must be greater than zero")
  else
    rows ← execute (λ now d,
      rows ← limit_rows (limit `min` 1000)
               (order_by (λ r, - ta_recorded_at r) (user_attestations user_id d));
      Ok (rows, d));
    mret (attestation_from_row <$> rows).

(** An audited operation leaves one record more, with the user, the
    operation, the server's time and the hexadecimal SHA-256 of the payload;
    two payloads with the same digest leave the same record. No other row of
    the database changes. *)
Theorem audit_keeps_digest user op p w :
  sql_fault (w_tick w) = None →
  w_db (snd (audit_operation user op p w)) =
    set_audit_logs (t_audit_logs (w_db w) ++
      [{| al_user_id := user; al_operation := op; al_payload_hash := hex_encode (sha256 p);
          al_created_at := server_now (w_tick w) |}]) (w_db w) ∧
  fst (audit_operation user op p w) = Ok () ∧
  ∀ p', sha256 p' = sha256 p → audit_operation user op p' w = audit_operation user op p w.
Proof.
  intros Hf. unfold audit_operation.
  split_and!; [by erewrite execute_run by done..|]. intros p' Hp. by rewrite Hp.
Qed.

(** The attestations of a user: never those of another user, the most
    recent first, at most [limit] and at most a thousand; limits below one
    are refused without a query. *)
Theorem attestations_recent_first user limit w :
  sql_fault (w_tick w) = None →
  let '(r, w') := recent_tee_attestations user limit w in
  w_db w' = w_db w ∧
  match r with
  | Err e => limit <= 0 ∧ w' = w ∧
      e = Configuration "attestation query limit must be greater than zero"
  | Ok l => 0 < limit ∧
      StronglySorted (λ a b, nanos (tee_recorded_at b) <= nanos (tee_recorded_at a)) l ∧
      length l = Nat.min (Nat.min (Z.to_nat limit) 1000)
                   (length (user_attestations user (w_db w))) ∧
      ∃ rest, l ++ rest ≡ₚ attestation_from_row <$> user_attestations user (w_db w) ∧
        ∀ a b, a ∈ l → b ∈ rest → nanos (tee_recorded_at b) <= nanos (tee_recorded_at a)
  end.
Proof.
  intros Hf. unfold recent_tee_attestations.
  destruct (limit <=? 0) eqn:Hlim.
  { cbn. split_and!; [done|lia|done|done]. }
  destruct (limit_rows (limit `min` 1000) (order_by (λ r, - ta_recorded_at r)
    (user_attestations user (w_db w)))) as [rows|e] eqn:E.
  - erewrite eff_bind_step by (apply execute_run; [done|rewrite E; reflexivity]).
    cbn. split; [done|]. apply sorted_limit in E as (Hs & Hlen & rest & Hp & Hab).
    split_and!; [lia| | |].
    + clear -Hs. induction Hs as [|r rows Hs IH Hx]; constructor; [done|].
      apply Forall_fmap. eapply Forall_impl; [done|]. intros x. unfold by_key. cbn. lia.
    + rewrite length_fmap, Hlen. f_equal. lia.
    + exists (attestation_from_row <$> rest). split.
      * by rewrite <-fmap_app, <-Hp.
      * intros a b (ra & -> & Ha)%list_elem_of_fmap (rb & -> & Hb)%list_elem_of_fmap.
        specialize (Hab ra rb Ha Hb). cbn. lia.
  - unfold limit_rows in E. destruct (_ <? 0) eqn:Hl; [lia|done].
Qed.

(** What a record keeps of an attestation: all of it, but for fractions of a
    microsecond and what the database does to JSON. *)
Lemma attestation_row_round_trip user a rtmr event_log :
  attestation_from_row (attestation_row user a rtmr event_log) = {|
    tee_app_id := tee_app_id a; tee_instance_id := tee_instance_id a;
    tee_device_id := tee_device_id a; tee_compose_hash := tee_compose_hash a;
    tee_key_provider_info := tee_key_provider_info a; tee_quote := tee_quote a;
    tee_rtmr := rtmr; tee_event_log := event_log;
    tee_recorded_at := stored_time (tee_recorded_at a) |}.
Proof. done. Qed.
End audit.
End AuditLog.

(** ** Concrete runs *)
Section concrete.
Import Ref AuditLog.

Definition ex_u : Uuid := 1%N.

Lemma audit_keeps_digest_witness :
  fst (audit_operation ex_u "read" (as_bytes "secret") ref_world) = Ok ().
Proof. apply (audit_keeps_digest ex_u "read" (as_bytes "secret") ref_world). reflexivity. Defined.

Definition ex_attestation : TeeAttestation := {|
  tee_app_id := "app"; tee_instance_id := "i"; tee_device_id := "d"; tee_compose_hash := "c";
  tee_key_provider_info := "k"; tee_quote := []; tee_rtmr := JNull; tee_event_log := JNull;
  tee_recorded_at := utc 7 |}.
Definition ex_recorded : World := snd (record_tee_attestation ex_u ex_attestation ref_world).

Lemma attestations_recent_first_witness :
  length (unwrap_or [] (fst (recent_tee_attestations ex_u 5 ex_recorded))) = 1%nat ∧
  fst (recent_tee_attestations ex_u 0 ex_recorded) =
    Err (Configuration "attestation query limit must be greater than zero").
Proof.
  split; [vm_compute; reflexivity|].
  pose proof (attestations_recent_first ex_u 0 ex_recorded) as Hr.
  assert (is_ok (fst (recent_tee_attestations ex_u 0 ex_recorded)) = false) as E by reflexivity.
  destruct (recent_tee_attestations ex_u 0 ex_recorded) as [[l|e] w']; [discriminate E|].
  destruct (Hr eq_refl) as (_ & _ & _ & ->). reflexivity.
Defined.
End concrete.
