(* ===== verification/Config.v ===== *)
(** * The configuration read from the environment (src/lib.rs, lines 485-688)

    [load_native_config] and its helpers, as functions of the environment. *)
From S2P Require Import Prelude RustStd Platform World Environment.
From S2P Require Import Reference.
Local Open Scope N_scope.

Module Config.
Record BrokerCredentialConfig := {
  bcc_audience : string;
  bcc_scope : list string;
  bcc_ttl_seconds : N;
}.

Inductive NativeAuthConfig :=
  | StaticUrl (database_url : string)
  | Broker (credential : BrokerCredentialConfig).

Record NativeConfig := {
  nc_data_auth : NativeAuthConfig;
  nc_secrets_auth : option NativeAuthConfig;
  nc_max_connections : N;
  nc_min_connections : N;
  nc_connect_timeout_seconds : N;
  nc_idle_timeout_seconds : N;
  nc_application_name : string;
}.

Section config.
Context `{UnicodeTables}.

Definition parse_scope_list (raw : string) : list string :=
  filter (λ trimmed, is_empty trimmed = false) (trim <$> split ","%char raw).

Definition required_env (env : Env) (key : string) : result AnyhowError string :=
  value ← map_err (λ _, anyhow (key +:+ " is required")) (env_var env key);
  if blank value then Err (anyhow (key +:+ " must not be empty")) else Ok value.

(** [parse_u32_env] and [parse_u64_env] differ in the width only. *)
Definition parse_env (max : N) (env : Env) (key : string) (default : N) :
    result AnyhowError N :=
  match env_var env key with
  | Ok raw =>
      map_err (λ error, anyhow ("invalid " +:+ key +:+ " value " +:+ debug_str raw +:+ ": " +:+
                                parse_int_error_display error)) (parse_unsigned max raw)
  | Err VarNotPresent => Ok default
  | Err error => Err (anyhow ("failed to read " +:+ key +:+ ": " +:+ var_error_display error))
  end.
Definition parse_u32_env : Env → string → N → result AnyhowError N := parse_env u32_max.
Definition parse_u64_env : Env → string → N → result AnyhowError N := parse_env u64_max.

Definition env_flag (env : Env) (key : string) : DbResult bool :=
  match env_var env key with
  | Err VarNotPresent => Ok false
  | Err error =>
      Err (Configuration ("failed to read " +:+ key +:+ ": " +:+ var_error_display error))
  | Ok value =>
      let v := to_ascii_lowercase (trim value) in
      if bool_decide (v ∈ ["1"; "true"; "yes"; "on"]) then Ok true
      else if bool_decide (v ∈ ["0"; "false"; "no"; "off"]) then Ok false
      else Err (Configuration (key +:+ " must be a boolean value"))
  end.

(** [anyhow::Error::new] *)
Definition anyhow_new (e : DatabaseError) : AnyhowError := anyhow (database_error_display e).

Definition data_auth_from_env (env : Env) : result AnyhowError NativeAuthConfig :=
  let credential_source :=
    to_ascii_lowercase (unwrap_or "broker" (env_var env "SECURE_DB_CREDENTIAL_SOURCE")) in
  if bool_decide (credential_source = "broker") then
    audience ← required_env env "SECURE_DB_BROKER_AUDIENCE";
    let scope := default [] (parse_scope_list <$> ok (env_var env "SECURE_DB_BROKER_SCOPE")) in
    ttl_seconds ← parse_u64_env env "SECURE_DB_BROKER_TTL_SECONDS" 900;
    if ttl_seconds =? 0 then
      Err (anyhow "SECURE_DB_BROKER_TTL_SECONDS must be greater than zero")
    else Ok (Broker {| bcc_audience := audience; bcc_scope := scope;
                       bcc_ttl_seconds := ttl_seconds |})
  else if bool_decide (credential_source = "static") then
    allowed ← map_err anyhow_new (env_flag env "SECURE_DB_ALLOW_STATIC");
    if negb allowed then
      Err (anyhow "SECURE_DB_CREDENTIAL_SOURCE=static requires SECURE_DB_ALLOW_STATIC=true")
    else
      database_url ← required_env env "SECURE_DB_URL";
      Ok (StaticUrl database_url)
  else
    Err (anyhow ("SECURE_DB_CREDENTIAL_SOURCE must be 'broker' or 'static', got " +:+
                 debug_str credential_source)).

Definition secrets_auth_from_env (env : Env) (data_auth : NativeAuthConfig) :
    result AnyhowError (option NativeAuthConfig) :=
  match data_auth with
  | Broker data_broker =>
      match ok (env_var env "SECURE_DB_SECRETS_BROKER_AUDIENCE") with
      | Some audience =>
          if blank audience then
            Err (anyhow "SECURE_DB_SECRETS_BROKER_AUDIENCE must not be empty")
          else
            let scope := default (bcc_scope data_broker)
              (parse_scope_list <$> ok (env_var env "SECURE_DB_SECRETS_BROKER_SCOPE")) in
            ttl_seconds ← parse_u64_env env "SECURE_DB_SECRETS_BROKER_TTL_SECONDS"
                            (bcc_ttl_seconds data_broker);
            if ttl_seconds =? 0 then
              Err (anyhow "SECURE_DB_SECRETS_BROKER_TTL_SECONDS must be greater than zero")
            else Ok (Some (Broker {| bcc_audience := audience; bcc_scope := scope;
                                     bcc_ttl_seconds := ttl_seconds |}))
      | None =>
          if env_var_set env "SECURE_DB_SECRETS_BROKER_SCOPE"
             || env_var_set env "SECURE_DB_SECRETS_BROKER_TTL_SECONDS" then
            Err (anyhow ("SECURE_DB_SECRETS_BROKER_AUDIENCE is required when " +:+
                         "secret-pool broker overrides are set"))
          else Ok None
      end
  | StaticUrl _ =>
      Ok (match ok (env_var env "SECURE_DB_SECRETS_URL") with
          | Some database_url => if blank database_url then None else Some (StaticUrl database_url)
          | None => None
          end)
  end.

Definition load_native_config (env : Env) : result AnyhowError NativeConfig :=
  data_auth ← data_auth_from_env env;
  secrets_auth ← secrets_auth_from_env env data_auth;
  max_connections ← parse_u32_env env "SECURE_DB_POOL_MAX" 20;
  min_connections ← parse_u32_env env "SECURE_DB_POOL_MIN" 5;
  if (max_connections =? 0) || (max_connections <? min_connections) then
    Err (anyhow ("SECURE_DB_POOL_MAX must be positive and " +:+
                 "SECURE_DB_POOL_MIN must not exceed it"))
  else
    connect_timeout_seconds ← parse_u64_env env "SECURE_DB_CONNECT_TIMEOUT" 10;
    idle_timeout_seconds ← parse_u64_env env "SECURE_DB_IDLE_TIMEOUT" 300;
    if (connect_timeout_seconds =? 0) || (idle_timeout_seconds =? 0) then
      Err (anyhow "database timeout values must be greater than zero")
    else
      let application_name := unwrap_or "secure-database" (env_var env "SECURE_DB_APP_NAME") in
      if blank application_name then Err (anyhow "SECURE_DB_APP_NAME must not be empty")
      else Ok {|
        nc_data_auth := data_auth;
        nc_secrets_auth := secrets_auth;
        nc_max_connections := max_connections;
        nc_min_connections := min_connections;
        nc_connect_timeout_seconds := connect_timeout_seconds;
        nc_idle_timeout_seconds := idle_timeout_seconds;
        nc_application_name := application_name |}.
(** ** Valid configurations *)

(** What a comma-separated list can carry. *)
Definition scope_item (s : string) : Prop := trim s = s ∧ is_empty s = false ∧ no_char "," s.

Definition auth_valid (a : NativeAuthConfig) : Prop :=
  match a with
  | StaticUrl database_url => blank database_url = false
  | Broker b =>
      blank (bcc_audience b) = false ∧ Forall scope_item (bcc_scope b) ∧
      0 < bcc_ttl_seconds b ≤ u64_max
  end.

Definition same_source (a b : NativeAuthConfig) : Prop :=
  match a, b with
  | StaticUrl _, StaticUrl _ | Broker _, Broker _ => True
  | _, _ => False
  end.

Record config_valid (c : NativeConfig) : Prop := {
  cv_data : auth_valid (nc_data_auth c);
  cv_secrets s : nc_secrets_auth c = Some s → auth_valid s ∧ same_source (nc_data_auth c) s;
  cv_max : 0 < nc_max_connections c ≤ u32_max;
  cv_min : nc_min_connections c ≤ nc_max_connections c;
  cv_connect : 0 < nc_connect_timeout_seconds c ≤ u64_max;
  cv_idle : 0 < nc_idle_timeout_seconds c ≤ u64_max;
  cv_name : blank (nc_application_name c) = false;
}.

Lemma split_items c s : Forall (no_char c) (split c s).
Proof.
  induction s as [|a s IH]; simpl; [by repeat constructor|].
  destruct (Ascii.eqb a c) eqn:E; [by constructor|].
  apply Ascii.eqb_neq in E.
  destruct (split c s) as [|h t]; [by repeat constructor; apply no_char_cons|].
  inversion IH; subst. constructor; [by apply no_char_cons|done].
Qed.

Lemma split_no_char c s : no_char c s → split c s = [s].
Proof.
  induction s as [|a s IH]; [done|]. intros [Ha Hs]%no_char_cons. simpl.
  apply Ascii.eqb_neq in Ha as ->. by rewrite IH.
Qed.

Lemma split_app c s r : no_char c s → split c (s +:+ String c r) = s :: split c r.
Proof.
  induction s as [|a s IH].
  - intros _. change ("" +:+ String c r) with (String c r). simpl. by rewrite Ascii.eqb_refl.
  - intros [Ha Hs]%no_char_cons. rewrite string_app_cons. simpl.
    apply Ascii.eqb_neq in Ha as ->. by rewrite IH.
Qed.

Lemma split_join c l : l ≠ [] → Forall (no_char c) l → split c (join (String c "") l) = l.
Proof.
  intros Hl Hf. induction Hf as [|s l Hs Hf IH]; [done|].
  destruct l as [|s' l]; [by apply split_no_char|].
  change (join (String c "") (s :: s' :: l)) with
    (s +:+ String c "" +:+ join (String c "") (s' :: l)).
  rewrite string_app_cons, split_app by done. f_equal. by apply IH.
Qed.

Lemma parse_scope_list_items raw : Forall scope_item (parse_scope_list raw).
Proof.
  unfold parse_scope_list. apply Forall_forall. intros s [He Hs]%list_elem_of_filter.
  apply list_elem_of_fmap in Hs as (t & -> & Ht).
  pose proof (split_items "," raw) as Hf. rewrite Forall_forall in Hf.
  split; [apply trim_idem|]. split; [done|]. by apply trim_forall, Hf.
Qed.

Lemma parse_scope_list_join l : Forall scope_item l → parse_scope_list (join "," l) = l.
Proof.
  intros Hl. unfold parse_scope_list. destruct l as [|s l]; [done|].
  rewrite split_join; [|done|by eapply Forall_impl; [exact Hl|intros ? (?&?&?)]].
  induction Hl as [|t l' (Ht & He & _) _ IH]; [done|].
  rewrite fmap_cons, Ht, filter_cons_True by done. by f_equal.
Qed.

Lemma parse_env_bound max env key d n :
  d ≤ max → parse_env max env key d = Ok n → n ≤ max.
Proof.
  unfold parse_env. intros Hd. destruct (env_var env key) as [raw|[]]; [|naive_solver..].
  destruct (parse_unsigned max raw) eqn:E; [|done]. intros [= <-].
  by eapply parse_unsigned_bound.
Qed.

Lemma required_env_Ok env key v :
  required_env env key = Ok v → env_var env key = Ok v ∧ blank v = false.
Proof.
  unfold required_env. destruct (env_var env key) as [w|]; [|done]. simpl.
  unfold mbind, result_bind. destruct (blank w) eqn:E; [done|]. by intros [= <-].
Qed.
Lemma data_auth_Ok env a : data_auth_from_env env = Ok a →
  auth_valid a ∧
  (∀ u, a = StaticUrl u → env_flag env "SECURE_DB_ALLOW_STATIC" = Ok true).
Proof.
  unfold data_auth_from_env. intros E.
  case_bool_decide; [|case_bool_decide; [|done]]; [|clear -E].
  - destruct (required_env _ _) as [aud|] eqn:Ea; [|done]. apply required_env_Ok in Ea as [_ Ha].
    destruct (parse_u64_env _ _ _) as [ttl|] eqn:Et; [|done].
    apply parse_env_bound in Et; [|by vm_compute]. cbn in E.
    destruct (N.eqb_spec ttl 0) as [|Hz]; [done|]. injection E as <-. split; [|done].
    repeat split; cbn; [done| |lia|done].
    destruct (ok _); [apply parse_scope_list_items|constructor].
  - destruct (env_flag env "SECURE_DB_ALLOW_STATIC") as [[]|] eqn:Ef; [|done..]. cbn in E.
    destruct (required_env _ _) as [u|] eqn:Eu; [|done]. apply required_env_Ok in Eu as [_ Hu].
    injection E as <-. done.
Qed.

Lemma secrets_auth_Ok env a r : auth_valid a → secrets_auth_from_env env a = Ok r →
  ∀ s, r = Some s → auth_valid s ∧ same_source a s.
Proof.
  intros Ha E s ->. destruct a as [u|b]; simpl in E.
  - destruct (ok _) as [u'|]; [|done]. destruct (blank u') eqn:Eb; [done|].
    injection E as <-. done.
  - destruct Ha as (_ & Hs & Ht).
    destruct (ok (env_var env "SECURE_DB_SECRETS_BROKER_AUDIENCE")) as [aud|];
      [|by destruct (_ || _)].
    destruct (blank aud) eqn:Eb; [done|].
    destruct (parse_u64_env _ _ _) as [ttl|] eqn:Et; [|done].
    apply parse_env_bound in Et; [|lia]. cbn in E.
    destruct (N.eqb_spec ttl 0) as [|Hz]; [done|]. injection E as <-.
    repeat split; cbn; [done| |lia|done].
    destruct (ok _); [apply parse_scope_list_items|done].
Qed.

(** C27. Every configuration that is accepted is usable: the limits are positive,
    ordered and fit their integers, lifetimes and timeouts are positive, names and
    audiences are not blank, the two pools get their credentials from the same
    kind of source; and a static URL is used only when the environment allows it
    explicitly. *)
Theorem load_config_valid env c : load_native_config env = Ok c →
  config_valid c ∧
  (∀ u, nc_data_auth c = StaticUrl u → env_flag env "SECURE_DB_ALLOW_STATIC" = Ok true).
Proof.
  unfold load_native_config. intros E.
  destruct (data_auth_from_env env) as [a|] eqn:Ea; [|done]. apply data_auth_Ok in Ea as [Ha Hs].
  cbn in E. destruct (secrets_auth_from_env env a) as [s|] eqn:Es; [|done].
  pose proof (secrets_auth_Ok env a s Ha Es) as Hsec. cbn in E.
  destruct (parse_u32_env env "SECURE_DB_POOL_MAX" 20) as [mx|] eqn:Emx; [|done].
  apply parse_env_bound in Emx; [|by vm_compute]. cbn in E.
  destruct (parse_u32_env env "SECURE_DB_POOL_MIN" 5) as [mn|] eqn:Emn; [|done]. cbn in E.
  destruct (_ || _) eqn:Ec; [done|]. apply orb_false_iff in Ec as [?%N.eqb_neq ?%N.ltb_ge].
  destruct (parse_u64_env env "SECURE_DB_CONNECT_TIMEOUT" 10) as [ct|] eqn:Ect; [|done].
  apply parse_env_bound in Ect; [|by vm_compute]. cbn in E.
  destruct (parse_u64_env env "SECURE_DB_IDLE_TIMEOUT" 300) as [it|] eqn:Eit; [|done].
  apply parse_env_bound in Eit; [|by vm_compute]. cbn in E.
  destruct (_ || _) eqn:Et; [done|]. apply orb_false_iff in Et as [?%N.eqb_neq ?%N.eqb_neq].
  destruct (blank _) eqn:Eb; [done|]. injection E as <-.
  split; [|done]. split; cbn; [done|done|lia|lia|lia|lia|done].
Qed.

(** ** The environment of a configuration *)

Definition auth_vars (prefix : string) (a : NativeAuthConfig) : list (string * EnvValue) :=
  match a with
  | StaticUrl u => []
  | Broker b =>
      [("SECURE_DB_" +:+ prefix +:+ "BROKER_AUDIENCE", Unicode (bcc_audience b));
       ("SECURE_DB_" +:+ prefix +:+ "BROKER_SCOPE", Unicode (join "," (bcc_scope b)));
       ("SECURE_DB_" +:+ prefix +:+ "BROKER_TTL_SECONDS", Unicode (n_to_string (bcc_ttl_seconds b)))]
  end.
Definition source_vars (a : NativeAuthConfig) : list (string * EnvValue) :=
  match a with
  | StaticUrl u =>
      [("SECURE_DB_CREDENTIAL_SOURCE", Unicode "static"); ("SECURE_DB_ALLOW_STATIC", Unicode "true");
       ("SECURE_DB_URL", Unicode u)]
  | Broker b => [("SECURE_DB_CREDENTIAL_SOURCE", Unicode "broker")]
  end.
Definition secrets_vars (s : option NativeAuthConfig) : list (string * EnvValue) :=
  match s with
  | Some (StaticUrl u) => [("SECURE_DB_SECRETS_URL", Unicode u)]
  | Some (Broker b) => auth_vars "SECRETS_" (Broker b)
  | None => []
  end.
Definition environment_of (c : NativeConfig) : Env := list_to_map
  ([("SECURE_DB_POOL_MAX", Unicode (n_to_string (nc_max_connections c)));
    ("SECURE_DB_POOL_MIN", Unicode (n_to_string (nc_min_connections c)));
    ("SECURE_DB_CONNECT_TIMEOUT", Unicode (n_to_string (nc_connect_timeout_seconds c)));
    ("SECURE_DB_IDLE_TIMEOUT", Unicode (n_to_string (nc_idle_timeout_seconds c)));
    ("SECURE_DB_APP_NAME", Unicode (nc_application_name c))]
   ++ source_vars (nc_data_auth c) ++ auth_vars "" (nc_data_auth c)
   ++ secrets_vars (nc_secrets_auth c)).

Lemma required_env_run env key v :
  env_var env key = Ok v → blank v = false → required_env env key = Ok v.
Proof. unfold required_env. intros -> E. cbn. by rewrite E. Qed.

Lemma parse_env_run max env key d n :
  env_var env key = Ok (n_to_string n) → n ≤ max → parse_env max env key d = Ok n.
Proof. unfold parse_env. intros -> Hn. by rewrite parse_unsigned_to_string. Qed.

Lemma pool_settings_run env a s c :
  data_auth_from_env env = Ok a → secrets_auth_from_env env a = Ok s → config_valid c →
  nc_data_auth c = a → nc_secrets_auth c = s →
  env_var env "SECURE_DB_POOL_MAX" = Ok (n_to_string (nc_max_connections c)) →
  env_var env "SECURE_DB_POOL_MIN" = Ok (n_to_string (nc_min_connections c)) →
  env_var env "SECURE_DB_CONNECT_TIMEOUT" = Ok (n_to_string (nc_connect_timeout_seconds c)) →
  env_var env "SECURE_DB_IDLE_TIMEOUT" = Ok (n_to_string (nc_idle_timeout_seconds c)) →
  env_var env "SECURE_DB_APP_NAME" = Ok (nc_application_name c) →
  load_native_config env = Ok c.
Proof.
  intros Ha Hs [_ _ Hmx Hmn Hct Hit Hname] <- <- E1 E2 E3 E4 E5.
  unfold load_native_config, parse_u32_env, parse_u64_env. rewrite Ha. cbn. rewrite Hs. cbn.
  rewrite (parse_env_run _ _ _ _ _ E1) by lia. cbn.
  rewrite (parse_env_run _ _ _ _ _ E2) by lia. cbn.
  rewrite (proj2 (N.eqb_neq _ _)), (proj2 (N.ltb_ge _ _)) by lia. cbn.
  rewrite (parse_env_run _ _ _ _ _ E3) by lia. cbn.
  rewrite (parse_env_run _ _ _ _ _ E4) by lia. cbn.
  rewrite !(proj2 (N.eqb_neq _ _)) by lia. cbn.
  rewrite E5. cbn. rewrite Hname. by destruct c.
Qed.

Lemma env_flag_true env key : env_var env key = Ok "true" → env_flag env key = Ok true.
Proof. unfold env_flag. intros ->. reflexivity. Qed.

Lemma static_run env u :
  env_var env "SECURE_DB_CREDENTIAL_SOURCE" = Ok "static" →
  env_var env "SECURE_DB_ALLOW_STATIC" = Ok "true" →
  env_var env "SECURE_DB_URL" = Ok u → blank u = false →
  data_auth_from_env env = Ok (StaticUrl u).
Proof.
  intros E1 E2 E3 Hu. unfold data_auth_from_env. rewrite E1.
  replace (to_ascii_lowercase _) with "static" by reflexivity.
  rewrite (bool_decide_eq_false_2 (_ = "broker")), (bool_decide_eq_true_2 (_ = "static")) by done.
  rewrite (env_flag_true _ _ E2). cbn. by rewrite (required_env_run _ _ u).
Qed.

Lemma broker_run env b :
  env_var env "SECURE_DB_CREDENTIAL_SOURCE" = Ok "broker" →
  env_var env "SECURE_DB_BROKER_AUDIENCE" = Ok (bcc_audience b) →
  env_var env "SECURE_DB_BROKER_SCOPE" = Ok (join "," (bcc_scope b)) →
  env_var env "SECURE_DB_BROKER_TTL_SECONDS" = Ok (n_to_string (bcc_ttl_seconds b)) →
  auth_valid (Broker b) → data_auth_from_env env = Ok (Broker b).
Proof.
  intros E1 E2 E3 E4 (Hb & Hs & Ht). unfold data_auth_from_env. rewrite E1.
  replace (to_ascii_lowercase _) with "broker" by reflexivity.
  rewrite (bool_decide_eq_true_2 (_ = "broker")) by done.
  rewrite (required_env_run _ _ (bcc_audience b)) by done. cbn.
  unfold parse_u64_env. rewrite (parse_env_run _ _ _ _ (bcc_ttl_seconds b)) by (done || lia).
  cbn. rewrite (proj2 (N.eqb_neq _ _)) by lia. rewrite E3. cbn.
  rewrite parse_scope_list_join by done. by destruct b.
Qed.

Lemma secrets_broker_run env d b :
  env_var env "SECURE_DB_SECRETS_BROKER_AUDIENCE" = Ok (bcc_audience b) →
  env_var env "SECURE_DB_SECRETS_BROKER_SCOPE" = Ok (join "," (bcc_scope b)) →
  env_var env "SECURE_DB_SECRETS_BROKER_TTL_SECONDS" = Ok (n_to_string (bcc_ttl_seconds b)) →
  auth_valid (Broker b) → secrets_auth_from_env env (Broker d) = Ok (Some (Broker b)).
Proof.
  intros E1 E2 E3 (Hb & Hs & Ht). unfold secrets_auth_from_env. rewrite E1. cbn. rewrite Hb.
  unfold parse_u64_env. rewrite (parse_env_run _ _ _ _ (bcc_ttl_seconds b)) by (done || lia).
  cbn. rewrite (proj2 (N.eqb_neq _ _)) by lia. rewrite E2. cbn.
  rewrite parse_scope_list_join by done. by destruct b.
Qed.

Lemma data_auth_run c : config_valid c →
  data_auth_from_env (environment_of c) = Ok (nc_data_auth c).
Proof.
  intros [Ha _ _ _ _ _ _]. destruct c as [[u|b] [[u'|b']|] mx mn ct it name]; cbn in Ha |- *;
    (apply static_run || apply broker_run); try exact Ha; reflexivity.
Qed.

Lemma secrets_auth_run c : config_valid c →
  secrets_auth_from_env (environment_of c) (nc_data_auth c) = Ok (nc_secrets_auth c).
Proof.
  intros [_ Hs _ _ _ _ _]. destruct c as [[u|b] [[u'|b']|] mx mn ct it name]; cbn in Hs |- *;
    try (destruct (Hs _ eq_refl) as [Ha []]; cbn in Ha); try done.
  - unfold secrets_auth_from_env. rewrite (proj2 (env_var_ok _ _ u')) by reflexivity.
    by rewrite Ha.
  - apply secrets_broker_run; try exact Ha; reflexivity.
Qed.

(** Every valid configuration can be asked for: from the environment that
    spells it out, loading gives exactly that configuration back. *)
Theorem config_round_trip c : config_valid c → load_native_config (environment_of c) = Ok c.
Proof.
  intros Hc. apply (pool_settings_run _ (nc_data_auth c) (nc_secrets_auth c)); try done.
  1: by apply data_auth_run. 1: by apply secrets_auth_run.
  all: destruct c as [[u|b] [[u'|b']|] mx mn ct it name]; reflexivity.
Qed.
End config.
End Config.

(** ** Concrete configurations *)
Section concrete.
Import Ref Config.

Definition ex_config : NativeConfig := {|
  nc_data_auth := Broker {| bcc_audience := "db"; bcc_scope := ["read"; "write"];
                            bcc_ttl_seconds := 900 |};
  nc_secrets_auth := Some (Broker {| bcc_audience := "secrets"; bcc_scope := [];
                                     bcc_ttl_seconds := 120 |});
  nc_max_connections := 20; nc_min_connections := 5; nc_connect_timeout_seconds := 10;
  nc_idle_timeout_seconds := 300; nc_application_name := "secure-database" |}.

Lemma ex_config_valid : config_valid ex_config.
Proof.
  split; cbn; try (unfold u32_max, u64_max; lia); try done.
  - repeat split; try done. repeat constructor.
  - intros s [= <-]. cbn. repeat split; done || constructor.
Qed.

(** An environment that names an audience only: the documented defaults. *)
Definition ex_defaults : Env := {[ "SECURE_DB_BROKER_AUDIENCE" := Unicode "db" ]}.
Definition ex_default_config : NativeConfig := {|
  nc_data_auth := Broker {| bcc_audience := "db"; bcc_scope := []; bcc_ttl_seconds := 900 |};
  nc_secrets_auth := None;
  nc_max_connections := 20; nc_min_connections := 5; nc_connect_timeout_seconds := 10;
  nc_idle_timeout_seconds := 300; nc_application_name := "secure-database" |}.

Lemma load_config_valid_witness :
  load_native_config ex_defaults = Ok ex_default_config ∧ config_valid ex_default_config.
Proof.
  assert (load_native_config ex_defaults = Ok ex_default_config) as E by (vm_compute; reflexivity).
  split; [exact E|]. exact (proj1 (load_config_valid ex_defaults ex_default_config E)).
Defined.

Lemma config_round_trip_witness : load_native_config (environment_of ex_config) = Ok ex_config.
Proof. exact (config_round_trip ex_config ex_config_valid). Defined.

(** A static URL without the flag is refused. *)
Example static_needs_flag :
  is_ok (load_native_config {[ "SECURE_DB_CREDENTIAL_SOURCE" := Unicode "static";
                               "SECURE_DB_URL" := Unicode "postgres://pgbouncer:6432/db" ]}) = false.
Proof. vm_compute. reflexivity. Qed.
End concrete.
