(* ===== verification/Pool.v ===== *)
(** * Connection pools and lease rotation (src/lib.rs, lines 86-262, 690-1055)

    Creating the pools of [connect_postgres], the extension allowlist, and the
    worker that replaces a pool before its broker lease expires. A
    [ReloadablePool] is an [ArcSwap] cell that its clones share: a handle is the
    index of the cell, so that the pool the worker swaps is the one the readers
    load. What happens to pools is kept as a log of events, because the order of
    swapping and closing matters to a concurrent reader. *)
From S2P Require Import Prelude RustStd Platform World Environment Broker Config Reference.
Local Open Scope Z_scope.

Module Pool.
Import SecretBrokerClient Config.

Definition LEASE_REFRESH_GRACE_SECS : Z := 60.
Definition LEASE_REFRESH_RETRY_SECS : Z := 15.
(** Durations, like times, are in nanoseconds. *)
Definition seconds (n : Z) : Z := n * 1000000000.

(** ** [sqlx::postgres]: connection options *)

Inductive PgSslMode := Disable | Allow | Prefer | Require | VerifyCa | VerifyFull.
#[export] Instance ssl_mode_eq_dec : EqDecision PgSslMode.
Proof. solve_decision. Defined.

Class PgApi := {
  PgConnectOptions : Type;
  (** [str::parse::<PgConnectOptions>()]; the error is its [Display] form *)
  pg_parse : string → result string PgConnectOptions;
  pg_with_ssl_mode : PgSslMode → PgConnectOptions → PgConnectOptions;
  pg_with_application_name : string → PgConnectOptions → PgConnectOptions;
  pg_with_username : string → PgConnectOptions → PgConnectOptions;
  pg_with_password : string → PgConnectOptions → PgConnectOptions;
  pg_ssl_mode : PgConnectOptions → PgSslMode;
  pg_application_name : PgConnectOptions → option string;
  pg_username : PgConnectOptions → string;
  pg_password : PgConnectOptions → option string;
  (** server and database *)
  pg_target : PgConnectOptions → string;
  (** [PgPoolOptions::connect_with(...)] at a moment, or its error *)
  pg_connect_error : nat → PgConnectOptions → option string;
  (** how many interactions of other tasks pass until [Pool::close] of a pool,
      called at a moment, has got every connection back and returns *)
  pg_close_wait : nat → nat → nat;
}.
Class PgLaws `{PgApi} : Prop := {
  pg_ssl_ssl m o : pg_ssl_mode (pg_with_ssl_mode m o) = m;
  pg_ssl_name n o : pg_ssl_mode (pg_with_application_name n o) = pg_ssl_mode o;
  pg_ssl_user u o : pg_ssl_mode (pg_with_username u o) = pg_ssl_mode o;
  pg_ssl_pass p o : pg_ssl_mode (pg_with_password p o) = pg_ssl_mode o;
  pg_name_name n o : pg_application_name (pg_with_application_name n o) = Some n;
  pg_name_user u o : pg_application_name (pg_with_username u o) = pg_application_name o;
  pg_name_pass p o : pg_application_name (pg_with_password p o) = pg_application_name o;
  pg_user_ssl m o : pg_username (pg_with_ssl_mode m o) = pg_username o;
  pg_user_name n o : pg_username (pg_with_application_name n o) = pg_username o;
  pg_user_user u o : pg_username (pg_with_username u o) = u;
  pg_user_pass p o : pg_username (pg_with_password p o) = pg_username o;
  pg_pass_ssl m o : pg_password (pg_with_ssl_mode m o) = pg_password o;
  pg_pass_name n o : pg_password (pg_with_application_name n o) = pg_password o;
  pg_pass_user u o : pg_password (pg_with_username u o) = pg_password o;
  pg_pass_pass p o : pg_password (pg_with_password p o) = Some p;
  pg_target_ssl m o : pg_target (pg_with_ssl_mode m o) = pg_target o;
  pg_target_name n o : pg_target (pg_with_application_name n o) = pg_target o;
  pg_target_user u o : pg_target (pg_with_username u o) = pg_target o;
  pg_target_pass p o : pg_target (pg_with_password p o) = pg_target o;
}.

(** [sqlx::migrate!("./migrations")]: its effect on the extension tables. *)
Record ExtDb := {
  (** [database_extensions.extension_allowlist] *)
  ed_allowlist : gset string;
  (** [pg_extension], and the extensions that can be created *)
  ed_installed : list string;
  ed_available : gset string;
}.
Class Migrator := { migrator_run : ExtDb → result string ExtDb }.

(** The cargo features of the build. *)
Record Features := {
  feature_pgaudit : bool;
  feature_pg_stat_statements : bool;
  feature_timescaledb : bool;
  feature_citus : bool;
}.

Inductive PoolKind := Data | Secrets.

Record PoolContext := {
  pc_application_name : string;
  pc_pool_label : string;
  pc_max_connections : N;
  pc_min_connections : N;
  pc_connect_timeout_seconds : N;
  pc_idle_timeout_seconds : N;
}.

(** A handle of a [ReloadablePool]: the index of its cell. *)
Abbreviation ReloadablePool := nat.

Record BrokerLeaseWorker := {
  blw_pool : ReloadablePool;
  blw_credential : BrokerCredentialConfig;
  blw_application_name : string;
  blw_pool_label : string;
  blw_max_connections : N;
  blw_min_connections : N;
  blw_connect_timeout_seconds : N;
  blw_idle_timeout_seconds : N;
  blw_next_expiry : option DateTime;
}.

Record PoolInit := { pi_pool : ReloadablePool; pi_worker : option BrokerLeaseWorker }.
Record PgPool := { pg_data : ReloadablePool; pg_secrets : ReloadablePool }.

(** ** Pools *)

Section pools.
Context `{PgApi}.

(** A [Pool<Postgres>] and its options; a pool is named by the number of pools
    opened before it. *)
Record PoolSettings := {
  pset_options : PgConnectOptions;
  pset_max : N;
  pset_min : N;
  pset_acquire_timeout_seconds : N;
  pset_idle_timeout_seconds : N;
}.

Inductive PoolEvent :=
  | Opened (settings : PoolSettings)
  | CellCreated (pool : nat)
  | Swapped (cell : ReloadablePool) (pool : nat)
  | Closed (pool : nat).

Record Pools := {
  pools_opened : list PoolSettings;
  pools_cells : list nat;
  pools_closed : list nat;
}.

Definition apply_event (p : Pools) (e : PoolEvent) : Pools :=
  match e with
  | Opened settings =>
      {| pools_opened := pools_opened p ++ [settings]; pools_cells := pools_cells p;
         pools_closed := pools_closed p |}
  | CellCreated pool =>
      {| pools_opened := pools_opened p; pools_cells := pools_cells p ++ [pool];
         pools_closed := pools_closed p |}
  | Swapped cell pool =>
      {| pools_opened := pools_opened p; pools_cells := <[cell := pool]> (pools_cells p);
         pools_closed := pools_closed p |}
  | Closed pool =>
      {| pools_opened := pools_opened p; pools_cells := pools_cells p;
         pools_closed := pools_closed p ++ [pool] |}
  end.
Definition no_pools : Pools := {| pools_opened := []; pools_cells := []; pools_closed := [] |}.
Definition replay (log : list PoolEvent) : Pools := foldl apply_event no_pools log.
End pools.

(** ** The state *)

Section state.
Context `{UuidApi, JsonApi, BrokerApi} `{PgApi}.

Record Cluster := mk_cluster {
  cl_world : World;
  cl_log : list PoolEvent;
  cl_sleeps : list Z;
  (** the gauge [secure_database_lease_ttl_seconds], by pool label *)
  cl_gauges : list (string * Z);
  cl_exts : gmap string ExtDb;
  cl_spawned : list BrokerLeaseWorker;
}.

Definition on_world {E A} (m : eff World E A) : eff Cluster E A := λ s,
  let '(r, w) := m (cl_world s) in
  (r, mk_cluster w (cl_log s) (cl_sleeps s) (cl_gauges s) (cl_exts s) (cl_spawned s)).
Definition log_event {E} (e : PoolEvent) : eff Cluster E () := modify (λ s,
  mk_cluster (cl_world s) (cl_log s ++ [e]) (cl_sleeps s) (cl_gauges s) (cl_exts s)
    (cl_spawned s)).
Definition sleep {E} (d : Z) : eff Cluster E () := modify (λ s,
  mk_cluster (cl_world s) (cl_log s) (cl_sleeps s ++ [d]) (cl_gauges s) (cl_exts s)
    (cl_spawned s)).
Definition gauge {E} (label : string) (v : Z) : eff Cluster E () := modify (λ s,
  mk_cluster (cl_world s) (cl_log s) (cl_sleeps s) (cl_gauges s ++ [(label, v)]) (cl_exts s)
    (cl_spawned s)).
Definition spawn_task {E} (w : BrokerLeaseWorker) : eff Cluster E () := modify (λ s,
  mk_cluster (cl_world s) (cl_log s) (cl_sleeps s) (cl_gauges s) (cl_exts s)
    (cl_spawned s ++ [w])).
Definition pools_of (s : Cluster) : Pools := replay (cl_log s).
End state.
Abbreviation C := (eff Cluster DatabaseError).

(** ** Operations *)

Section ops.
Context `{UuidApi, JsonApi, BrokerApi} `{!Host} `{UnicodeTables} `{PgApi} `{Migrator}.

(** [ReloadablePool::new], [load], [replace] *)
Definition reloadable_new (pool : nat) : C ReloadablePool := λ s,
  (Ok (length (pools_cells (pools_of s))), snd (log_event (E := DatabaseError) (CellCreated pool) s)).
Definition load (cell : ReloadablePool) : C nat := λ s,
  (Ok (default 0%nat (pools_cells (pools_of s) !! cell)), s).
Definition replace (cell : ReloadablePool) (pool : nat) : C nat :=
  old_pool ← load cell;
  log_event (Swapped cell pool);;
  mret old_pool.

Definition obtain_broker_lease (credential : BrokerCredentialConfig) (application_name : string) :
    C PostgresCredentialLease :=
  let request := {|
    pcr_audience := bcc_audience credential;
    pcr_scope := bcc_scope credential;
    pcr_ttl_seconds := bcc_ttl_seconds credential;
    pcr_application_name := Some application_name |} in
  on_world (eff_map_err (λ e, Configuration
    ("failed to obtain PostgreSQL credentials from secret broker: " +:+ anyhow_display e))
    (issue_postgres_credentials request)).

(** [TimeDelta::num_seconds] truncates towards zero. *)
Definition num_seconds (d : Z) : Z := Z.quot d (seconds 1).

Definition record_lease_metrics (expires_at : option DateTime) (pool_label : string) : C () :=
  match expires_at with
  | Some expiry =>
      now ← on_world utc_now;
      gauge pool_label (num_seconds (nanos expiry - nanos now) `max` 0)
  | None => mret ()
  end.

Definition connect_options_from_lease (lease : PostgresCredentialLease)
    (application_name pool_label : string) : DbResult PgConnectOptions :=
  options ← map_err (λ e, Configuration ("invalid database_url from secret broker lease for "
              +:+ pool_label +:+ ": " +:+ e)) (pg_parse (pcl_database_url lease));
  let options := pg_with_application_name application_name (pg_with_ssl_mode Require options) in
  let options := match pcl_username lease with
                 | Some username => pg_with_username username options
                 | None => options
                 end in
  Ok (match pcl_password lease with
      | Some password => pg_with_password password options
      | None => options
      end).

Definition instantiate_pool (options : PgConnectOptions)
    (max_connections min_connections connect_timeout_seconds idle_timeout_seconds : N) : C nat :=
  λ s,
  let w := cl_world s in
  let s' := snd (on_world (E := DatabaseError) (modify tick) s) in
  match pg_connect_error (w_tick w) options with
  | Some e => (Err (Configuration ("failed to instantiate connection pool: " +:+ e)), s')
  | None =>
      (Ok (length (pools_opened (pools_of s))),
       snd (log_event (E := DatabaseError) (Opened {|
         pset_options := options;
         pset_max := max_connections;
         pset_min := min_connections;
         pset_acquire_timeout_seconds := connect_timeout_seconds;
         pset_idle_timeout_seconds := idle_timeout_seconds |}) s'))
  end.

(** *** The lease worker *)

(** [old_pool.close().await]: nobody can take a connection from the pool any
    more, and the worker waits until those taken before were given back. That it
    does not wait for ever is assumed. *)
Definition close (pool : nat) : C () :=
  log_event (Closed pool);;
  on_world (modify (λ w, Nat.iter (pg_close_wait (w_tick w) pool) tick w)).

Definition refresh_once (self : BrokerLeaseWorker) : C (option DateTime) :=
  lease ← obtain_broker_lease (blw_credential self) (blw_application_name self);
  record_lease_metrics (pcl_expires_at lease) (blw_pool_label self);;
  options ← lift (connect_options_from_lease lease (blw_application_name self)
                    (blw_pool_label self));
  pool ← instantiate_pool options (blw_max_connections self) (blw_min_connections self)
           (blw_connect_timeout_seconds self) (blw_idle_timeout_seconds self);
  old_pool ← replace (blw_pool self) pool;
  close old_pool;;
  mret (pcl_expires_at lease).

Definition set_next_expiry (next : option DateTime) (self : BrokerLeaseWorker) :
    BrokerLeaseWorker := {|
  blw_pool := blw_pool self;
  blw_credential := blw_credential self;
  blw_application_name := blw_application_name self;
  blw_pool_label := blw_pool_label self;
  blw_max_connections := blw_max_connections self;
  blw_min_connections := blw_min_connections self;
  blw_connect_timeout_seconds := blw_connect_timeout_seconds self;
  blw_idle_timeout_seconds := blw_idle_timeout_seconds self;
  blw_next_expiry := next |}.

Definition wait_duration (expiry now : DateTime) : Z :=
  let refresh_at := nanos expiry - seconds LEASE_REFRESH_GRACE_SECS in
  if nanos now <? refresh_at then refresh_at - nanos now else 0.

(** One turn of the loop of [run]: [None] when it returns [Ok(())]. *)
Definition run_turn (self : BrokerLeaseWorker) : C (option BrokerLeaseWorker) :=
  match blw_next_expiry self with
  | None => mret None
  | Some expiry =>
      now ← on_world utc_now;
      let wait := wait_duration expiry now in
      (if wait =? 0 then mret () else sleep wait);;
      r ← attempt (refresh_once self);
      match r with
      | Ok None => mret None
      | Ok (Some next) => mret (Some (set_next_expiry (Some next) self))
      | Err _ => sleep (seconds LEASE_REFRESH_RETRY_SECS);; mret (Some self)
      end
  end.

(** At most [turns] turns of the loop: the worker that still runs, or [None]. *)
Fixpoint run (turns : nat) (self : BrokerLeaseWorker) : C (option BrokerLeaseWorker) :=
  match turns with
  | O => mret (Some self)
  | S turns' =>
      r ← run_turn self;
      match r with
      | Some self' => run turns' self'
      | None => mret None
      end
  end.

Definition spawn (self : BrokerLeaseWorker) : C () :=
  match blw_next_expiry self with
  | None => mret ()
  | Some _ => spawn_task self
  end.

(** *** Creating a pool *)

Definition ensure_pgbouncer_dsn (url : string) : DbResult () :=
  let lower := to_lowercase url in
  let has_host := contains "@pgbouncer:" lower || contains "//pgbouncer:" lower in
  let has_port := contains ":6432/" lower || ends_with ":6432" lower || contains ":6432?" lower in
  if has_host || has_port then Ok ()
  else Err (Configuration ("PgBouncer DSN required (port 6432 or host pgbouncer): " +:+ url +:+
    ". Set SECURE_DB_ALLOW_DIRECT_BOOTSTRAP=1 for admin bootstrap or " +:+
    "SECURE_DB_RATLS_MODE=disabled for development.")).

Definition ratls_disabled (env : Env) : bool :=
  eq_ignore_ascii_case (unwrap_or "enforced" (env_var env "SECURE_DB_RATLS_MODE")) "disabled".

(** The options of a pool with a static URL. *)
Definition static_options (env : Env) (database_url application_name : string) :
    DbResult PgConnectOptions :=
  skip_pgbouncer_check ←
    (if ratls_disabled env then Ok true else env_flag env "SECURE_DB_ALLOW_DIRECT_BOOTSTRAP");
  (if skip_pgbouncer_check : bool then Ok () else ensure_pgbouncer_dsn database_url);;
  options ← map_err (λ e, Configuration ("invalid DATABASE_URL: " +:+ e)) (pg_parse database_url);
  let ssl_mode := if ratls_disabled env then Prefer else Require in
  Ok (pg_with_application_name application_name (pg_with_ssl_mode ssl_mode options)).

(** [client_from_env] is [SecretBrokerClient::from_env]. *)
Definition create_pool (env : Env) (client_from_env : MA ()) (auth : NativeAuthConfig)
    (context : PoolContext) : C PoolInit :=
  match auth with
  | StaticUrl database_url =>
      options ← lift (static_options env database_url (pc_application_name context));
      pool ← instantiate_pool options (pc_max_connections context) (pc_min_connections context)
               (pc_connect_timeout_seconds context) (pc_idle_timeout_seconds context);
      cell ← reloadable_new pool;
      mret {| pi_pool := cell; pi_worker := None |}
  | Config.Broker broker =>
      on_world (eff_map_err (λ err, Configuration
        ("failed to initialise secret-broker client for Postgres credentials: " +:+
         anyhow_display err)) client_from_env);;
      lease ← obtain_broker_lease broker (pc_application_name context);
      record_lease_metrics (pcl_expires_at lease) (pc_pool_label context);;
      options ← lift (connect_options_from_lease lease (pc_application_name context)
                        (pc_pool_label context));
      pool ← instantiate_pool options (pc_max_connections context) (pc_min_connections context)
               (pc_connect_timeout_seconds context) (pc_idle_timeout_seconds context);
      cell ← reloadable_new pool;
      mret {| pi_pool := cell;
              pi_worker := Some {|
                blw_pool := cell;
                blw_credential := broker;
                blw_application_name := pc_application_name context;
                blw_pool_label := pc_pool_label context;
                blw_max_connections := pc_max_connections context;
                blw_min_connections := pc_min_connections context;
                blw_connect_timeout_seconds := pc_connect_timeout_seconds context;
                blw_idle_timeout_seconds := pc_idle_timeout_seconds context;
                blw_next_expiry := pcl_expires_at lease |} |}
  end.
(** *** Migrations and extensions *)

Definition target_of (pool : nat) (s : Cluster) : string :=
  from_option (λ st, pg_target (pset_options st)) "" (pools_opened (pools_of s) !! pool).
Definition empty_ext : ExtDb := {| ed_allowlist := ∅; ed_installed := []; ed_available := ∅ |}.
Definition ext_of (pool : nat) (s : Cluster) : ExtDb :=
  default empty_ext (cl_exts s !! target_of pool s).
Definition set_ext (pool : nat) (x : ExtDb) (s : Cluster) : Cluster :=
  mk_cluster (cl_world s) (cl_log s) (cl_sleeps s) (cl_gauges s)
    (<[target_of pool s := x]> (cl_exts s)) (cl_spawned s).

(** A statement on the extension tables of the pool's database. *)
Definition ext_execute {A} (pool : nat) (q : ExtDb → result SqlError (A * ExtDb)) : C A := λ s,
  let s' := snd (on_world (E := DatabaseError) (modify tick) s) in
  let apply r := match r with Ok (_, x) => set_ext pool x s' | Err _ => s' end in
  let r := q (ext_of pool s) in
  match sql_fault (w_tick (cl_world s)) with
  | Some (NotExecuted m) => (Err (from_sqlx (DriverError m)), s')
  | Some (NotAcknowledged m) => (Err (from_sqlx (DriverError m)), apply r)
  | None => (map_err from_sqlx (fst <$> r), apply r)
  end.

(** [MIGRATOR.run(pool)] *)
Definition migrate (pool : nat) : C () := λ s,
  match migrator_run (ext_of pool s) with
  | Ok x => (Ok (), set_ext pool x s)
  | Err e => (Err (Migration e), s)
  end.

Definition run_migrations (env : Env) (pool : nat) : C () :=
  skip ← lift (env_flag env "SECURE_DB_SKIP_MIGRATIONS");
  if skip : bool then mret () else migrate pool.

(** [INSERT ... ON CONFLICT DO NOTHING] *)
Definition upsert_extension_allowlist (pool : nat) (extension : string) : C () :=
  ext_execute pool (λ x, Ok ((), {|
    ed_allowlist := {[ extension ]} ∪ ed_allowlist x;
    ed_installed := ed_installed x; ed_available := ed_available x |})).

(** [CREATE EXTENSION IF NOT EXISTS extension] *)
Definition create_extension (pool : nat) (extension : string) : C () :=
  ext_execute pool (λ x,
    if bool_decide (extension ∈ ed_installed x) then Ok ((), x)
    else if bool_decide (extension ∈ ed_available x) then
      Ok ((), {| ed_allowlist := ed_allowlist x;
                 ed_installed := ed_installed x ++ [extension];
                 ed_available := ed_available x |})
    else Err (ServerError ("extension " +:+ extension +:+ " is not available"))).

(** A call of an extension's function that changes none of these tables. *)
Definition select_function (pool : nat) : C () := ext_execute pool (λ x, Ok ((), x)).

Definition ensure_timescaledb (pool : nat) : C () :=
  create_extension pool "timescaledb";;
  select_function pool.

Definition ensure_citus (pool : nat) : C () :=
  create_extension pool "citus";;
  select_function pool;;
  select_function pool.

Definition unauthorized_extensions (x : ExtDb) : list string :=
  filter (λ extname, extname ∉ ed_allowlist x) (ed_installed x).

Definition enforce_extension_allowlist (env : Env) (pool : nat) : C () :=
  allowed ← lift (env_flag env "SECURE_DB_ALLOW_UNLISTED_EXTENSIONS");
  if allowed : bool then mret ()
  else
    unauthorized ← ext_execute pool (λ x, Ok (unauthorized_extensions x, x));
    match unauthorized with
    | [] => mret ()
    | _ => fail (Configuration ("found disallowed extensions: " +:+ join ", " unauthorized +:+
             " (set SECURE_DB_ALLOW_UNLISTED_EXTENSIONS=1 to override)"))
    end.

Definition when (b : bool) (m : C ()) : C () := if b then m else mret ().

Definition ensure_postgres_extensions (f : Features) (env : Env) (pool : nat) (kind : PoolKind) :
    C () :=
  upsert_extension_allowlist pool "pgcrypto";;
  when (feature_pgaudit f)
    (create_extension pool "pgaudit";; upsert_extension_allowlist pool "pgaudit");;
  when (feature_pg_stat_statements f)
    (create_extension pool "pg_stat_statements";;
     upsert_extension_allowlist pool "pg_stat_statements");;
  match kind with
  | Data =>
      when (feature_timescaledb f)
        (ensure_timescaledb pool;; upsert_extension_allowlist pool "timescaledb");;
      when (feature_citus f) (ensure_citus pool;; upsert_extension_allowlist pool "citus")
  | Secrets => mret ()
  end;;
  enforce_extension_allowlist env pool.

(** *** [connect_postgres] *)

Definition pool_context (cfg : NativeConfig) (label : string) : PoolContext := {|
  pc_application_name := nc_application_name cfg;
  pc_pool_label := label;
  pc_max_connections := nc_max_connections cfg;
  pc_min_connections := nc_min_connections cfg;
  pc_connect_timeout_seconds := nc_connect_timeout_seconds cfg;
  pc_idle_timeout_seconds := nc_idle_timeout_seconds cfg |}.

(** A pool, with its database migrated and checked. *)
Definition prepared_pool (f : Features) (env : Env) (client_from_env : MA ())
    (auth : NativeAuthConfig) (context : PoolContext) (kind : PoolKind) : C PoolInit :=
  init ← create_pool env client_from_env auth context;
  pool ← load (pi_pool init);
  run_migrations env pool;;
  ensure_postgres_extensions f env pool kind;;
  mret init.

Definition spawn_opt (w : option BrokerLeaseWorker) : C () :=
  match w with Some worker => spawn worker | None => mret () end.

Definition connect_postgres (f : Features) (env : Env) (client_from_env : MA ())
    (cfg : NativeConfig) : C PgPool :=
  data ← prepared_pool f env client_from_env (nc_data_auth cfg) (pool_context cfg "data") Data;
  secrets ←
    match nc_secrets_auth cfg with
    | Some auth =>
        prepared_pool f env client_from_env auth (pool_context cfg "secrets") Secrets
    | None => mret {| pi_pool := pi_pool data; pi_worker := None |}
    end;
  spawn_opt (pi_worker data);;
  spawn_opt (pi_worker secrets);;
  mret {| pg_data := pi_pool data; pg_secrets := pi_pool secrets |}.

(** [SecureDatabase::connect_native] *)
Definition connect_native (f : Features) (env : Env) (client_from_env : MA ()) :
    eff Cluster AnyhowError PgPool :=
  cfg ← lift (load_native_config env);
  eff_map_err anyhow_new (connect_postgres f env client_from_env cfg).
End ops.
End Pool.

(** ** Options as a record, and a server that is down for four interactions *)
Module PgRef.
Import Pool.
Record ref_options := {
  ro_ssl : PgSslMode; ro_name : option string; ro_user : string; ro_password : option string;
  ro_url : string;
}.
#[export] Instance ref_pg : PgApi := {|
  PgConnectOptions := ref_options;
  pg_parse url :=
    if starts_with "postgres://" url
    then Ok {| ro_ssl := VerifyFull; ro_name := None; ro_user := "nobody"; ro_password := None;
               ro_url := url |}
    else Err "relative URL without a base";
  pg_with_ssl_mode m o := {| ro_ssl := m; ro_name := ro_name o; ro_user := ro_user o;
    ro_password := ro_password o; ro_url := ro_url o |};
  pg_with_application_name n o := {| ro_ssl := ro_ssl o; ro_name := Some n; ro_user := ro_user o;
    ro_password := ro_password o; ro_url := ro_url o |};
  pg_with_username u o := {| ro_ssl := ro_ssl o; ro_name := ro_name o; ro_user := u;
    ro_password := ro_password o; ro_url := ro_url o |};
  pg_with_password p o := {| ro_ssl := ro_ssl o; ro_name := ro_name o; ro_user := ro_user o;
    ro_password := Some p; ro_url := ro_url o |};
  pg_ssl_mode := ro_ssl; pg_application_name := ro_name; pg_username := ro_user;
  pg_password := ro_password; pg_target := ro_url;
  (* the server is down for the first interactions *)
  pg_connect_error t _ := if (t <? 4)%nat then Some "connection refused" else None;
  pg_close_wait _ _ := 0%nat;
|}.
#[export] Instance ref_pg_laws : PgLaws.
Proof. split; done. Qed.
#[export] Instance ref_migrator : Migrator := {| migrator_run x := Ok x |}.
End PgRef.
