(* ===== verification/PoolProps.v ===== *)
(** * Properties of the pools and of lease rotation

    [Pool.v] keeps a log of what happens to pools; a log is safe when at every
    moment of it every cell holds an open pool, so that a reader which loads a
    cell between any two events gets a pool it can use. *)
From S2P Require Import Prelude RustStd Platform World Environment Broker Config Pool Reference.
Local Open Scope Z_scope.

Module PoolProps.
Import SecretBrokerClient Config Pool.
Section props.
Context `{UuidApi, JsonApi, BrokerApi} `{!Host} `{UnicodeTables} `{PgApi} `{!PgLaws} `{Migrator}.

(** ** Safe logs *)

Record pools_ok (p : Pools) : Prop := {
  po_cells : NoDup (pools_cells p);
  po_closed : NoDup (pools_closed p);
  po_live i : i ∈ pools_cells p → (i < length (pools_opened p))%nat ∧ i ∉ pools_closed p;
  po_past i : i ∈ pools_closed p → (i < length (pools_opened p))%nat;
}.

Definition log_safe (log : list PoolEvent) : Prop :=
  ∀ past future, log = past ++ future → pools_ok (replay past).

Lemma replay_snoc log e : replay (log ++ [e]) = apply_event (replay log) e.
Proof. unfold replay. by rewrite foldl_app. Qed.

Lemma log_safe_now log : log_safe log → pools_ok (replay log).
Proof. intros Hl. apply (Hl log []). by rewrite app_nil_r. Qed.

Lemma log_safe_snoc log e :
  log_safe log → pools_ok (replay (log ++ [e])) → log_safe (log ++ [e]).
Proof.
  intros Hl He past future E. destruct (decide (future = [])) as [->|Hf].
  - rewrite app_nil_r in E. by subst.
  - destruct (exists_last Hf) as (f' & e' & ->).
    rewrite app_assoc in E. apply app_inj_tail in E as [-> ->]. by eapply Hl.
Qed.

Lemma opened_ok p st : pools_ok p → pools_ok (apply_event p (Opened st)).
Proof.
  intros [Hc Hd Hl Hp]. split; cbn; [done|done| |].
  - intros i Hi. destruct (Hl i Hi). rewrite length_app. simpl. split; [lia|done].
  - intros i Hi. specialize (Hp i Hi). rewrite length_app. simpl. lia.
Qed.

(** Swapping the newest pool, which no cell holds yet, into a cell. *)
Lemma swapped_ok p cell pool :
  pools_ok p → (pool < length (pools_opened p))%nat → pool ∉ pools_closed p →
  pool ∉ pools_cells p → pools_ok (apply_event p (Swapped cell pool)).
Proof.
  intros [Hc Hd Hl Hp] Ho Hn Hx. split; cbn; [|done| |done].
  - apply NoDup_alt. intros i j x Hi Hj. rewrite NoDup_alt in Hc.
    apply list_lookup_insert_Some in Hi as [(? & ? & ?)|[? Hi]];
      apply list_lookup_insert_Some in Hj as [(? & ? & ?)|[? Hj]]; subst;
      [done| | |by eapply Hc]; exfalso; apply Hx; by eapply list_elem_of_lookup_2.
  - intros i Hi. apply list_elem_of_lookup_1 in Hi as [k Hk].
    apply list_lookup_insert_Some in Hk as [(<- & <- & ?)|[? Hk]]; [done|].
    apply Hl. by eapply list_elem_of_lookup_2.
Qed.

Lemma closed_ok p pool :
  pools_ok p → (pool < length (pools_opened p))%nat → pool ∉ pools_closed p →
  pool ∉ pools_cells p → pools_ok (apply_event p (Closed pool)).
Proof.
  intros [Hc Hd Hl Hp] Ho Hn Hx. split; cbn; [done| | |].
  - apply NoDup_app. split; [done|]. split; [|apply NoDup_singleton].
    intros i Hi ->%list_elem_of_singleton. done.
  - intros i Hi. destruct (Hl i Hi). split; [done|].
    intros [?| ->%list_elem_of_singleton]%elem_of_app; done.
  - intros i [?| ->%list_elem_of_singleton]%elem_of_app; [by apply Hp|done].
Qed.

(** One rotation: the newest pool replaces the one of [cell], which is closed. *)
Definition rotation (log : list PoolEvent) (cell : nat) (st : PoolSettings) : list PoolEvent :=
  let p := replay log in
  [Opened st; Swapped cell (length (pools_opened p));
   Closed (default 0%nat (pools_cells p !! cell))].

Lemma rotation_safe log cell st :
  log_safe log → (cell < length (pools_cells (replay log)))%nat →
  log_safe (log ++ rotation log cell st).
Proof.
  intros Hl Hc. pose proof (log_safe_now _ Hl) as Hp.
  destruct (lookup_lt_is_Some_2 _ _ Hc) as [old Hold].
  assert (old ∈ pools_cells (replay log)) as Hin by by eapply list_elem_of_lookup_2.
  destruct (po_live _ Hp _ Hin) as [Ho1 Ho2].
  set (n := length (pools_opened (replay log))).
  assert (n ∉ pools_cells (replay log)) as Hn
    by (intros Hi; destruct (po_live _ Hp _ Hi); unfold n in *; lia).
  assert (n ∉ pools_closed (replay log)) as Hn'
    by (intros Hi; pose proof (po_past _ Hp _ Hi); unfold n in *; lia).
  unfold rotation. rewrite Hold. cbn [default]. fold n.
  assert (log_safe (log ++ [Opened st])) as Hs1.
  { apply log_safe_snoc; [done|]. rewrite replay_snoc. by apply opened_ok. }
  assert (log_safe ((log ++ [Opened st]) ++ [Swapped cell n])) as Hs2.
  { apply log_safe_snoc; [done|]. rewrite !replay_snoc. apply swapped_ok; [by apply opened_ok| |done..].
    cbn. rewrite length_app. simpl. unfold n. lia. }
  replace (log ++ [_; _; _]) with
    (((log ++ [Opened st]) ++ [Swapped cell n]) ++ [Closed old]) by by rewrite <-!app_assoc.
  apply log_safe_snoc; [done|]. rewrite replay_snoc.
  pose proof (log_safe_now _ Hs2) as Hp2. rewrite !replay_snoc in Hp2 |- *.
  apply closed_ok; [done| |done|]; cbn.
  - rewrite length_app. simpl. lia.
  - intros [k Hk]%list_elem_of_lookup_1.
    apply list_lookup_insert_Some in Hk as [(<- & <- & ?)|[Hne Hk]]; [done|].
    apply Hne. pose proof (po_cells _ Hp) as Hnd. rewrite NoDup_alt in Hnd. by eapply Hnd.
Qed.

Lemma created_ok p pool :
  pools_ok p → (pool < length (pools_opened p))%nat → pool ∉ pools_closed p →
  pool ∉ pools_cells p → pools_ok (apply_event p (CellCreated pool)).
Proof.
  intros [Hc Hd Hl Hp] Ho Hn Hx. split; cbn; [|done| |done].
  - apply NoDup_app. split; [done|]. split; [|apply NoDup_singleton].
    intros i Hi ->%list_elem_of_singleton. done.
  - intros i [?| ->%list_elem_of_singleton]%elem_of_app; [by apply Hl|done].
Qed.

Lemma new_cell_safe log st :
  log_safe log → log_safe (log ++ [Opened st; CellCreated (length (pools_opened (replay log)))]).
Proof.
  intros Hl. pose proof (log_safe_now _ Hl) as Hp. set (n := length _).
  assert (log_safe (log ++ [Opened st])) as Hs1.
  { apply log_safe_snoc; [done|]. rewrite replay_snoc. by apply opened_ok. }
  replace (log ++ _) with ((log ++ [Opened st]) ++ [CellCreated n]) by by rewrite <-app_assoc.
  apply log_safe_snoc; [done|]. rewrite !replay_snoc.
  apply created_ok; [by apply opened_ok| | |]; cbn.
  - rewrite length_app. simpl. unfold n. lia.
  - intros Hi. pose proof (po_past _ Hp _ Hi). unfold n in *. lia.
  - intros Hi. destruct (po_live _ Hp _ Hi). unfold n in *. lia.
Qed.
(** ** What one refresh does *)

(** Everything but the world and the gauges stays. *)
Definition same_pools (s s' : Cluster) : Prop :=
  cl_log s' = cl_log s ∧ cl_sleeps s' = cl_sleeps s ∧ cl_exts s' = cl_exts s ∧
  cl_spawned s' = cl_spawned s.
#[export] Instance same_pools_refl : Reflexive same_pools.
Proof. by intros s. Qed.
#[export] Instance same_pools_trans : Transitive same_pools.
Proof. intros s1 s2 s3 (?&?&?&?) (?&?&?&?). repeat split; congruence. Qed.

Lemma on_world_same {E A} (m : eff World E A) : preserves same_pools (on_world m).
Proof. intros s. unfold on_world. destruct (m (cl_world s)). by repeat split. Qed.
Lemma gauge_same {E} l v : preserves (E := E) same_pools (gauge l v).
Proof. intros s. by repeat split. Qed.
#[local] Hint Resolve on_world_same gauge_same : sdb.

Lemma obtain_same c n : preserves same_pools (obtain_broker_lease c n).
Proof. unfold obtain_broker_lease. auto with sdb. Qed.
Lemma record_metrics_same e l : preserves same_pools (record_lease_metrics e l).
Proof. unfold record_lease_metrics. solve_preserves. Qed.
#[local] Hint Resolve obtain_same record_metrics_same : sdb.

Lemma instantiate_cases opts mx mn ct it s r s' :
  instantiate_pool opts mx mn ct it s = (r, s') →
  cl_sleeps s' = cl_sleeps s ∧ cl_exts s' = cl_exts s ∧ cl_spawned s' = cl_spawned s ∧
  (((∃ e, r = Err e) ∧ cl_log s' = cl_log s) ∨
   r = Ok (length (pools_opened (pools_of s))) ∧
   cl_log s' = cl_log s ++ [Opened (Build_PoolSettings opts mx mn ct it)]).
Proof.
  unfold instantiate_pool. destruct (pg_connect_error _ _); intros [= <- <-]; cbn; [by eauto 10|].
  repeat (split; [done|]). by right.
Qed.

(** The options a lease stands for: those of its URL, with the user and the
    password it names, TLS required, and the application's name. *)
Definition leased_options (l : PostgresCredentialLease) (app : string) (o : PgConnectOptions) :
    Prop :=
  ∃ url, pg_parse (pcl_database_url l) = Ok url ∧
    pg_ssl_mode o = Require ∧ pg_application_name o = Some app ∧ pg_target o = pg_target url ∧
    pg_username o = default (pg_username url) (pcl_username l) ∧
    pg_password o = from_option Some (pg_password url) (pcl_password l).

Lemma lease_options lease app label o :
  connect_options_from_lease lease app label = Ok o → leased_options lease app o.
Proof.
  unfold connect_options_from_lease, leased_options. destruct (pg_parse _) as [url|]; [|done].
  cbn. intros [= <-]. exists url. split; [done|].
  destruct (pcl_password lease), (pcl_username lease); cbn;
    rewrite ?pg_ssl_pass, ?pg_ssl_user, ?pg_ssl_name, ?pg_ssl_ssl,
      ?pg_name_pass, ?pg_name_user, ?pg_name_name,
      ?pg_target_pass, ?pg_target_user, ?pg_target_name, ?pg_target_ssl,
      ?pg_user_pass, ?pg_user_user, ?pg_user_name, ?pg_user_ssl,
      ?pg_pass_pass, ?pg_pass_user, ?pg_pass_name, ?pg_pass_ssl; done.
Qed.

(** A pool with the sizes and timeouts of a configuration. *)
Definition sized (ctx : PoolContext) (st : PoolSettings) : Prop :=
  pset_max st = pc_max_connections ctx ∧ pset_min st = pc_min_connections ctx ∧
  pset_acquire_timeout_seconds st = pc_connect_timeout_seconds ctx ∧
  pset_idle_timeout_seconds st = pc_idle_timeout_seconds ctx.

(** A pool opened for a lease. *)
Definition opened_for (ctx : PoolContext) (l : PostgresCredentialLease) (st : PoolSettings) :
    Prop :=
  leased_options l (pc_application_name ctx) (pset_options st) ∧ sized ctx st.

(** The configuration a worker was created with. *)
Definition worker_context (self : BrokerLeaseWorker) : PoolContext := {|
  pc_application_name := blw_application_name self;
  pc_pool_label := blw_pool_label self;
  pc_max_connections := blw_max_connections self;
  pc_min_connections := blw_min_connections self;
  pc_connect_timeout_seconds := blw_connect_timeout_seconds self;
  pc_idle_timeout_seconds := blw_idle_timeout_seconds self |}.

(** What the broker is asked for; without a lifetime it chooses one itself. *)
Definition requested_ttl (c : BrokerCredentialConfig) : option N :=
  if (bcc_ttl_seconds c =? 0)%N then None else Some (bcc_ttl_seconds c).
Definition lease_request (c : BrokerCredentialConfig) (app : string) : PostgresCredentialParams := {|
  pcp_audience := trim (bcc_audience c);
  pcp_scope := bcc_scope c;
  pcp_ttl_seconds := requested_ttl c;
  pcp_application_name := Some app |}.

(** The broker issues [l] when it is asked at tick [t] and holds [b]. *)
Definition issues (c : BrokerCredentialConfig) (app : string) (t : nat) (b : Platform.Broker)
    (l : PostgresCredentialLease) : Prop :=
  ∃ b', adapter_issue_postgres_credentials (lease_request c app) t b = (Ok l, b').

Lemma obtain_Ok c app s l s' : obtain_broker_lease c app s = (Ok l, s') →
  issues c app (w_tick (cl_world s)) (w_broker (cl_world s)) l ∧ same_pools s s'.
Proof.
  intros E1. split; [|by apply (preserves_run _ _ _ _ _ (obtain_same c app) E1)].
  unfold obtain_broker_lease, on_world, eff_map_err, issue_postgres_credentials in E1.
  rewrite counted_run in E1. unfold issues, lease_request, requested_ttl.
  cbn [pcr_audience pcr_scope pcr_ttl_seconds pcr_application_name] in E1.
  destruct (adapter_issue_postgres_credentials _ _ _) as [[l'|] b]; [|done].
  cbn in E1. injection E1 as -> _. by exists b.
Qed.

(** A refresh either fails and leaves the pools alone, or it is one rotation onto
    a pool for the lease that was issued as it began. *)
Lemma refresh_cases self s r s' : refresh_once self s = (r, s') →
  cl_sleeps s' = cl_sleeps s ∧
  ((∃ e, r = Err e) ∧ cl_log s' = cl_log s ∨
   ∃ l st, r = Ok (pcl_expires_at l) ∧
     issues (blw_credential self) (blw_application_name self)
       (w_tick (cl_world s)) (w_broker (cl_world s)) l ∧
     opened_for (worker_context self) l st ∧
     cl_log s' = cl_log s ++ rotation (cl_log s) (blw_pool self) st).
Proof.
  unfold refresh_once. intros E1. unfold mbind, eff_bind in E1.
  destruct (obtain_broker_lease _ _ s) as [[lease|e] s1] eqn:E2.
  2:{ apply (preserves_run _ _ _ _ _ (obtain_same _ _)) in E2 as (L2 & S2 & _).
      injection E1 as <- <-. eauto 10. }
  apply obtain_Ok in E2 as (Hi & L2 & S2 & _).
  destruct (record_lease_metrics _ _ s1) as [[[]|e] s2] eqn:E3;
    apply (preserves_run _ _ _ _ _ (record_metrics_same _ _)) in E3 as (L3 & S3 & _);
    [|injection E1 as <- <-; split; [congruence|left; split; [eauto|congruence]]].
  unfold lift in E1.
  destruct (connect_options_from_lease _ _ _) as [o|e] eqn:E4;
    [|injection E1 as <- <-; split; [congruence|left; split; [eauto|congruence]]].
  apply lease_options in E4.
  destruct (instantiate_pool _ _ _ _ _ s2) as [[pool|e] s3] eqn:E5;
    apply instantiate_cases in E5 as (S5 & _ & _ & Hc).
  - destruct Hc as [[[? ?] _]|([= ->] & L5)]; [done|].
    unfold replace, load, close, mbind, eff_bind, log_event, modify in E1. cbn in E1.
    injection E1 as <- <-. cbn. split; [congruence|]. right.
    exists lease, (Build_PoolSettings o (blw_max_connections self) (blw_min_connections self)
      (blw_connect_timeout_seconds self) (blw_idle_timeout_seconds self)).
    split; [done|]. split; [done|]. split; [done|].
    unfold pools_of. rewrite L5, L3, L2.
    rewrite <-!app_assoc. unfold rotation. cbn. by rewrite replay_snoc.
  - destruct Hc as [[_ L5]|[? _]]; [|done]. injection E1 as <- <-.
    split; [congruence|]. left. split; [eauto|congruence].
Qed.
(** ** Any number of turns *)

(** From [p] to [p'] only the pool of [cell] was replaced, and no pool is left
    behind open. *)
Record rotated (cell : nat) (p p' : Pools) : Prop := {
  ro_cells : length (pools_cells p') = length (pools_cells p);
  ro_opened : (length (pools_opened p) ≤ length (pools_opened p'))%nat;
  ro_closed i : i ∈ pools_closed p → i ∈ pools_closed p';
  ro_no_leak i :
    (length (pools_opened p) ≤ i < length (pools_opened p'))%nat ∨ pools_cells p !! cell = Some i →
    pools_cells p' !! cell = Some i ∨ i ∈ pools_closed p';
  ro_others c : c ≠ cell → pools_cells p' !! c = pools_cells p !! c;
}.
#[export] Instance rotated_refl cell : Reflexive (rotated cell).
Proof. intros p. split; auto. intros i [?|?]; [lia|auto]. Qed.
#[export] Instance rotated_trans cell : Transitive (rotated cell).
Proof.
  intros p1 p2 p3 [A1 A2 A3 A4 A5] [B1 B2 B3 B4 B5]. split; [congruence|lia|eauto| |].
  - intros i Hi. destruct (decide (length (pools_opened p2) ≤ i)%nat) as [Hl|Hl].
    + destruct Hi as [[? ?]|Hi]; [apply B4; left; lia|].
      destruct (A4 i (or_intror Hi)); eauto.
    + destruct (A4 i) as [Hc|Hc]; [|by eauto|by eauto]. destruct Hi; [left; lia|by right].
  - intros c Hc. by rewrite B5, A5.
Qed.

Lemma rotation_rotated log cell st : (cell < length (pools_cells (replay log)))%nat →
  rotated cell (replay log) (replay (log ++ rotation log cell st)).
Proof.
  intros Hc. unfold rotation, replay at 2. rewrite foldl_app. fold (replay log). cbn.
  split; cbn.
  - apply length_insert.
  - rewrite length_app. lia.
  - intros i ?. apply elem_of_app. by left.
  - intros i. rewrite length_app, list_lookup_insert_eq by done. simpl.
    intros [?|Hi]; [left; f_equal; lia|right]. rewrite Hi. apply elem_of_app. right.
    by apply list_elem_of_singleton.
  - intros c ?. by apply list_lookup_insert_ne.
Qed.

Definition live_step (cell : nat) (s s' : Cluster) : Prop :=
  log_safe (cl_log s) → (cell < length (pools_cells (pools_of s)))%nat →
  log_safe (cl_log s') ∧ rotated cell (pools_of s) (pools_of s') ∧
  cl_log s `prefix_of` cl_log s'.
#[export] Instance live_step_refl cell : Reflexive (live_step cell).
Proof. intros s Hs Hc. done. Qed.
#[export] Instance live_step_trans cell : Transitive (live_step cell).
Proof.
  intros s1 s2 s3 H12 H23 Hs Hc. destruct (H12 Hs Hc) as (Hs2 & Hr & Hp).
  destruct H23 as (Hs3 & Hr3 & Hp3); [done|by rewrite (ro_cells _ _ _ Hr)|].
  split; [done|]. split; by etrans.
Qed.

Lemma same_log_live cell s s' : cl_log s' = cl_log s → live_step cell s s'.
Proof. intros E1 Hs Hc. unfold pools_of. rewrite E1. done. Qed.

Lemma refresh_live self : preserves (live_step (blw_pool self)) (refresh_once self).
Proof.
  intros s. destruct (refresh_once self s) as [r s'] eqn:E1.
  apply refresh_cases in E1 as (_ & [[_ El]|(l & st & _ & _ & _ & El)]); [by apply same_log_live|].
  intros Hs Hc. unfold pools_of. cbn [snd]. rewrite El. split; [by apply rotation_safe|].
  split; [by apply rotation_rotated|]. by apply prefix_app_r.
Qed.
Lemma utc_now_live cell : preserves (E := DatabaseError) (live_step cell) (on_world utc_now).
Proof. intros s. by apply same_log_live. Qed.
Lemma sleep_live cell d : preserves (E := DatabaseError) (live_step cell) (sleep d).
Proof. intros s. by apply same_log_live. Qed.
#[local] Hint Resolve refresh_live utc_now_live sleep_live : sdb.

Lemma run_turn_live self : preserves (live_step (blw_pool self)) (run_turn self).
Proof. unfold run_turn. solve_preserves. Qed.

Lemma run_turn_pool self s self' s' :
  run_turn self s = (Ok (Some self'), s') →
  blw_pool self' = blw_pool self ∧ blw_credential self' = blw_credential self.
Proof.
  unfold run_turn. destruct (blw_next_expiry self); [|done].
  intros E1. inv_run E1. destruct a1 as [[next|]|e]; inv_run E1; done.
Qed.

Lemma run_live turns self : preserves (live_step (blw_pool self)) (run turns self).
Proof.
  revert self. induction turns as [|turns IH]; intros self; [apply preserves_ret; apply _|].
  apply preserves_bind_run; [apply _|apply _|apply run_turn_live|].
  intros s [self'|] s' E1; [|apply preserves_ret; apply _].
  apply run_turn_pool in E1 as [<- _]. apply IH.
Qed.

Lemma run_turn_ok self s : is_ok (fst (run_turn self s)) = true.
Proof.
  unfold run_turn. destruct (blw_next_expiry self) as [e|]; [|done].
  unfold mbind, eff_bind, attempt. cbn.
  destruct (_ =? 0); cbn; destruct (refresh_once _ _) as [[[]|] ?]; done.
Qed.

Lemma run_ok turns self s : is_ok (fst (run turns self s)) = true.
Proof.
  revert self s. induction turns as [|turns IH]; intros self s; [done|].
  cbn [run]. unfold mbind, eff_bind. pose proof (run_turn_ok self s) as Hok.
  destruct (run_turn self s) as [[[self'|]|] s']; [apply IH|done|done].
Qed.

(** C15. Rotation never takes the pool away: whatever the broker and the server
    answer, and however many turns the worker makes, it does not fail; at every
    moment every cell, the worker's own and any other, holds an open pool; the
    worker touches no other cell; and of the pools it replaced or opened, all but
    the one in its cell are closed. *)
Theorem rotation_keeps_live_pools turns self s :
  log_safe (cl_log s) → (blw_pool self < length (pools_cells (pools_of s)))%nat →
  let r := fst (run turns self s) in
  let s' := snd (run turns self s) in
  is_ok r = true ∧ log_safe (cl_log s') ∧ rotated (blw_pool self) (pools_of s) (pools_of s').
Proof.
  intros Hs Hc. cbn zeta. split; [apply run_ok|].
  by destruct (run_live turns self s Hs Hc) as (? & ? & _).
Qed.
(** ** The schedule *)

(** The pause before a refresh: none once the grace period has begun. *)
Definition early_sleep (now e : DateTime) : list Z :=
  if nanos now <? nanos e - seconds 60 then [nanos e - seconds 60 - nanos now] else [].

(** What is left of a worker after it obtained a lease. *)
Definition renewed (self : BrokerLeaseWorker) (l : PostgresCredentialLease) :
    option BrokerLeaseWorker :=
  match pcl_expires_at l with
  | Some next => Some (set_next_expiry (Some next) self)
  | None => None
  end.

(** A turn that replaced the pool: with a pool for a lease that the broker issued
    after the worker had read the clock. *)
Definition turned (self : BrokerLeaseWorker) (s : Cluster) (l : PostgresCredentialLease)
    (st : PoolSettings) (r : result DatabaseError (option BrokerLeaseWorker)) (s' : Cluster) :
    Prop :=
  issues (blw_credential self) (blw_application_name self)
    (S (w_tick (cl_world s))) (w_broker (cl_world s)) l ∧
  opened_for (worker_context self) l st ∧
  cl_log s' = cl_log s ++ rotation (cl_log s) (blw_pool self) st ∧
  r = Ok (renewed self l).

Lemma turn_schedule_at self s e : blw_next_expiry self = Some e →
  let early := early_sleep (client_now (w_tick (cl_world s))) e in
  let r := fst (run_turn self s) in
  let s' := snd (run_turn self s) in
  (r = Ok (Some self) ∧ cl_log s' = cl_log s ∧
   cl_sleeps s' = cl_sleeps s ++ early ++ [seconds 15] ∧
   ∃ s2, (w_tick (cl_world s) ≤ w_tick (cl_world s2))%nat ∧
     is_ok (fst (refresh_once self s2)) = false) ∨
  (cl_sleeps s' = cl_sleeps s ++ early ∧ ∃ l st, turned self s l st r s').
Proof.
  intros He. cbn zeta. unfold run_turn. rewrite He.
  set (now := client_now _). set (early := early_sleep _ _).
  set (s1 := snd (on_world (E := DatabaseError) utc_now s)).
  assert (∃ s2, (if wait_duration e now =? 0 then mret () else sleep (wait_duration e now)) s1
    = (Ok (E := DatabaseError) (), s2) ∧ cl_sleeps s2 = cl_sleeps s ++ early ∧ cl_log s2 = cl_log s ∧
    cl_world s2 = tick (cl_world s)) as (s2 & Ew & Es & El & Hc).
  { unfold early, early_sleep, wait_duration, LEASE_REFRESH_GRACE_SECS.
    destruct (Z.ltb_spec (nanos now) (nanos e - seconds 60)).
    - rewrite (proj2 (Z.eqb_neq _ _)) by lia. eexists. by split.
    - rewrite app_nil_r. eexists. by split. }
  rewrite (eff_bind_step _ _ s now s1) by done.
  rewrite (eff_bind_step _ _ _ _ _ Ew). rewrite bind_attempt.
  destruct (refresh_once self s2) as [r s3] eqn:Er. pose proof Er as Er0.
  apply refresh_cases in Er as (Es3 & [[[err ->] El3]|(l & st & -> & Hi & Ho & El3)]).
  - left. unfold mbind, eff_bind, sleep, modify. cbn.
    rewrite Es3, Es, El3, El. rewrite <-app_assoc. split; [done|]. split; [done|].
    split; [done|]. exists s2. rewrite Er0, Hc. cbn. split; [lia|done].
  - right. rewrite Hc in Hi. rewrite El in El3. unfold turned, renewed.
    destruct (pcl_expires_at l) as [next|] eqn:En; cbn; rewrite Es3, Es;
      (split; [done|]); exists l, st; rewrite En; done.
Qed.

(** *** Leases that are due at once *)

Definition clock_later (s s' : Cluster) : Prop :=
  (w_tick (cl_world s) ≤ w_tick (cl_world s'))%nat.
#[export] Instance clock_later_refl : Reflexive clock_later.
Proof. intros s. unfold clock_later. lia. Qed.
#[export] Instance clock_later_trans : Transitive clock_later.
Proof. intros s1 s2 s3. unfold clock_later. lia. Qed.

Lemma on_world_clock {E A} (m : eff World E A) :
  preserves later m → preserves clock_later (on_world m).
Proof.
  intros Hm s. specialize (Hm (cl_world s)). unfold on_world, clock_later.
  by destruct (m (cl_world s)).
Qed.
Lemma log_clock {E} e : preserves (E := E) clock_later (log_event e).
Proof. intros s. by unfold clock_later. Qed.
Lemma sleep_clock {E} d : preserves (E := E) clock_later (sleep d).
Proof. intros s. by unfold clock_later. Qed.
Lemma gauge_clock {E} l v : preserves (E := E) clock_later (gauge l v).
Proof. intros s. by unfold clock_later. Qed.
Lemma iter_tick_later n w : (w_tick w ≤ w_tick (Nat.iter n tick w))%nat.
Proof. induction n as [|n IH]; [done|]. simpl. lia. Qed.
Lemma close_clock n : preserves clock_later (close n).
Proof. intros s. unfold clock_later. cbn. apply iter_tick_later. Qed.
Lemma instantiate_clock o a b c d : preserves clock_later (instantiate_pool o a b c d).
Proof.
  intros s. unfold instantiate_pool, clock_later. destruct (pg_connect_error _ _); cbn; lia.
Qed.
Lemma utc_now_clock {E} : preserves (E := E) clock_later (on_world utc_now).
Proof. apply on_world_clock. auto with sdb. Qed.
Lemma obtain_clock c n : preserves clock_later (obtain_broker_lease c n).
Proof.
  apply on_world_clock, preserves_map_err. unfold issue_postgres_credentials. auto with sdb.
Qed.
Lemma load_clock cell : preserves clock_later (load cell).
Proof. intros s. by unfold clock_later. Qed.
#[local] Hint Resolve load_clock log_clock close_clock sleep_clock gauge_clock instantiate_clock utc_now_clock
  obtain_clock : sdb.

Lemma refresh_clock self : preserves clock_later (refresh_once self).
Proof. unfold refresh_once, record_lease_metrics, replace. solve_preserves. Qed.
#[local] Hint Resolve refresh_clock : sdb.
Lemma run_turn_clock self : preserves clock_later (run_turn self).
Proof. unfold run_turn. solve_preserves. Qed.

(** The lease expires within the grace period of any reading of the clock from
    then on. *)
Definition due_at_once (t : nat) (e : DateTime) : Prop :=
  ∀ i, (t ≤ i)%nat → nanos e - seconds LEASE_REFRESH_GRACE_SECS <= nanos (client_now i).
Definition short_leases (c : BrokerCredentialConfig) : Prop := ∀ p t b l b' e,
  pcp_ttl_seconds p = requested_ttl c →
  adapter_issue_postgres_credentials p t b = (Ok l, b') → pcl_expires_at l = Some e →
  due_at_once t e.

(** What a refresh hands on is the expiry of a lease issued as it began. *)
Lemma refresh_lease self s next s' : refresh_once self s = (Ok next, s') →
  ∃ l, issues (blw_credential self) (blw_application_name self)
         (w_tick (cl_world s)) (w_broker (cl_world s)) l ∧
    pcl_expires_at l = next.
Proof.
  intros (_ & [[[? ?] _]|(l & st & [= ->] & Hi & _)])%refresh_cases; [done|]. by exists l.
Qed.

Lemma refresh_next self s e s' : short_leases (blw_credential self) →
  refresh_once self s = (Ok (Some e), s') → due_at_once (w_tick (cl_world s)) e.
Proof.
  intros Hshort (l & [b' Hi] & He)%refresh_lease.
  exact (Hshort (lease_request _ _) _ _ _ _ _ eq_refl Hi He).
Qed.

Lemma run_turn_next self s self' s' e : short_leases (blw_credential self) →
  blw_next_expiry self = Some e → due_at_once (w_tick (cl_world s)) e →
  run_turn self s = (Ok (Some self'), s') →
  ∃ e', blw_next_expiry self' = Some e' ∧ due_at_once (w_tick (cl_world s')) e'.
Proof.
  intros Hshort He Hdue E1. pose proof (preserves_run _ _ _ _ _ (run_turn_clock self) E1) as Hc.
  unfold run_turn in E1. rewrite He in E1. inv_run E1.
  destruct a1 as [[next|]|err]; inv_run E1.
  - exists next. split; [done|].
    pose proof (preserves_run _ _ _ _ _ (refresh_clock self) Hrun1) as Hc1.
    apply refresh_next in Hrun1; [|done].
    intros i Hi. apply Hrun1. unfold clock_later in *. lia.
  - exists e. split; [done|]. intros i Hi. apply Hdue. unfold clock_later in *. lia.
Qed.

(** A lease that is due at once is renewed without a pause: if every lease
    the broker issues expires within sixty seconds (which a configured lifetime of
    at most sixty seconds asks for), each turn of the worker asks the broker for
    another lease and opens another pool, and the worker never sleeps but after a
    failure. *)
Theorem short_leases_spin turns self s e self' s' : short_leases (blw_credential self) →
  blw_next_expiry self = Some e → due_at_once (w_tick (cl_world s)) e →
  run turns self s = (Ok (Some self'), s') →
  ∃ failures : nat,
    cl_sleeps s' = cl_sleeps s ++ replicate failures (seconds 15) ∧
    (length (pools_opened (pools_of s')) + failures =
     length (pools_opened (pools_of s)) + turns)%nat.
Proof.
  revert self s e. induction turns as [|turns IH]; intros self s e Hshort He Hdue E1.
  { injection E1 as <- <-. exists 0%nat. split; [by rewrite app_nil_r|lia]. }
  cbn [run] in E1. apply eff_bind_Ok in E1 as ([self1|] & s1 & Et & E1); [|done].
  destruct (run_turn_next _ _ _ _ _ Hshort He Hdue Et) as (e1 & He1 & Hdue1).
  destruct (run_turn_pool _ _ _ _ Et) as [_ Hcred].
  destruct (IH self1 s1 e1) as (n & Es & Ep); [by rewrite Hcred|done..|].
  pose proof (turn_schedule_at self s e He) as Hturn. cbn zeta in Hturn.
  unfold early_sleep in Hturn.
  rewrite (proj2 (Z.ltb_ge _ _)), Et in Hturn; [|apply (Hdue (w_tick (cl_world s))); lia].
  cbn in Hturn. destruct Hturn as [(_ & El & Es1 & _)|(Es1 & l & st & _ & _ & El & _)].
  - exists (S n). rewrite Es, Es1, <-app_assoc. split; [done|].
    unfold pools_of in *. rewrite El in Ep. lia.
  - exists n. rewrite Es, Es1, app_nil_r. split; [done|].
    enough (length (pools_opened (pools_of s1)) = S (length (pools_opened (pools_of s)))) by lia.
    unfold pools_of. rewrite El. unfold replay at 1. rewrite foldl_app. cbn.
    rewrite length_app. simpl. unfold replay. lia.
Qed.
(** *** Recovery *)

(** From tick [T] on, the broker issues leases with URLs that parse, and pools
    connect. *)
Record healthy_from (T : nat) : Prop := {
  hf_connect t o : (T ≤ t)%nat → pg_connect_error t o = None;
  hf_lease p t b : (T ≤ t)%nat → ∃ l b' o,
    adapter_issue_postgres_credentials p t b = (Ok l, b') ∧ pg_parse (pcl_database_url l) = Ok o;
}.

Lemma healthy_refresh T self s : healthy_from T → (T ≤ w_tick (cl_world s))%nat →
  is_ok (fst (refresh_once self s)) = true.
Proof.
  intros [Hc Hl] Ht. unfold refresh_once, obtain_broker_lease, issue_postgres_credentials.
  unfold mbind at 1, eff_bind at 1, on_world at 1, eff_map_err. rewrite counted_run.
  edestruct Hl as (l & b' & o & -> & Hparse); [exact Ht|]. cbn.
  assert (∃ o', connect_options_from_lease l (blw_application_name self) (blw_pool_label self)
    = Ok o') as [o' Ho].
  { unfold connect_options_from_lease. rewrite Hparse. by eexists. }
  set (s1 := mk_cluster _ _ _ _ _ _).
  destruct (record_lease_metrics (pcl_expires_at l) (blw_pool_label self) s1) as [r s2] eqn:Em.
  assert (r = Ok () ∧ (T ≤ w_tick (cl_world s2))%nat) as [-> Ht2].
  { unfold record_lease_metrics in Em. destruct (pcl_expires_at l); injection Em as <- <-;
      unfold s1; cbn; split; (done || lia). }
  erewrite eff_bind_step by exact Em. rewrite Ho.
  unfold mbind, eff_bind, lift, instantiate_pool. by rewrite Hc.
Qed.

Lemma run_turn_tick self s e : blw_next_expiry self = Some e →
  (w_tick (cl_world s) < w_tick (cl_world (snd (run_turn self s))))%nat.
Proof.
  intros He. unfold run_turn. rewrite He.
  set (s1 := snd (on_world (E := DatabaseError) utc_now s)).
  rewrite (eff_bind_step _ _ s (client_now (w_tick (cl_world s))) s1) by done.
  assert (w_tick (cl_world s1) = S (w_tick (cl_world s))) as Ht by done.
  match goal with |- context [snd (?m s1)] => assert (preserves clock_later m) as Hm by solve_preserves end.
  specialize (Hm s1). unfold clock_later in Hm. lia.
Qed.

(** C22. Recovery: however long the broker or the server fails, once both work
    again from some moment on, the worker replaces its pool within as many turns
    as there were interactions before that moment, and one more: then its cell,
    and so every handle of it, holds a pool that was opened since and is not
    closed. *)
Theorem rotation_recovers T self s e : healthy_from T → blw_next_expiry self = Some e →
  log_safe (cl_log s) → (blw_pool self < length (pools_cells (pools_of s)))%nat →
  ∃ turns pool : nat, (turns ≤ S (T - w_tick (cl_world s)))%nat ∧
    let p := pools_of (snd (run turns self s)) in
    pools_cells p !! blw_pool self = Some pool ∧
    (length (pools_opened (pools_of s)) ≤ pool < length (pools_opened p))%nat ∧
    pool ∉ pools_closed p.
Proof.
  intros Hh He Hs Hcell. enough (∃ turns pool : nat, (turns ≤ S (T - w_tick (cl_world s)))%nat ∧
    pools_cells (pools_of (snd (run turns self s))) !! blw_pool self = Some pool ∧
    (length (pools_opened (pools_of s)) ≤ pool)%nat) as (turns & pool & Hn & Hp & Hge).
  { exists turns, pool. split; [done|]. cbn zeta. split; [done|].
    destruct (run_live turns self s Hs Hcell) as (Hs'%log_safe_now & _ & _).
    destruct (po_live _ Hs' pool) as [Hlt Hno]; [by eapply list_elem_of_lookup_2|]. done. }
  remember (T - w_tick (cl_world s))%nat as n eqn:En. revert s En Hs Hcell.
  induction (lt_wf n) as [n _ IH]. intros s -> Hs Hcell.
  pose proof (run_turn_tick self s e He) as Ht.
  destruct (run_turn self s) as [r s1] eqn:Er.
  pose proof (turn_schedule_at self s e He) as Hturn. cbn zeta in Hturn. rewrite Er in Hturn.
  cbn in Hturn, Ht.
  destruct Hturn as [(-> & El & _ & s2 & Hc & Hfail)|(_ & l & st & _ & _ & El & Hr)].
  - destruct (decide (T ≤ w_tick (cl_world s))%nat) as [Hle|Hgt].
    { by rewrite (healthy_refresh T) in Hfail by (done || lia). }
    destruct (IH (T - w_tick (cl_world s1))%nat ltac:(lia) s1 eq_refl) as (k & pool & Hk & Hp);
      [by rewrite El|unfold pools_of; by rewrite El|].
    exists (S k), pool. split; [lia|]. cbn [run]. rewrite (eff_bind_step _ _ _ _ _ Er).
    unfold pools_of in *. by rewrite <-El.
  - exists 1%nat, (length (pools_opened (pools_of s))). split; [lia|]. split; [|done].
    assert (pools_cells (pools_of (snd (run 1 self s))) = pools_cells (pools_of s1)) as ->.
    { cbn [run]. unfold mbind, eff_bind. rewrite Er. subst r. by destruct (renewed self l). }
    unfold pools_of at 1. rewrite El. unfold rotation, replay at 1. rewrite foldl_app. cbn.
    by apply list_lookup_insert_eq.
Qed.

(** ** Termination *)

(** The leases issued for [c] from tick [T] on never expire; every one expires. *)
Definition perpetual_from (T : nat) (c : BrokerCredentialConfig) : Prop := ∀ p t b l b',
  (T ≤ t)%nat → pcp_ttl_seconds p = requested_ttl c → adapter_issue_postgres_credentials p t b = (Ok l, b') → pcl_expires_at l = None.
Definition all_expire (c : BrokerCredentialConfig) : Prop := ∀ p t b l b',
  pcp_ttl_seconds p = requested_ttl c → adapter_issue_postgres_credentials p t b = (Ok l, b') → is_Some (pcl_expires_at l).

(** A turn of a worker whose lease expires: the refresh, and what it decides. *)
Lemma run_turn_refresh self s e : blw_next_expiry self = Some e →
  ∃ s2, (w_tick (cl_world s) ≤ w_tick (cl_world s2))%nat ∧
    fst (run_turn self s) = Ok match fst (refresh_once self s2) with
      | Ok (Some next) => Some (set_next_expiry (Some next) self)
      | Ok None => None
      | Err _ => Some self
      end.
Proof.
  intros He. unfold run_turn. rewrite He.
  set (now := client_now (w_tick (cl_world s))).
  set (s1 := snd (on_world (E := DatabaseError) utc_now s)).
  rewrite (eff_bind_step _ _ s now s1) by done.
  set (pause := if wait_duration e now =? 0 then mret () else sleep (wait_duration e now)).
  assert (∃ s2, pause s1 = (Ok (E := DatabaseError) (), s2) ∧
    (w_tick (cl_world s) ≤ w_tick (cl_world s2))%nat) as (s2 & Ew & Hc).
  { unfold pause. destruct (wait_duration e now =? 0); eexists; (split; [done|]); cbn; lia. }
  exists s2. split; [done|]. rewrite (eff_bind_step _ _ _ _ _ Ew), bind_attempt.
  by destruct (refresh_once self s2) as [[[next|]|err] s3].
Qed.

Lemma run_stops n more self s s' :
  run n self s = (Ok None, s') → run (n + more) self s = (Ok None, s').
Proof.
  revert self s. induction n as [|n IH]; intros self s; [done|]. cbn [run Nat.add].
  unfold mbind, eff_bind. destruct (run_turn self s) as [[[self'|]|e] s1]; auto.
Qed.

(** C21. The renewal loop ends exactly when it should. Once the broker and the
    server work and the broker issues leases without an expiry, the worker stops
    within as many turns as there were interactions before that moment, and one
    more, whatever happened until then; and while every lease expires, it never
    stops. *)
Theorem worker_terminates T self s :
  (healthy_from T → perpetual_from T (blw_credential self) →
    ∃ n, (n ≤ S (T - w_tick (cl_world s)))%nat ∧
      ∀ more, fst (run (n + more) self s) = Ok None) ∧
  (all_expire (blw_credential self) → is_Some (blw_next_expiry self) →
    ∀ n, ∃ self', fst (run n self s) = Ok (Some self') ∧ is_Some (blw_next_expiry self')).
Proof.
  split.
  - intros Hh Hp. enough (∃ n s', (n ≤ S (T - w_tick (cl_world s)))%nat ∧
      run n self s = (Ok None, s')) as (n & s' & Hn & Hr).
    { exists n. split; [done|]. intros more. by rewrite (run_stops _ _ _ _ _ Hr). }
    remember (T - w_tick (cl_world s))%nat as k eqn:Ek. revert self s Ek Hp.
    induction (lt_wf k) as [k _ IH]. intros self s -> Hp.
    destruct (run_turn self s) as [r s1] eqn:Er.
    destruct (blw_next_expiry self) as [e|] eqn:He.
    2:{ exists 1%nat, s1. split; [lia|]. cbn [run]. unfold mbind, eff_bind. rewrite Er.
        unfold run_turn in Er. rewrite He in Er. by injection Er as <- <-. }
    pose proof (run_turn_tick self s e He) as Ht.
    destruct (run_turn_refresh self s e He) as (s2 & Hs2 & Hr). rewrite Er in Ht, Hr. cbn in Ht, Hr.
    destruct r as [[self'|]|]; [|exists 1%nat, s1; split; [lia|];
      cbn [run]; unfold mbind, eff_bind; by rewrite Er|done].
    destruct (decide (T ≤ w_tick (cl_world s))%nat) as [Hle|Hgt].
    + exfalso. pose proof (healthy_refresh T self s2 Hh ltac:(lia)) as Hok.
      destruct (refresh_once self s2) as [[[next|]|err] s3] eqn:Ef; [|done..].
      apply refresh_lease in Ef as (l & [b' Hi] & Hx).
      apply Hp in Hi; [congruence|lia|done].
    + destruct (IH (T - w_tick (cl_world s1))%nat ltac:(lia) self' s1 eq_refl)
        as (n & s' & Hn & Hr'); [by rewrite (proj2 (run_turn_pool _ _ _ _ Er))|].
      exists (S n), s'. split; [lia|]. cbn [run]. by rewrite (eff_bind_step _ _ _ _ _ Er).
  - intros Ha He n. revert self s He Ha. induction n as [|n IH]; intros self s He Ha; [by exists self|].
    cbn [run]. destruct He as [e He].
    destruct (run_turn_refresh self s e He) as (s2 & _ & Hr).
    unfold mbind, eff_bind. destruct (run_turn self s) as [r s1]. cbn in Hr. subst r.
    destruct (refresh_once self s2) as [[[next|]|err] s3] eqn:Ef; cbn.
    + apply IH; [by eexists|done].
    + apply refresh_lease in Ef as (l & [b' Hi] & Hx).
      destruct (Ha (lease_request _ _) _ _ _ _ eq_refl Hi) as [? ?]. congruence.
    + apply IH; [by eexists|done].
Qed.
End props.
End PoolProps.

(** ** Rotation at a server that is down at first *)
Section concrete.
Import Ref SecretBrokerClient Config Pool PgRef PoolProps.

Definition ex_credential : BrokerCredentialConfig := {|
  bcc_audience := "db"; bcc_scope := []; bcc_ttl_seconds := 900 |}.
Definition ex_settings : PoolSettings := {|
  pset_options := {| ro_ssl := Require; ro_name := Some "app"; ro_user := "db";
                     ro_password := None; ro_url := "postgres://broker" |};
  pset_max := 20; pset_min := 5; pset_acquire_timeout_seconds := 10;
  pset_idle_timeout_seconds := 300 |}.
Definition ex_cluster (t : nat) : Cluster :=
  mk_cluster (mk_world t empty_tables (0%N, ∅) []) [Opened ex_settings; CellCreated 0] [] [] ∅ [].
Definition ex_worker : BrokerLeaseWorker := {|
  blw_pool := 0; blw_credential := ex_credential; blw_application_name := "app";
  blw_pool_label := "data"; blw_max_connections := 20; blw_min_connections := 5;
  blw_connect_timeout_seconds := 10; blw_idle_timeout_seconds := 300;
  blw_next_expiry := Some (utc (seconds 100)) |}.

Lemma ex_log_safe : log_safe [Opened ex_settings; CellCreated 0].
Proof.
  apply (new_cell_safe [] ex_settings). intros past future E.
  symmetry in E. apply app_eq_nil in E as [-> _].
  split; cbn; try apply NoDup_nil_2; by intros i ?%elem_of_nil.
Qed.

(** One turn at a server that is down, two at one that is up. *)
Lemma rotation_keeps_live_pools_witness :
  (length (pools_opened (pools_of (snd (run 3 ex_worker (ex_cluster 0))))) = 3)%nat ∧
  log_safe (cl_log (snd (run 3 ex_worker (ex_cluster 0)))).
Proof.
  split; [vm_compute; reflexivity|].
  apply (rotation_keeps_live_pools 3 ex_worker (ex_cluster 0)); [exact ex_log_safe|].
  vm_compute. lia.
Defined.


(** The example broker's leases are due at once. *)
Lemma ex_short_leases : short_leases ex_credential.
Proof.
  intros p t b l b' e Hp [= <- <-] He i Hi. cbn in He. rewrite Hp in He. cbn in He.
  injection He as <-. unfold seconds, LEASE_REFRESH_GRACE_SECS. cbn. lia.
Qed.

Definition ex_due_worker : BrokerLeaseWorker := set_next_expiry (Some (utc 0)) ex_worker.

Lemma short_leases_spin_witness : ∃ self',
  fst (run 3 ex_due_worker (ex_cluster 0)) = Ok (Some self') ∧
  cl_sleeps (snd (run 3 ex_due_worker (ex_cluster 0))) = [seconds 15].
Proof.
  destruct (run 3 ex_due_worker (ex_cluster 0)) as [r s'] eqn:E1.
  assert (∃ self', r = Ok (Some self')) as [self' ->].
  { apply (f_equal fst) in E1. cbn [fst] in E1. rewrite <-E1. vm_compute. eexists. reflexivity. }
  exists self'. split; [reflexivity|].
  destruct (short_leases_spin 3 ex_due_worker (ex_cluster 0) (utc 0) self' s' ex_short_leases eq_refl)
    as (n & Es & Ep).
  - intros i _. unfold seconds, LEASE_REFRESH_GRACE_SECS. cbn. lia.
  - exact E1.
  - apply (f_equal (λ x, length (pools_opened (pools_of (snd x))))) in E1. cbn [snd] in E1.
    rewrite <-E1 in Ep.
    assert (length (pools_opened (pools_of (snd (run 3 ex_due_worker (ex_cluster 0))))) = 3%nat)
      as E3 by (vm_compute; reflexivity).
    rewrite E3 in Ep. cbn in Ep. assert (n = 1%nat) as -> by lia. exact Es.
Defined.

Lemma ex_healthy : healthy_from 4.
Proof.
  split.
  - intros t o Ht. unfold pg_connect_error, ref_pg. by rewrite (proj2 (Nat.ltb_ge t 4)).
  - intros p t b Ht. by eexists _, _, _.
Qed.

Lemma rotation_recovers_witness : ∃ turns pool : nat, (turns ≤ 5)%nat ∧ (1 ≤ pool)%nat ∧
  pools_cells (pools_of (snd (run turns ex_worker (ex_cluster 0)))) !! 0%nat = Some pool.
Proof.
  destruct (rotation_recovers 4 ex_worker (ex_cluster 0) (utc (seconds 100)) ex_healthy eq_refl)
    as (turns & pool & Hn & Hp & [Hge _] & _); [exact ex_log_safe|vm_compute; lia|].
  exists turns, pool. split; [exact Hn|]. split; [exact Hge|exact Hp].
Defined.

(** Without a requested lifetime the example broker's leases do not expire. *)
Definition ex_perpetual_worker : BrokerLeaseWorker := {|
  blw_pool := 0;
  blw_credential := {| bcc_audience := "db"; bcc_scope := []; bcc_ttl_seconds := 0 |};
  blw_application_name := "app"; blw_pool_label := "data"; blw_max_connections := 20;
  blw_min_connections := 5; blw_connect_timeout_seconds := 10; blw_idle_timeout_seconds := 300;
  blw_next_expiry := Some (utc (seconds 100)) |}.

Lemma worker_terminates_witness :
  (∃ n, (n ≤ 5)%nat ∧
    ∀ more, fst (run (n + more) ex_perpetual_worker (ex_cluster 0)) = Ok None) ∧
  (∃ self', fst (run 7 ex_worker (ex_cluster 0)) = Ok (Some self') ∧
    is_Some (blw_next_expiry self')).
Proof.
  split.
  - apply (worker_terminates 4 ex_perpetual_worker (ex_cluster 0)); [exact ex_healthy|].
    intros p t b l b' _ Hp [= <- <-]. cbn. by rewrite Hp.
  - apply (worker_terminates 4 ex_worker (ex_cluster 0)); [|by eexists].
    intros p t b l b' Hp [= <- <-]. cbn. rewrite Hp. by eexists.
Defined.
End concrete.
