(* ===== verification/ConnectProps.v ===== *)
(** * Properties of connecting

    What [connect_native] establishes: pools that require TLS, databases whose
    extensions are all on the allowlist, and handles that lease rotation keeps
    alive. *)
From S2P Require Import Prelude RustStd Platform World Environment Broker Config Pool PoolProps.
From S2P Require Import Reference.
Local Open Scope Z_scope.

Module ConnectProps.
Import SecretBrokerClient Config Pool PoolProps.
Section props.
Context `{UuidApi, JsonApi, BrokerApi} `{!Host} `{UnicodeTables} `{PgApi} `{!PgLaws} `{Migrator}.

(** ** TLS *)

Definition logs_only (P : PoolEvent → Prop) (s s' : Cluster) : Prop :=
  ∃ evs, cl_log s' = cl_log s ++ evs ∧ Forall P evs.
#[export] Instance logs_only_refl P : Reflexive (logs_only P).
Proof. intros s. exists []. by rewrite app_nil_r. Qed.
#[export] Instance logs_only_trans P : Transitive (logs_only P).
Proof.
  intros s1 s2 s3 (e1 & E1 & F1) (e2 & E2 & F2). exists (e1 ++ e2).
  rewrite E2, E1, app_assoc. split; [done|]. by apply Forall_app.
Qed.

(** Pools are opened with options of which [P] holds. *)
Definition opened_with (P : PgConnectOptions → Prop) (e : PoolEvent) : Prop :=
  match e with Opened st => P (pset_options st) | _ => True end.

Lemma logs_only_weaken (P Q : PoolEvent → Prop) {E A} (m : eff Cluster E A) :
  (∀ e, P e → Q e) → preserves (logs_only P) m → preserves (logs_only Q) m.
Proof.
  intros HPQ Hm s. destruct (Hm s) as (evs & El & He). exists evs. split; [done|].
  by eapply Forall_impl.
Qed.

Lemma same_log_only P s s' : cl_log s' = cl_log s → logs_only P s s'.
Proof. intros E1. exists []. by rewrite app_nil_r. Qed.
Lemma on_world_only {E A} P (m : eff World E A) : preserves (logs_only P) (on_world m).
Proof. intros s. apply same_log_only, (on_world_same m s). Qed.
Lemma obtain_only P c n : preserves (logs_only P) (obtain_broker_lease c n).
Proof. intros s. apply same_log_only, (obtain_same c n s). Qed.
Lemma metrics_only P e l : preserves (logs_only P) (record_lease_metrics e l).
Proof. intros s. apply same_log_only, (record_metrics_same e l s). Qed.
Lemma instantiate_only (P : PgConnectOptions → Prop) o a b c d :
  P o → preserves (logs_only (opened_with P)) (instantiate_pool o a b c d).
Proof.
  intros Ho s. destruct (instantiate_pool o a b c d s) as [r s'] eqn:E1.
  apply instantiate_cases in E1 as (_ & _ & _ & [[_ El]|(_ & El)]).
  - by apply same_log_only.
  - eexists. split; [exact El|]. by repeat constructor.
Qed.
Lemma reloadable_new_only P n : preserves (logs_only (opened_with P)) (reloadable_new n).
Proof. intros s. exists [CellCreated n]. by repeat constructor. Qed.
Lemma load_only P n : preserves (logs_only P) (load n).
Proof. intros s. by apply same_log_only. Qed.
Lemma spawn_only P w : preserves (logs_only P) (spawn_opt w).
Proof.
  intros s. apply same_log_only. unfold spawn_opt, spawn.
  destruct w as [w|]; [|done]. by destruct (blw_next_expiry w).
Qed.
Lemma ext_execute_only {A} P n (q : ExtDb → result SqlError (A * ExtDb)) :
  preserves (logs_only P) (ext_execute n q).
Proof.
  intros s. apply same_log_only. unfold ext_execute.
  destruct (sql_fault _) as [[m|m]|], (q (ext_of n s)) as [[a x]|e]; done.
Qed.
Lemma migrations_only P env n : preserves (logs_only P) (run_migrations env n).
Proof.
  assert (preserves (logs_only P) (migrate n)).
  { intros s. apply same_log_only. unfold migrate. by destruct (migrator_run _). }
  unfold run_migrations. solve_preserves.
Qed.
#[local] Hint Resolve on_world_only obtain_only metrics_only reloadable_new_only load_only
  spawn_only ext_execute_only migrations_only : sdb.

Lemma extensions_only P f env n k : preserves (logs_only P) (ensure_postgres_extensions f env n k).
Proof.
  unfold ensure_postgres_extensions, ensure_timescaledb, ensure_citus, when,
    enforce_extension_allowlist, create_extension, upsert_extension_allowlist, select_function.
  solve_preserves.
Qed.
#[local] Hint Resolve extensions_only : sdb.

(** The options of a static URL in an environment that disables RA-TLS. *)
Definition preferred_options (env : Env) (auth : NativeAuthConfig) (app : string)
    (o : PgConnectOptions) : Prop :=
  ratls_disabled env = true ∧ ∃ url base, auth = StaticUrl url ∧ pg_parse url = Ok base ∧
    o = pg_with_application_name app (pg_with_ssl_mode Prefer base).

Lemma static_options_tls env url app o : static_options env url app = Ok o →
  pg_ssl_mode o = Require ∨ preferred_options env (StaticUrl url) app o.
Proof.
  unfold static_options. intros (skip & _ & E1)%result_bind_Ok.
  apply result_bind_Ok in E1 as ([] & _ & E1). apply result_bind_Ok in E1 as (base & E2 & E1).
  injection E1 as <-. unfold preferred_options. rewrite pg_ssl_name, pg_ssl_ssl.
  destruct (pg_parse url) as [o'|] eqn:Ep; [|done]. injection E2 as ->.
  destruct (ratls_disabled env); [right|by left]. split; [done|]. by exists url, base.
Qed.

Lemma create_pool_tls env c auth ctx :
  preserves (logs_only (opened_with (λ o, pg_ssl_mode o = Require ∨
    preferred_options env auth (pc_application_name ctx) o))) (create_pool env c auth ctx).
Proof.
  set (P := λ o, pg_ssl_mode o = Require ∨ preferred_options env auth (pc_application_name ctx) o).
  assert (∀ r (k : PgConnectOptions → C PoolInit),
    (∀ o, r = Ok o → preserves (logs_only (opened_with P)) (k o)) →
    preserves (logs_only (opened_with P)) (o ← lift r; k o)) as Hlift.
  { intros r k Hk s. destruct r as [o|e]; [by apply Hk|]. cbn. reflexivity. }
  destruct auth as [url|b]; unfold create_pool.
  - apply Hlift. intros o Ho%static_options_tls.
    apply preserves_bind; [apply _..|by apply instantiate_only|]. intros pool. solve_preserves.
  - apply preserves_bind; [apply _..|auto with sdb|intros _].
    apply preserves_bind; [apply _..|auto with sdb|intros lease].
    apply preserves_bind; [apply _..|auto with sdb|intros _].
    apply Hlift. intros o (url & _ & Hssl & _)%lease_options.
    apply preserves_bind; [apply _..|apply instantiate_only; by left|].
    intros pool. solve_preserves.
Qed.

(** What connecting may open: pools that require TLS, and those of the loaded
    configuration's own static URLs when the environment disables RA-TLS. *)
Definition configured_tls (env : Env) (o : PgConnectOptions) : Prop :=
  pg_ssl_mode o = Require ∨
  ∃ cfg auth, load_native_config env = Ok cfg ∧
    (auth = nc_data_auth cfg ∨ Some auth = nc_secrets_auth cfg) ∧
    preferred_options env auth (nc_application_name cfg) o.

Lemma prepared_pool_tls f env c cfg auth label kind : load_native_config env = Ok cfg →
  auth = nc_data_auth cfg ∨ Some auth = nc_secrets_auth cfg →
  preserves (logs_only (opened_with (configured_tls env)))
    (prepared_pool f env c auth (pool_context cfg label) kind).
Proof.
  intros Hcfg Hauth. unfold prepared_pool.
  apply preserves_bind; [apply _..| |intros init; solve_preserves].
  eapply logs_only_weaken; [|apply create_pool_tls].
  intros [st| | |]; [|done..]. intros [?|Hp]; [by left|right]. by exists cfg, auth.
Qed.

Lemma connect_native_tls f env c :
  preserves (logs_only (opened_with (configured_tls env))) (connect_native f env c).
Proof.
  unfold connect_native. apply preserves_bind_run; [apply _..|solve_preserves|].
  intros s cfg s' [Hcfg _]%lift_Ok. apply preserves_map_err. unfold connect_postgres.
  apply preserves_bind; [apply _..|apply prepared_pool_tls; auto|intros data].
  apply preserves_bind; [apply _..| |intros sec; solve_preserves].
  destruct (nc_secrets_auth cfg) eqn:Es; [|solve_preserves]. apply prepared_pool_tls; auto.
Qed.

Lemma run_tls turns self :
  preserves (logs_only (opened_with (λ o, pg_ssl_mode o = Require))) (run turns self).
Proof.
  revert self. induction turns as [|turns IH]; intros self; [apply preserves_ret; apply _|].
  cbn [run]. apply preserves_bind; [apply _..| |intros [self'|]; [apply IH|apply preserves_ret; apply _]].
  intros s. destruct (blw_next_expiry self) as [e|] eqn:He.
  - destruct (turn_schedule_at self s e He)
      as [(_ & El & _)|(_ & l & st & _ & [(url & _ & Ho & _) _] & El & _)].
    + by apply same_log_only.
    + exists (rotation (cl_log s) (blw_pool self) st). split; [done|]. by repeat constructor.
  - unfold run_turn. rewrite He. apply preserves_ret; apply _.
Qed.

(** C16. Encrypted connections only: every pool that connecting opens, even when
    it fails later, and every pool a lease worker opens requires TLS, whatever
    mode the URL asks for. The one exception are pools opened with a static URL
    of the configuration that was loaded, in an environment that disables RA-TLS:
    there TLS is merely preferred. A pool for a broker lease always requires TLS. *)
Theorem pools_require_tls f env client_from_env turns self s :
  (∃ evs, cl_log (snd (connect_native f env client_from_env s)) = cl_log s ++ evs ∧
     Forall (opened_with (configured_tls env)) evs) ∧
  (∃ evs, cl_log (snd (run turns self s)) = cl_log s ++ evs ∧
     Forall (opened_with (λ o, pg_ssl_mode o = Require)) evs).
Proof. split; [apply connect_native_tls|apply run_tls]. Qed.
(** ** Extensions *)

Lemma ext_execute_Ok {A} n (q : ExtDb → result SqlError (A * ExtDb)) s a s' :
  ext_execute n q s = (Ok a, s') →
  ∃ x, q (ext_of n s) = Ok (a, x) ∧ ext_of n s' = x.
Proof.
  unfold ext_execute. destruct (sql_fault _) as [[m|m]|]; [done..|].
  destruct (q (ext_of n s)) as [[a' x]|e]; [|done]. intros [= <- <-]. exists x. split; [done|].
  unfold ext_of, set_ext. cbn. by rewrite lookup_insert_eq.
Qed.

Definition allow (name : string) (x : ExtDb) : ExtDb := {|
  ed_allowlist := {[ name ]} ∪ ed_allowlist x;
  ed_installed := ed_installed x; ed_available := ed_available x |}.
Definition install (name : string) (x : ExtDb) : ExtDb :=
  if decide (name ∈ ed_installed x) then x
  else {| ed_allowlist := ed_allowlist x; ed_installed := ed_installed x ++ [name];
          ed_available := ed_available x |}.
Definition enable (b : bool) (name : string) (x : ExtDb) : ExtDb :=
  if b then allow name (install name x) else x.

Lemma upsert_ext n name s s' : upsert_extension_allowlist n name s = (Ok (), s') →
  ext_of n s' = allow name (ext_of n s).
Proof. intros (x & [= <-] & ->)%ext_execute_Ok. done. Qed.
Lemma create_ext n name s s' : create_extension n name s = (Ok (), s') →
  ext_of n s' = install name (ext_of n s).
Proof.
  intros (x & E1 & ->)%ext_execute_Ok. unfold install. revert E1.
  case_bool_decide; case_decide; try done; [by intros [= ->]|].
  case_bool_decide; [|done]. by intros [= <-].
Qed.
Lemma select_ext n s s' : select_function n s = (Ok (), s') → ext_of n s' = ext_of n s.
Proof. intros (x & [= <-] & ->)%ext_execute_Ok. done. Qed.

(** A feature: creating its extension, by [m], and allowing it. *)
Lemma when_enable n b name (m : C ()) s s' :
  (∀ s s', m s = (Ok (), s') → ext_of n s' = install name (ext_of n s)) →
  when b (m;; upsert_extension_allowlist n name) s = (Ok (), s') →
  ext_of n s' = enable b name (ext_of n s).
Proof.
  intros Hm E1. unfold when in E1. destruct b.
  - apply eff_bind_Ok in E1 as ([] & s1 & Em & Eu).
    apply upsert_ext in Eu. by rewrite Eu, (Hm _ _ Em).
  - by injection E1 as <-.
Qed.

Definition is_data (k : PoolKind) : bool := match k with Data => true | Secrets => false end.

(** The extension tables after a pool of this kind was prepared. *)
Definition prepared (f : Features) (kind : PoolKind) (x : ExtDb) : ExtDb :=
  enable (is_data kind && feature_citus f) "citus"
    (enable (is_data kind && feature_timescaledb f) "timescaledb"
      (enable (feature_pg_stat_statements f) "pg_stat_statements"
        (enable (feature_pgaudit f) "pgaudit" (allow "pgcrypto" x)))).

Lemma enforce_Ok env n s s' : enforce_extension_allowlist env n s = (Ok (), s') →
  ext_of n s' = ext_of n s ∧
  (env_flag env "SECURE_DB_ALLOW_UNLISTED_EXTENSIONS" = Ok true ∨
   unauthorized_extensions (ext_of n s) = []).
Proof.
  unfold enforce_extension_allowlist. intros (b & s1 & [Eb ->]%lift_Ok & E1)%eff_bind_Ok.
  destruct b; [injection E1 as <-; auto|].
  apply eff_bind_Ok in E1 as (l & s2 & (x & [= <- <-] & Ex)%ext_execute_Ok & E1).
  destruct (unauthorized_extensions (ext_of n s1)); [|done]. injection E1 as <-. auto.
Qed.

(** C33. The extension check: when it succeeds, the allowlist has grown by exactly
    the extensions of the build (those of the data pool only for the data pool),
    these extensions are installed, and unless the environment lifts the check,
    every extension that is installed is on the list. *)
Theorem extensions_enforced f env n kind s s' :
  ensure_postgres_extensions f env n kind s = (Ok (), s') →
  ext_of n s' = prepared f kind (ext_of n s) ∧
  (env_flag env "SECURE_DB_ALLOW_UNLISTED_EXTENSIONS" = Ok true ∨
   ∀ name, name ∈ ed_installed (ext_of n s') → name ∈ ed_allowlist (ext_of n s')).
Proof.
  unfold ensure_postgres_extensions.
  intros ([] & s1 & E1%upsert_ext & H1')%eff_bind_Ok.
  apply eff_bind_Ok in H1' as ([] & s2 & E2%when_enable & H2'); [|by apply create_ext].
  apply eff_bind_Ok in H2' as ([] & s3 & E3%when_enable & H3'); [|by apply create_ext].
  apply eff_bind_Ok in H3' as ([] & s4 & H4' & [E5 Hc]%enforce_Ok).
  assert (ext_of n s4 = prepared f kind (ext_of n s)) as E4.
  { unfold prepared. rewrite <-E1, <-E2, <-E3. destruct kind; cbn [is_data andb].
    - apply eff_bind_Ok in H4' as ([] & s5 & E6%when_enable & E7%when_enable).
      + by rewrite E7, E6.
      + intros t t' ([] & t1 & Ec%create_ext & Et)%eff_bind_Ok.
        apply eff_bind_Ok in Et as ([] & t2 & Es%select_ext & Es'%select_ext).
        by rewrite Es', Es.
      + intros t t' ([] & t1 & Ec%create_ext & Es%select_ext)%eff_bind_Ok. by rewrite Es.
    - by injection H4' as <-. }
  rewrite E5. split; [done|]. destruct Hc as [Hf|Hu]; [by left|right].
  intros name Hn. destruct (decide (name ∈ ed_allowlist (ext_of n s4))) as [|Hno]; [done|].
  assert (name ∈ unauthorized_extensions (ext_of n s4)) as Hin
    by (by apply list_elem_of_filter).
  rewrite Hu in Hin. by apply elem_of_nil in Hin.
Qed.
(** ** Connecting *)

(** The handles of [s] keep their pools, and no worker is spawned. *)
Record handles_grow (s s' : Cluster) : Prop := {
  hg_safe : log_safe (cl_log s) → log_safe (cl_log s');
  hg_cells : pools_cells (pools_of s) `prefix_of` pools_cells (pools_of s');
  hg_opened : pools_opened (pools_of s) `prefix_of` pools_opened (pools_of s');
  hg_spawned : cl_spawned s' = cl_spawned s;
}.
#[export] Instance handles_grow_refl : Reflexive handles_grow.
Proof. by intros s. Qed.
#[export] Instance handles_grow_trans : Transitive handles_grow.
Proof. intros s1 s2 s3 [A1 A2 A3 A4] [B1 B2 B3 B4]. split; [auto|by etrans..|congruence]. Qed.

Lemma same_log_handles s s' :
  cl_log s' = cl_log s → cl_spawned s' = cl_spawned s → handles_grow s s'.
Proof. intros El Es. split; unfold pools_of; rewrite ?El; done. Qed.

(** The handle [h] holds a pool with these settings. *)
Definition holds (s : Cluster) (h : ReloadablePool) (st : PoolSettings) : Prop :=
  ∃ pool, pools_cells (pools_of s) !! h = Some pool ∧
    pools_opened (pools_of s) !! pool = Some st.

Lemma holds_grow s s' h st : handles_grow s s' → holds s h st → holds s' h st.
Proof.
  intros [_ Hc Ho _] (pool & Hcell & Hopen). exists pool.
  split; by eapply prefix_lookup_Some.
Qed.

(** The worker for the pool of a lease with this expiry. *)
Definition lease_worker (ctx : PoolContext) (b : BrokerCredentialConfig) (h : ReloadablePool)
    (expiry : option DateTime) : BrokerLeaseWorker := {|
  blw_pool := h;
  blw_credential := b;
  blw_application_name := pc_application_name ctx;
  blw_pool_label := pc_pool_label ctx;
  blw_max_connections := pc_max_connections ctx;
  blw_min_connections := pc_min_connections ctx;
  blw_connect_timeout_seconds := pc_connect_timeout_seconds ctx;
  blw_idle_timeout_seconds := pc_idle_timeout_seconds ctx;
  blw_next_expiry := expiry |}.

(** The handle of an authentication configuration and the worker that goes with
    it: none for a static URL, and for a broker lease one with its expiry. *)
Definition served (env : Env) (auth : NativeAuthConfig) (ctx : PoolContext) (s : Cluster)
    (h : ReloadablePool) (worker : option BrokerLeaseWorker) : Prop :=
  match auth with
  | StaticUrl url => worker = None ∧ ∃ st, holds s h st ∧ sized ctx st ∧
      static_options env url (pc_application_name ctx) = Ok (pset_options st)
  | Broker b => ∃ t bk l st, issues b (pc_application_name ctx) t bk l ∧
      holds s h st ∧ opened_for ctx l st ∧
      worker = Some (lease_worker ctx b h (pcl_expires_at l))
  end.

Lemma served_impl env auth ctx s s' h w : (∀ st, holds s h st → holds s' h st) →
  served env auth ctx s h w → served env auth ctx s' h w.
Proof. intros Hh. destruct auth as [url|b]; cbn; naive_solver. Qed.

Definition init_ok (env : Env) (auth : NativeAuthConfig) (ctx : PoolContext) (s : Cluster)
    (i : PoolInit) : Prop := served env auth ctx s (pi_pool i) (pi_worker i).

Lemma open_cell_run o a b c d (k : nat → PoolInit) s r s' :
  (pool ← instantiate_pool o a b c d; cell ← reloadable_new pool; mret (k cell)) s = (r, s') →
  handles_grow s s' ∧
  (∀ i, r = Ok i → ∃ h, i = k h ∧ holds s' h (Build_PoolSettings o a b c d)).
Proof.
  intros E1. unfold mbind at 1, eff_bind at 1 in E1.
  destruct (instantiate_pool o a b c d s) as [[n|e] s1] eqn:Ei;
    apply instantiate_cases in Ei as (_ & _ & Esp & [[[? ?] El]|([= ->] & El)]); try done.
  2:{ injection E1 as <- <-. split; [by apply same_log_handles|done]. }
  injection E1 as <- <-.
  set (n := length (pools_opened (pools_of s))) in *. set (st := Build_PoolSettings _ _ _ _ _) in *.
  assert (cl_log s1 ++ [CellCreated n] = cl_log s ++ [Opened st; CellCreated n]) as El2
    by by rewrite El, <-app_assoc.
  assert (replay (cl_log s1 ++ [CellCreated n]) = {|
    pools_opened := pools_opened (pools_of s) ++ [st];
    pools_cells := pools_cells (pools_of s) ++ [n];
    pools_closed := pools_closed (pools_of s) |}) as Er.
  { rewrite El2. change [Opened st; CellCreated n] with ([Opened st] ++ [CellCreated n]).
    rewrite app_assoc, !replay_snoc. done. }
  assert (pools_cells (pools_of s1) = pools_cells (pools_of s)) as Ec
    by (unfold pools_of; by rewrite El, replay_snoc).
  set (s2 := snd (log_event (E := DatabaseError) (CellCreated n) s1)).
  change (pools_of s2 = {| pools_opened := pools_opened (pools_of s) ++ [st];
    pools_cells := pools_cells (pools_of s) ++ [n];
    pools_closed := pools_closed (pools_of s) |}) in Er.
  split.
  - change (handles_grow s s2). split; [|rewrite Er; by apply prefix_app_r..|done].
    change (log_safe (cl_log s) → log_safe (cl_log s1 ++ [CellCreated n])).
    rewrite El2. by apply new_cell_safe.
  - intros i [= <-]. exists (length (pools_cells (pools_of s))). split; [by rewrite Ec|].
    change (holds s2 (length (pools_cells (pools_of s))) st). exists n. rewrite Er. cbn. unfold n. by rewrite !list_lookup_middle.
Qed.
Lemma same_pools_handles s s' : same_pools s s' → handles_grow s s'.
Proof. intros (El & _ & _ & Es). by apply same_log_handles. Qed.
Lemma on_world_handles {E A} (m : eff World E A) : preserves handles_grow (on_world m).
Proof. intros s. apply same_pools_handles, on_world_same. Qed.
Lemma obtain_handles c n : preserves handles_grow (obtain_broker_lease c n).
Proof. intros s. apply same_pools_handles, obtain_same. Qed.
Lemma metrics_handles e l : preserves handles_grow (record_lease_metrics e l).
Proof. intros s. apply same_pools_handles, record_metrics_same. Qed.
Lemma load_handles n : preserves handles_grow (load n).
Proof. intros s. by apply same_log_handles. Qed.
Lemma ext_execute_handles {A} n (q : ExtDb → result SqlError (A * ExtDb)) :
  preserves handles_grow (ext_execute n q).
Proof.
  intros s. unfold ext_execute.
  by destruct (sql_fault _) as [[m|m]|], (q (ext_of n s)) as [[a x]|e]; apply same_log_handles.
Qed.
Lemma migrate_handles n : preserves handles_grow (migrate n).
Proof. intros s. unfold migrate. by destruct (migrator_run _); apply same_log_handles. Qed.
#[local] Hint Resolve on_world_handles obtain_handles metrics_handles load_handles
  ext_execute_handles migrate_handles : sdb.

Lemma check_handles f env n k :
  preserves handles_grow (run_migrations env n;; ensure_postgres_extensions f env n k).
Proof.
  unfold run_migrations, ensure_postgres_extensions, ensure_timescaledb, ensure_citus, when,
    enforce_extension_allowlist, create_extension, upsert_extension_allowlist, select_function.
  solve_preserves.
Qed.

(** What comes before keeps the handles; what comes last decides. *)
Lemma bind_handles {A} (Q : Cluster → PoolInit → Prop) (m : C A) (k : A → C PoolInit) s r s' :
  preserves handles_grow m →
  (∀ a s1, m s = (Ok a, s1) → ∀ r s', k a s1 = (r, s') →
     handles_grow s1 s' ∧ (∀ i, r = Ok i → Q s' i)) →
  (m ≫= k) s = (r, s') → handles_grow s s' ∧ (∀ i, r = Ok i → Q s' i).
Proof.
  intros Hm Hk E1. unfold mbind, eff_bind in E1. specialize (Hm s).
  destruct (m s) as [[a|e] s1]; cbn in Hm.
  - destruct (Hk a s1 eq_refl _ _ E1) as [Hg Hi]. split; [by etrans|done].
  - injection E1 as <- <-. done.
Qed.

Lemma create_pool_handles env c auth ctx s r s' : create_pool env c auth ctx s = (r, s') →
  handles_grow s s' ∧ (∀ i, r = Ok i → init_ok env auth ctx s' i).
Proof.
  destruct auth as [url|b]; unfold create_pool.
  - apply (bind_handles (init_ok env _ ctx)); [solve_preserves|].
    intros o s1 [Ho _]%lift_Ok r1 s1' [Hg Hi]%open_cell_run. split; [done|].
    intros i (h & -> & Hh)%Hi. split; [done|]. eexists. by split.
  - apply (bind_handles (init_ok env _ ctx)); [solve_preserves|]. intros [] s1 _ r1 s1'.
    apply bind_handles; [solve_preserves|]. intros l s2 [Hl _]%obtain_Ok r2 s2'.
    apply bind_handles; [solve_preserves|]. intros [] s3 _ r3 s3'.
    apply bind_handles; [solve_preserves|]. intros o s4 [Ho%lease_options _]%lift_Ok r4 s4'.
    intros [Hg Hi]%(open_cell_run _ _ _ _ _ (λ cell, Build_PoolInit cell (Some _))).
    split; [done|]. intros i (h & -> & Hh)%Hi. by eexists _, _, l, _.
Qed.

Lemma prepared_pool_handles f env c auth ctx k s i s' :
  prepared_pool f env c auth ctx k s = (Ok i, s') →
  handles_grow s s' ∧ init_ok env auth ctx s' i.
Proof.
  unfold prepared_pool. intros (init & s1 & [Hg Hi]%create_pool_handles & E1)%eff_bind_Ok.
  specialize (Hi _ eq_refl).
  apply eff_bind_Ok in E1 as (pool & s2 & [= <- <-] & E1).
  assert (handles_grow s1 s' ∧ i = init) as [Hg2 ->].
  { apply eff_bind_Ok in E1 as ([] & s3 & Em & E1).
    apply eff_bind_Ok in E1 as ([] & s4 & Ex & [= <- <-]).
    split; [|done]. pose proof (check_handles f env (default 0%nat
      (pools_cells (pools_of s1) !! pi_pool init)) k s1) as Hc.
    unfold mbind, eff_bind in Hc. rewrite Em, Ex in Hc. done. }
  split; [by etrans|]. eapply served_impl; [|exact Hi]. intros st. by apply holds_grow.
Qed.

(** A worker is spawned exactly if its lease expires. *)
Definition spawned (w : option BrokerLeaseWorker) : list BrokerLeaseWorker :=
  match w with
  | Some worker => match blw_next_expiry worker with Some _ => [worker] | None => [] end
  | None => []
  end.

Lemma spawn_opt_run w s s' : spawn_opt w s = (Ok (), s') →
  cl_log s' = cl_log s ∧ cl_spawned s' = cl_spawned s ++ spawned w.
Proof.
  unfold spawn_opt, spawn, spawned.
  destruct w as [w|]; [destruct (blw_next_expiry w)|]; intros [= <-]; by rewrite ?app_nil_r.
Qed.

(** C34. A connection that is established is ready. No pool of the process was
    closed or moved unsafely on the way, so that every handle holds an open pool.
    Each handle holds the pool its configuration asks for: one opened with the
    static URL, or with the server and credentials of a lease the broker issued.
    Without a secrets configuration both handles are the same cell. The workers
    that were spawned are exactly one for each of these leases that expires: it
    has the handle of the lease's pool, that lease's expiry, and the settings the
    pool was opened with. *)
Theorem connect_ready f env c cfg s pg s' : log_safe (cl_log s) →
  connect_postgres f env c cfg s = (Ok pg, s') →
  log_safe (cl_log s') ∧
  ∃ w_data w_secrets, cl_spawned s' = cl_spawned s ++ spawned w_data ++ spawned w_secrets ∧
    served env (nc_data_auth cfg) (pool_context cfg "data") s' (pg_data pg) w_data ∧
    match nc_secrets_auth cfg with
    | Some auth => served env auth (pool_context cfg "secrets") s' (pg_secrets pg) w_secrets
    | None => pg_secrets pg = pg_data pg ∧ w_secrets = None
    end.
Proof.
  intros Hs. unfold connect_postgres.
  intros (data & s1 & [Hg1 Hd1]%prepared_pool_handles & E1)%eff_bind_Ok.
  apply eff_bind_Ok in E1 as (sec & s2 & E2 & E1).
  apply eff_bind_Ok in E1 as ([] & s3 & [El3 Hw3]%spawn_opt_run & E1).
  apply eff_bind_Ok in E1 as ([] & s4 & [El4 Hw4]%spawn_opt_run & [= <- <-]).
  assert (handles_grow s1 s2 ∧ match nc_secrets_auth cfg with
    | Some auth => init_ok env auth (pool_context cfg "secrets") s2 sec
    | None => sec = Build_PoolInit (pi_pool data) None
    end) as [Hg2 Hsec].
  { destruct (nc_secrets_auth cfg) as [auth|]; [by apply prepared_pool_handles in E2|].
    by injection E2 as <- <-. }
  assert (∀ h st, holds s2 h st → holds s4 h st) as H24
    by (intros h st; unfold holds, pools_of; by rewrite El4, El3).
  split; [rewrite El4, El3; by apply (hg_safe _ _ Hg2), (hg_safe _ _ Hg1)|].
  exists (pi_worker data), (pi_worker sec). split; [|split].
  - by rewrite Hw4, Hw3, (hg_spawned _ _ Hg2), (hg_spawned _ _ Hg1), app_assoc.
  - eapply served_impl; [|exact Hd1]. intros st Hh. by apply H24, (holds_grow s1).
  - destruct (nc_secrets_auth cfg); [eapply served_impl; [|exact Hsec]; auto|by subst].
Qed.
End props.
End ConnectProps.

(** ** A data pool with two features *)
Section concrete.
Import Ref SecretBrokerClient Config Pool PgRef PoolProps ConnectProps.

Definition ex_features : Features := {|
  feature_pgaudit := true; feature_pg_stat_statements := false; feature_timescaledb := false;
  feature_citus := true |}.
Definition ex_ext : ExtDb := {|
  ed_allowlist := {["plpgsql"]}; ed_installed := ["plpgsql"];
  ed_available := {["pgaudit"; "citus"]} |}.
Definition ex_native : NativeConfig := {|
  nc_data_auth := Broker ex_credential; nc_secrets_auth := None;
  nc_max_connections := 20; nc_min_connections := 5; nc_connect_timeout_seconds := 10;
  nc_idle_timeout_seconds := 300; nc_application_name := "app" |}.
Definition ex_empty : Cluster :=
  mk_cluster (mk_world 4 empty_tables (0%N, ∅) []) [] [] [] {["postgres://broker" := ex_ext]} [].

Lemma connect_ready_witness :
  let s' := snd (connect_postgres ex_features ∅ (mret ()) ex_native ex_empty) in
  is_ok (fst (connect_postgres ex_features ∅ (mret ()) ex_native ex_empty)) = true ∧
  log_safe (cl_log s') ∧ length (cl_spawned s') = 1%nat.
Proof.
  cbn zeta. split; [vm_compute; reflexivity|]. split; [|vm_compute; reflexivity].
  eapply (connect_ready ex_features ∅ (mret ()) ex_native ex_empty
    (unwrap_or (Build_PgPool 0 0) (fst (connect_postgres ex_features ∅ (mret ()) ex_native ex_empty)))).
  - intros past future E. symmetry in E. apply app_eq_nil in E as [-> _].
    split; cbn; try apply NoDup_nil_2; by intros i ?%elem_of_nil.
  - apply run_eta. vm_compute. reflexivity.
Defined.

Lemma pools_require_tls_witness : ∃ evs,
  cl_log (snd (connect_native ex_features ex_defaults (mret ()) ex_empty)) = [] ++ evs ∧
  Forall (opened_with (configured_tls ex_defaults)) evs ∧
  length (cl_log (snd (connect_native ex_features ex_defaults (mret ()) ex_empty))) = 2%nat.
Proof.
  destruct (pools_require_tls ex_features ex_defaults (mret ()) 0 ex_worker ex_empty)
    as [(evs & E & Ho) _].
  exists evs. split; [exact E|]. split; [exact Ho|]. vm_compute. reflexivity.
Defined.

Definition ex_checked : result DatabaseError () * Cluster :=
  ensure_postgres_extensions ex_features ∅ 0 Data
    (set_ext 0 ex_ext (ex_cluster 0)).

Lemma extensions_enforced_witness :
  ed_installed (ext_of 0 (snd ex_checked)) = ["plpgsql"; "pgaudit"; "citus"] ∧
  "citus" ∈ ed_allowlist (ext_of 0 (snd ex_checked)).
Proof.
  destruct (extensions_enforced ex_features ∅ 0 Data (set_ext 0 ex_ext (ex_cluster 0))
    (snd ex_checked)) as [E [Hf|Ha]].
  - apply (run_fst ex_checked (Ok ())). vm_compute. reflexivity.
  - exfalso. vm_compute in Hf. discriminate Hf.
  - assert (ed_installed (ext_of 0 (snd ex_checked)) = ["plpgsql"; "pgaudit"; "citus"]) as Ei
      by (vm_compute; reflexivity).
    split; [exact Ei|]. apply Ha. rewrite Ei.
    do 2 apply list_elem_of_further. apply list_elem_of_here.
Defined.
End concrete.
