(* ===== verification/Zk.v ===== *)
(** * Zero-knowledge proofs (src/zk.rs; the two proof methods of src/lib.rs)

    Commitments, circuits, provers, the checks of a stored proof, and the
    [PgPool] methods that store and verify proofs. The proof system itself is
    the interface [Halo2]; the circuits (gates, assigned cells, copy
    constraints) are the source's. *)
From S2P Require Import Prelude RustStd Platform World Sql.

Module Zk.
Definition PROTOCOL_ID : string := "halo2-scalar-equality-v1".
Definition CIRCUIT_ID_SCALAR : string := "scalar_equality".
Definition CIRCUIT_ID_RELAY_AUDIT : string := "relay_audit_v1".
Definition CIRCUIT_ID_LOG_INTEGRITY : string := "log_chain_integrity_v1".
Definition CIRCUIT_ID_EXECUTION : string := "execution_attestation_v1".
Definition DEFAULT_ZK_SECURITY : N := 14.

Section data.
Context `{UuidApi, JsonApi}.

Record ZkProofBundle := {
  zb_proof_id : Uuid;
  zb_user_id : Uuid;
  zb_protocol : string;
  zb_circuit : string;
  zb_circuit_security : N;
  zb_expected_hash : string;
  zb_public_inputs : JsonValue;
  zb_proof : bytes;
  zb_created_at : DateTime;
}.

Inductive ZkVerificationContext :=
  | ScalarDigest (expected_digest : bytes)
  | RelayAudit (expected_commitment : bytes) (guard_count exit_count : N)
  | LogIntegrity (expected_commitment : bytes) (sequence_number : N)
  | Execution (expected_commitment : bytes).

Record ZkProofVerification := {
  zv_proof_id : Uuid;
  zv_user_id : Uuid;
  zv_context : ZkVerificationContext;
}.

Definition scalar_digest (proof_id user_id : Uuid) (expected_digest : bytes) :
    ZkProofVerification :=
  {| zv_proof_id := proof_id; zv_user_id := user_id;
     zv_context := ScalarDigest expected_digest |}.
Definition relay_audit (proof_id user_id : Uuid) (expected_commitment : bytes)
    (guard_count exit_count : N) : ZkProofVerification :=
  {| zv_proof_id := proof_id; zv_user_id := user_id;
     zv_context := RelayAudit expected_commitment guard_count exit_count |}.
Definition log_integrity (proof_id user_id : Uuid) (expected_commitment : bytes)
    (sequence_number : N) : ZkProofVerification :=
  {| zv_proof_id := proof_id; zv_user_id := user_id;
     zv_context := LogIntegrity expected_commitment sequence_number |}.
Definition execution (proof_id user_id : Uuid) (expected_commitment : bytes) :
    ZkProofVerification :=
  {| zv_proof_id := proof_id; zv_user_id := user_id;
     zv_context := Execution expected_commitment |}.
End data.

(** ** Circuits *)

Section circuits.
Context `{PastaField}.

(** The circuit structs; [None] is [Value::unknown()]. *)
Inductive ZkCircuit :=
  | ScalarEqualityCircuit (private_value : option Fp)
  | RelayAuditCircuit (consensus_value guard_value exit_value : option Fp)
  | LogIntegrityCircuit (previous_value entry_value : option Fp)
  | ExecutionCircuit (input_value output_value telemetry_value : option Fp).

Definition without_witnesses (c : ZkCircuit) : ZkCircuit :=
  match c with
  | ScalarEqualityCircuit _ => ScalarEqualityCircuit None
  | RelayAuditCircuit _ _ _ => RelayAuditCircuit None None None
  | LogIntegrityCircuit _ _ => LogIntegrityCircuit None None
  | ExecutionCircuit _ _ _ => ExecutionCircuit None None None
  end.

(** [configure] of each circuit: the polynomials of its gate at one row, from the
    advice and the instance cells of that row. The gates have no selector. *)
Definition scalar_equality_gate (v e : Fp) : list Fp := [fp_sub v e].
Definition relay_audit_gate (consensus_v guard_v exit_v expected_v guard_public_v exit_public_v : Fp) :
    list Fp :=
  [fp_sub guard_v guard_public_v;
   fp_sub exit_v exit_public_v;
   fp_sub (fp_add (fp_add consensus_v guard_v) exit_v) expected_v].
Definition log_integrity_gate (previous_v entry_v expected_v sequence_v : Fp) : list Fp :=
  [fp_sub (fp_add (fp_mul entry_v sequence_v) previous_v) expected_v].
Definition execution_gate (input_v output_v telemetry_v expected_v : Fp) : list Fp :=
  [fp_sub (fp_add (fp_add input_v output_v) telemetry_v) expected_v].

Definition gate (c : ZkCircuit) (advice instance : list Fp) : list Fp :=
  match c, advice, instance with
  | ScalarEqualityCircuit _, [v], [e] => scalar_equality_gate v e
  | RelayAuditCircuit _ _ _, [consensus_v; guard_v; exit_v],
      [expected_v; guard_public_v; exit_public_v] =>
      relay_audit_gate consensus_v guard_v exit_v expected_v guard_public_v exit_public_v
  | LogIntegrityCircuit _ _, [previous_v; entry_v], [expected_v; sequence_v] =>
      log_integrity_gate previous_v entry_v expected_v sequence_v
  | ExecutionCircuit _ _ _, [input_v; output_v; telemetry_v], [expected_v] =>
      execution_gate input_v output_v telemetry_v expected_v
  | _, _, _ => []
  end.

Definition instance_columns (c : ZkCircuit) : nat :=
  match c with
  | ScalarEqualityCircuit _ => 1
  | RelayAuditCircuit _ _ _ => 3
  | LogIntegrityCircuit _ _ => 2
  | ExecutionCircuit _ _ _ => 1
  end.

(** [synthesize] of each circuit: the advice cells of row 0; the other rows are not
    assigned. An unknown value cannot be assigned by a prover. *)
Definition synthesize_scalar (private_value : option Fp) : option (list Fp) :=
  v ← private_value; Some [v].
Definition synthesize_relay (consensus_value guard_value exit_value : option Fp) :
    option (list Fp) :=
  a ← consensus_value; b ← guard_value; c ← exit_value; Some [a; b; c].
Definition synthesize_log (previous_value entry_value : option Fp) : option (list Fp) :=
  a ← previous_value; b ← entry_value; Some [a; b].
Definition synthesize_execution (input_value output_value telemetry_value : option Fp) :
    option (list Fp) :=
  a ← input_value; b ← output_value; c ← telemetry_value; Some [a; b; c].

Definition synthesize (c : ZkCircuit) : option (list Fp) :=
  match c with
  | ScalarEqualityCircuit v => synthesize_scalar v
  | RelayAuditCircuit a b c => synthesize_relay a b c
  | LogIntegrityCircuit a b => synthesize_log a b
  | ExecutionCircuit a b c => synthesize_execution a b c
  end.

(** [constrain_instance(cell, instance_col, 0)], in the first circuit only *)
Definition copy_constraint (c : ZkCircuit) (advice instance : list Fp) : Prop :=
  match c with
  | ScalarEqualityCircuit _ => head advice = head instance
  | _ => True
  end.

Definition fp_zero : Fp := fp_from_u64 0.
Definition row (columns : list (list Fp)) (i : nat) : list Fp :=
  (λ col, default fp_zero (col !! i)) <$> columns.

(** What a proof for the circuit of [c] and the public columns [inst] attests:
    some assignment of the advice columns has the cells that [c] assigns in its
    first row; each gate vanishes at every row, since the gates have no
    selector; and the copy constraint holds. What the other rows hold is the
    prover's choice. (halo2's own prover leaves them zero, except for the last
    ones, which it fills with random values to blind the columns.) *)
Definition satisfied (c : ZkCircuit) (inst : list (list Fp)) : Prop :=
  length inst = instance_columns c ∧
  ∃ advice, synthesize c = Some (advice 0) ∧
    (∀ i, length (advice i) = length (advice 0)) ∧
    (∀ i, Forall (λ v, v = fp_zero) (gate c (advice i) (row inst i))) ∧
    copy_constraint c (advice 0) (row inst 0).
End circuits.

(** ** The proof system

    [Params] and the provers' random generator are functions of [k] alone
    (the parameters are cached per [k]); errors are the [Display] texts. *)
Class Halo2 `{PastaField} := {
  VerifyingKey : Type;
  ProvingKey : Type;
  keygen_vk : N → ZkCircuit → result string VerifyingKey;
  keygen_pk : N → VerifyingKey → ZkCircuit → result string ProvingKey;
  create_proof : N → ProvingKey → ZkCircuit → list (list Fp) → result string bytes;
  plonk_verify_proof : N → VerifyingKey → list (list Fp) → bytes → result string ();
}.
Section zk.
Context `{UuidApi, JsonApi, BrokerApi} `{!Host} `{PastaField, !Halo2} `{Digests, Hex}.

(** [impl From<plonk::Error>] *)
Definition from_plonk (err : string) : DatabaseError := ZeroKnowledge err.

Definition normalise_digest (digest : bytes) : bytes :=
  if (length digest =? 32)%nat then digest else sha256 digest.

Definition hash_expected_digest (digest : bytes) : string := hex_encode (sha256 digest).

(** [u64::from_le_bytes] *)
Fixpoint from_le_bytes (b : bytes) : N :=
  match b with
  | [] => 0
  | x :: b' => Byte.to_N x + 256 * from_le_bytes b'
  end.
(** [bytes[i..i+8]] as an integer *)
Definition limb (b : bytes) (i : nat) : N := from_le_bytes (take 8 (drop i b)).

(** [copy_from_slice] panics unless there are 32 bytes; every caller passes a
    normalised digest ([normalise_length]). *)
Definition digest_to_scalar (b : bytes) : DbResult Fp :=
  Ok (fp_from_raw (limb b 0) (limb b 8) (limb b 16) (limb b 24)).

Definition scalar_from_bytes (b : bytes) : DbResult Fp :=
  if negb (length b =? 32)%nat then
    Err (ZeroKnowledge "proof commitment must be 32 bytes")
  else ok_or (fp_from_repr b) (ZeroKnowledge "invalid field encoding").

Definition scalar_to_bytes (scalar : Fp) : bytes := fp_to_repr scalar.

Definition derive_relay_commitment (consensus_digest : bytes) (guard_count exit_count : N) :
    DbResult bytes :=
  consensus ← digest_to_scalar (normalise_digest consensus_digest);
  let guard := fp_from_u64 guard_count in
  let exit := fp_from_u64 exit_count in
  Ok (scalar_to_bytes (fp_add (fp_add consensus guard) exit)).

Definition derive_log_chain_commitment (previous_hash entry_hash : bytes)
    (sequence_number : N) : DbResult bytes :=
  previous ← digest_to_scalar (normalise_digest previous_hash);
  entry ← digest_to_scalar (normalise_digest entry_hash);
  let sequence := fp_from_u64 sequence_number in
  Ok (scalar_to_bytes (fp_add previous (fp_mul entry sequence))).

Definition derive_execution_commitment (input_hash output_hash telemetry_hash : bytes) :
    DbResult bytes :=
  input ← digest_to_scalar (normalise_digest input_hash);
  output ← digest_to_scalar (normalise_digest output_hash);
  telemetry ← digest_to_scalar (normalise_digest telemetry_hash);
  Ok (scalar_to_bytes (fp_add (fp_add input output) telemetry)).

(** *** Provers *)

(** Keys for the circuit without witnesses, then the proof. *)
Definition generate (k : N) (circuit : ZkCircuit) (instance : list (list Fp)) :
    DbResult bytes :=
  vk ← map_err from_plonk (keygen_vk k (without_witnesses circuit));
  pk ← map_err from_plonk (keygen_pk k vk (without_witnesses circuit));
  map_err from_plonk (create_proof k pk circuit instance).

Definition bundle_of (k : N) (user_id : Uuid) (circuit expected_hash : string)
    (public_inputs : JsonValue) (proof : bytes) : M ZkProofBundle :=
  proof_id ← uuid_new_v4;
  created_at ← utc_now;
  mret {| zb_proof_id := proof_id; zb_user_id := user_id; zb_protocol := PROTOCOL_ID;
          zb_circuit := circuit; zb_circuit_security := k;
          zb_expected_hash := expected_hash; zb_public_inputs := public_inputs;
          zb_proof := proof; zb_created_at := created_at |}.

Definition prove_digest_equality (k : N) (user_id : Uuid)
    (private_digest expected_digest : bytes) : M ZkProofBundle :=
  let private := normalise_digest private_digest in
  let expected := normalise_digest expected_digest in
  let expected_hash := hash_expected_digest expected in
  private_scalar ← lift (digest_to_scalar private);
  expected_scalar ← lift (digest_to_scalar expected);
  proof ← lift (generate k (ScalarEqualityCircuit (Some private_scalar)) [[expected_scalar]]);
  bundle_of k user_id CIRCUIT_ID_SCALAR expected_hash
    (json_object [("expected_digest", json_str (hex_encode expected))]) proof.

Definition prove_relay_audit (k : N) (user_id : Uuid) (consensus_digest : bytes)
    (guard_count exit_count : N) : M ZkProofBundle :=
  let consensus_normalised := normalise_digest consensus_digest in
  consensus_scalar ← lift (digest_to_scalar consensus_normalised);
  let guard_scalar := fp_from_u64 guard_count in
  let exit_scalar := fp_from_u64 exit_count in
  commitment_bytes ← lift (derive_relay_commitment consensus_digest guard_count exit_count);
  expected_scalar ← lift (scalar_from_bytes commitment_bytes);
  let expected_hash := hash_expected_digest commitment_bytes in
  proof ← lift (generate k
    (RelayAuditCircuit (Some consensus_scalar) (Some guard_scalar) (Some exit_scalar))
    [[expected_scalar]; [guard_scalar]; [exit_scalar]]);
  bundle_of k user_id CIRCUIT_ID_RELAY_AUDIT expected_hash
    (json_object [("guard_count", json_u64 guard_count); ("exit_count", json_u64 exit_count);
                  ("commitment", json_str (hex_encode commitment_bytes))]) proof.

Definition prove_log_chain_integrity (k : N) (user_id : Uuid)
    (previous_hash entry_hash : bytes) (sequence_number : N) : M ZkProofBundle :=
  let previous := normalise_digest previous_hash in
  let entry := normalise_digest entry_hash in
  previous_scalar ← lift (digest_to_scalar previous);
  entry_scalar ← lift (digest_to_scalar entry);
  let sequence_scalar := fp_from_u64 sequence_number in
  commitment_bytes ← lift (derive_log_chain_commitment previous_hash entry_hash sequence_number);
  expected_scalar ← lift (scalar_from_bytes commitment_bytes);
  let expected_hash := hash_expected_digest commitment_bytes in
  proof ← lift (generate k
    (LogIntegrityCircuit (Some previous_scalar) (Some entry_scalar))
    [[expected_scalar]; [sequence_scalar]]);
  bundle_of k user_id CIRCUIT_ID_LOG_INTEGRITY expected_hash
    (json_object [("sequence", json_u64 sequence_number);
                  ("commitment", json_str (hex_encode commitment_bytes));
                  ("previous_hash", json_str (hex_encode previous));
                  ("entry_hash", json_str (hex_encode entry))]) proof.

Definition prove_execution_attestation (k : N) (user_id : Uuid)
    (input_hash output_hash telemetry_hash : bytes) : M ZkProofBundle :=
  let input := normalise_digest input_hash in
  let output := normalise_digest output_hash in
  let telemetry := normalise_digest telemetry_hash in
  input_scalar ← lift (digest_to_scalar input);
  output_scalar ← lift (digest_to_scalar output);
  telemetry_scalar ← lift (digest_to_scalar telemetry);
  commitment_bytes ← lift (derive_execution_commitment input_hash output_hash telemetry_hash);
  expected_scalar ← lift (scalar_from_bytes commitment_bytes);
  let expected_hash := hash_expected_digest commitment_bytes in
  proof ← lift (generate k
    (ExecutionCircuit (Some input_scalar) (Some output_scalar) (Some telemetry_scalar))
    [[expected_scalar]]);
  bundle_of k user_id CIRCUIT_ID_EXECUTION expected_hash
    (json_object [("commitment", json_str (hex_encode commitment_bytes));
                  ("input_hash", json_str (hex_encode input));
                  ("output_hash", json_str (hex_encode output));
                  ("telemetry_hash", json_str (hex_encode telemetry))]) proof.

(** *** Verification *)

Definition ensure_protocol (bundle : ZkProofBundle) : DbResult () :=
  if bool_decide (zb_protocol bundle = PROTOCOL_ID) then Ok ()
  else Err (ZeroKnowledge ("unsupported protocol '" +:+ zb_protocol bundle +:+
                           "': expected " +:+ PROTOCOL_ID)).

Definition ensure_circuit (bundle : ZkProofBundle) (expected : string) : DbResult () :=
  if bool_decide (zb_circuit bundle = expected) then Ok ()
  else Err (ZeroKnowledge ("unexpected circuit '" +:+ zb_circuit bundle +:+
                           "', expected " +:+ expected)).

Definition ensure_expected_hash (bundle : ZkProofBundle) (expected_bytes : bytes) : DbResult () :=
  if bool_decide (zb_expected_hash bundle = hash_expected_digest expected_bytes) then Ok ()
  else Err (Integrity "expected commitment does not match stored hash").

(** [inputs.as_object().ok_or(err)?.get(key).and_then(f)] *)
Definition ensure_object (inputs : JsonValue) (err : string) : DbResult () :=
  if json_is_object inputs then Ok () else Err (ZeroKnowledge err).
Definition required_field {A} (inputs : JsonValue) (key : string)
    (f : JsonValue → option A) (err : string) : DbResult A :=
  ok_or (json_get inputs key ≫= f) (ZeroKnowledge err).

Definition ensure_relay_inputs (inputs : JsonValue) (guard_count exit_count : N)
    (expected_commitment : bytes) : DbResult () :=
  ensure_object inputs "relay proof missing public inputs";;
  guard ← required_field inputs "guard_count" json_as_u64 "relay proof missing guard_count";
  exit ← required_field inputs "exit_count" json_as_u64 "relay proof missing exit_count";
  commitment_hex ← required_field inputs "commitment" json_as_str
                     "relay proof missing commitment";
  if negb (guard =? guard_count)%N || negb (exit =? exit_count)%N then
    Err (Integrity "relay proof public counts do not match verification context")
  else if negb (bool_decide (hex_encode expected_commitment = commitment_hex)) then
    Err (Integrity "relay proof commitment mismatch")
  else Ok ().

Definition ensure_log_inputs (inputs : JsonValue) (sequence_number : N)
    (expected_commitment : bytes) : DbResult () :=
  ensure_object inputs "log proof missing public inputs";;
  sequence ← required_field inputs "sequence" json_as_u64 "log proof missing sequence";
  commitment_hex ← required_field inputs "commitment" json_as_str
                     "log proof missing commitment";
  if negb (sequence =? sequence_number)%N then
    Err (Integrity "log proof sequence does not match verification context")
  else if negb (bool_decide (hex_encode expected_commitment = commitment_hex)) then
    Err (Integrity "log proof commitment mismatch")
  else Ok ().

Definition ensure_execution_inputs (inputs : JsonValue) (expected_commitment : bytes) :
    DbResult () :=
  ensure_object inputs "execution proof missing public inputs";;
  commitment_hex ← required_field inputs "commitment" json_as_str
                     "execution proof missing commitment";
  if negb (bool_decide (hex_encode expected_commitment = commitment_hex)) then
    Err (Integrity "execution proof commitment mismatch")
  else Ok ().

Definition verify_scalar_equality (bundle : ZkProofBundle) (expected_digest : bytes) :
    DbResult () :=
  if negb (bool_decide (zb_protocol bundle = PROTOCOL_ID))
     || negb (bool_decide (zb_circuit bundle = CIRCUIT_ID_SCALAR)) then
    Err (ZeroKnowledge "unsupported proof bundle")
  else
    let expected := normalise_digest expected_digest in
    let expected_hash := hash_expected_digest expected in
    if negb (bool_decide (zb_expected_hash bundle = expected_hash)) then
      Err (Integrity "expected digest does not match stored commitment")
    else
      let k := zb_circuit_security bundle in
      vk ← map_err from_plonk (keygen_vk k (ScalarEqualityCircuit None));
      expected_scalar ← digest_to_scalar expected;
      map_err from_plonk (plonk_verify_proof k vk [[expected_scalar]] (zb_proof bundle)).

Definition verify_relay_audit (bundle : ZkProofBundle) (expected_commitment : bytes)
    (guard_count exit_count : N) : DbResult () :=
  ensure_circuit bundle CIRCUIT_ID_RELAY_AUDIT;;
  ensure_expected_hash bundle expected_commitment;;
  ensure_relay_inputs (zb_public_inputs bundle) guard_count exit_count expected_commitment;;
  let k := zb_circuit_security bundle in
  vk ← map_err from_plonk (keygen_vk k (RelayAuditCircuit None None None));
  expected_scalar ← scalar_from_bytes expected_commitment;
  let guard_scalar := fp_from_u64 guard_count in
  let exit_scalar := fp_from_u64 exit_count in
  map_err from_plonk (plonk_verify_proof k vk
    [[expected_scalar]; [guard_scalar]; [exit_scalar]] (zb_proof bundle)).

Definition verify_log_integrity (bundle : ZkProofBundle) (expected_commitment : bytes)
    (sequence_number : N) : DbResult () :=
  ensure_circuit bundle CIRCUIT_ID_LOG_INTEGRITY;;
  ensure_expected_hash bundle expected_commitment;;
  ensure_log_inputs (zb_public_inputs bundle) sequence_number expected_commitment;;
  let k := zb_circuit_security bundle in
  vk ← map_err from_plonk (keygen_vk k (LogIntegrityCircuit None None));
  expected_scalar ← scalar_from_bytes expected_commitment;
  let sequence_scalar := fp_from_u64 sequence_number in
  map_err from_plonk (plonk_verify_proof k vk
    [[expected_scalar]; [sequence_scalar]] (zb_proof bundle)).

Definition verify_execution_attestation (bundle : ZkProofBundle)
    (expected_commitment : bytes) : DbResult () :=
  ensure_circuit bundle CIRCUIT_ID_EXECUTION;;
  ensure_expected_hash bundle expected_commitment;;
  ensure_execution_inputs (zb_public_inputs bundle) expected_commitment;;
  let k := zb_circuit_security bundle in
  vk ← map_err from_plonk (keygen_vk k (ExecutionCircuit None None None));
  expected_scalar ← scalar_from_bytes expected_commitment;
  map_err from_plonk (plonk_verify_proof k vk [[expected_scalar]] (zb_proof bundle)).

Definition verify_proof (bundle : ZkProofBundle) (context : ZkVerificationContext) :
    DbResult () :=
  ensure_protocol bundle;;
  match context with
  | ScalarDigest expected_digest =>
      ensure_circuit bundle CIRCUIT_ID_SCALAR;;
      ensure_expected_hash bundle expected_digest;;
      verify_scalar_equality bundle expected_digest
  | RelayAudit expected_commitment guard_count exit_count =>
      verify_relay_audit bundle expected_commitment guard_count exit_count
  | LogIntegrity expected_commitment sequence_number =>
      verify_log_integrity bundle expected_commitment sequence_number
  | Execution expected_commitment =>
      verify_execution_attestation bundle expected_commitment
  end.

(** ** [PgPool::store_zk_proof] and [PgPool::verify_zk_proof] *)

(** [INSERT ... ON CONFLICT (id, user_id) DO UPDATE SET ...]: the update
    leaves the protocol and the circuit of the old row. The public inputs go
    through a [JSONB] column. *)
Definition with_public_inputs (v : JsonValue) (r : ZkProofRow) : ZkProofRow := {|
  zr_protocol := zr_protocol r; zr_circuit := zr_circuit r;
  zr_circuit_security := zr_circuit_security r; zr_expected_hash := zr_expected_hash r;
  zr_public_inputs := v; zr_proof := zr_proof r; zr_created_at := zr_created_at r;
  zr_verified := zr_verified r; zr_verified_at := zr_verified_at r |}.
Definition upsert_proof (id user_id : Uuid) (r : ZkProofRow) : stmt () := λ now d,
  v ← jsonb_column (zr_public_inputs r);
  Ok ((), set_zk_proofs (<[(id, user_id) :=
    match t_zk_proofs d !! (id, user_id) with
    | None => with_public_inputs v r
    | Some old => {|
        zr_protocol := zr_protocol old; zr_circuit := zr_circuit old;
        zr_circuit_security := zr_circuit_security r;
        zr_expected_hash := zr_expected_hash r; zr_public_inputs := v;
        zr_proof := zr_proof r; zr_created_at := zr_created_at r;
        zr_verified := false; zr_verified_at := None |}
    end]> (t_zk_proofs d)) d).

Definition store_zk_proof (bundle : ZkProofBundle) : M () :=
  execute (upsert_proof (zb_proof_id bundle) (zb_user_id bundle) {|
    zr_protocol := zb_protocol bundle;
    zr_circuit := zb_circuit bundle;
    zr_circuit_security := as_i16 (Z.of_N (zb_circuit_security bundle));
    zr_expected_hash := zb_expected_hash bundle;
    zr_public_inputs := zb_public_inputs bundle;
    zr_proof := zb_proof bundle;
    zr_created_at := to_timestamptz (zb_created_at bundle);
    zr_verified := false;
    zr_verified_at := None |}).

Definition select_proof (id user_id : Uuid) : stmt (option ZkProofRow) := λ now d,
  Ok (t_zk_proofs d !! (id, user_id), d).

Definition set_verified (now : Timestamp) (r : ZkProofRow) : ZkProofRow := {|
  zr_protocol := zr_protocol r; zr_circuit := zr_circuit r;
  zr_circuit_security := zr_circuit_security r; zr_expected_hash := zr_expected_hash r;
  zr_public_inputs := zr_public_inputs r; zr_proof := zr_proof r;
  zr_created_at := zr_created_at r; zr_verified := true; zr_verified_at := Some now |}.

(** [UPDATE ... SET verified = TRUE, verified_at = NOW() WHERE id = $1] *)
Definition mark_verified (id : Uuid) : stmt () := λ now d,
  Ok ((), set_zk_proofs (map_imap (λ k r,
    Some (if decide (k.1 = id) then set_verified now r else r)) (t_zk_proofs d)) d).

(** The bundle that [verify_zk_proof] rebuilds from a row. *)
Definition bundle_from_row (verification : ZkProofVerification) (r : ZkProofRow)
    (now : DateTime) : ZkProofBundle := {|
  zb_proof_id := zv_proof_id verification;
  zb_user_id := zv_user_id verification;
  zb_protocol := zr_protocol r;
  zb_circuit := zr_circuit r;
  zb_circuit_security := Z.to_N (as_u32 (zr_circuit_security r));
  zb_expected_hash := zr_expected_hash r;
  zb_public_inputs := zr_public_inputs r;
  zb_proof := zr_proof r;
  zb_created_at := now |}.

Definition verify_zk_proof (verification : ZkProofVerification) : M bool :=
  found ← execute (select_proof (zv_proof_id verification) (zv_user_id verification));
  r ← lift (ok_or found (Query "proof not found"));
  if zr_verified r then mret true
  else
    now ← utc_now;
    lift (verify_proof (bundle_from_row verification r now) (zv_context verification));;
    execute (mark_verified (zv_proof_id verification));;
    mret true.
End zk.
End Zk.
