(* ===== verification/ZkProps.v ===== *)
(** * Properties of the proofs and of their store

    What the circuits state, completeness of the provers against the verifiers,
    what a successful verification binds, and the verification state machine of
    the table. *)
From S2P Require Import Prelude RustStd Platform World Sql Reference Zk.
Import Zk.

Module ZkProps.
Section field.
Context `{PastaField, !PastaLaws}.

Lemma fp_zero_val : fp_val fp_zero = 0%Z.
Proof. unfold fp_zero. by rewrite fp_val_u64. Qed.

Lemma fp_sub_zero x y : fp_sub x y = fp_zero ↔ x = y.
Proof.
  pose proof (fp_val_range x). pose proof (fp_val_range y). split.
  - intros E. apply (f_equal fp_val) in E. rewrite fp_val_sub, fp_zero_val in E.
    apply fp_val_inj. apply Z.mod_divide in E as [q Hq]; [|done].
    assert (q = 0)%Z by (unfold PALLAS_MODULUS in *; nia). lia.
  - intros ->. apply fp_val_inj. by rewrite fp_val_sub, fp_zero_val, Z.sub_diag.
Qed.

(** Solve a field equation by its residues. *)
Ltac fp_ring :=
  apply fp_val_inj; rewrite ?fp_val_add, ?fp_val_sub, ?fp_val_mul, ?fp_val_add, ?fp_val_sub,
    ?fp_val_mul; rewrite ?Z.add_mod_idemp_l, ?Z.add_mod_idemp_r, ?Zminus_mod_idemp_l,
    ?Zminus_mod_idemp_r, ?Z.mul_mod_idemp_l, ?Z.mul_mod_idemp_r by done; f_equal; lia.

Lemma fp_add_comm x y : fp_add x y = fp_add y x.
Proof. fp_ring. Qed.
Lemma fp_mul_comm x y : fp_mul x y = fp_mul y x.
Proof. fp_ring. Qed.
Lemma fp_add_assoc x y z : fp_add (fp_add x y) z = fp_add x (fp_add y z).
Proof. fp_ring. Qed.
Lemma fp_mul_zero x : fp_mul x fp_zero = fp_zero.
Proof. apply fp_val_inj. by rewrite fp_val_mul, fp_zero_val, Z.mul_0_r. Qed.
Lemma fp_add_zero x : fp_add x fp_zero = x.
Proof.
  apply fp_val_inj. rewrite fp_val_add, fp_zero_val, Z.add_0_r.
  apply Z.mod_small, fp_val_range.
Qed.
Lemma fp_sub_add x y : fp_add (fp_sub x y) y = x.
Proof.
  apply fp_val_inj. rewrite fp_val_add, fp_val_sub, Z.add_mod_idemp_l by done.
  rewrite Z.sub_add. apply Z.mod_small, fp_val_range.
Qed.
Lemma fp_add_cancel x y z : fp_add x y = fp_add x z → y = z.
Proof.
  intros E. rewrite <-(fp_sub_add y z). apply (f_equal fp_val) in E.
  rewrite !fp_val_add in E.
  assert (fp_sub y z = fp_zero) as ->.
  { apply fp_val_inj. rewrite fp_val_sub, fp_zero_val.
    replace (fp_val y - fp_val z)%Z with
      ((fp_val x + fp_val y) - (fp_val x + fp_val z))%Z by lia.
    by rewrite Zminus_mod, E, Z.sub_diag. }
  by rewrite fp_add_comm, fp_add_zero.
Qed.

Lemma scalar_round_trip x : scalar_from_bytes (scalar_to_bytes x) = Ok x.
Proof.
  unfold scalar_from_bytes, scalar_to_bytes. rewrite fp_repr_length. cbn.
  by rewrite fp_from_to_repr.
Qed.

(** ** What the circuits state *)

Ltac gates := cbv [gate scalar_equality_gate relay_audit_gate log_integrity_gate execution_gate] in *;
  cbn in *.

(** A gate vanishes on a row of zeros: the rows the prover does not assign
    satisfy the gates. *)
Lemma gate_zero c advice inst :
  Forall (λ v, v = fp_zero) advice → Forall (λ v, v = fp_zero) inst →
  Forall (λ v, v = fp_zero) (gate c advice inst).
Proof.
  assert (fp_sub fp_zero fp_zero = fp_zero) as Hz by (by apply fp_sub_zero).
  intros Ha Hi. destruct c; gates;
    repeat (case_match; try by constructor); subst;
    repeat match goal with H : Forall _ (_ :: _) |- _ => apply Forall_cons in H as [-> H] end;
    rewrite ?fp_mul_zero, ?fp_add_zero, ?Hz; by repeat constructor.
Qed.

Lemma blank_rows c n (inst : list (list Fp)) i :
  0 < i → Forall (λ col, length col = 1) inst →
  Forall (λ v, v = fp_zero) (gate c (replicate n fp_zero) (row inst i)).
Proof.
  intros Hi Hinst. apply gate_zero; [by apply Forall_replicate|].
  unfold row. apply Forall_fmap. eapply Forall_impl; [done|]. intros col Hc. cbn in *.
  by rewrite lookup_ge_None_2 by lia.
Qed.

(** The first row, and zeros in the others. *)
Lemma satisfied_intro c advice inst :
  length inst = instance_columns c → Forall (λ col, length col = 1) inst →
  synthesize c = Some advice → Forall (λ v, v = fp_zero) (gate c advice (row inst 0)) →
  copy_constraint c advice (row inst 0) → satisfied c inst.
Proof.
  intros Hl Hc Ha Hg Hp. split; [done|].
  exists (λ i, if decide (i = 0) then advice else replicate (length advice) fp_zero).
  split_and!; [done| | |done]; intros i; case_decide; subst; try done.
  - apply length_replicate.
  - apply blank_rows; [lia|done].
Qed.

(** The first row satisfies the gate. *)
Lemma satisfied_gate c inst :
  satisfied c inst → ∃ advice, synthesize c = Some advice ∧
    Forall (λ v, v = fp_zero) (gate c advice (row inst 0)).
Proof. intros (_ & advice & Hs & _ & Hg & _). by exists (advice 0). Qed.

Lemma satisfied_scalar v e : satisfied (ScalarEqualityCircuit (Some v)) [[e]] ↔ v = e.
Proof.
  split.
  - intros (adv & [= <-] & Hg)%satisfied_gate. gates.
    rewrite !Forall_cons, !fp_sub_zero in Hg. naive_solver.
  - intros ->. apply (satisfied_intro _ [e]); try done; [by repeat constructor|].
    gates. rewrite !Forall_cons, !fp_sub_zero. done.
Qed.

Lemma satisfied_relay c g e x gp ep :
  satisfied (RelayAuditCircuit (Some c) (Some g) (Some e)) [[x]; [gp]; [ep]] ↔
  g = gp ∧ e = ep ∧ fp_add (fp_add c g) e = x.
Proof.
  split.
  - intros (adv & [= <-] & Hg)%satisfied_gate. gates.
    rewrite !Forall_cons, !fp_sub_zero in Hg. naive_solver.
  - intros (-> & -> & <-). apply (satisfied_intro _ [c; gp; ep]); try done; [by repeat constructor|].
    gates. rewrite !Forall_cons, !fp_sub_zero. done.
Qed.

Lemma satisfied_log p e x s :
  satisfied (LogIntegrityCircuit (Some p) (Some e)) [[x]; [s]] ↔ fp_add p (fp_mul e s) = x.
Proof.
  rewrite (fp_add_comm p). split.
  - intros (adv & [= <-] & Hg)%satisfied_gate. gates.
    rewrite !Forall_cons, !fp_sub_zero in Hg. naive_solver.
  - intros <-. apply (satisfied_intro _ [p; e]); try done; [by repeat constructor|].
    gates. rewrite !Forall_cons, !fp_sub_zero. done.
Qed.

Lemma satisfied_execution i o t x :
  satisfied (ExecutionCircuit (Some i) (Some o) (Some t)) [[x]] ↔ fp_add (fp_add i o) t = x.
Proof.
  split.
  - intros (adv & [= <-] & Hg)%satisfied_gate. gates.
    rewrite !Forall_cons, !fp_sub_zero in Hg. naive_solver.
  - intros <-. apply (satisfied_intro _ [i; o; t]); try done; [by repeat constructor|].
    gates. rewrite !Forall_cons, !fp_sub_zero. done.
Qed.

(** C38. What the statements of the circuits exclude: nothing. For every public
    commitment, counts and sequence number there are private values that
    satisfy the circuit, so a proof shows that its author knows a
    decomposition of the commitment, not that the commitment was derived from
    a consensus, a log or an execution. *)
Theorem circuits_accept_every_commitment x gp ep s d :
  (∃ c, satisfied (RelayAuditCircuit (Some c) (Some gp) (Some ep)) [[x]; [gp]; [ep]]) ∧
  (∀ entry, ∃ previous, satisfied (LogIntegrityCircuit (Some previous) (Some entry)) [[x]; [s]]) ∧
  (∀ output telemetry, ∃ input,
    satisfied (ExecutionCircuit (Some input) (Some output) (Some telemetry)) [[x]]) ∧
  satisfied (ScalarEqualityCircuit (Some d)) [[d]].
Proof.
  split_and!.
  - exists (fp_sub x (fp_add gp ep)). apply satisfied_relay.
    by rewrite fp_add_assoc, fp_sub_add.
  - intros entry. exists (fp_sub x (fp_mul entry s)). by rewrite satisfied_log, fp_sub_add.
  - intros o t. exists (fp_sub x (fp_add o t)).
    by rewrite satisfied_execution, fp_add_assoc, fp_sub_add.
  - by apply satisfied_scalar.
Qed.
End field.

(** ** Digests and commitments *)

Section commitments.
Context `{PastaField, !PastaLaws} `{Digests, !DigestLaws}.

Lemma normalise_length d : length (normalise_digest d) = 32.
Proof.
  unfold normalise_digest. destruct (length d =? 32)%nat eqn:E; [by apply Nat.eqb_eq|].
  apply sha256_length.
Qed.

Lemma normalise_idem d : normalise_digest (normalise_digest d) = normalise_digest d.
Proof. unfold normalise_digest at 1. by rewrite normalise_length. Qed.

Lemma from_le_bytes_bound b : (from_le_bytes b < 256 ^ N.of_nat (length b))%N.
Proof.
  induction b as [|x b IH]; [done|]. cbn [from_le_bytes length].
  rewrite Nat2N.inj_succ, N.pow_succ_r'. pose proof (byte_to_N_bound x). nia.
Qed.

Lemma limb_bound b i : (limb b i <= u64_max)%N.
Proof.
  unfold limb. pose proof (from_le_bytes_bound (take 8 (drop i b))) as Hb.
  rewrite length_take in Hb.
  assert (256 ^ N.of_nat (8 `min` length (drop i b)) <= 256 ^ 8)%N as Hle
    by (apply N.pow_le_mono_r; lia).
  unfold u64_max. change (256 ^ 8)%N with 18446744073709551616%N in Hle. lia.
Qed.

(** The scalar of a digest: its 32 bytes, little endian, reduced. *)
Definition digest_scalar (d : bytes) : Fp :=
  let b := normalise_digest d in fp_from_raw (limb b 0) (limb b 8) (limb b 16) (limb b 24).

Lemma digest_to_scalar_run d : digest_to_scalar (normalise_digest d) = Ok (digest_scalar d).
Proof. done. Qed.

(** The commitments are the field expressions of the circuits, and they are
    canonical: the bytes decode, with the verifier's own decoder, to the
    expression. What they identify: a relay commitment sees only the sum of the
    two counts, a log commitment with sequence number zero does not see the
    entry, an execution commitment does not see the order of its parts. *)
Theorem commitments_compute d g e p n s i o t :
  (g <= u32_max)%N → (e <= u32_max)%N → (s <= u64_max)%N →
  let relay g e := derive_relay_commitment d g e in
  (relay g e ≫= scalar_from_bytes = Ok
    (fp_add (fp_add (digest_scalar d) (fp_from_u64 g)) (fp_from_u64 e))) ∧
  (derive_log_chain_commitment p n s ≫= scalar_from_bytes = Ok
    (fp_add (digest_scalar p) (fp_mul (digest_scalar n) (fp_from_u64 s)))) ∧
  (derive_execution_commitment i o t ≫= scalar_from_bytes = Ok
    (fp_add (fp_add (digest_scalar i) (digest_scalar o)) (digest_scalar t))) ∧
  (∀ g' e', (g' <= u32_max)%N → (e' <= u32_max)%N →
    relay g e = relay g' e' ↔ (g + e = g' + e')%N) ∧
  (∀ n', derive_log_chain_commitment p n 0 = derive_log_chain_commitment p n' 0) ∧
  derive_execution_commitment i o t = derive_execution_commitment t i o.
Proof.
  intros Hg He Hs relay. unfold relay. split_and!.
  - apply scalar_round_trip.
  - apply scalar_round_trip.
  - apply scalar_round_trip.
  - intros g' e' Hg' He'. unfold derive_relay_commitment.
    cbn [digest_to_scalar mbind result_bind]. unfold u32_max in *.
    assert (∀ a b, (a <= 4294967295)%N → (b <= 4294967295)%N →
      fp_val (fp_add (fp_from_u64 a) (fp_from_u64 b)) = Z.of_N (a + b)) as Hv.
    { intros a b Ha Hb. rewrite fp_val_add, !fp_val_u64 by (unfold u64_max; lia).
      rewrite Z.mod_small; [lia|unfold PALLAS_MODULUS; lia]. }
    rewrite !fp_add_assoc. split.
    + intros [= E]. unfold scalar_to_bytes in E.
      apply (f_equal fp_from_repr) in E. rewrite !fp_from_to_repr in E.
      injection E as E%fp_add_cancel. apply (f_equal fp_val) in E. rewrite !Hv in E by done. lia.
    + intros E. do 3 f_equal. apply fp_val_inj. rewrite !Hv by done. lia.
  - intros n'. unfold derive_log_chain_commitment. cbn [digest_to_scalar mbind result_bind].
    fold fp_zero. by rewrite !fp_mul_zero.
  - unfold derive_execution_commitment. cbn [digest_to_scalar mbind result_bind].
    do 2 f_equal. by rewrite fp_add_comm, fp_add_assoc.
Qed.
End commitments.

(** ** Proofs and their verification *)

Section proofs.
Context `{UuidApi, JsonApi, BrokerApi} `{!Host} `{PastaField, !Halo2} `{Digests, Hex}.

(** *** What a successful verification has checked *)

Lemma ensure_circuit_Ok b c : ensure_circuit b c = Ok () ↔ zb_circuit b = c.
Proof. unfold ensure_circuit. case_bool_decide; naive_solver. Qed.
Lemma ensure_hash_Ok b x :
  ensure_expected_hash b x = Ok () ↔ zb_expected_hash b = hash_expected_digest x.
Proof. unfold ensure_expected_hash. case_bool_decide; naive_solver. Qed.
Lemma ensure_protocol_Ok b : ensure_protocol b = Ok () ↔ zb_protocol b = PROTOCOL_ID.
Proof. unfold ensure_protocol. case_bool_decide; naive_solver. Qed.
Lemma ensure_object_Ok v e : ensure_object v e = Ok () ↔ json_is_object v = true.
Proof. unfold ensure_object. destruct (json_is_object v); naive_solver. Qed.

Lemma required_field_Ok {A} v key (f : JsonValue → option A) e x :
  required_field v key f e = Ok x ↔ json_get v key ≫= f = Some x.
Proof. unfold required_field. apply ok_or_Ok. Qed.

(** A [;;] chain of checks that succeeded. *)
Lemma check_bind_Ok {A} (m : DbResult ()) (k : DbResult A) x :
  (m;; k) = Ok x ↔ m = Ok () ∧ k = Ok x.
Proof. destruct m as [[]|]; naive_solver. Qed.

Lemma relay_inputs_Ok v g e x :
  ensure_relay_inputs v g e x = Ok () ↔
  json_is_object v = true ∧ json_get v "guard_count" ≫= json_as_u64 = Some g ∧
  json_get v "exit_count" ≫= json_as_u64 = Some e ∧
  json_get v "commitment" ≫= json_as_str = Some (hex_encode x).
Proof.
  unfold ensure_relay_inputs. rewrite check_bind_Ok, ensure_object_Ok.
  apply and_iff_compat_l. rewrite result_bind_Ok. setoid_rewrite required_field_Ok.
  setoid_rewrite result_bind_Ok. setoid_rewrite required_field_Ok.
  setoid_rewrite result_bind_Ok. setoid_rewrite required_field_Ok. split.
  - intros (g' & Hg & e' & He & h & Hh & Hc).
    destruct (_ || _) eqn:E; [done|]. apply orb_false_iff in E as [E1 E2].
    apply negb_false_iff, N.eqb_eq in E1 as ->. apply negb_false_iff, N.eqb_eq in E2 as ->.
    case_bool_decide; [|done]. by subst.
  - intros (Hg & He & Hh). exists g. split; [done|]. exists e. split; [done|].
    exists (hex_encode x). split; [done|]. by rewrite !N.eqb_refl, bool_decide_true.
Qed.

Lemma log_inputs_Ok v s x :
  ensure_log_inputs v s x = Ok () ↔
  json_is_object v = true ∧ json_get v "sequence" ≫= json_as_u64 = Some s ∧
  json_get v "commitment" ≫= json_as_str = Some (hex_encode x).
Proof.
  unfold ensure_log_inputs. rewrite check_bind_Ok, ensure_object_Ok.
  apply and_iff_compat_l. rewrite result_bind_Ok. setoid_rewrite required_field_Ok.
  setoid_rewrite result_bind_Ok. setoid_rewrite required_field_Ok. split.
  - intros (s' & Hs & h & Hh & Hc). destruct (negb _) eqn:E; [done|].
    apply negb_false_iff, N.eqb_eq in E as ->. case_bool_decide; [|done]. by subst.
  - intros (Hs & Hh). exists s. split; [done|]. exists (hex_encode x). split; [done|].
    by rewrite N.eqb_refl, bool_decide_true.
Qed.

Lemma execution_inputs_Ok v x :
  ensure_execution_inputs v x = Ok () ↔
  json_is_object v = true ∧ json_get v "commitment" ≫= json_as_str = Some (hex_encode x).
Proof.
  unfold ensure_execution_inputs. rewrite check_bind_Ok, ensure_object_Ok.
  apply and_iff_compat_l. rewrite result_bind_Ok. setoid_rewrite required_field_Ok. split.
  - intros (h & Hh & Hc). case_bool_decide; [|done]. by subst.
  - intros Hh. exists (hex_encode x). split; [done|]. by rewrite bool_decide_true.
Qed.

(** The proof [b] verifies for the circuit [c0] and the public columns [inst]. *)
Definition plonk_accepts (b : ZkProofBundle) (c0 : ZkCircuit) (inst : list (list Fp)) : Prop :=
  ∃ vk, keygen_vk (zb_circuit_security b) c0 = Ok vk ∧
    plonk_verify_proof (zb_circuit_security b) vk inst (zb_proof b) = Ok ().

Lemma plonk_tail_Ok {A} k c0 (x : DbResult A) inst p :
  (vk ← map_err from_plonk (keygen_vk k c0); y ← x;
    map_err from_plonk (plonk_verify_proof k vk (inst y) p)) = Ok () ↔
  ∃ y vk, x = Ok y ∧ keygen_vk k c0 = Ok vk ∧ plonk_verify_proof k vk (inst y) p = Ok ().
Proof.
  rewrite result_bind_Ok. setoid_rewrite map_err_Ok. setoid_rewrite result_bind_Ok.
  setoid_rewrite map_err_Ok. naive_solver.
Qed.

(** The public columns that the verifier computes for a context. *)
Definition context_accepts (b : ZkProofBundle) (ctx : ZkVerificationContext) : Prop :=
  match ctx with
  | ScalarDigest d =>
      zb_circuit b = CIRCUIT_ID_SCALAR ∧
      zb_expected_hash b = hash_expected_digest d ∧
      zb_expected_hash b = hash_expected_digest (normalise_digest d) ∧
      plonk_accepts b (ScalarEqualityCircuit None) [[digest_scalar d]]
  | RelayAudit x g e =>
      zb_circuit b = CIRCUIT_ID_RELAY_AUDIT ∧ zb_expected_hash b = hash_expected_digest x ∧
      json_is_object (zb_public_inputs b) = true ∧
      json_get (zb_public_inputs b) "guard_count" ≫= json_as_u64 = Some g ∧
      json_get (zb_public_inputs b) "exit_count" ≫= json_as_u64 = Some e ∧
      json_get (zb_public_inputs b) "commitment" ≫= json_as_str = Some (hex_encode x) ∧
      ∃ y, scalar_from_bytes x = Ok y ∧
        plonk_accepts b (RelayAuditCircuit None None None)
          [[y]; [fp_from_u64 g]; [fp_from_u64 e]]
  | LogIntegrity x s =>
      zb_circuit b = CIRCUIT_ID_LOG_INTEGRITY ∧ zb_expected_hash b = hash_expected_digest x ∧
      json_is_object (zb_public_inputs b) = true ∧
      json_get (zb_public_inputs b) "sequence" ≫= json_as_u64 = Some s ∧
      json_get (zb_public_inputs b) "commitment" ≫= json_as_str = Some (hex_encode x) ∧
      ∃ y, scalar_from_bytes x = Ok y ∧
        plonk_accepts b (LogIntegrityCircuit None None) [[y]; [fp_from_u64 s]]
  | Execution x =>
      zb_circuit b = CIRCUIT_ID_EXECUTION ∧ zb_expected_hash b = hash_expected_digest x ∧
      json_is_object (zb_public_inputs b) = true ∧
      json_get (zb_public_inputs b) "commitment" ≫= json_as_str = Some (hex_encode x) ∧
      ∃ y, scalar_from_bytes x = Ok y ∧
        plonk_accepts b (ExecutionCircuit None None None) [[y]]
  end.

Lemma scalar_equality_Ok b d :
  verify_scalar_equality b d = Ok () ↔
  zb_protocol b = PROTOCOL_ID ∧ zb_circuit b = CIRCUIT_ID_SCALAR ∧
  zb_expected_hash b = hash_expected_digest (normalise_digest d) ∧
  plonk_accepts b (ScalarEqualityCircuit None) [[digest_scalar d]].
Proof.
  unfold verify_scalar_equality. repeat case_bool_decide; cbn [negb orb]; [|naive_solver..].
  rewrite (plonk_tail_Ok _ _ (digest_to_scalar (normalise_digest d)) (λ y, [[y]])).
  unfold plonk_accepts. rewrite digest_to_scalar_run. naive_solver.
Qed.

Lemma verify_proof_Ok b ctx :
  verify_proof b ctx = Ok () ↔ zb_protocol b = PROTOCOL_ID ∧ context_accepts b ctx.
Proof.
  unfold verify_proof. rewrite check_bind_Ok, ensure_protocol_Ok. unfold plonk_accepts.
  destruct ctx as [d|x g e|x s|x]; cbn [context_accepts].
  - rewrite !check_bind_Ok, ensure_circuit_Ok, ensure_hash_Ok, scalar_equality_Ok.
    naive_solver.
  - unfold verify_relay_audit.
    rewrite !check_bind_Ok, ensure_circuit_Ok, ensure_hash_Ok, relay_inputs_Ok.
    rewrite (plonk_tail_Ok _ _ (scalar_from_bytes x)
      (λ y, [[y]; [fp_from_u64 g]; [fp_from_u64 e]])). unfold plonk_accepts. naive_solver.
  - unfold verify_log_integrity.
    rewrite !check_bind_Ok, ensure_circuit_Ok, ensure_hash_Ok, log_inputs_Ok.
    rewrite (plonk_tail_Ok _ _ (scalar_from_bytes x)
      (λ y, [[y]; [fp_from_u64 s]])). unfold plonk_accepts. naive_solver.
  - unfold verify_execution_attestation.
    rewrite !check_bind_Ok, ensure_circuit_Ok, ensure_hash_Ok, execution_inputs_Ok.
    rewrite (plonk_tail_Ok _ _ (scalar_from_bytes x) (λ y, [[y]])).
    unfold plonk_accepts. naive_solver.
Qed.

(** C13. Verification is a decision procedure for exactly these conditions: the
    protocol identifier, the circuit of the context, the stored hash of the
    expected digest or commitment, the public inputs of the bundle (counts,
    sequence number, commitment in hexadecimal), a canonical 32-byte
    commitment, and acceptance by the proof system for the public columns that
    the verifier computes from the context. *)
Theorem verification_conditions b ctx :
  verify_proof b ctx = Ok () ↔ zb_protocol b = PROTOCOL_ID ∧ context_accepts b ctx.
Proof. apply verify_proof_Ok. Qed.

(** A digest that is not 32 bytes long can never be verified as a scalar
    digest through [verify_proof]: the stored hash would have to be that of the
    digest and of its SHA-256, a fixed point of SHA-256. *)
Theorem long_digests_never_verify `{!HexLaws} b d :
  verify_proof b (ScalarDigest d) = Ok () → length d ≠ 32 → sha256 (sha256 d) = sha256 d.
Proof.
  rewrite verify_proof_Ok. intros (_ & _ & H1' & H2' & _) Hd.
  rewrite H1' in H2'. unfold hash_expected_digest, normalise_digest in H2'.
  rewrite (proj2 (Nat.eqb_neq _ _) Hd) in H2'.
  apply (f_equal hex_decode) in H2'. rewrite !hex_decode_encode in H2'. congruence.
Qed.

(** *** Provers and verifiers *)

Section provers.
Context `{!JsonLaws, !PastaLaws, !DigestLaws}.

(** The proof of [b] was created for the circuit [c] and the public columns
    [inst]; and verifying [b] in the context [ctx] gives what the proof system
    says of this proof, for the verifying key it was created under and the same
    public columns. *)
Definition judged (k : N) (c : ZkCircuit) (inst : list (list Fp)) (b : ZkProofBundle)
    (ctx : ZkVerificationContext) : Prop :=
  ∃ vk pk, keygen_vk k (without_witnesses c) = Ok vk ∧
    keygen_pk k vk (without_witnesses c) = Ok pk ∧
    create_proof k pk c inst = Ok (zb_proof b) ∧
    verify_proof b ctx = map_err from_plonk (plonk_verify_proof k vk inst (zb_proof b)).

Lemma generate_Ok k c inst p :
  generate k c inst = Ok p → ∃ vk pk, keygen_vk k (without_witnesses c) = Ok vk ∧
    keygen_pk k vk (without_witnesses c) = Ok pk ∧ create_proof k pk c inst = Ok p.
Proof.
  unfold generate. rewrite result_bind_Ok. setoid_rewrite map_err_Ok.
  setoid_rewrite result_bind_Ok. setoid_rewrite map_err_Ok. naive_solver.
Qed.

(** The checks of [verify_proof] before the proof system is asked. *)
Lemma verify_proof_judged k c inst b ctx :
  generate k c inst = Ok (zb_proof b) →
  (∀ vk, keygen_vk k (without_witnesses c) = Ok vk →
    verify_proof b ctx = map_err from_plonk (plonk_verify_proof k vk inst (zb_proof b))) →
  judged k c inst b ctx.
Proof. intros (vk & pk & Hv & Hp & Hc)%generate_Ok Hver. exists vk, pk. auto. Qed.

Lemma bundle_of_run k u c h v p w b w' :
  bundle_of k u c h v p w = (Ok b, w') →
  zb_protocol b = PROTOCOL_ID ∧ zb_circuit b = c ∧ zb_circuit_security b = k ∧
  zb_expected_hash b = h ∧ zb_public_inputs b = v ∧ zb_proof b = p ∧ zb_user_id b = u ∧
  w_db w' = w_db w.
Proof. unfold bundle_of. intros Hrun. injection Hrun as <- <-. by split_and!. Qed.

Lemma field_of_object {A} kvs key v (f : JsonValue → option A) x :
  NoDup kvs.*1 → (key, v) ∈ kvs → f v = Some x → json_get (json_object kvs) key ≫= f = Some x.
Proof. intros Hnd Hin Hf. by rewrite (json_get_object _ _ v). Qed.

Ltac object_field :=
  eapply field_of_object;
    [apply (bool_decide_unpack _); vm_compute; exact I
    | repeat first [apply list_elem_of_here | apply list_elem_of_further]
    | first [apply json_as_u64_u64 | apply json_as_str_str]].

(** Read off the scalars of a run: digests convert, commitments decode. *)
Ltac scalars :=
  repeat match goal with
  | E : digest_to_scalar _ = Ok _ |- _ => injection E as <-
  | E : derive_relay_commitment _ _ _ = Ok _ |- _ => injection E as <-
  | E : derive_log_chain_commitment _ _ _ = Ok _ |- _ => injection E as <-
  | E : derive_execution_commitment _ _ _ = Ok _ |- _ => injection E as <-
  | E : scalar_from_bytes (scalar_to_bytes _) = Ok _ |- _ =>
      rewrite scalar_round_trip in E; injection E as <-
  end; rewrite ?scalar_round_trip.

Lemma u32_u64 n : (n <= u32_max)%N → (n <= u64_max)%N.
Proof. unfold u32_max, u64_max. lia. Qed.

#[local] Ltac passes := rewrite ?check_bind_Ok; split_and!.

Lemma scalar_judged k p d b :
  zb_protocol b = PROTOCOL_ID → zb_circuit b = CIRCUIT_ID_SCALAR → zb_circuit_security b = k →
  zb_expected_hash b = hash_expected_digest d → length d = 32 →
  generate k (ScalarEqualityCircuit (Some p)) [[digest_scalar d]] = Ok (zb_proof b) →
  judged k (ScalarEqualityCircuit (Some p)) [[digest_scalar d]] b (ScalarDigest d).
Proof.
  intros Hp Hc Hk Hh Hd Hg. apply verify_proof_judged; [done|]. intros vk Hvk.
  assert (normalise_digest d = d) as Hn by (unfold normalise_digest; by rewrite Hd).
  unfold verify_proof. rewrite (proj2 (ensure_protocol_Ok b) Hp).
  cbn [mbind result_bind]. rewrite (proj2 (ensure_circuit_Ok b _) Hc). cbn [mbind result_bind].
  rewrite (proj2 (ensure_hash_Ok b _) Hh). cbn [mbind result_bind].
  unfold verify_scalar_equality. rewrite Hp, Hc, !bool_decide_eq_true_2 by done. cbn [negb orb].
  rewrite Hn, Hh, bool_decide_eq_true_2 by done. cbn [negb]. rewrite Hk. cbn [without_witnesses] in Hvk.
  rewrite Hvk. cbn [map_err mbind result_bind]. unfold digest_scalar. by rewrite Hn.
Qed.

Lemma relay_judged k c g e x y b :
  zb_protocol b = PROTOCOL_ID → zb_circuit b = CIRCUIT_ID_RELAY_AUDIT → zb_circuit_security b = k →
  zb_expected_hash b = hash_expected_digest x →
  ensure_relay_inputs (zb_public_inputs b) g e x = Ok () → scalar_from_bytes x = Ok y →
  without_witnesses c = RelayAuditCircuit None None None →
  generate k c [[y]; [fp_from_u64 g]; [fp_from_u64 e]] = Ok (zb_proof b) →
  judged k c [[y]; [fp_from_u64 g]; [fp_from_u64 e]] b (RelayAudit x g e).
Proof.
  intros Hp Hc Hk Hh Hi Hy Hw Hg. apply verify_proof_judged; [done|]. intros vk Hvk.
  unfold verify_proof, verify_relay_audit. rewrite (proj2 (ensure_protocol_Ok b) Hp).
  cbn [mbind result_bind]. rewrite (proj2 (ensure_circuit_Ok b _) Hc). cbn [mbind result_bind].
  rewrite (proj2 (ensure_hash_Ok b _) Hh). cbn [mbind result_bind]. rewrite Hi.
  cbn [mbind result_bind]. rewrite Hk, <-Hw, Hvk. cbn [map_err mbind result_bind]. by rewrite Hy.
Qed.

Lemma log_judged k c s x y b :
  zb_protocol b = PROTOCOL_ID → zb_circuit b = CIRCUIT_ID_LOG_INTEGRITY →
  zb_circuit_security b = k → zb_expected_hash b = hash_expected_digest x →
  ensure_log_inputs (zb_public_inputs b) s x = Ok () → scalar_from_bytes x = Ok y →
  without_witnesses c = LogIntegrityCircuit None None →
  generate k c [[y]; [fp_from_u64 s]] = Ok (zb_proof b) →
  judged k c [[y]; [fp_from_u64 s]] b (LogIntegrity x s).
Proof.
  intros Hp Hc Hk Hh Hi Hy Hw Hg. apply verify_proof_judged; [done|]. intros vk Hvk.
  unfold verify_proof, verify_log_integrity. rewrite (proj2 (ensure_protocol_Ok b) Hp).
  cbn [mbind result_bind]. rewrite (proj2 (ensure_circuit_Ok b _) Hc). cbn [mbind result_bind].
  rewrite (proj2 (ensure_hash_Ok b _) Hh). cbn [mbind result_bind]. rewrite Hi.
  cbn [mbind result_bind]. rewrite Hk, <-Hw, Hvk. cbn [map_err mbind result_bind]. by rewrite Hy.
Qed.

Lemma execution_judged k c x y b :
  zb_protocol b = PROTOCOL_ID → zb_circuit b = CIRCUIT_ID_EXECUTION →
  zb_circuit_security b = k → zb_expected_hash b = hash_expected_digest x →
  ensure_execution_inputs (zb_public_inputs b) x = Ok () → scalar_from_bytes x = Ok y →
  without_witnesses c = ExecutionCircuit None None None →
  generate k c [[y]] = Ok (zb_proof b) →
  judged k c [[y]] b (Execution x).
Proof.
  intros Hp Hc Hk Hh Hi Hy Hw Hg. apply verify_proof_judged; [done|]. intros vk Hvk.
  unfold verify_proof, verify_execution_attestation. rewrite (proj2 (ensure_protocol_Ok b) Hp).
  cbn [mbind result_bind]. rewrite (proj2 (ensure_circuit_Ok b _) Hc). cbn [mbind result_bind].
  rewrite (proj2 (ensure_hash_Ok b _) Hh). cbn [mbind result_bind]. rewrite Hi.
  cbn [mbind result_bind]. rewrite Hk, <-Hw, Hvk. cbn [map_err mbind result_bind]. by rewrite Hy.
Qed.

(** C14. Provers and verifiers agree. Take a bundle that a prover returns, and
    the context it was made for: the expected digest, if it has 32 bytes; the
    commitment that the corresponding [derive_...] function computes, with the
    same counts or sequence number. Every check of [verify_proof] passes on it,
    and the outcome is the verdict of the proof system on the proof, for the
    verifying key and the public columns it was created with; and the private
    values that the prover assigned satisfy the circuit for these columns (for
    the digest circuit, exactly when the two digests give the same scalar). *)
Theorem provers_agree_with_verifiers k u w b w' :
  (∀ p d, prove_digest_equality k u p d w = (Ok b, w') → length d = 32 →
    let c := ScalarEqualityCircuit (Some (digest_scalar p)) in
    judged k c [[digest_scalar d]] b (ScalarDigest d) ∧
    (satisfied c [[digest_scalar d]] ↔ digest_scalar p = digest_scalar d)) ∧
  (∀ d g e x, prove_relay_audit k u d g e w = (Ok b, w') →
    (g <= u32_max)%N → (e <= u32_max)%N → derive_relay_commitment d g e = Ok x →
    let c := RelayAuditCircuit (Some (digest_scalar d)) (Some (fp_from_u64 g))
               (Some (fp_from_u64 e)) in
    ∃ y, scalar_from_bytes x = Ok y ∧
      judged k c [[y]; [fp_from_u64 g]; [fp_from_u64 e]] b (RelayAudit x g e) ∧
      satisfied c [[y]; [fp_from_u64 g]; [fp_from_u64 e]]) ∧
  (∀ p n s x, prove_log_chain_integrity k u p n s w = (Ok b, w') → (s <= u64_max)%N →
    derive_log_chain_commitment p n s = Ok x →
    let c := LogIntegrityCircuit (Some (digest_scalar p)) (Some (digest_scalar n)) in
    ∃ y, scalar_from_bytes x = Ok y ∧
      judged k c [[y]; [fp_from_u64 s]] b (LogIntegrity x s) ∧
      satisfied c [[y]; [fp_from_u64 s]]) ∧
  (∀ i o t x, prove_execution_attestation k u i o t w = (Ok b, w') →
    derive_execution_commitment i o t = Ok x →
    let c := ExecutionCircuit (Some (digest_scalar i)) (Some (digest_scalar o))
               (Some (digest_scalar t)) in
    ∃ y, scalar_from_bytes x = Ok y ∧ judged k c [[y]] b (Execution x) ∧ satisfied c [[y]]).
Proof.
  split_and!; intros.
  - match goal with H : prove_digest_equality _ _ _ _ _ = _ |- _ =>
      unfold prove_digest_equality in H; inv_run H;
      apply bundle_of_run in H as (Hp & Hc & Hk & Hh & Hi & Hpr & _) end.
    split; [|apply satisfied_scalar].
    assert (normalise_digest d = d) as Hn
      by (unfold normalise_digest; by rewrite (proj2 (Nat.eqb_eq _ _))).
    rewrite Hn in *. scalars. subst. apply scalar_judged; [done..|].
    unfold digest_scalar at 2. by rewrite Hn.
  - match goal with H : prove_relay_audit _ _ _ _ _ _ = _ |- _ =>
      unfold prove_relay_audit in H; inv_run H;
      apply bundle_of_run in H as (Hp & Hc & Hk & Hh & Hi & Hpr & _) end.
    scalars. eexists. split; [done|]. subst. split; [|by apply satisfied_relay].
    apply relay_judged; try done; try apply scalar_round_trip. rewrite Hi. apply relay_inputs_Ok.
    split_and!; try apply json_object_is_object; try object_field; eauto using u32_u64.
  - match goal with H : prove_log_chain_integrity _ _ _ _ _ _ = _ |- _ =>
      unfold prove_log_chain_integrity in H; inv_run H;
      apply bundle_of_run in H as (Hp & Hc & Hk & Hh & Hi & Hpr & _) end.
    scalars. eexists. split; [done|]. subst. split; [|by apply satisfied_log].
    apply log_judged; try done; try apply scalar_round_trip. rewrite Hi. apply log_inputs_Ok.
    split_and!; try apply json_object_is_object; try object_field; eauto.
  - match goal with H : prove_execution_attestation _ _ _ _ _ _ = _ |- _ =>
      unfold prove_execution_attestation in H; inv_run H;
      apply bundle_of_run in H as (Hp & Hc & Hk & Hh & Hi & Hpr & _) end.
    scalars. eexists. split; [done|]. subst. split; [|by apply satisfied_execution].
    apply execution_judged; try done; try apply scalar_round_trip. rewrite Hi. apply execution_inputs_Ok.
    split_and!; try apply json_object_is_object; try object_field; eauto.
Qed.
End provers.

(** ** The table of proofs *)

Lemma mark_verified_lookup id now d d' k :
  mark_verified id now d = Ok ((), d') →
  t_zk_proofs d' !! k =
    (λ r, if decide (k.1 = id) then set_verified now r else r) <$> t_zk_proofs d !! k.
Proof.
  intros [= <-]. cbn. rewrite map_lookup_imap. by destruct (t_zk_proofs d !! k).
Qed.

(** What [verify_zk_proof] does, for a server without faults. *)
Lemma verify_zk_run v w :
  (∀ i, sql_fault i = None) →
  let '(r, w') := verify_zk_proof v w in
  match t_zk_proofs (w_db w) !! (zv_proof_id v, zv_user_id v) with
  | None => r = Err (Query "proof not found") ∧ w_db w' = w_db w
  | Some row =>
      if zr_verified row then r = Ok true ∧ w_db w' = w_db w
      else
        match verify_proof (bundle_from_row v row (client_now (S (w_tick w)))) (zv_context v) with
        | Err e => r = Err e ∧ w_db w' = w_db w
        | Ok _ => r = Ok true ∧
            w_db w' = set_zk_proofs (t_zk_proofs (w_db w')) (w_db w) ∧
            ∀ k, t_zk_proofs (w_db w') !! k =
              (λ r, if decide (k.1 = zv_proof_id v)
                    then set_verified (server_now (S (S (w_tick w)))) r else r) <$>
              t_zk_proofs (w_db w) !! k
        end
  end.
Proof.
  intros Hf. unfold verify_zk_proof.
  erewrite eff_bind_step by (by apply execute_run).
  destruct (t_zk_proofs (w_db w) !! _) as [row|] eqn:E; cbn [from_option ok_or]; [|by destruct w].
  erewrite eff_bind_step by reflexivity.
  destruct (zr_verified row); [by destruct w|].
  erewrite eff_bind_step by reflexivity. cbn [w_tick tick].
  destruct (verify_proof _ _) as [[]|e]; [|by destruct w].
  erewrite eff_bind_step by reflexivity.
  erewrite eff_bind_step by (by apply execute_run).
  split_and!; [done|done|]. intros k. by eapply mark_verified_lookup.
Qed.

(** C30. The verification state machine: an unknown proof is an error; a proof
    marked verified is accepted, whatever the context of the request; an
    unverified proof is accepted exactly when [verify_proof] accepts the stored
    bundle in the context of the request, and then (only then) rows change:
    those with this proof identifier become verified, at the server's time. *)
Theorem verify_state_machine v w :
  (∀ i, sql_fault i = None) →
  let '(r, w') := verify_zk_proof v w in
  match t_zk_proofs (w_db w) !! (zv_proof_id v, zv_user_id v) with
  | None => r = Err (Query "proof not found") ∧ w_db w' = w_db w
  | Some row =>
      if zr_verified row then r = Ok true ∧ w_db w' = w_db w
      else
        match verify_proof (bundle_from_row v row (client_now (S (w_tick w)))) (zv_context v) with
        | Err e => r = Err e ∧ w_db w' = w_db w
        | Ok _ => r = Ok true ∧
            w_db w' = set_zk_proofs (t_zk_proofs (w_db w')) (w_db w) ∧
            ∀ k, t_zk_proofs (w_db w') !! k =
              (λ r, if decide (k.1 = zv_proof_id v)
                    then set_verified (server_now (S (S (w_tick w)))) r else r) <$>
              t_zk_proofs (w_db w) !! k
        end
  end.
Proof. apply verify_zk_run. Qed.

(** C39. The mark is not confined to the user: when one user's proof has been
    verified now, a proof of any other user that has the same identifier counts
    as verified from then on, in every context, whatever it contains. *)
Theorem verification_leaks_across_users id u1 u2 ctx ctx2 row1 row2 w b w1 :
  (∀ i, sql_fault i = None) →
  t_zk_proofs (w_db w) !! (id, u1) = Some row1 → zr_verified row1 = false →
  t_zk_proofs (w_db w) !! (id, u2) = Some row2 →
  verify_zk_proof {| zv_proof_id := id; zv_user_id := u1; zv_context := ctx |} w = (Ok b, w1) →
  ∀ w2, w_db w2 = w_db w1 →
  fst (verify_zk_proof {| zv_proof_id := id; zv_user_id := u2; zv_context := ctx2 |} w2) = Ok true.
Proof.
  intros Hf Hr1 Hv1 Hr2 Hrun w2 Hw2.
  pose proof (verify_zk_run {| zv_proof_id := id; zv_user_id := u1; zv_context := ctx |} w Hf) as Hm.
  rewrite Hrun in Hm. cbn [zv_proof_id zv_user_id zv_context] in Hm. rewrite Hr1, Hv1 in Hm.
  destruct (verify_proof _ _); [|by destruct Hm].
  destruct Hm as (_ & _ & Hk). specialize (Hk (id, u2)). rewrite Hr2 in Hk. cbn in Hk.
  rewrite decide_True in Hk by done.
  pose proof (verify_zk_run {| zv_proof_id := id; zv_user_id := u2; zv_context := ctx2 |} w2 Hf) as Hm.
  destruct (verify_zk_proof _ w2) as [r w3]. cbn [zv_proof_id zv_user_id zv_context] in Hm.
  rewrite Hw2, Hk in Hm. cbn in Hm. by destruct Hm as [-> _].
Qed.

Lemma security_round_trip k :
  (k < 2 ^ 15)%N → Z.to_N (as_u32 (as_i16 (Z.of_N k))) = k.
Proof.
  intros Hk. unfold as_i16, as_u32.
  rewrite wrap_signed_small by lia. rewrite wrap_unsigned_small by lia. by rewrite N2Z.id.
Qed.

(** The bundle with the public inputs [v]. *)
Definition with_inputs (v : JsonValue) (b : ZkProofBundle) : ZkProofBundle := {|
  zb_proof_id := zb_proof_id b; zb_user_id := zb_user_id b; zb_protocol := zb_protocol b;
  zb_circuit := zb_circuit b; zb_circuit_security := zb_circuit_security b;
  zb_expected_hash := zb_expected_hash b; zb_public_inputs := v; zb_proof := zb_proof b;
  zb_created_at := zb_created_at b |}.

Lemma verify_proof_created b ctx now :
  verify_proof {| zb_proof_id := zb_proof_id b; zb_user_id := zb_user_id b;
    zb_protocol := zb_protocol b; zb_circuit := zb_circuit b;
    zb_circuit_security := zb_circuit_security b; zb_expected_hash := zb_expected_hash b;
    zb_public_inputs := zb_public_inputs b; zb_proof := zb_proof b; zb_created_at := now |} ctx =
  verify_proof b ctx.
Proof. by destruct b. Qed.

(** C31. Storing and verifying: a bundle stored under a fresh key, whose circuit
    parameter fits an [i16], verifies later exactly when it verifies now, with
    the public inputs as the [JSONB] column gives them back (which is as they
    were, when JSONB keeps them); a bundle stored over an old row resets the row
    to unverified, and replaces its hash, inputs, proof and parameter, but
    neither its protocol nor its circuit. *)
Theorem store_then_verify b ctx w w1 w2 :
  (∀ i, sql_fault i = None) → (zb_circuit_security b < 2 ^ 15)%N →
  store_zk_proof b w = (Ok (), w1) → w_db w2 = w_db w1 →
  let v := {| zv_proof_id := zb_proof_id b; zv_user_id := zb_user_id b; zv_context := ctx |} in
  let key := (zb_proof_id b, zb_user_id b) in
  ∃ inputs, jsonb (zb_public_inputs b) = Ok inputs ∧
  (t_zk_proofs (w_db w) !! key = None →
    fst (verify_zk_proof v w2) = ((λ _, true) <$> verify_proof (with_inputs inputs b) ctx) ∧
    (inputs = zb_public_inputs b →
      fst (verify_zk_proof v w2) = ((λ _, true) <$> verify_proof b ctx))) ∧
  (∀ old, t_zk_proofs (w_db w) !! key = Some old →
    ∃ r, t_zk_proofs (w_db w1) !! key = Some r ∧ zr_verified r = false ∧
      zr_verified_at r = None ∧ zr_proof r = zb_proof b ∧
      zr_expected_hash r = zb_expected_hash b ∧ zr_public_inputs r = inputs ∧
      zr_protocol r = zr_protocol old ∧ zr_circuit r = zr_circuit old).
Proof.
  intros Hf Hk Hrun Hw2. cbv zeta. unfold store_zk_proof in Hrun.
  apply execute_Ok in Hrun as (_ & d & Hq & ->). unfold upsert_proof in Hq.
  apply result_bind_Ok in Hq as (inputs & Hj%jsonb_column_Ok & [= <-]).
  exists inputs. split; [exact Hj|]. cbn in Hw2 |- *. split.
  - intros Hn. rewrite Hn in Hw2.
    assert (fst (verify_zk_proof {| zv_proof_id := zb_proof_id b; zv_user_id := zb_user_id b;
      zv_context := ctx |} w2) = ((λ _, true) <$> verify_proof (with_inputs inputs b) ctx)) as E.
    { pose proof (verify_zk_run {| zv_proof_id := zb_proof_id b; zv_user_id := zb_user_id b;
        zv_context := ctx |} w2 Hf) as Hm.
      destruct (verify_zk_proof _ w2) as [r w3]. cbn [zv_proof_id zv_user_id zv_context] in Hm.
      rewrite Hw2 in Hm. cbn [t_zk_proofs set_zk_proofs] in Hm. rewrite lookup_insert_eq in Hm.
      cbn [zr_verified with_public_inputs] in Hm. unfold bundle_from_row in Hm.
      cbn [zr_protocol zr_circuit zr_circuit_security zr_expected_hash zr_public_inputs zr_proof
        with_public_inputs zv_proof_id zv_user_id] in Hm.
      rewrite security_round_trip in Hm by done. cbn [fst].
      pose proof (verify_proof_created (with_inputs inputs b) ctx) as Hv.
      cbn [with_inputs zb_proof_id zb_user_id zb_protocol zb_circuit zb_circuit_security
        zb_expected_hash zb_public_inputs zb_proof] in Hv. rewrite Hv in Hm.
      destruct (verify_proof (with_inputs inputs b) ctx) as [[]|e]; by destruct Hm as [-> _]. }
    split; [exact E|]. intros Hi. rewrite E, Hi. by destruct b.
  - intros old Ho. rewrite Ho. eexists. split_and!; [apply lookup_insert_eq|done..].
Qed.
End proofs.
End ZkProps.

(** ** Concrete runs *)

(** A proof system that accepts what repeats the public columns. *)
Section ref_halo2.
Import Ref ZkProps.

Definition columns_ok (c : ZkCircuit) (inst : list (list Fp)) : bool :=
  bool_decide (length inst = instance_columns c) && forallb (λ col, bool_decide (length col = 1)) inst.
Definition encode_columns (inst : list (list Fp)) : bytes := concat (fp_to_repr <$> concat inst).

Definition ref_halo2 : Halo2 := {|
  VerifyingKey := ZkCircuit;
  ProvingKey := ZkCircuit;
  keygen_vk k c := Ok (without_witnesses c);
  keygen_pk k vk c := Ok (without_witnesses c);
  create_proof k pk c inst :=
    if columns_ok c inst then Ok (encode_columns inst) else Err "invalid instances";
  plonk_verify_proof k vk inst p :=
    if columns_ok vk inst && bool_decide (p = encode_columns inst) then Ok ()
    else Err "constraint system is not satisfied";
|}.
#[local] Existing Instance ref_halo2.

Definition ex_digest : bytes := n_bytes 32 99.
Definition ex_dummy : ZkProofBundle := {|
  zb_proof_id := 0%N; zb_user_id := 0%N; zb_protocol := ""; zb_circuit := "";
  zb_circuit_security := 0; zb_expected_hash := ""; zb_public_inputs := JNull; zb_proof := [];
  zb_created_at := utc 0 |}.
Definition ex_user : Uuid := 4%N.
Definition ex_relay : result DatabaseError ZkProofBundle * World :=
  prove_relay_audit 14 ex_user ex_digest 5 7 ref_world.
Definition ex_bundle : ZkProofBundle := unwrap_or ex_dummy (fst ex_relay).
Definition ex_commitment : bytes := unwrap_or [] (derive_relay_commitment ex_digest 5 7).

Lemma ex_relay_ok : is_ok (fst ex_relay) = true.
Proof. vm_compute. reflexivity. Qed.

Lemma provers_agree_with_verifiers_witness :
  ∃ y, scalar_from_bytes ex_commitment = Ok y ∧
    judged 14 (RelayAuditCircuit (Some (digest_scalar ex_digest)) (Some (fp_from_u64 5))
        (Some (fp_from_u64 7))) [[y]; [fp_from_u64 5]; [fp_from_u64 7]] ex_bundle
      (RelayAudit ex_commitment 5 7) ∧
    satisfied (RelayAuditCircuit (Some (digest_scalar ex_digest)) (Some (fp_from_u64 5))
        (Some (fp_from_u64 7))) [[y]; [fp_from_u64 5]; [fp_from_u64 7]].
Proof.
  destruct (provers_agree_with_verifiers 14 ex_user ref_world ex_bundle (snd ex_relay))
    as (_ & Hr & _).
  apply (Hr ex_digest).
  - exact (run_eta ex_dummy ex_relay ex_relay_ok).
  - vm_compute. discriminate.
  - vm_compute. discriminate.
  - vm_compute. reflexivity.
Defined.

Lemma commitments_compute_witness :
  derive_relay_commitment ex_digest 5 7 = derive_relay_commitment ex_digest 7 5.
Proof.
  destruct (commitments_compute ex_digest 5 7 [] [] 0 [] [] []) as (_ & _ & _ & Hr & _).
  - vm_compute. discriminate.
  - vm_compute. discriminate.
  - vm_compute. discriminate.
  - apply Hr; vm_compute; [discriminate|discriminate|reflexivity].
Defined.

Definition ex_stored : result DatabaseError () * World := store_zk_proof ex_bundle (snd ex_relay).
Definition ex_verification : ZkProofVerification :=
  {| zv_proof_id := zb_proof_id ex_bundle; zv_user_id := zb_user_id ex_bundle;
     zv_context := RelayAudit ex_commitment 5 7 |}.

Lemma ref_jsonb (v v' : JsonValue) : jsonb v = Ok v' → v' = v.
Proof. by intros [= ->]. Qed.
Lemma store_then_verify_witness :
  fst (verify_zk_proof ex_verification (snd ex_stored)) =
    ((λ _, true) <$> verify_proof ex_bundle (RelayAudit ex_commitment 5 7)).
Proof.
  destruct (store_then_verify ex_bundle (RelayAudit ex_commitment 5 7) (snd ex_relay)
    (snd ex_stored) (snd ex_stored)) as (inputs & Hj & Hv & _).
  - reflexivity.
  - vm_compute. reflexivity.
  - apply run_fst. vm_compute. reflexivity.
  - reflexivity.
  - apply Hv; [apply option_none; vm_compute; reflexivity|exact (ref_jsonb _ _ Hj)].
Defined.

Lemma verify_state_machine_witness :
  fst (verify_zk_proof ex_verification ref_world) = Err (Query "proof not found").
Proof.
  pose proof (verify_state_machine ex_verification ref_world (λ i, eq_refl)) as Hm.
  destruct (verify_zk_proof ex_verification ref_world) as [r w'].
  destruct Hm as [-> _]. reflexivity.
Defined.

Lemma verification_conditions_witness :
  zb_protocol ex_bundle = PROTOCOL_ID ∧ context_accepts ex_bundle (RelayAudit ex_commitment 5 7).
Proof.
  apply (verification_conditions ex_bundle (RelayAudit ex_commitment 5 7)).
  vm_compute. reflexivity.
Defined.

(** Another user's bundle under the same identifier, with an empty proof. *)
Definition ex_other : ZkProofBundle := {|
  zb_proof_id := zb_proof_id ex_bundle; zb_user_id := 5%N; zb_protocol := "none";
  zb_circuit := "none"; zb_circuit_security := 0; zb_expected_hash := "";
  zb_public_inputs := JNull; zb_proof := []; zb_created_at := utc 0 |}.
Definition ex_two : World := snd (store_zk_proof ex_other (snd ex_stored)).
Definition ex_verified : result DatabaseError bool * World := verify_zk_proof ex_verification ex_two.
Definition ex_zk_row : ZkProofRow := {|
  zr_protocol := ""; zr_circuit := ""; zr_circuit_security := 0; zr_expected_hash := "";
  zr_public_inputs := JNull; zr_proof := []; zr_created_at := 0; zr_verified := false;
  zr_verified_at := None |}.
Definition ex_row (u : Uuid) : ZkProofRow :=
  default ex_zk_row (t_zk_proofs (w_db ex_two) !! (zb_proof_id ex_bundle, u)).

Lemma ex_row_stored u :
  is_some (t_zk_proofs (w_db ex_two) !! (zb_proof_id ex_bundle, u)) = true →
  t_zk_proofs (w_db ex_two) !! (zb_proof_id ex_bundle, u) = Some (ex_row u).
Proof. exact (option_eta ex_zk_row _). Qed.

Lemma verification_leaks_across_users_witness :
  fst (verify_zk_proof {| zv_proof_id := zb_proof_id ex_bundle; zv_user_id := 5%N;
         zv_context := Execution [] |} (snd ex_verified)) = Ok true.
Proof.
  apply (verification_leaks_across_users (zb_proof_id ex_bundle) ex_user 5%N
    (RelayAudit ex_commitment 5 7) (Execution []) (ex_row ex_user) (ex_row 5%N) ex_two true
    (snd ex_verified)).
  - reflexivity.
  - apply ex_row_stored. vm_compute. reflexivity.
  - vm_compute. reflexivity.
  - apply ex_row_stored. vm_compute. reflexivity.
  - apply run_fst. vm_compute. reflexivity.
  - reflexivity.
Defined.
End ref_halo2.

(** With a SHA-256 that has a fixed point, and a proof system that accepts
    everything, a digest of three bytes verifies. *)
Section fixed_point.
Import Ref ZkProps.

#[local] Instance flat_digests : Digests := {|
  sha256 b := n_bytes 32 7; sha512 b := n_bytes 64 7; hmac_sha256 k b := None |}.
#[local] Instance lax_halo2 : Halo2 := {|
  VerifyingKey := unit; ProvingKey := unit; keygen_vk k c := Ok (); keygen_pk k vk c := Ok ();
  create_proof k pk c inst := Ok []; plonk_verify_proof k vk inst p := Ok () |}.

Definition ex_short : ZkProofBundle := {|
  zb_proof_id := 0%N; zb_user_id := 0%N; zb_protocol := PROTOCOL_ID;
  zb_circuit := CIRCUIT_ID_SCALAR; zb_circuit_security := 14;
  zb_expected_hash := hex_encode (n_bytes 32 7); zb_public_inputs := JNull; zb_proof := [];
  zb_created_at := utc 0 |}.

Lemma long_digests_never_verify_witness :
  sha256 (sha256 (as_bytes "abc")) = sha256 (as_bytes "abc").
Proof.
  apply (long_digests_never_verify ex_short (as_bytes "abc")).
  - vm_compute. reflexivity.
  - vm_compute. discriminate.
Defined.
End fixed_point.
