(* ===== verification/RaTls.v ===== *)
(** * Evidence in RA-TLS certificates (src/ra_tls.rs)

    Extracting the quote and the event log from a certificate, classifying the
    quote, checking that it is bound to the certificate's key and verifying it
    against Intel's collateral. X.509 and DER parsing, quote parsing, collateral
    and quote verification are parameters. *)
From S2P Require Import Prelude RustStd Platform World Environment.
Local Open Scope N_scope.

(** ** [x509_parser], [yasna] *)

(** The general names that the crate tells apart. *)
Inductive GeneralName := URI (uri : string) | OtherName.

Class CertApi := {
  Certificate : Type;
  (** [X509Certificate::from_der]; errors are their [Display] form *)
  x509_from_der : bytes → result string Certificate;
  (** [subject().iter_common_name()], each with [as_str().ok()] *)
  cert_common_names : Certificate → list (option string);
  (** [public_key().subject_public_key.data] *)
  cert_public_key : Certificate → bytes;
  (** [subject_alternative_name()] *)
  cert_alternative_names : Certificate → result string (option (list GeneralName));
  Oid : Type;
  oid_from : list N → option Oid;
  (** [get_extension_unique(&oid)] *)
  cert_extension_unique : Certificate → Oid → result string (option bytes);
  (** [yasna::parse_der(value, |reader| reader.read_bytes())]; the error is its
      [Debug] form *)
  der_read_bytes : bytes → result string bytes;
}.

(** ** [dcap_qvl] *)

Record EnclaveReport := {
  er_mr_enclave : bytes; er_mr_signer : bytes; er_isv_svn : N; er_report_data : bytes }.
Record TDReport10 := { td_mr_td : bytes; td_report_data : bytes }.
Record TDReport15 := { td_base : TDReport10 }.
Inductive Report :=
  | SgxEnclave (r : EnclaveReport)
  | TD10 (r : TDReport10)
  | TD15 (r : TDReport15).

(** A record of the event log, with the fields that are read. *)
Record TdxEventLog := { ev_imr : N; ev_event : string; ev_event_payload : bytes }.

Class QvlApi := {
  Collateral : Type;
  VerifiedReport : Type;
  vr_report : VerifiedReport → Report;
  (** [Quote::parse(quote)] and its report *)
  quote_parse : bytes → result string Report;
  (** [get_collateral(url, quote)] at a moment *)
  get_collateral : string → bytes → nat → result AnyhowError Collateral;
  (** [verify(quote, collateral, now)] *)
  qvl_verify : bytes → Collateral → N → result string VerifiedReport;
  (** [serde_json::from_slice::<Vec<TdxEventLog>>] *)
  event_log_from_slice : bytes → result string (list TdxEventLog);
}.
Module RaTls.
Definition PHALA_RATLS_QUOTE_OID : list N := [1; 3; 6; 1; 4; 1; 62397; 1; 1].
Definition PHALA_RATLS_EVENT_LOG_OID : list N := [1; 3; 6; 1; 4; 1; 62397; 1; 2].
Definition RA_TLS_BINDING_TAG : bytes := as_bytes "ratls-cert".

Inductive TEEVendor := AmdSevSnp | IntelTDX | IntelSGX.
#[export] Instance vendor_eq_dec : EqDecision TEEVendor.
Proof. solve_decision. Defined.

Record Attestation := { at_quote : bytes; at_raw_event_log : bytes }.

(** [u16::from_le_bytes], [u32::from_le_bytes] *)
Definition le16 (b0 b1 : Byte.byte) : N := Byte.to_N b0 + 256 * Byte.to_N b1.
Definition le32 (b0 b1 b2 b3 : Byte.byte) : N := le16 b0 b1 + 65536 * le16 b2 b3.

Definition TEE_TYPE_SGX : N := 0.
Definition TEE_TYPE_TDX : N := 129.

Definition detect_vendor_from_quote (self : Attestation) : result AnyhowError TEEVendor :=
  match at_quote self with
  | q0 :: q1 :: _ :: _ :: q4 :: q5 :: q6 :: q7 :: _ =>
      let version := le16 q0 q1 in
      let tee_type := le32 q4 q5 q6 q7 in
      if version =? 3 then Ok IntelSGX
      else if (version =? 4) || (version =? 5) then
        if tee_type =? TEE_TYPE_TDX then Ok IntelTDX
        else if tee_type =? TEE_TYPE_SGX then Ok IntelSGX
        else Ok AmdSevSnp
      else Ok AmdSevSnp
  | q => Err (anyhow ("quote too short (" +:+ n_to_string (N.of_nat (length q)) +:+
                      " bytes) to determine vendor"))
  end.

Section ratls.
Context `{UuidApi, JsonApi, BrokerApi} `{!Host} `{UnicodeTables} `{Digests} `{Hex}.
Context `{CertApi} `{QvlApi}.

Record VerifiedAttestation := { va_report : VerifiedReport; va_raw_event_log : bytes }.

Definition get_extension_octets (cert : Certificate) (oid_arc : list N) :
    result AnyhowError (option bytes) :=
  oid ← ok_or (oid_from oid_arc) (anyhow "invalid RA-TLS OID arc");
  ext ← map_err (λ e, context "failed to read X.509 extension" (anyhow e))
          (cert_extension_unique cert oid);
  match ext with
  | None => Ok None
  | Some value =>
      inner ← map_err (λ error, anyhow ("RA-TLS extension is not a valid DER OCTET STRING: "
                +:+ error)) (der_read_bytes value);
      Ok (Some inner)
  end.

(** [Attestation::from_der] *)
Definition from_der (cert_der : bytes) : result AnyhowError (option Attestation) :=
  cert ← map_err (λ err, anyhow ("failed to parse X.509 certificate: " +:+ err))
           (x509_from_der cert_der);
  quote ← get_extension_octets cert PHALA_RATLS_QUOTE_OID;
  match quote with
  | None => Ok None
  | Some quote =>
      raw_event_log ← get_extension_octets cert PHALA_RATLS_EVENT_LOG_OID;
      Ok (Some {| at_quote := quote; at_raw_event_log := default [] raw_event_log |})
  end.

Definition report_data_of (r : Report) : bytes :=
  match r with
  | SgxEnclave r => er_report_data r
  | TD10 r => td_report_data r
  | TD15 r => td_report_data (td_base r)
  end.

Definition decode_report_data (quote : bytes) : result AnyhowError bytes :=
  parsed ← map_err (λ err, anyhow ("failed to parse quote: " +:+ err)) (quote_parse quote);
  Ok (report_data_of parsed).

(** The report data that binds a quote to a public key. *)
Definition key_binding (pubkey_der : bytes) : bytes :=
  sha512 (RA_TLS_BINDING_TAG ++ as_bytes ":" ++ pubkey_der).

Definition resolve_pccs_url (env : Env) (pccs_url : option string) : result AnyhowError string :=
  let from_env := map_err (λ _, anyhow
    "PCCS URL not provided: pass pccs_url or set PCCS_URL environment variable")
    (env_var env "PCCS_URL") in
  match pccs_url with
  | Some url => if is_empty url then from_env else Ok url
  | None => from_env
  end.

(** Nanoseconds from 1970 to the epoch of [DateTime]. *)
Definition UNIX_EPOCH_OFFSET : Z := 946684800000000000.
(** [SystemTime::now().duration_since(UNIX_EPOCH)], in whole seconds. *)
Definition duration_since_epoch (t : DateTime) : option N :=
  if (nanos t + UNIX_EPOCH_OFFSET <? 0)%Z then None
  else Some (Z.to_N ((nanos t + UNIX_EPOCH_OFFSET) / 1000000000)%Z).

Definition verify_with_ra_pubkey (env : Env) (self : Attestation) (pubkey_der : bytes)
    (pccs_url : option string) : MA VerifiedAttestation :=
  vendor ← lift (detect_vendor_from_quote self);
  if bool_decide (vendor = AmdSevSnp) then
    fail (anyhow ("AMD SEV-SNP attestation verification is not implemented in this module; " +:+
      "call-site must reject AMD before invoking verify_with_ra_pubkey"))
  else
    actual_report_data ← lift (map_err
      (context "failed to decode report_data from quote for pubkey binding check")
      (decode_report_data (at_quote self)));
    if negb (bool_decide (actual_report_data = key_binding pubkey_der)) then
      fail (anyhow ("RA-TLS quote report_data does not match peer public key binding (tag " +:+
        debug_str (default "<non-utf8>" (from_utf8 RA_TLS_BINDING_TAG)) +:+ ")"))
    else
      pccs_url ← lift (resolve_pccs_url env pccs_url);
      collateral ← eff_map_err (context "failed to fetch quote collateral from PCCS")
        (network (get_collateral pccs_url (at_quote self)));
      t ← utc_now;
      now ← lift (ok_or (duration_since_epoch t)
        (context "system clock is before UNIX epoch"
          (anyhow "second time provided was later than self")));
      verified ← lift (map_err (λ err, anyhow ("DCAP quote verification failed: " +:+ err))
        (qvl_verify (at_quote self) collateral now));
      mret {| va_report := verified; va_raw_event_log := at_raw_event_log self |}.

(** The events that carry a compose hash. *)
Definition is_compose_event (ev : TdxEventLog) : bool :=
  (ev_imr ev =? 3) && bool_decide (ev_event ev ∈ ["compose-hash"; "upgraded-app-id"]).

Definition decode_compose_hash (self : VerifiedAttestation) : result AnyhowError string :=
  match va_raw_event_log self with
  | [] => Err (anyhow "event log missing — cannot decode compose hash")
  | log =>
      events ← map_err (λ e, context "failed to parse RA-TLS event log JSON" (anyhow e))
                 (event_log_from_slice log);
      match filter is_compose_event events with
      | ev :: _ => Ok (hex_encode (ev_event_payload ev))
      | [] => Err (anyhow "compose-hash event not found in event log")
      end
  end.

(** ** What a verification that succeeds says *)

Record evidence (env : Env) (a : Attestation) (pubkey : bytes) (pccs : option string) (t : nat)
    (v : VerifiedAttestation) : Prop := {
  ev_vendor : ∃ vendor, detect_vendor_from_quote a = Ok vendor ∧ vendor ≠ AmdSevSnp;
  ev_bound : ∃ report, quote_parse (at_quote a) = Ok report ∧
    report_data_of report = key_binding pubkey;
  ev_genuine : ∃ url c now, resolve_pccs_url env pccs = Ok url ∧
    get_collateral url (at_quote a) t = Ok c ∧
    duration_since_epoch (client_now (S t)) = Some now ∧
    qvl_verify (at_quote a) c now = Ok (va_report v);
  ev_log : va_raw_event_log v = at_raw_event_log a;
}.

Lemma verify_ra_Ok env a pubkey pccs w v :
  fst (verify_with_ra_pubkey env a pubkey pccs w) = Ok v ↔
  evidence env a pubkey pccs (w_tick w) v.
Proof.
  unfold verify_with_ra_pubkey. split.
  - intros E. destruct (verify_with_ra_pubkey env a pubkey pccs w) as [r w'] eqn:Er.
    unfold verify_with_ra_pubkey in Er. rewrite Er in E. cbn [fst] in E. subst r.
    apply eff_bind_Ok in Er as (vendor & w1 & [Ev <-]%lift_Ok & Er).
    case_bool_decide as Hv; [done|].
    apply eff_bind_Ok in Er as (rd & w2 & [Ed <-]%lift_Ok & Er).
    apply map_err_Ok in Ed. unfold decode_report_data in Ed.
    apply result_bind_Ok in Ed as (rep & Ed%map_err_Ok & [= <-]).
    case_bool_decide as Hb; [|done]. cbn [negb] in Er.
    apply eff_bind_Ok in Er as (url & w3 & [Eu <-]%lift_Ok & Er).
    apply eff_bind_Ok in Er as (c & w4 & Ec & Er). unfold eff_map_err, network in Ec.
    destruct (get_collateral url (at_quote a) (w_tick w)) as [c'|] eqn:Ec'; [|done].
    cbn in Ec. injection Ec as -> <-.
    apply eff_bind_Ok in Er as (t & w5 & [= <- <-] & Er).
    apply eff_bind_Ok in Er as (now & w6 & [En%ok_or_Ok <-]%lift_Ok & Er).
    apply eff_bind_Ok in Er as (vr & w7 & [Eq%map_err_Ok <-]%lift_Ok & [= <- <-]).
    split; eauto 10.
  - intros [(vendor & Ev & Hv) (rep & Ep & Hb) (url & c & now & Eu & Ec & En & Eq) El].
    rewrite (eff_bind_step _ _ w vendor w) by (unfold lift; by rewrite Ev).
    rewrite bool_decide_eq_false_2 by done.
    assert (decode_report_data (at_quote a) = Ok (key_binding pubkey)) as Ed.
    { unfold decode_report_data. rewrite Ep. cbn. by rewrite Hb. }
    rewrite (eff_bind_step _ _ w (key_binding pubkey) w) by (unfold lift; by rewrite Ed).
    rewrite bool_decide_eq_true_2 by done. cbn [negb].
    rewrite (eff_bind_step _ _ w url w) by (unfold lift; by rewrite Eu).
    rewrite (eff_bind_step _ _ w c (tick w)) by (unfold eff_map_err, network; by rewrite Ec).
    rewrite (eff_bind_step _ _ (tick w) (client_now (S (w_tick w))) (tick (tick w))) by done.
    rewrite (eff_bind_step _ _ (tick (tick w)) now (tick (tick w)))
      by (unfold lift; by rewrite En).
    rewrite (eff_bind_step _ _ (tick (tick w)) (va_report v) (tick (tick w)))
      by (unfold lift; by rewrite Eq).
    cbn. rewrite <-El. by destruct v.
Qed.
End ratls.
End RaTls.
