(* ===== verification/Net.v ===== *)
(** * Internet addresses ([std::net])

    The parser of [IpAddr] ([core::net::parser]) and [is_loopback]. A parser
    takes the rest of the text and returns what it read and the rest after it,
    or nothing, having consumed nothing. *)
From S2P Require Import Prelude RustStd.
Local Open Scope N_scope.

Module Net.
Abbreviation parser A := (string → option (A * string)).

(** [char::to_digit(radix)] for a radix of at most 16 *)
Definition to_digit_radix (radix : N) (c : ascii) : option N :=
  let d := if byte_in 48 57 c then Some (code c - 48)
           else if byte_in 97 122 c then Some (code c - 87)
           else if byte_in 65 90 c then Some (code c - 55)
           else None in
  match d with Some n => if n <? radix then Some n else None | None => None end.

Definition read_given_char (c : ascii) : parser () := λ s,
  match s with
  | String a s' => if Ascii.eqb a c then Some ((), s') else None
  | EmptyString => None
  end.

(** [read_separator(sep, index, inner)]: the separator comes before every item
    but the first. *)
Definition read_separator {A} (sep : ascii) (index : nat) (inner : parser A) : parser A := λ s,
  match index with
  | O => inner s
  | S _ => '(_, s') ← read_given_char sep s; inner s'
  end.

(** The digits at the head of the text: their value and number, or nothing when
    there are more than [max_digits] of them or the value exceeds [max]. *)
Fixpoint read_digits (radix max : N) (max_digits : nat) (result : N) (count : nat) (s : string) :
    option (N * nat * string) :=
  match s with
  | EmptyString => Some (result, count, s)
  | String c s' =>
      match to_digit_radix radix c with
      | None => Some (result, count, s)
      | Some d =>
          let result' := radix * result + d in
          if (max <? result') || (max_digits <? S count)%nat then None
          else read_digits radix max max_digits result' (S count) s'
      end
  end.

Definition read_number (radix max : N) (max_digits : nat) (allow_zero_prefix : bool) : parser N :=
  λ s,
  let has_leading_zero :=
    match s with String c _ => byte_is 48 c | EmptyString => false end in
  '(result, count, s') ← read_digits radix max max_digits 0 0 s;
  if (count =? 0)%nat then None
  else if negb allow_zero_prefix && has_leading_zero && (1 <? count)%nat then None
  else Some (result, s').

Record Ipv4Addr := { v4_a : N; v4_b : N; v4_c : N; v4_d : N }.

Definition read_ipv4_addr : parser Ipv4Addr := λ s,
  let octet := read_number 10 255 3 false in
  '(a, s) ← read_separator "."%char 0 octet s;
  '(b, s) ← read_separator "."%char 1 octet s;
  '(c, s) ← read_separator "."%char 2 octet s;
  '(d, s) ← read_separator "."%char 3 octet s;
  Some ({| v4_a := a; v4_b := b; v4_c := c; v4_d := d |}, s).

(** [read_groups]: the groups from index [i] up to [limit], and whether the last
    two are an embedded IPv4 address. [fuel] is [limit - i]. *)
Fixpoint read_groups (fuel i limit : nat) (s : string) : list N * bool * string :=
  match fuel with
  | O => ([], false, s)
  | S fuel' =>
      let v4 := if (i <? limit - 1)%nat then read_separator ":"%char i read_ipv4_addr s
                else None in
      match v4 with
      | Some (a, s') => ([256 * v4_a a + v4_b a; 256 * v4_c a + v4_d a], true, s')
      | None =>
          match read_separator ":"%char i (read_number 16 65535 4 true) s with
          | Some (g, s') =>
              let '(gs, v4, s'') := read_groups fuel' (S i) limit s' in (g :: gs, v4, s'')
          | None => ([], false, s)
          end
      end
  end.

(** The eight groups. *)
Definition read_ipv6_addr : parser (list N) := λ s,
  let '(head, head_ipv4, s) := read_groups 8 0 8 s in
  if (length head =? 8)%nat then Some (head, s)
  else if head_ipv4 : bool then None
  else
    '(_, s) ← read_given_char ":"%char s;
    '(_, s) ← read_given_char ":"%char s;
    let limit := (8 - (length head + 1))%nat in
    let '(tail, _, s) := read_groups limit 0 limit s in
    Some (head ++ replicate (8 - length head - length tail) 0 ++ tail, s).

Inductive IpAddr := V4 (a : Ipv4Addr) | V6 (groups : list N).

(** [str::parse::<IpAddr>()]: the whole text must be read. *)
Definition parse_ip_addr (s : string) : option IpAddr :=
  let r := match read_ipv4_addr s with
           | Some (a, s') => Some (V4 a, s')
           | None => '(g, s') ← read_ipv6_addr s; Some (V6 g, s')
           end in
  match r with
  | Some (a, EmptyString) => Some a
  | _ => None
  end.

Definition is_loopback (a : IpAddr) : bool :=
  match a with
  | V4 a => v4_a a =? 127
  | V6 groups => bool_decide (groups = [0; 0; 0; 0; 0; 0; 0; 1])
  end.

(** ** Examples *)
Example loopback_v4 : is_loopback <$> parse_ip_addr "127.1.2.3" = Some true.
Proof. reflexivity. Qed.
Example octal_v4 : parse_ip_addr "127.0.0.01" = None.
Proof. reflexivity. Qed.
Example short_v4 : parse_ip_addr "127.1" = None.
Proof. reflexivity. Qed.
Example large_v4 : parse_ip_addr "127.0.0.256" = None.
Proof. reflexivity. Qed.
Example loopback_v6 : is_loopback <$> parse_ip_addr "::1" = Some true.
Proof. reflexivity. Qed.
Example full_v6 : is_loopback <$> parse_ip_addr "0:0:0:0:0:0:0:1" = Some true.
Proof. reflexivity. Qed.
Example mapped_v6 : is_loopback <$> parse_ip_addr "::ffff:127.0.0.1" = Some false.
Proof. reflexivity. Qed.
Example bracketed_v6 : parse_ip_addr "[::1]" = None.
Proof. reflexivity. Qed.

(** Octets are at most 255. *)
Lemma read_digits_bound radix max md r n s r' n' s' : r ≤ max →
  read_digits radix max md r n s = Some (r', n', s') → r' ≤ max.
Proof.
  revert r n. induction s as [|c s IH]; intros r n Hr; simpl; [by intros [= <- _ _]|].
  destruct (to_digit_radix radix c) as [d|]; [|by intros [= <- _ _]].
  destruct (_ || _) eqn:E; [done|]. apply orb_false_iff in E as [?%N.ltb_ge _].
  by apply IH.
Qed.

(** Text that begins with a bracket is no address. *)
Lemma parse_ip_bracket s : parse_ip_addr (String "["%char s) = None.
Proof. reflexivity. Qed.
End Net.
