(* ===== verification/PeerVerification.v ===== *)
(** * Who the broker is (src/secret_broker_client.rs, lines 58-105, 552-758, 1049-1136)

    The measurement policy, the verifiers of the broker's certificate for the
    SPIFFE and the attested modes, and what a certificate that they accept
    says. *)
From S2P Require Import Prelude RustStd Platform World Environment RaTls Reference.
Local Open Scope N_scope.

(** ** [rustls] *)

Inductive RustlsError := General (msg : string) | OtherError (debug : string).

Class RustlsApi := {
  ServerName : Type;
  (** The result of [WebPkiServerVerifier::builder(roots).build()]; a root store
      is the list of the certificates that were added. *)
  webpki_build : list bytes → result string ();
  (** [verify_server_cert] of that verifier: end entity, intermediates, server
      name, OCSP response and time *)
  webpki_verify : list bytes → bytes → list bytes → ServerName → bytes → N →
    result RustlsError ();
}.

Module Peer.
Import RaTls.

Record MeasurementPolicy := {
  allowed_mrtd : gset string;
  allowed_mrenclave : gset string;
  allowed_mrsigner : gset string;
  min_isvsvn : option N;
  expected_compose_hash : option string;
}.

Record ClientPolicy := { policy_name : string; measurement : MeasurementPolicy }.

Definition allow_all : MeasurementPolicy := {|
  allowed_mrtd := ∅; allowed_mrenclave := ∅; allowed_mrsigner := ∅;
  min_isvsvn := None; expected_compose_hash := None |}.

(** [set.is_empty() || set.contains(&value.to_lowercase())] *)
Definition set_allows `{UnicodeTables} (set : gset string) (value : string) : bool :=
  bool_decide (set = ∅) || bool_decide (to_lowercase value ∈ set).

Section policy.
Context `{UnicodeTables}.

Definition allows_tdx_mrtd (self : MeasurementPolicy) (mrtd : string) : bool :=
  set_allows (allowed_mrtd self) mrtd.

Definition allows_sgx_measurements (self : MeasurementPolicy) (mrenclave mrsigner : string)
    (isvsvn : N) : bool :=
  set_allows (allowed_mrenclave self) mrenclave &&
  set_allows (allowed_mrsigner self) mrsigner &&
  match min_isvsvn self with Some min => min <=? isvsvn | None => true end.

Definition allows_compose_hash (self : MeasurementPolicy) (compose_hash : string) : bool :=
  match expected_compose_hash self with
  | Some expected => bool_decide (expected = to_lowercase compose_hash)
  | None => true
  end.

Definition expects_compose_hash (self : MeasurementPolicy) : bool :=
  is_some (expected_compose_hash self).
End policy.

(** *** SPIFFE identifiers *)

Definition normalize_spiffe_id (uri : string) : option string :=
  rest ← strip_prefix "spiffe://" uri;
  '(td, path) ← split_once "/"%char rest;
  if is_empty td then None
  else Some ("spiffe://" +:+ to_ascii_lowercase td +:+ String "/" path).

Section verifiers.
Context `{UuidApi, JsonApi, BrokerApi} `{!Host} `{UnicodeTables} `{Digests} `{Hex}.
Context `{CertApi} `{QvlApi} `{RustlsApi}.

Record SpiffeServerVerifier := { sv_roots : list bytes; sv_allowed : string }.

(** [SpiffeServerVerifier::new] *)
Definition spiffe_new (root_store : list bytes) (allowed_spiffe_id : string) :
    result RustlsError SpiffeServerVerifier :=
  map_err (λ e, General ("failed to build WebPkiServerVerifier: " +:+ e)) (webpki_build root_store);;
  allowed ← ok_or (normalize_spiffe_id allowed_spiffe_id)
    (General ("invalid target SPIFFE ID: " +:+ allowed_spiffe_id));
  Ok {| sv_roots := root_store; sv_allowed := allowed |}.

Definition uri_names (names : list GeneralName) : list string :=
  omap (λ gn, match gn with URI uri => Some uri | OtherName => None end) names.

Definition spiffe_verify_server_cert (self : SpiffeServerVerifier) (end_entity : bytes)
    (intermediates : list bytes) (server_name : ServerName) (ocsp : bytes) (now : N) :
    result RustlsError () :=
  webpki_verify (sv_roots self) end_entity intermediates server_name ocsp now;;
  cert ← map_err (λ _, General "failed to parse server cert") (x509_from_der end_entity);
  let uris := match cert_alternative_names cert with
              | Ok (Some names) => uri_names names
              | _ => []
              end in
  match uris with
  | [presented] =>
      presented_norm ← ok_or (normalize_spiffe_id presented)
        (General "presented SAN URI is not a valid SPIFFE ID");
      if bool_decide (presented_norm = sv_allowed self) then Ok ()
      else Err (General "server SPIFFE ID not authorised")
  | _ => Err (General "SPIFFE server cert must have exactly one URI SAN")
  end.

(** *** Attested peers *)

Record RaTlsServerVerifier := {
  rv_policy : ClientPolicy;
  rv_subject_allowlist : option (gset string);
  rv_pccs_url : option string;
}.

Definition enforce_measurement_policy (policy : MeasurementPolicy)
    (verified : VerifiedAttestation) : result AnyhowError () :=
  match vr_report (va_report verified) with
  | TD10 td10 =>
      let mrtd := hex_encode (td_mr_td td10) in
      if negb (allows_tdx_mrtd policy mrtd) then
        Err (anyhow ("TDX MR_TD " +:+ mrtd +:+ " rejected by policy"))
      else Ok ()
  | TD15 td15 =>
      let mrtd := hex_encode (td_mr_td (td_base td15)) in
      if negb (allows_tdx_mrtd policy mrtd) then
        Err (anyhow ("TDX (TD15) MR_TD " +:+ mrtd +:+ " rejected by policy"))
      else Ok ()
  | SgxEnclave enclave =>
      let mrenclave := hex_encode (er_mr_enclave enclave) in
      let mrsigner := hex_encode (er_mr_signer enclave) in
      if negb (allows_sgx_measurements policy mrenclave mrsigner (er_isv_svn enclave)) then
        Err (anyhow ("SGX measurements rejected (mrenclave=" +:+ mrenclave +:+ ", mrsigner=" +:+
          mrsigner +:+ ", isv_svn=" +:+ n_to_string (er_isv_svn enclave) +:+ ")"))
      else Ok ()
  end.

Definition check_subject (subject_cn : option string) (subject_allowlist : option (gset string)) :
    result AnyhowError () :=
  match subject_allowlist with
  | None => Ok ()
  | Some allowlist =>
      subject ← ok_or subject_cn (anyhow "server certificate has no common name");
      if bool_decide (to_lowercase (trim subject) ∈ allowlist) then Ok ()
      else Err (anyhow ("server subject " +:+ subject +:+ " not in allowlist"))
  end.

Definition check_compose_hash (policy : MeasurementPolicy) (verified : VerifiedAttestation) :
    result AnyhowError () :=
  let compose_hash := h ← ok (decode_compose_hash verified); if is_empty h then None else Some h in
  let rejected h := Err (anyhow ("compose hash " +:+ h +:+ " rejected by policy")) in
  if expects_compose_hash policy then
    h ← ok_or compose_hash (anyhow "attestation missing compose hash while policy requires it");
    if allows_compose_hash policy h then Ok () else rejected h
  else
    match compose_hash with
    | Some h => if allows_compose_hash policy h then Ok () else rejected h
    | None => Ok ()
    end.

Definition verify_peer_certificate_async (env : Env) (certificate : bytes)
    (policy : ClientPolicy) (subject_allowlist : option (gset string))
    (pccs_url : option string) : MA () :=
  cert ← lift (map_err (λ err, anyhow ("failed to parse X.509 certificate: " +:+ err))
           (x509_from_der certificate));
  let subject_cn := mjoin (head (cert_common_names cert)) in
  lift (check_subject subject_cn subject_allowlist);;
  parsed ← lift (map_err (context "failed to parse RA-TLS attestation") (from_der certificate));
  attestation ← lift (ok_or parsed (anyhow "certificate does not contain RA-TLS attestation"));
  verified ← eff_map_err (context "RA-TLS attestation verification failed")
    (verify_with_ra_pubkey env attestation (cert_public_key cert) pccs_url);
  lift (check_compose_hash (measurement policy) verified);;
  lift (enforce_measurement_policy (measurement policy) verified).

(** [ServerCertVerifier for RaTlsServerVerifier]: only the end entity is looked
    at. [handle] is the result of [Handle::try_current()]. *)
Definition ratls_verify_server_cert (env : Env) (handle : result string ())
    (self : RaTlsServerVerifier) (end_entity : bytes) : eff World RustlsError () :=
  lift (map_err (λ err, General ("RA-TLS verification requires Tokio runtime: " +:+ err)) handle);;
  eff_map_err (λ err, General ("RA-TLS verification failed: " +:+ anyhow_display err))
    (verify_peer_certificate_async env end_entity (rv_policy self) (rv_subject_allowlist self)
       (rv_pccs_url self)).

(** ** What is accepted *)

(** The first compose event of an event log, as the policy compares it. *)
Definition logged_compose_hash (log : bytes) : option string :=
  match log with
  | [] => None
  | _ =>
      events ← ok (event_log_from_slice log);
      ev ← head (filter is_compose_event events);
      Some (hex_encode (ev_event_payload ev))
  end.

Definition measurements_allowed (p : MeasurementPolicy) (r : Report) : Prop :=
  match r with
  | TD10 td | TD15 {| td_base := td |} =>
      allowed_mrtd p = ∅ ∨ to_lowercase (hex_encode (td_mr_td td)) ∈ allowed_mrtd p
  | SgxEnclave e =>
      (allowed_mrenclave p = ∅ ∨
        to_lowercase (hex_encode (er_mr_enclave e)) ∈ allowed_mrenclave p) ∧
      (allowed_mrsigner p = ∅ ∨
        to_lowercase (hex_encode (er_mr_signer e)) ∈ allowed_mrsigner p) ∧
      (∀ m, min_isvsvn p = Some m → m ≤ er_isv_svn e)
  end.

Record peer_accepted (env : Env) (der : bytes) (p : MeasurementPolicy)
    (allowlist : option (gset string)) (pccs : option string) (t : nat)
    (cert : Certificate) (a : Attestation) (v : VerifiedAttestation) : Prop := {
  pa_parsed : x509_from_der der = Ok cert;
  pa_subject subjects : allowlist = Some subjects → ∃ cn,
    head (cert_common_names cert) = Some (Some cn) ∧ to_lowercase (trim cn) ∈ subjects;
  pa_attestation : from_der der = Ok (Some a);
  pa_evidence : evidence env a (cert_public_key cert) pccs t v;
  pa_compose h : expected_compose_hash p = Some h → ∃ h',
    logged_compose_hash (at_raw_event_log a) = Some h' ∧ h' ≠ "" ∧ to_lowercase h' = h;
  pa_measured : measurements_allowed p (vr_report (va_report v));
}.

Lemma set_allows_true set value :
  set_allows set value = true ↔ set = ∅ ∨ to_lowercase value ∈ set.
Proof. unfold set_allows. by rewrite orb_true_iff, !bool_decide_eq_true. Qed.

Lemma measurements_Ok p v :
  enforce_measurement_policy p v = Ok () ↔ measurements_allowed p (vr_report (va_report v)).
Proof.
  assert (∀ (b : bool) (e : AnyhowError), (if negb b then Err e else Ok ()) = Ok () ↔ b = true)
    as Hif by (intros [] e; cbn; split; done).
  unfold enforce_measurement_policy. destruct (vr_report _) as [e|td|[td]]; rewrite Hif; cbn.
  - unfold allows_sgx_measurements. rewrite !andb_true_iff, !set_allows_true.
    destruct (min_isvsvn p) as [m|]; cbn; [rewrite N.leb_le|]; naive_solver.
  - apply set_allows_true.
  - apply set_allows_true.
Qed.

Lemma check_subject_Ok cn allowlist :
  check_subject cn allowlist = Ok () ↔
  ∀ subjects, allowlist = Some subjects → ∃ c, cn = Some c ∧ to_lowercase (trim c) ∈ subjects.
Proof.
  unfold check_subject. destruct allowlist as [set|]; [|naive_solver].
  destruct cn as [c|]; cbn; [|naive_solver].
  case_bool_decide; naive_solver.
Qed.

Lemma decode_compose_logged v h :
  decode_compose_hash v = Ok h ↔ logged_compose_hash (va_raw_event_log v) = Some h.
Proof.
  unfold decode_compose_hash, logged_compose_hash.
  destruct (va_raw_event_log v) as [|b log]; [naive_solver|].
  destruct (event_log_from_slice _) as [events|]; cbn; [|naive_solver].
  destruct (filter _ events) as [|ev evs]; cbn; naive_solver.
Qed.

Lemma check_compose_Ok p v :
  check_compose_hash p v = Ok () ↔
  ∀ h, expected_compose_hash p = Some h → ∃ h',
    logged_compose_hash (va_raw_event_log v) = Some h' ∧ h' ≠ "" ∧ to_lowercase h' = h.
Proof.
  unfold check_compose_hash, expects_compose_hash, allows_compose_hash.
  assert (∀ h, (h ← ok (decode_compose_hash v); if is_empty h then None else Some h) = Some h ↔
    logged_compose_hash (va_raw_event_log v) = Some h ∧ h ≠ "") as Hc.
  { intros h. rewrite <-decode_compose_logged.
    destruct (decode_compose_hash v) as [h1|]; cbn; [|naive_solver].
    destruct h1; cbn; naive_solver. }
  revert Hc. generalize (h ← ok (decode_compose_hash v); if is_empty h then None else Some h).
  intros [h'|] Hc; destruct (expected_compose_hash p) as [h|]; cbn.
  - destruct (proj1 (Hc h') eq_refl) as [E Hne]. case_bool_decide as Hh; split; try done.
    + intros _ ? [= <-]. by exists h'.
    + intros Hx. destruct (Hx h eq_refl) as (h1 & E1 & Hne1 & Hl). congruence.
  - done.
  - split; [done|]. intros Hx. destruct (Hx h eq_refl) as (h' & E1 & Hne & _).
    by assert (None = Some h') by by apply Hc.
  - done.
Qed.

Lemma verify_peer_run env der p name allowlist pccs w :
  fst (verify_peer_certificate_async env der {| policy_name := name; measurement := p |}
         allowlist pccs w) = Ok () ↔
  ∃ cert a v, peer_accepted env der p allowlist pccs (w_tick w) cert a v.
Proof.
  unfold verify_peer_certificate_async. split.
  - match goal with |- fst ?x = _ → _ => destruct x as [r w'] eqn:Er end. cbn [fst]. intros ->.
    apply eff_bind_Ok in Er as (cert & w1 & [Ec%map_err_Ok <-]%lift_Ok & Er).
    apply eff_bind_Ok in Er as ([] & w2 & [Es <-]%lift_Ok & Er).
    pose proof (proj1 (check_subject_Ok _ _) Es) as Es1.
    apply eff_bind_Ok in Er as (parsed & w3 & [Ea%map_err_Ok <-]%lift_Ok & Er).
    apply eff_bind_Ok in Er as (a & w4 & [->%ok_or_Ok <-]%lift_Ok & Er).
    apply eff_bind_Ok in Er as (v & w5 & Ev%eff_map_err_Ok & Er).
    apply (f_equal fst) in Ev. apply verify_ra_Ok in Ev.
    apply eff_bind_Ok in Er as ([] & w6 & [Eh <-]%lift_Ok & Er).
    pose proof (proj1 (check_compose_Ok _ _) Eh) as Eh1.
    apply lift_Ok in Er as [Em%measurements_Ok _].
    exists cert, a, v. split; try done.
    + intros subjects Hs. destruct (Es1 _ Hs) as (cn & Hcn & Hin). exists cn. split; [|done].
      destruct (head (cert_common_names cert)); cbn in Hcn; congruence.
    + intros h Hh. rewrite <-(ev_log _ _ _ _ _ _ Ev). by apply Eh1.
  - intros (cert & a & v & [Ec Es Ea Ev Eh Em]).
    rewrite (eff_bind_step _ _ w cert w) by (unfold lift; by rewrite Ec).
    rewrite (eff_bind_step _ _ w () w).
    2:{ unfold lift. f_equal. apply check_subject_Ok. intros subjects Hs.
        destruct (Es _ Hs) as (cn & -> & Hin). by exists cn. }
    rewrite (eff_bind_step _ _ w (Some a) w) by (unfold lift; by rewrite Ea).
    rewrite (eff_bind_step _ _ w a w) by done.
    pose proof (proj2 (verify_ra_Ok _ _ _ _ w _) Ev) as Er.
    destruct (verify_with_ra_pubkey env a (cert_public_key cert) pccs w) as [r w'] eqn:E.
    cbn in Er. subst r.
    rewrite (eff_bind_step _ _ w v w') by (unfold eff_map_err; by rewrite E).
    rewrite (eff_bind_step _ _ w' () w').
    2:{ unfold lift. f_equal. apply check_compose_Ok. intros h Hh.
        rewrite (ev_log _ _ _ _ _ _ Ev). by apply Eh. }
    unfold lift. cbn [fst]. by apply measurements_Ok.
Qed.

Lemma ratls_accepted env handle self der w :
  fst (ratls_verify_server_cert env handle self der w) = Ok () ↔
  handle = Ok () ∧ ∃ cert a v,
    peer_accepted env der (measurement (rv_policy self)) (rv_subject_allowlist self)
      (rv_pccs_url self) (w_tick w) cert a v.
Proof.
  unfold ratls_verify_server_cert. rewrite <-(verify_peer_run _ _ _ (policy_name (rv_policy self))).
  destruct handle as [[]|e]; [|split; [done|by intros [[=] _]]].
  rewrite (eff_bind_step _ _ w () w) by done. unfold eff_map_err.
  destruct (rv_policy self) as [name p]; cbn [measurement policy_name].
  destruct (verify_peer_certificate_async _ _ _ _ _ w) as [[[]|e] w']; cbn; naive_solver.
Qed.

(** C10. Attested peers, exactly: a certificate is accepted if and only if it
    parses; its common name is on the allowlist, when there is one; it carries an
    Intel quote whose report data is the digest of the certificate's own public
    key, and the quote verifies now against the collateral of the configured
    service; the first compose event of its event log is the expected hash, when
    there is one; and the measurements that the quote reports are those of the
    policy. *)
Theorem peer_accepted_iff env handle self der w :
  fst (ratls_verify_server_cert env handle self der w) = Ok () ↔
  handle = Ok () ∧ ∃ cert a v,
    peer_accepted env der (measurement (rv_policy self)) (rv_subject_allowlist self)
      (rv_pccs_url self) (w_tick w) cert a v.
Proof. apply ratls_accepted. Qed.

(** What a quote signs for a public key: the digest of this text. *)
Definition bound_text (key : bytes) : bytes := RA_TLS_BINDING_TAG ++ as_bytes ":" ++ key.

(** C12. A quote vouches for one key: if the quote of a certificate is accepted in
    another certificate (copied by an impostor, say), whatever the policies, its
    report data is the SHA-512 of the tagged public key of either certificate; so
    the two certificates hold the same public key, or their own two tagged keys are
    different texts with the same SHA-512. *)
Theorem quote_binds_one_key env1 handle1 self1 der1 w1 env2 handle2 self2 der2 w2 cert1 cert2
    quote log1 log2 :
  fst (ratls_verify_server_cert env1 handle1 self1 der1 w1) = Ok () →
  fst (ratls_verify_server_cert env2 handle2 self2 der2 w2) = Ok () →
  x509_from_der der1 = Ok cert1 → x509_from_der der2 = Ok cert2 →
  from_der der1 = Ok (Some {| at_quote := quote; at_raw_event_log := log1 |}) →
  from_der der2 = Ok (Some {| at_quote := quote; at_raw_event_log := log2 |}) →
  let k1 := cert_public_key cert1 in
  let k2 := cert_public_key cert2 in
  (∃ report, quote_parse quote = Ok report ∧
     report_data_of report = sha512 (bound_text k1) ∧
     report_data_of report = sha512 (bound_text k2)) ∧
  (k1 = k2 ∨ bound_text k1 ≠ bound_text k2 ∧ sha512 (bound_text k1) = sha512 (bound_text k2)).
Proof.
  intros E1 E2 P1 P2 Q1 Q2.
  assert (∀ env handle self der w cert log,
    fst (ratls_verify_server_cert env handle self der w) = Ok () →
    x509_from_der der = Ok cert →
    from_der der = Ok (Some {| at_quote := quote; at_raw_event_log := log |}) →
    ∃ r, quote_parse quote = Ok r ∧ report_data_of r = key_binding (cert_public_key cert)) as Hb.
  { clear. intros env handle self der w cert log E P Q.
    unfold ratls_verify_server_cert in E.
    destruct handle as [[]|e]; [|done]. rewrite (eff_bind_step _ _ w () w) in E by done.
    assert (fst (verify_peer_certificate_async env der (rv_policy self) (rv_subject_allowlist self)
      (rv_pccs_url self) w) = Ok ()) as E'.
    { unfold eff_map_err in E.
      destruct (verify_peer_certificate_async _ _ _ _ _ w) as [[[]|e] w']; done. }
    destruct (rv_policy self) as [name p].
    apply verify_peer_run in E' as (cert' & a & v & [Hc _ Ha He _ _]).
    assert (cert' = cert) as -> by congruence.
    assert (a = {| at_quote := quote; at_raw_event_log := log |}) as -> by congruence.
    exact (ev_bound _ _ _ _ _ _ He). }
  destruct (Hb _ _ _ _ _ _ _ E1 P1 Q1) as (r1 & R1 & B1).
  destruct (Hb _ _ _ _ _ _ _ E2 P2 Q2) as (r2 & R2 & B2).
  assert (r2 = r1) as -> by congruence. cbn zeta. unfold key_binding in B1, B2.
  fold (bound_text (cert_public_key cert1)) in B1. fold (bound_text (cert_public_key cert2)) in B2.
  split; [by exists r1|].
  destruct (decide (cert_public_key cert1 = cert_public_key cert2)) as [|Hne]; [by left|right].
  split; [|congruence]. intros E. by apply app_inv_head, app_inv_head in E.
Qed.

(** *** The event log is not part of the evidence *)

Definition with_compose_hash (h : string) (p : MeasurementPolicy) : MeasurementPolicy := {|
  allowed_mrtd := allowed_mrtd p; allowed_mrenclave := allowed_mrenclave p;
  allowed_mrsigner := allowed_mrsigner p; min_isvsvn := min_isvsvn p;
  expected_compose_hash := Some h |}.

Lemma ratls_verify_run env p name allowlist pccs der w :
  (∃ cert a v, peer_accepted env der p allowlist pccs (w_tick w) cert a v) →
  fst (ratls_verify_server_cert env (Ok ()) {|
    rv_policy := {| policy_name := name; measurement := p |};
    rv_subject_allowlist := allowlist; rv_pccs_url := pccs |} der w) = Ok ().
Proof.
  intros Ha%(verify_peer_run _ _ _ name). unfold ratls_verify_server_cert.
  rewrite (eff_bind_step _ _ w () w) by done. unfold eff_map_err. cbn [rv_policy rv_subject_allowlist rv_pccs_url].
  by destruct (verify_peer_certificate_async _ _ _ _ _ w) as [[[]|e] w'].
Qed.

(** C40. The compose hash is what the peer says it is: a peer that is accepted
    without an expected compose hash is accepted with any expected hash if it
    presents its quote and its key with an event log that names this hash. The log
    is never compared with the registers that the quote reports. *)
Theorem compose_hash_unauthenticated env name p allowlist pccs w der cert a v der' cert' a' h :
  peer_accepted env der p allowlist pccs (w_tick w) cert a v →
  x509_from_der der' = Ok cert' →
  cert_common_names cert' = cert_common_names cert →
  cert_public_key cert' = cert_public_key cert →
  from_der der' = Ok (Some a') → at_quote a' = at_quote a →
  logged_compose_hash (at_raw_event_log a') = Some h → h ≠ "" →
  fst (ratls_verify_server_cert env (Ok ()) {|
    rv_policy := {| policy_name := name; measurement := with_compose_hash (to_lowercase h) p |};
    rv_subject_allowlist := allowlist; rv_pccs_url := pccs |} der' w) = Ok ().
Proof.
  intros [Ec Es Ea [(vendor & Ev & Hv) Eb Eg El] Eh Em] Ec' En Ek Ea' Eq Hlog Hne.
  apply ratls_verify_run.
  exists cert', a', {| va_report := va_report v; va_raw_event_log := at_raw_event_log a' |}.
  split; cbn; try done.
  - by rewrite En.
  - split; cbn; rewrite ?Eq, ?Ek; try done.
    exists vendor. split; [|done]. revert Ev. unfold detect_vendor_from_quote. by rewrite Eq.
  - intros h0 [= <-]. by exists h.
Qed.
(** *** SPIFFE peers *)

Lemma lower_no_slash s : no_char "/" s → no_char "/" (to_ascii_lowercase s).
Proof.
  induction s as [|c s IH]; [done|]. intros [Hc Hs]%no_char_cons.
  apply no_char_cons. split; [|by apply IH].
  revert Hc. destruct c as [[] [] [] [] [] [] [] []]; done.
Qed.

Lemma normalize_Some uri id : normalize_spiffe_id uri = Some id ↔
  ∃ td path, uri = "spiffe://" +:+ td +:+ String "/" path ∧ no_char "/" td ∧ td ≠ "" ∧
    id = "spiffe://" +:+ to_ascii_lowercase td +:+ String "/" path.
Proof.
  unfold normalize_spiffe_id. split.
  - destruct (strip_prefix "spiffe://" uri) as [rest|] eqn:E1; [|done].
    apply strip_prefix_Some in E1 as ->. cbn [mbind option_bind].
    destruct (split_once "/" rest) as [[td path]|] eqn:E2; [|done].
    apply split_once_Some in E2 as [-> Hn]. cbn [mbind option_bind].
    destruct td as [|c td]; [done|]. cbn [is_empty]. intros [= <-]. by exists (String c td), path.
  - intros (td & path & -> & Hn & Hne & ->). rewrite strip_prefix_app. cbn [mbind option_bind].
    rewrite split_once_app by done. cbn [mbind option_bind]. by destruct td.
Qed.

(** The same identifier: trust domains up to case, paths exactly. *)
Definition same_spiffe_id (u1 u2 : string) : Prop := ∃ td1 td2 path,
  u1 = "spiffe://" +:+ td1 +:+ String "/" path ∧ no_char "/" td1 ∧ td1 ≠ "" ∧
  u2 = "spiffe://" +:+ td2 +:+ String "/" path ∧ no_char "/" td2 ∧ td2 ≠ "" ∧
  to_ascii_lowercase td1 = to_ascii_lowercase td2.

Lemma normalize_same u1 u2 :
  same_spiffe_id u1 u2 ↔ ∃ id, normalize_spiffe_id u1 = Some id ∧ normalize_spiffe_id u2 = Some id.
Proof.
  split.
  - intros (td1 & td2 & path & E1 & N1 & H1' & E2 & N2 & H2' & El).
    exists ("spiffe://" +:+ to_ascii_lowercase td1 +:+ String "/" path).
    split; apply normalize_Some; eauto 10. exists td2, path. by rewrite El.
  - intros (id & (td1 & p1 & -> & N1 & H1' & ->)%normalize_Some & (td2 & p2 & -> & N2 & H2' & E)%normalize_Some).
    apply string_app_inj_l, app_sep_inj in E as [El ->]; [|by apply lower_no_slash..].
    by exists td1, td2, p2.
Qed.

(** C26. SPIFFE peers, exactly: a verifier for a target identifier accepts a
    certificate if and only if its chain is valid for the trust bundle, and among
    its alternative names there is exactly one URI, which is the target (the trust
    domain up to case, the path exactly). *)
Theorem spiffe_accepted_iff roots target self end_entity intermediates server_name ocsp now :
  spiffe_new roots target = Ok self →
  spiffe_verify_server_cert self end_entity intermediates server_name ocsp now = Ok () ↔
  webpki_verify roots end_entity intermediates server_name ocsp now = Ok () ∧
  ∃ cert names uri, x509_from_der end_entity = Ok cert ∧
    cert_alternative_names cert = Ok (Some names) ∧ uri_names names = [uri] ∧
    same_spiffe_id uri target.
Proof.
  unfold spiffe_new. intros ([] & _ & (id & Hid%ok_or_Ok & [= <-])%result_bind_Ok)%result_bind_Ok.
  unfold spiffe_verify_server_cert. cbn [sv_roots sv_allowed]. setoid_rewrite normalize_same.
  split.
  - intros ([] & Hw & (cert & Hc%map_err_Ok & E)%result_bind_Ok)%result_bind_Ok. split; [done|].
    destruct (cert_alternative_names cert) as [[names|]|] eqn:En; [|done..].
    destruct (uri_names names) as [|uri [|]] eqn:Eu; [done| |done].
    apply result_bind_Ok in E as (n & Hn%ok_or_Ok & E). case_bool_decide; [|done]. subst n.
    exists cert, names, uri. eauto 10.
  - intros (Hw & cert & names & uri & Hc & En & Eu & id' & Hn & Hid').
    rewrite Hw, Hc. cbn -[normalize_spiffe_id]. rewrite En, Eu, Hn. cbn -[normalize_spiffe_id].
    rewrite Hid in Hid'. injection Hid' as ->. by rewrite bool_decide_eq_true_2.
Qed.
End verifiers.
End Peer.

(** ** Certificates as bytes *)

(** Reference instances: a certificate is a key byte, a subject byte and an event
    log; its quote is a TDX quote of version 4 that is bound to the key. *)
Module PeerRef.
Import Ref RaTls.

Definition ref_quote (key : bytes) : bytes :=
  [Byte.x04; Byte.x00; Byte.x00; Byte.x00; Byte.x81; Byte.x00; Byte.x00; Byte.x00; Byte.xab]
  ++ key_binding key.
#[export] Instance ref_cert : CertApi := {|
  Certificate := Byte.byte * Byte.byte * bytes;
  x509_from_der der :=
    match der with k :: s :: log => Ok (k, s, log) | _ => Err "incomplete" end;
  cert_common_names c := [from_utf8 [c.1.2]];
  cert_public_key c := [c.1.1];
  cert_alternative_names c := Ok (Some [OtherName; URI "spiffe://Example.Org/broker"]);
  Oid := list N;
  oid_from := Some;
  cert_extension_unique c oid :=
    Ok (if decide (oid = PHALA_RATLS_QUOTE_OID) then Some (ref_quote [c.1.1]) else Some c.2);
  der_read_bytes := Ok;
|}.
#[export] Instance ref_qvl : QvlApi := {|
  Collateral := unit;
  VerifiedReport := Report;
  vr_report r := r;
  quote_parse q := Ok (TD10 {| td_mr_td := take 1 (drop 8 q); td_report_data := drop 9 q |});
  get_collateral url q t := Ok ();
  qvl_verify q c now :=
    Ok (TD10 {| td_mr_td := take 1 (drop 8 q); td_report_data := drop 9 q |});
  event_log_from_slice log :=
    Ok [{| ev_imr := 3; ev_event := "compose-hash"; ev_event_payload := log |}];
|}.
#[export] Instance ref_rustls : RustlsApi := {|
  ServerName := string;
  webpki_build roots := match roots with [] => Err "no root trust anchors" | _ => Ok () end;
  webpki_verify roots ee inter name ocsp now :=
    if decide (ee ∈ roots) then Ok () else Err (OtherError "UnknownIssuer");
|}.
End PeerRef.

Section concrete.
Import Ref RaTls Peer PeerRef.

(** Key "K", subject "s", and the log that names the hash ab01. *)
Definition ex_der : bytes := [Byte.x4b; Byte.x53; Byte.xab; Byte.x01].
Definition ex_cert : Certificate := (Byte.x4b, Byte.x53, [Byte.xab; Byte.x01]).
Definition ex_measurement : MeasurementPolicy := {|
  allowed_mrtd := {["ab"]}; allowed_mrenclave := ∅; allowed_mrsigner := ∅; min_isvsvn := None;
  expected_compose_hash := None |}.
Definition ex_verifier : RaTlsServerVerifier := {|
  rv_policy := {| policy_name := "default"; measurement := ex_measurement |};
  rv_subject_allowlist := Some {["s"]}; rv_pccs_url := Some "https://pccs" |}.
Definition ex_server_name : @ServerName ref_rustls := "broker".
Definition ex_peer_world : World := mk_world 0 empty_tables (0%N, ∅) [].

Lemma ex_peer_ok : fst (ratls_verify_server_cert ∅ (Ok ()) ex_verifier ex_der ex_peer_world) = Ok ().
Proof. vm_compute. reflexivity. Qed.

Lemma quote_binds_one_key_witness : ∃ report, quote_parse (ref_quote [Byte.x4b]) = Ok report ∧
  report_data_of report = sha512 (bound_text [Byte.x4b]).
Proof.
  destruct (quote_binds_one_key ∅ (Ok ()) ex_verifier ex_der ex_peer_world
    ∅ (Ok ()) ex_verifier (ex_der ++ [Byte.x00]) ex_peer_world
    ex_cert (Byte.x4b, Byte.x53, [Byte.xab; Byte.x01; Byte.x00])
    (ref_quote [Byte.x4b]) [Byte.xab; Byte.x01] [Byte.xab; Byte.x01; Byte.x00]
    ex_peer_ok ltac:(vm_compute; reflexivity) eq_refl eq_refl
    ltac:(vm_compute; reflexivity) ltac:(vm_compute; reflexivity)) as [(report & E & B & _) _].
  exists report. split; [exact E|exact B].
Defined.

(** The same quote and key, with a log that names the hash ff. *)
Lemma compose_hash_unauthenticated_witness :
  fst (ratls_verify_server_cert ∅ (Ok ()) {|
    rv_policy := {| policy_name := "pinned"; measurement := with_compose_hash "ff" ex_measurement |};
    rv_subject_allowlist := Some {["s"]}; rv_pccs_url := Some "https://pccs" |}
    [Byte.x4b; Byte.x53; Byte.xff] ex_peer_world) = Ok ().
Proof.
  destruct (proj1 (ratls_accepted ∅ (Ok ()) ex_verifier ex_der ex_peer_world) ex_peer_ok)
    as [_ (cert & a & v & Ha)].
  assert (cert = ex_cert) as -> by (destruct Ha as [Hc]; injection Hc as <-; reflexivity).
  assert (at_quote a = ref_quote [Byte.x4b]) as Hq
    by (destruct Ha as [_ _ Hd]; injection Hd as <-; reflexivity).
  exact (compose_hash_unauthenticated ∅ "pinned" ex_measurement (Some {["s"]}) (Some "https://pccs")
    ex_peer_world ex_der ex_cert a v [Byte.x4b; Byte.x53; Byte.xff]
    (Byte.x4b, Byte.x53, [Byte.xff])
    {| at_quote := ref_quote [Byte.x4b]; at_raw_event_log := [Byte.xff] |} "ff"
    Ha eq_refl eq_refl eq_refl ltac:(vm_compute; reflexivity) (eq_sym Hq) eq_refl ltac:(done)).
Defined.

Lemma spiffe_accepted_iff_witness :
  spiffe_verify_server_cert {| sv_roots := [ex_der]; sv_allowed := "spiffe://example.org/broker" |}
    ex_der [] ex_server_name [] 0 = Ok ().
Proof.
  apply (spiffe_accepted_iff [ex_der] "spiffe://EXAMPLE.org/broker"
    {| sv_roots := [ex_der]; sv_allowed := "spiffe://example.org/broker" |}
    ex_der [] ex_server_name [] 0 eq_refl).
  split; [vm_compute; reflexivity|].
  exists ex_cert, [OtherName; URI "spiffe://Example.Org/broker"], "spiffe://Example.Org/broker".
  split; [reflexivity|]. split; [reflexivity|]. split; [reflexivity|].
  exists "Example.Org", "EXAMPLE.org", "broker". repeat split; done.
Defined.
End concrete.
