(* ===== verification/BrokerConfig.v ===== *)
(** * Configuration of the broker client (src/secret_broker_client.rs)

    [SecretBrokerClientConfig::from_env] with the checks of the endpoint and of the
    attestation mode, the policy file and the client identity. Files, PEM, JSON and
    URL parsing are parameters; the channel is in [BrokerTls.v]. *)
From S2P Require Import Prelude RustStd Platform World Environment RaTls Net PeerVerification Reference.
Local Open Scope N_scope.

(** ** [std::fs], [rustls_pemfile], [url], [serde_json::from_str] *)

Inductive PrivateKeyDer := Pkcs8 (der : bytes) | Pkcs1 (der : bytes) | Sec1 (der : bytes).
Inductive PemItem :=
  | X509Item (cert : bytes)
  | KeyItem (key : PrivateKeyDer)
  | OtherItem.

Class FsApi := {
  (** [fs::read(path)]; errors are their [Display] form *)
  fs_read : string → result string bytes;
}.
Class PemApi := {
  (** [read_all] and [certs] *)
  pem_read_all : bytes → list (result string PemItem);
  pem_certs : bytes → list (result string bytes);
}.
Class UrlApi := {
  Url : Type;
  url_parse : string → result string Url;
  url_scheme : Url → string;
  url_host_str : Url → option string;
  url_username : Url → string;
  url_to_string : Url → string;
  (** [let _ = url.set_scheme(scheme)] *)
  url_set_scheme : string → Url → Url;
}.

(** [fs::read_to_string] *)
Definition read_to_string `{FsApi} (path : string) : result string string :=
  b ← fs_read path; ok_or (from_utf8 b) "stream did not contain valid UTF-8".

Module BrokerConfig.
Import RaTls Peer Net.

Inductive AttestationMode := Enforced | Disabled | Spiffe | Local.
#[export] Instance attestation_mode_eq_dec : EqDecision AttestationMode.
Proof. solve_decision. Defined.

(** The [Debug] form. *)
Definition mode_debug (m : AttestationMode) : string :=
  match m with
  | Enforced => "Enforced" | Disabled => "Disabled" | Spiffe => "Spiffe" | Local => "Local"
  end.

Definition is_enforced (self : AttestationMode) : bool :=
  match self with Enforced => true | _ => false end.

Definition from_env_var `{UnicodeTables} (env : Env) (key default : string) :
    result AnyhowError AttestationMode :=
  let raw := unwrap_or default (env_var env key) in
  let v := to_ascii_lowercase (trim raw) in
  if bool_decide (v = "disabled") then Ok Disabled
  else if bool_decide (v = "spiffe") then Ok Spiffe
  else if bool_decide (v = "local") then Ok Local
  else if bool_decide (v = "enforced") then Ok Enforced
  else Err (anyhow (key +:+ " must be one of enforced, spiffe, local, or disabled; got " +:+
                    debug_str raw)).

Definition UNSAFE_FLAG_ENV : string := "SECURE_DB_ALLOW_UNSAFE_BROKER".

(** [debug_build] is [cfg!(debug_assertions)]. *)
Definition ensure_attestation_mode `{UnicodeTables} (debug_build : bool) (env : Env)
    (mode : AttestationMode) : result AnyhowError () :=
  if is_enforced mode || bool_decide (mode ∈ [Spiffe; Local]) then Ok ()
  else if debug_build then
    let flag := match ok (env_var env UNSAFE_FLAG_ENV) with
                | Some raw => bool_decide (to_lowercase (trim raw) ∈ ["1"; "true"; "yes"])
                | None => false
                end in
    if flag then Ok ()
    else Err (anyhow ("secret-broker attestation mode " +:+ mode_debug mode +:+ " requires " +:+
                      UNSAFE_FLAG_ENV +:+ "=1 and a debug build"))
  else Err (anyhow ("secret-broker attestation mode " +:+ mode_debug mode +:+
                    " is forbidden in release builds")).

(** A host name that stays on the machine. *)
Definition loopback_host (host : string) : bool :=
  let normalized := to_ascii_lowercase (trim host) in
  bool_decide (normalized = "localhost") || ends_with ".localhost" normalized ||
  match parse_ip_addr normalized with Some ip => is_loopback ip | None => false end.

Definition secret_broker_endpoint_is_loopback `{UrlApi} (endpoint : Url) : bool :=
  match url_host_str endpoint with
  | None => false
  | Some host => loopback_host host
  end.

Section config.
Context `{UuidApi, JsonApi, BrokerApi} `{!Host} `{UnicodeTables} `{Digests} `{Hex}.
Context `{CertApi} `{QvlApi} `{RustlsApi} `{FsApi} `{PemApi} `{UrlApi} `{!JsonText}.

(** ** The policy file *)

(** [ClientPolicy::string_set] *)
Definition string_set (value : option JsonValue) : gset string :=
  match value ≫= json_as_array with
  | Some arr => list_to_set (to_lowercase <$> omap json_as_str arr)
  | None => ∅
  end.

Definition transport_only : ClientPolicy := {|
  policy_name := "transport-only"; measurement := allow_all |}.

(** The measurements a policy file names. *)
Definition measurement_of_json (value : JsonValue) : MeasurementPolicy := {|
  allowed_mrtd := string_set (json_get value "allowed_mrtd");
  allowed_mrenclave := string_set (json_get value "allowed_mrenclave");
  allowed_mrsigner := string_set (json_get value "allowed_mrsigner");
  min_isvsvn := (λ v, v mod 65536) <$> (json_get value "min_isvsvn" ≫= json_as_u64);
  expected_compose_hash :=
    to_lowercase <$> (json_get value "expected_compose_hash" ≫= json_as_str) |}.

Definition from_file (path : string) : result AnyhowError ClientPolicy :=
  raw ← map_err (λ e, context ("failed to read client policy file: " +:+ path) (anyhow e))
          (read_to_string path);
  value ← map_err (λ e, context "failed to parse policy file (expected JSON)" (anyhow e))
            (json_from_str raw);
  let measurement := measurement_of_json value in
  if bool_decide (allowed_mrtd measurement = ∅) &&
     bool_decide (allowed_mrenclave measurement = ∅) &&
     bool_decide (allowed_mrsigner measurement = ∅) &&
     negb (is_some (expected_compose_hash measurement)) then
    Err (anyhow "attestation policy must restrict at least one measurement or compose hash")
  else Ok {|
    policy_name := default "default" (json_get value "policy_name" ≫= json_as_str);
    measurement := measurement |}.

(** [ClientPolicy::from_env] *)
Definition policy_from_env (env : Env) (mode : AttestationMode) :
    result AnyhowError ClientPolicy :=
  match env_var env "SECRET_BROKER_CLIENT_POLICY_FILE" with
  | Ok path => from_file path
  | Err error =>
      if negb (is_enforced mode) then Ok transport_only
      else Err (anyhow
        ("SECRET_BROKER_CLIENT_POLICY_FILE must be set when attestation is enforced: " +:+
         var_error_display error))
  end.

(** ** The client's identity *)

Fixpoint collect_certs (items : list (result string PemItem)) : result AnyhowError (list bytes) :=
  match items with
  | [] => Ok []
  | Err e :: _ => Err (anyhow e)
  | Ok (X509Item cert) :: items => certs ← collect_certs items; Ok (cert :: certs)
  | Ok _ :: items => collect_certs items
  end.
Definition parse_cert_chain (b : bytes) : result AnyhowError (list bytes) :=
  certs ← collect_certs (pem_read_all b);
  match certs with
  | [] => Err (anyhow "no certificates found in client bundle")
  | _ => Ok certs
  end.

Fixpoint first_key (items : list (result string PemItem)) : result AnyhowError PrivateKeyDer :=
  match items with
  | [] => Err (anyhow "no private key found in bundle")
  | Err e :: _ => Err (anyhow e)
  | Ok (KeyItem key) :: _ => Ok key
  | Ok _ :: items => first_key items
  end.
Definition parse_private_key (b : bytes) : result AnyhowError PrivateKeyDer :=
  first_key (pem_read_all b).

Definition read_file (what path : string) : result AnyhowError bytes :=
  map_err (λ e, context ("failed to read " +:+ what +:+ path) (anyhow e)) (fs_read path).

Definition load_client_identity (env : Env) (mode : AttestationMode) :
    result AnyhowError (option (list bytes) * option PrivateKeyDer * option bytes) :=
  let cert_path := ok (env_var env "SECRET_BROKER_CLIENT_CERT") in
  let key_path := ok (env_var env "SECRET_BROKER_CLIENT_KEY") in
  identity ←
    match cert_path, key_path with
    | Some cert, Some key =>
        cert_bytes ← read_file "client cert " cert;
        key_bytes ← read_file "client key " key;
        certs ← map_err (context "failed to parse client certificate chain")
                  (parse_cert_chain cert_bytes);
        key ← map_err (context "failed to parse client private key")
                (parse_private_key key_bytes);
        Ok (Some certs, Some key, Some (cert_bytes ++ key_bytes))
    | None, None => Ok (None, None, None)
    | _, _ => Err (anyhow ("SECRET_BROKER_CLIENT_CERT and SECRET_BROKER_CLIENT_KEY must both " +:+
                           "be set or both unset"))
    end;
  if is_enforced mode && negb (is_some identity.1.1) then
    Err (anyhow ("client attestation mode is enforced but SECRET_BROKER_CLIENT_CERT/KEY are " +:+
                 "not configured"))
  else Ok identity.

(** ** [SecretBrokerClientConfig] *)

Record SecretBrokerClientConfig := {
  bc_endpoint : Url;
  bc_attestation_mode : AttestationMode;
  bc_policy : ClientPolicy;
  bc_pccs_url : option string;
  bc_subject_allowlist : option (gset string);
  bc_client_cert_chain : option (list bytes);
  bc_client_key : option PrivateKeyDer;
  bc_client_identity_pem : option bytes;
  (** in seconds *)
  bc_timeout : N;
  bc_spiffe_socket_path : option string;
  bc_my_spiffe_id : option string;
}.

Definition subject_allowlist_from_env (env : Env) : option (gset string) :=
  raw ← ok (env_var env "SECRET_BROKER_CLIENT_SUBJECTS");
  let entries := (λ entry, to_lowercase (trim entry)) <$> split ","%char raw in
  let set : gset string := list_to_set (filter (λ e, is_empty e = false) entries) in
  if bool_decide (set = ∅) then None else Some set.

Definition timeout_from_env (env : Env) : result AnyhowError N :=
  timeout_seconds ←
    match env_var env "SECRET_BROKER_CLIENT_TIMEOUT_SECS" with
    | Ok raw => map_err (λ e, context
        ("invalid SECRET_BROKER_CLIENT_TIMEOUT_SECS value " +:+ debug_str raw)
        (anyhow (parse_int_error_display e))) (parse_u64 raw)
    | Err VarNotPresent => Ok 10
    | Err error => Err (anyhow ("failed to read broker timeout: " +:+ var_error_display error))
    end;
  if timeout_seconds =? 0 then
    Err (anyhow "SECRET_BROKER_CLIENT_TIMEOUT_SECS must be greater than zero")
  else Ok timeout_seconds.

Definition endpoint_from_env (env : Env) : result AnyhowError Url :=
  raw ← map_err (λ _, anyhow "SECRET_BROKER_ENDPOINT is required")
          (env_var env "SECRET_BROKER_ENDPOINT");
  map_err (λ e, context "invalid SECRET_BROKER_ENDPOINT" (anyhow e)) (url_parse raw).

(** The endpoint a mode may connect to. *)
Definition check_endpoint (mode : AttestationMode) (endpoint : Url) : result AnyhowError () :=
  if bool_decide (mode ∈ [Local; Disabled]) &&
     negb (secret_broker_endpoint_is_loopback endpoint) then
    Err (anyhow ("SECRET_BROKER_CLIENT_MODE=" +:+ mode_debug mode +:+
                 " requires a loopback SECRET_BROKER_ENDPOINT"))
  else if negb (bool_decide (mode = Disabled)) &&
          negb (bool_decide (url_scheme endpoint = "https")) then
    Err (anyhow "SECRET_BROKER_ENDPOINT must use https unless client mode is disabled")
  else Ok ().

(** [SecretBrokerClientConfig::from_env] *)
Definition config_from_env (debug_build : bool) (env : Env) :
    result AnyhowError SecretBrokerClientConfig :=
  endpoint ← endpoint_from_env env;
  attestation_mode ← from_env_var env "SECRET_BROKER_CLIENT_MODE" "enforced";
  check_endpoint attestation_mode endpoint;;
  ensure_attestation_mode debug_build env attestation_mode;;
  policy ← policy_from_env env attestation_mode;
  let subject_allowlist := subject_allowlist_from_env env in
  if negb (is_some subject_allowlist) && is_enforced attestation_mode then
    Err (anyhow "SECRET_BROKER_CLIENT_SUBJECTS must be set when attestation is enforced")
  else
    let pccs_url := ok (env_var env "SECRET_BROKER_PCCS_URL") in
    identity ← load_client_identity env attestation_mode;
    timeout ← timeout_from_env env;
    let spiffe_socket_path :=
      match ok (env_var env "SECRET_BROKER_SPIFFE_SOCKET") with
      | Some path => Some path
      | None => if bool_decide (attestation_mode = Spiffe)
                then Some "/var/run/spire/agent.sock" else None
      end in
    let my_spiffe_id := ok (env_var env "SECRET_BROKER_CLIENT_SPIFFE_ID") in
    Ok {|
      bc_endpoint := endpoint;
      bc_attestation_mode := attestation_mode;
      bc_policy := policy;
      bc_pccs_url := pccs_url;
      bc_subject_allowlist := subject_allowlist;
      bc_client_cert_chain := identity.1.1;
      bc_client_key := identity.1.2;
      bc_client_identity_pem := identity.2;
      bc_timeout := timeout;
      bc_spiffe_socket_path := spiffe_socket_path;
      bc_my_spiffe_id := my_spiffe_id |}.

(** ** Configurations that are accepted *)

Definition restricts (p : MeasurementPolicy) : Prop :=
  allowed_mrtd p ≠ ∅ ∨ allowed_mrenclave p ≠ ∅ ∨ allowed_mrsigner p ≠ ∅ ∨
  is_Some (expected_compose_hash p).

(** The flag that allows a channel without attestation is set, to one of the
    values that count as set. *)
Definition unsafe_allowed (env : Env) : Prop := ∃ raw,
  env_var env UNSAFE_FLAG_ENV = Ok raw ∧ to_lowercase (trim raw) ∈ ["1"; "true"; "yes"].

(** The host names of this machine. *)
Definition local_name (host : string) : Prop :=
  let name := to_ascii_lowercase (trim host) in
  name = "localhost" ∨ ends_with ".localhost" name = true ∨
  ∃ ip, parse_ip_addr name = Some ip ∧ is_loopback ip = true.

Lemma loopback_host_local host : loopback_host host = true → local_name host.
Proof.
  unfold loopback_host, local_name. cbn zeta.
  intros [[Hn|Hn]%orb_true_iff|Hn]%orb_true_iff; [left; by apply bool_decide_eq_true_1 in Hn|by right; left|].
  right; right. destruct (parse_ip_addr _) as [ip|]; [by exists ip|done].
Qed.

Record broker_config_ok (debug_build : bool) (env : Env) (c : SecretBrokerClientConfig) : Prop := {
  bo_default e : env_var env "SECRET_BROKER_CLIENT_MODE" = Err e →
    bc_attestation_mode c = Enforced;
  bo_named raw : env_var env "SECRET_BROKER_CLIENT_MODE" = Ok raw →
    to_ascii_lowercase (trim raw) = to_ascii_lowercase (mode_debug (bc_attestation_mode c));
  bo_endpoint : ∃ raw, env_var env "SECRET_BROKER_ENDPOINT" = Ok raw ∧
    url_parse raw = Ok (bc_endpoint c);
  bo_https : bc_attestation_mode c ≠ Disabled → url_scheme (bc_endpoint c) = "https";
  bo_loopback : bc_attestation_mode c = Local ∨ bc_attestation_mode c = Disabled →
    ∃ host, url_host_str (bc_endpoint c) = Some host ∧ local_name host;
  bo_unsafe : bc_attestation_mode c = Disabled →
    debug_build = true ∧ unsafe_allowed env;
  bo_policy : bc_attestation_mode c = Enforced → restricts (measurement (bc_policy c));
  bo_subjects : bc_attestation_mode c = Enforced → is_Some (bc_subject_allowlist c);
  bo_subject s : bc_subject_allowlist c = Some s → s ≠ ∅;
  bo_identity : bc_attestation_mode c = Enforced → is_Some (bc_client_cert_chain c);
  bo_pair :
    (∃ certs key pem, bc_client_cert_chain c = Some certs ∧ certs ≠ [] ∧
       bc_client_key c = Some key ∧ bc_client_identity_pem c = Some pem) ∨
    (bc_client_cert_chain c = None ∧ bc_client_key c = None ∧ bc_client_identity_pem c = None);
  bo_timeout : 0 < bc_timeout c ≤ u64_max;
  bo_socket : bc_attestation_mode c = Spiffe → is_Some (bc_spiffe_socket_path c);
}.

Lemma from_file_restricts path p : from_file path = Ok p → restricts (measurement p).
Proof.
  unfold from_file. intros (raw & _ & (v & _ & E)%result_bind_Ok)%result_bind_Ok.
  cbn zeta in E. destruct (_ && _) eqn:Hb; [done|]. injection E as <-. cbn [measurement].
  unfold restricts.
  destruct (decide (allowed_mrtd (measurement_of_json v) = ∅)) as [E1|]; [|auto].
  destruct (decide (allowed_mrenclave (measurement_of_json v) = ∅)) as [E2|]; [|auto].
  destruct (decide (allowed_mrsigner (measurement_of_json v) = ∅)) as [E3|]; [|auto].
  rewrite !bool_decide_eq_true_2 in Hb by done.
  destruct (expected_compose_hash (measurement_of_json v)); [eauto|done].
Qed.

Lemma policy_from_env_enforced env p :
  policy_from_env env Enforced = Ok p → restricts (measurement p).
Proof.
  unfold policy_from_env. destruct (env_var _ _) as [path|e]; [apply from_file_restricts|done].
Qed.

Lemma parse_cert_chain_nonempty b certs : parse_cert_chain b = Ok certs → certs ≠ [].
Proof.
  unfold parse_cert_chain. intros (l & _ & E)%result_bind_Ok.
  destruct l; [done|]. by injection E as <-.
Qed.

Lemma load_identity_Ok env mode i : load_client_identity env mode = Ok i →
  (mode = Enforced → is_Some i.1.1) ∧
  ((∃ certs key pem, i = (Some certs, Some key, Some pem) ∧ certs ≠ []) ∨ i = (None, None, None)).
Proof.
  unfold load_client_identity. intros (i' & E1 & E2)%result_bind_Ok.
  destruct (is_enforced mode && _) eqn:Hb; [done|]. injection E2 as ->. split.
  { intros ->. destruct (i.1.1); [eauto|done]. }
  destruct (ok (env_var env _)) as [cert|], (ok (env_var env "SECRET_BROKER_CLIENT_KEY")) as [key|];
    [|done..|injection E1 as <-; by right].
  apply result_bind_Ok in E1 as (cb & _ & E1). apply result_bind_Ok in E1 as (kb & _ & E1).
  apply result_bind_Ok in E1 as (certs & Hc%map_err_Ok & E1).
  apply result_bind_Ok in E1 as (k & _ & [= <-]).
  left. exists certs, k, (cb ++ kb). split; [done|]. by eapply parse_cert_chain_nonempty.
Qed.

Lemma timeout_bounds env n : timeout_from_env env = Ok n → 0 < n ≤ u64_max.
Proof.
  unfold timeout_from_env. intros (t & E1 & E2)%result_bind_Ok.
  destruct (N.eqb_spec t 0) as [|Hz]; [done|]. injection E2 as <-. split; [lia|].
  destruct (env_var _ _) as [raw|[]]; [|injection E1 as <-; by vm_compute|done].
  apply map_err_Ok in E1. by eapply parse_unsigned_bound.
Qed.

Lemma subject_allowlist_nonempty env s : subject_allowlist_from_env env = Some s → s ≠ ∅.
Proof.
  unfold subject_allowlist_from_env. destruct (ok _) as [raw|]; [|done]. cbn.
  case_bool_decide; [done|]. by intros [= <-].
Qed.

Lemma check_endpoint_Ok mode endpoint : check_endpoint mode endpoint = Ok () →
  (mode ≠ Disabled → url_scheme endpoint = "https") ∧
  (mode = Local ∨ mode = Disabled → secret_broker_endpoint_is_loopback endpoint = true).
Proof.
  unfold check_endpoint. intros E. destruct (_ && _) eqn:E1; [done|].
  destruct (negb (bool_decide (mode = Disabled)) && _) eqn:E2; [done|]. split.
  - intros Hm. rewrite bool_decide_eq_false_2 in E2 by done. cbn in E2.
    by case_bool_decide.
  - intros Hm. rewrite bool_decide_eq_true_2 in E1;
      [by destruct (secret_broker_endpoint_is_loopback endpoint)|].
    destruct Hm as [-> | ->]; [apply list_elem_of_here|apply list_elem_of_further, list_elem_of_here].
Qed.

Lemma ensure_mode_disabled debug_build env :
  ensure_attestation_mode debug_build env Disabled = Ok () →
  debug_build = true ∧ unsafe_allowed env.
Proof.
  unfold ensure_attestation_mode. cbn [is_enforced orb].
  rewrite bool_decide_eq_false_2
    by (intros [[=]|[[=]|Hn%elem_of_nil]%elem_of_cons]%elem_of_cons; done).
  destruct debug_build; [|done]. intros E. split; [done|].
  destruct (env_var env UNSAFE_FLAG_ENV) as [raw|e] eqn:Er; [|done]. exists raw.
  split; [done|]. cbn [ok] in E. by case_bool_decide.
Qed.

Lemma from_env_var_named env key default raw mode : env_var env key = Ok raw →
  from_env_var env key default = Ok mode →
  to_ascii_lowercase (trim raw) = to_ascii_lowercase (mode_debug mode).
Proof.
  intros Hr. unfold from_env_var. rewrite Hr. cbn [unwrap_or]. cbn zeta.
  repeat case_bool_decide; intros [= <-]; done.
Qed.

Lemma config_ok debug_build env c :
  config_from_env debug_build env = Ok c → broker_config_ok debug_build env c.
Proof.
  unfold config_from_env.
  intros (endpoint & Ee & (mode & Em & ([] & Ec & ([] & Ed & (policy & Ep & E)%result_bind_Ok)
    %result_bind_Ok)%result_bind_Ok)%result_bind_Ok)%result_bind_Ok.
  apply check_endpoint_Ok in Ec as [Hhttps Hloop]. cbn zeta in E.
  destruct (_ && is_enforced mode) eqn:Hs; [done|].
  apply result_bind_Ok in E as (i & [Hi Hpair]%load_identity_Ok & E).
  apply result_bind_Ok in E as (t & Ht%timeout_bounds & [= <-]).
  split; cbn [bc_attestation_mode bc_endpoint bc_policy bc_subject_allowlist bc_client_cert_chain
    bc_client_key bc_client_identity_pem bc_timeout bc_spiffe_socket_path]; try done.
  - intros e He. unfold from_env_var in Em. rewrite He in Em. by injection Em as <-.
  - intros raw Hr. by eapply from_env_var_named.
  - unfold endpoint_from_env in Ee. apply result_bind_Ok in Ee as (raw & Hr%map_err_Ok & Ee).
    apply map_err_Ok in Ee. by exists raw.
  - intros Hm. specialize (Hloop Hm). unfold secret_broker_endpoint_is_loopback in Hloop.
    destruct (url_host_str endpoint) as [host|]; [|done]. eauto using loopback_host_local.
  - intros ->. by apply ensure_mode_disabled.
  - intros ->. by eapply policy_from_env_enforced.
  - intros ->. destruct (subject_allowlist_from_env env); [eauto|done].
  - intros s. apply subject_allowlist_nonempty.
  - destruct Hpair as [(certs & key & pem & -> & Hne)| ->]; [left; cbn|by right].
    by exists certs, key, pem.
  - intros ->. destruct (ok _); cbn; eauto.
Qed.

(** C17. What every client configuration that is accepted satisfies. Its mode is
    the one the environment names, and "enforced" if it names none; its endpoint is
    the URL of the environment; the endpoint uses https unless attestation is off;
    in the modes "local" and "disabled" its host is a name or an address of this
    machine; attestation is off only in a debug build whose environment sets the
    explicit flag to 1, true or yes. When it is enforced, the policy restricts a
    measurement or the compose hash, the subjects are listed, and the client has a
    certificate. A list of subjects is not empty; a certificate, its key and their
    bytes come together or not at all; the timeout is positive and fits in 64
    bits; and the SPIFFE mode has a socket. *)
Theorem broker_config_safe debug_build env c :
  config_from_env debug_build env = Ok c → broker_config_ok debug_build env c.
Proof. apply config_ok. Qed.

(** *** Policies and report kinds *)

Lemma sgx_unrestricted p v e :
  allowed_mrenclave p = ∅ → allowed_mrsigner p = ∅ → min_isvsvn p = None →
  vr_report (va_report v) = SgxEnclave e → enforce_measurement_policy p v = Ok ().
Proof. intros He Hs Hm Hr. apply measurements_Ok. rewrite Hr. cbn. by rewrite Hm; repeat split; [left|left|]. Qed.

(** A policy file that pins the measurements of TDX guests and says nothing
    about enclaves is accepted, and its policy admits every SGX enclave,
    whatever its measurements. *)
Theorem tdx_policy_admits_enclaves path raw value :
  read_to_string path = Ok raw → json_from_str raw = Ok value →
  string_set (json_get value "allowed_mrtd") ≠ ∅ →
  json_get value "allowed_mrenclave" = None → json_get value "allowed_mrsigner" = None →
  json_get value "min_isvsvn" = None →
  ∃ p, from_file path = Ok p ∧
    ∀ v e, vr_report (va_report v) = SgxEnclave e →
      enforce_measurement_policy (measurement p) v = Ok ().
Proof.
  intros Er Ej Hd He Hs Hm. unfold from_file. rewrite Er. cbn [map_err mbind result_bind].
  rewrite Ej. cbn [map_err mbind result_bind]. cbn zeta.
  rewrite (bool_decide_eq_false_2 (allowed_mrtd (measurement_of_json value) = ∅)) by done.
  cbn [andb]. eexists. split; [done|]. cbn [measurement].
  intros v e. apply sgx_unrestricted; cbn; by rewrite ?He, ?Hs, ?Hm.
Qed.
End config.
End BrokerConfig.

(** ** A small file system *)
Module BrokerRef.
Import Ref.
#[export] Instance ref_fs : FsApi := {|
  fs_read path :=
    if bool_decide (path ∈ ["policy.json"; "broker.pem"; "broker.key"; "ca.pem"])
    then Ok (as_bytes path) else Err "No such file or directory (os error 2)";
|}.
#[export] Instance ref_pem : PemApi := {|
  pem_read_all b := [Ok OtherItem; Ok (X509Item b); Ok (KeyItem (Pkcs8 b))];
  pem_certs b := [Ok b];
|}.
#[export] Instance ref_url : UrlApi := {|
  Url := string * string;
  url_parse s :=
    match strip_prefix "https://" s, strip_prefix "http://" s with
    | Some host, _ => Ok ("https", host)
    | None, Some host => Ok ("http", host)
    | None, None => Err "relative URL without a base"
    end;
  url_scheme := fst;
  url_host_str u := Some u.2;
  url_username _ := "";
  url_to_string u := u.1 +:+ "://" +:+ u.2;
  url_set_scheme scheme u := (scheme, u.2);
|}.
(** Every file is the policy that pins the TDX measurement ab. *)
#[export] Instance ref_json_text : JsonText := {|
  json_from_str s := Ok (JObj [("allowed_mrtd", JArr [JStr "AB"])]);
  json_to_string_pretty _ := Ok "{}";
  json_null := JNull;
  to_rfc3339 t := n_to_string (Z.to_N (nanos t));
|}.
End BrokerRef.

Section concrete.
Import Ref PeerRef BrokerRef RaTls Peer BrokerConfig.

Definition ex_env : Env := list_to_map [
  ("SECRET_BROKER_ENDPOINT", Unicode "https://broker.internal");
  ("SECRET_BROKER_CLIENT_POLICY_FILE", Unicode "policy.json");
  ("SECRET_BROKER_CLIENT_SUBJECTS", Unicode " Broker ,,s");
  ("SECRET_BROKER_CLIENT_CERT", Unicode "broker.pem");
  ("SECRET_BROKER_CLIENT_KEY", Unicode "broker.key")].

Definition ex_env_config : result AnyhowError SecretBrokerClientConfig :=
  config_from_env false ex_env.

Lemma broker_config_safe_witness : ∃ c, config_from_env false ex_env = Ok c ∧
  bc_attestation_mode c = Enforced ∧ restricts (measurement (bc_policy c)).
Proof.
  destruct (config_from_env false ex_env) as [c|e] eqn:E.
  - exists c. split; [reflexivity|].
    pose proof (broker_config_safe false ex_env c E) as Hok.
    assert (bc_attestation_mode c = Enforced) as Hm
      by exact (bo_default _ _ _ Hok VarNotPresent eq_refl).
    split; [exact Hm|]. exact (bo_policy _ _ _ Hok Hm).
  - exfalso. apply (f_equal is_ok) in E. vm_compute in E. discriminate E.
Defined.

Definition ex_policy_json : @JsonValue ref_json_api := JObj [("allowed_mrtd", JArr [JStr "AB"])].
Lemma tdx_policy_admits_enclaves_witness : ∃ p, from_file "policy.json" = Ok p ∧
  ∀ v e, vr_report (va_report v) = SgxEnclave e → enforce_measurement_policy (measurement p) v = Ok ().
Proof.
  apply (tdx_policy_admits_enclaves "policy.json" "policy.json" ex_policy_json);
    try reflexivity.
  intros E. apply (f_equal (λ s, bool_decide ("ab" ∈ s))) in E. vm_compute in E. discriminate E.
Defined.

(** Release builds refuse to run without attestation. *)
Example release_refuses_disabled :
  is_ok (ensure_attestation_mode false {[ UNSAFE_FLAG_ENV := Unicode "1" ]} Disabled) = false.
Proof. reflexivity. Qed.
(** The loopback address of IPv6, as it stands in a URL, is not recognised. *)
Example loopback_v6_url : loopback_host "[::1]" = false ∧ loopback_host "127.0.0.1" = true.
Proof. done. Qed.
End concrete.
