(* ===== verification/BrokerTls.v ===== *)
(** * The channel to the broker (src/secret_broker_client.rs, lines 374-391, 760-999, 1139-1233)

    [build_tls_config] for each mode, the gRPC channel and its connector, and
    [SecretBrokerClient::new]. A [ClientConfig] is the record of what it was
    built from; the transport, SPIRE's workload API and rustls' checks of keys
    and roots are parameters. *)
From S2P Require Import Prelude RustStd Platform World Environment RaTls Net PeerVerification BrokerConfig Reference.
Local Open Scope N_scope.

Class RustlsClientApi := {
  (** [with_safe_default_protocol_versions], [RootCertStore::add],
      [with_client_auth_cert] and [PrivateKeyDer::try_from(Vec<u8>)] *)
  rustls_versions : result string ();
  rustls_root_add : bytes → result string ();
  rustls_client_auth : list bytes → PrivateKeyDer → result string ();
  rustls_key_from : bytes → result string PrivateKeyDer;
}.

(** [spiffe::workload_api], at a socket and a moment *)
Class SpireApi := {
  Svid : Type;
  svid_trust_domain : Svid → string;
  svid_cert_chain : Svid → list bytes;
  svid_private_key : Svid → bytes;
  Bundles : Type;
  get_bundle : Bundles → string → option (list bytes);
  spire_connect : string → nat → result AnyhowError ();
  fetch_x509_svid : string → nat → result AnyhowError Svid;
  fetch_x509_bundles : string → nat → result AnyhowError Bundles;
}.

Module BrokerTls.
Import RaTls Net Peer BrokerConfig.

Section tls.
Context `{UuidApi, JsonApi, BrokerApi} `{!Host} `{UnicodeTables} `{Digests} `{Hex}.
Context `{CertApi} `{QvlApi} `{RustlsApi} `{FsApi} `{PemApi} `{UrlApi} `{!JsonText}.
Context `{RustlsClientApi} `{SpireApi}.

Inductive ServerVerifier :=
  | WebPki (roots : list bytes)
  | SpiffeVerifier (verifier : SpiffeServerVerifier)
  | RaTlsVerifier (verifier : RaTlsServerVerifier).

(** [rustls::ClientConfig] *)
Record ClientConfig := {
  cc_client_auth : option (list bytes * PrivateKeyDer);
  cc_verifier : ServerVerifier;
  cc_alpn_protocols : list string;
}.

(** *** Local mode *)

Definition local_path (env : Env) (key : string) : result AnyhowError string :=
  map_err (λ _, anyhow (key +:+ " is required in local mode")) (env_var env key).
Definition local_loopback_ca_cert_path (env : Env) := local_path env "SECRET_BROKER_TLS_CA_CERT".
Definition local_loopback_client_cert_path (env : Env) :=
  local_path env "SECRET_BROKER_CLIENT_CERT".
Definition local_loopback_client_key_path (env : Env) :=
  local_path env "SECRET_BROKER_CLIENT_KEY".

Definition load_local_client_cert_chain (env : Env) : result AnyhowError (list bytes) :=
  cert_path ← local_loopback_client_cert_path env;
  cert_bytes ← read_file "local loopback client cert from " cert_path;
  parse_cert_chain cert_bytes.
Definition load_local_client_private_key (env : Env) : result AnyhowError PrivateKeyDer :=
  key_path ← local_loopback_client_key_path env;
  key_bytes ← read_file "local loopback client key from " key_path;
  parse_private_key key_bytes.

(** The certificates of a bundle; the first error ends it. *)
Fixpoint collect_results {A} (l : list (result string A)) : result string (list A) :=
  match l with
  | [] => Ok []
  | Err e :: _ => Err e
  | Ok a :: l => r ← collect_results l; Ok (a :: r)
  end.

(** Add certificates to a root store. *)
Fixpoint add_roots (error : string → string) (roots certs : list bytes) :
    result AnyhowError (list bytes) :=
  match certs with
  | [] => Ok roots
  | cert :: certs =>
      map_err (λ e, anyhow (error e)) (rustls_root_add cert);;
      add_roots error (roots ++ [cert]) certs
  end.

Definition protocol_versions : result AnyhowError () :=
  map_err (λ e, context "failed to configure TLS protocol versions" (anyhow e)) rustls_versions.
Definition client_auth_cert (msg : string) (certs : list bytes) (key : PrivateKeyDer) :
    result AnyhowError () :=
  map_err (λ e, context msg (anyhow e)) (rustls_client_auth certs key).

Definition build_local_loopback_client_config (env : Env) (cert_chain : list bytes)
    (private_key : PrivateKeyDer) : result AnyhowError ClientConfig :=
  ca_path ← local_loopback_ca_cert_path env;
  ca_bytes ← read_file "local loopback CA cert from " ca_path;
  ca_certs ← map_err (λ e, context "failed to parse local loopback CA cert bundle" (anyhow e))
    (collect_results (pem_certs ca_bytes));
  match ca_certs with
  | [] => Err (anyhow "local loopback CA bundle did not contain any certificates")
  | _ =>
      root_store ← add_roots (λ err, "failed to add local loopback CA certificate: " +:+ err)
                     [] ca_certs;
      protocol_versions;;
      client_auth_cert "failed to configure local loopback client certificate" cert_chain
        private_key;;
      Ok {| cc_client_auth := Some (cert_chain, private_key);
            cc_verifier := WebPki root_store; cc_alpn_protocols := ["h2"] |}
  end.

Definition build_local (env : Env) (config : SecretBrokerClientConfig) :
    result AnyhowError ClientConfig :=
  cert_chain ← match bc_client_cert_chain config with
               | Some certs => Ok certs
               | None => load_local_client_cert_chain env
               end;
  private_key ← match bc_client_key config with
                | Some key => Ok key
                | None => load_local_client_private_key env
                end;
  build_local_loopback_client_config env cert_chain private_key.

(** *** SPIFFE mode *)

Definition rustls_display (e : RustlsError) : string :=
  match e with General msg => "unexpected error: " +:+ msg | OtherError d => d end.

Definition build_spiffe (env : Env) (config : SecretBrokerClientConfig) : MA ClientConfig :=
  let socket_path := default "/var/run/spire/agent.sock" (bc_spiffe_socket_path config) in
  let socket_endpoint := "unix:" +:+ socket_path in
  eff_map_err (context "failed to connect to SPIRE Workload API")
    (network (spire_connect socket_endpoint));;
  svid ← eff_map_err (context "failed to fetch X509 SVID from SPIRE")
    (network (fetch_x509_svid socket_endpoint));
  bundles ← eff_map_err (context "failed to fetch X509 bundles from SPIRE")
    (network (fetch_x509_bundles socket_endpoint));
  let trust_domain := svid_trust_domain svid in
  lift (
    authorities ← ok_or (get_bundle bundles trust_domain)
      (anyhow ("no SPIFFE bundle found for trust domain: " +:+ trust_domain));
    root_store ← add_roots (λ _, "failed to add SPIFFE authority cert to root store")
                   [] authorities;
    let client_certs := svid_cert_chain svid in
    client_key ← map_err (λ _, anyhow "failed to parse SVID private key")
                   (rustls_key_from (svid_private_key svid));
    protocol_versions;;
    client_auth_cert "failed to configure SPIFFE client certificate" client_certs client_key;;
    target_spiffe_id ← map_err (λ _, anyhow
        "SECRET_BROKER_TARGET_SPIFFE_ID is required in SPIFFE mode")
      (env_var env "SECRET_BROKER_TARGET_SPIFFE_ID");
    verifier ← map_err (λ e, anyhow ("failed to create SPIFFE verifier: " +:+ rustls_display e))
      (spiffe_new root_store target_spiffe_id);
    Ok {| cc_client_auth := Some (client_certs, client_key);
          cc_verifier := SpiffeVerifier verifier; cc_alpn_protocols := ["h2"] |}).

(** *** Enforced mode *)

Definition build_attested (config : SecretBrokerClientConfig) : result AnyhowError ClientConfig :=
  protocol_versions;;
  auth ← match bc_client_cert_chain config, bc_client_key config with
         | Some certs, Some key =>
             client_auth_cert "failed to configure client certificate for secret-broker"
               certs key;;
             Ok (Some (certs, key))
         | _, _ => Ok None
         end;
  Ok {| cc_client_auth := auth;
        cc_verifier := RaTlsVerifier {|
          rv_policy := bc_policy config;
          rv_subject_allowlist := bc_subject_allowlist config;
          rv_pccs_url := bc_pccs_url config |};
        cc_alpn_protocols := ["h2"] |}.

(** [handle] is the result of [Handle::try_current()]. *)
Definition build_tls_config (env : Env) (handle : result string ())
    (config : SecretBrokerClientConfig) : MA (option ClientConfig) :=
  match bc_attestation_mode config with
  | Local => tls ← lift (build_local env config); mret (Some tls)
  | Disabled => mret None
  | Spiffe =>
      lift (map_err (λ e, context "SPIFFE TLS config requires Tokio runtime" (anyhow e)) handle);;
      tls ← build_spiffe env config; mret (Some tls)
  | Enforced => tls ← lift (build_attested config); mret (Some tls)
  end.

(** ** The channel *)

(** [ConnectorState] *)
Record ConnectorState := { cs_config : ClientConfig; cs_timeout : option N }.

Inductive Transport :=
  | WithConnector (connector : ConnectorState)
  | WithTlsRoots
  | Plain.

(** A [tonic] channel. *)
Record Channel := {
  ch_endpoint : string;
  ch_connect_timeout : N;
  ch_transport : Transport;
  ch_lazy : bool;
}.
End tls.

(** [tonic], [tokio::net] and [tokio_rustls] *)
Class TransportApi `{RustlsApi} := {
  endpoint_from_shared : string → result string ();
  (** [tls_config(ClientTlsConfig::new().with_enabled_roots())] *)
  endpoint_tls_roots : result AnyhowError ();
  (** connecting a channel that is not lazy, at a moment *)
  channel_connect : Channel → nat → result string ();
  (** [TcpStream::connect(addr)] within a time in seconds: [None] when it timed out *)
  tcp_connect : N → string → nat → option (result string ());
  (** the TLS handshake *)
  tls_connect : ClientConfig → ServerName → string → nat → result string ();
  server_name_of_ip : IpAddr → ServerName;
  server_name_of_dns : string → result string ServerName;
}.

Section channel.
Context `{UuidApi, JsonApi, BrokerApi} `{!Host} `{UnicodeTables} `{Digests} `{Hex}.
Context `{CertApi} `{QvlApi} `{RustlsApi} `{FsApi} `{PemApi} `{UrlApi} `{!JsonText}.
Context `{RustlsClientApi} `{SpireApi} `{!TransportApi}.

(** The connector of a TLS channel: the closure of [build_channel]. *)
Definition connector (s : ConnectorState) (uri_host : option string) (uri_port : option N) :
    eff World string () :=
  let host := default "localhost" uri_host in
  let port := default 443 uri_port in
  let addr := host +:+ ":" +:+ n_to_string port in
  tcp ← network (λ t, Ok (tcp_connect (default 10 (cs_timeout s)) addr t));
  (match tcp with
   | None => fail ("TCP connect " +:+ addr +:+ " timed out")
   | Some r => lift (map_err (λ e, "TCP connect " +:+ addr +:+ ": " +:+ e) r)
   end);;
  server_name ← lift
    match parse_ip_addr host with
    | Some ip => Ok (server_name_of_ip ip)
    | None => map_err (λ e, "bad DNS name " +:+ host +:+ ": " +:+ e) (server_name_of_dns host)
    end;
  eff_map_err (λ e, "TLS handshake " +:+ addr +:+ ": " +:+ e)
    (network (tls_connect (cs_config s) server_name addr)).

Definition build_channel (endpoint : Url) (timeout : N) (tls_config : option ClientConfig)
    (lazy : bool) : MA Channel :=
  match tls_config with
  | Some client_config =>
      let endpoint_str := url_to_string (url_set_scheme "http" endpoint) in
      lift (map_err (λ e, context "invalid secret broker endpoint" (anyhow e))
        (endpoint_from_shared endpoint_str));;
      let channel := {|
        ch_endpoint := endpoint_str; ch_connect_timeout := timeout;
        ch_transport := WithConnector {| cs_config := client_config; cs_timeout := Some timeout |};
        ch_lazy := lazy |} in
      (if lazy then mret ()
       else eff_map_err (λ e, anyhow ("connect: " +:+ e)) (network (channel_connect channel)));;
      mret channel
  | None =>
      let endpoint_str := url_to_string endpoint in
      lift (map_err (λ e, context "invalid secret broker endpoint" (anyhow e))
        (endpoint_from_shared endpoint_str));;
      transport ←
        (if bool_decide (url_scheme endpoint = "https") then
           lift endpoint_tls_roots;; mret WithTlsRoots
         else mret Plain);
      let channel := {|
        ch_endpoint := endpoint_str; ch_connect_timeout := timeout;
        ch_transport := transport; ch_lazy := lazy |} in
      (if lazy then mret ()
       else eff_map_err (λ e, context "failed to connect to secret-broker gRPC endpoint" (anyhow e))
         (network (channel_connect channel)));;
      mret channel
  end.

(** [SecretBrokerClient::new]; the adapter adds nothing to endpoint and channel. *)
Definition client_new (env : Env) (handle : result string ()) (config : SecretBrokerClientConfig) :
    MA Channel :=
  tls ← build_tls_config env handle config;
  let lazy := bool_decide (bc_attestation_mode config = Disabled) in
  eff_map_err (context "failed to establish secret-broker gRPC channel")
    (build_channel (bc_endpoint config) (bc_timeout config) tls lazy).

(** [SecretBrokerClient::from_env] *)
Definition client_from_env (debug_build : bool) (env : Env) (handle : result string ()) :
    MA Channel :=
  config ← lift (config_from_env debug_build env);
  client_new env handle config.

(** ** Who a channel can talk to *)

Lemma add_roots_Ok error roots certs r : add_roots error roots certs = Ok r → r = roots ++ certs.
Proof.
  revert roots. induction certs as [|c certs IH]; intros roots; cbn [add_roots].
  - intros [= <-]. by rewrite app_nil_r.
  - intros ([] & _ & E)%result_bind_Ok. apply IH in E as ->. by rewrite <-app_assoc.
Qed.

(** How a mode authenticates the peer. *)
Definition authenticates (env : Env) (c : SecretBrokerClientConfig) (tls : ClientConfig) : Prop :=
  match bc_attestation_mode c, cc_verifier tls with
  | Enforced, RaTlsVerifier rv =>
      rv_policy rv = bc_policy c ∧ restricts (measurement (bc_policy c)) ∧
      (∃ subjects, rv_subject_allowlist rv = Some subjects ∧
         bc_subject_allowlist c = Some subjects ∧ subjects ≠ ∅) ∧
      is_Some (cc_client_auth tls)
  | Spiffe, SpiffeVerifier sv =>
      is_Some (cc_client_auth tls) ∧ ∃ target, 
        env_var env "SECRET_BROKER_TARGET_SPIFFE_ID" = Ok target ∧
        spiffe_new (sv_roots sv) target = Ok sv
  | Local, WebPki roots => roots ≠ [] ∧ is_Some (cc_client_auth tls) ∧ ∃ path b,
      env_var env "SECRET_BROKER_TLS_CA_CERT" = Ok path ∧ fs_read path = Ok b ∧
      collect_results (pem_certs b) = Ok roots
  | _, _ => False
  end.

Lemma build_local_Ok env c tls : build_local env c = Ok tls →
  ∃ roots auth path b, roots ≠ [] ∧ cc_verifier tls = WebPki roots ∧
    cc_client_auth tls = Some auth ∧
    env_var env "SECRET_BROKER_TLS_CA_CERT" = Ok path ∧ fs_read path = Ok b ∧
    collect_results (pem_certs b) = Ok roots.
Proof.
  unfold build_local, build_local_loopback_client_config.
  intros (chain & _ & (key & _ & E)%result_bind_Ok)%result_bind_Ok.
  apply result_bind_Ok in E as (ca & Hca%map_err_Ok & E).
  apply result_bind_Ok in E as (b & Hb%map_err_Ok & E).
  apply result_bind_Ok in E as (certs & Hc%map_err_Ok & E). destruct certs as [|cert certs]; [done|].
  apply result_bind_Ok in E as (roots & ->%add_roots_Ok & E).
  apply result_bind_Ok in E as ([] & _ & E). apply result_bind_Ok in E as ([] & _ & [= <-]).
  by exists (cert :: certs), (chain, key), ca, b.
Qed.

Lemma build_spiffe_Ok env c w tls w' : build_spiffe env c w = (Ok tls, w') →
  ∃ sv target auth, cc_verifier tls = SpiffeVerifier sv ∧ cc_client_auth tls = Some auth ∧
    env_var env "SECRET_BROKER_TARGET_SPIFFE_ID" = Ok target ∧
    spiffe_new (sv_roots sv) target = Ok sv.
Proof.
  unfold build_spiffe. intros ([] & w1 & _ & E)%eff_bind_Ok.
  apply eff_bind_Ok in E as (svid & w2 & _ & E). apply eff_bind_Ok in E as (bundles & w3 & _ & E).
  apply lift_Ok in E as [E _].
  apply result_bind_Ok in E as (auths & _ & E). apply result_bind_Ok in E as (roots & _ & E).
  apply result_bind_Ok in E as (key & _ & E). apply result_bind_Ok in E as ([] & _ & E).
  apply result_bind_Ok in E as ([] & _ & E).
  apply result_bind_Ok in E as (target & Ht%map_err_Ok & E).
  apply result_bind_Ok in E as (sv & Hs%map_err_Ok & [= <-]).
  exists sv, target, (svid_cert_chain svid, key).
  split; [done|]. split; [done|]. split; [done|]. revert Hs. unfold spiffe_new.
  intros ([] & Hb & (id & Hid & [= <-])%result_bind_Ok)%result_bind_Ok. cbn [sv_roots].
  rewrite Hb. cbn [mbind result_bind]. by rewrite Hid.
Qed.

Lemma build_tls_authenticates debug_build env handle c w tls w' :
  broker_config_ok debug_build env c →
  build_tls_config env handle c w = (Ok tls, w') →
  match tls with
  | Some t => authenticates env c t
  | None => bc_attestation_mode c = Disabled
  end.
Proof.
  intros [_ _ _ _ _ _ Hp Hs Hse Hi Hpair _ _]. unfold build_tls_config, authenticates.
  destruct (bc_attestation_mode c) eqn:Em.
  - intros (t & w1 & [E <-]%lift_Ok & [= <- <-])%eff_bind_Ok. unfold build_attested in E.
    apply result_bind_Ok in E as ([] & _ & E). apply result_bind_Ok in E as (auth & Ea & [= <-]).
    cbn. split; [done|]. split; [by apply Hp|]. split.
    + destruct (Hs eq_refl) as [s Hs']. exists s. eauto.
    + destruct Hpair as [(certs & key & pem & Hc & _ & Hk & _)|(Hc & _)].
      * rewrite Hc, Hk in Ea. apply result_bind_Ok in Ea as ([] & _ & [= <-]). eauto.
      * destruct (Hi eq_refl) as [x Hx]. congruence.
  - by intros [= <- <-].
  - intros ([] & w1 & _ & (t & w2 & E & [= <- <-])%eff_bind_Ok)%eff_bind_Ok.
    apply build_spiffe_Ok in E as (sv & target & auth & -> & -> & Ht & Hn). eauto.
  - intros (t & w1 & [E <-]%lift_Ok & [= <- <-])%eff_bind_Ok.
    apply build_local_Ok in E as (roots & auth & ca & b & Hr & -> & -> & Hb). eauto 10.
Qed.

(** C11. No anonymous broker: the channel of every client that starts from the
    environment authenticates its peer, and presents an identity of its own. By
    mode: with the attestation policy of the configuration, which restricts
    something, and its list of subjects; with the SPIFFE identifier the environment
    names; or with the roots of the CA file the environment names, which are not
    empty. The only exception is the mode "disabled": the build is a debug build,
    the environment sets the flag SECURE_DB_ALLOW_UNSAFE_BROKER to 1, true or yes,
    and the host is a name or an address of this machine. *)
Theorem broker_is_authenticated debug_build env handle w ch w' :
  client_from_env debug_build env handle w = (Ok ch, w') →
  ∃ c, config_from_env debug_build env = Ok c ∧
    match ch_transport ch with
    | WithConnector s => authenticates env c (cs_config s) ∧ ch_lazy ch = false
    | _ => bc_attestation_mode c = Disabled ∧ debug_build = true ∧ unsafe_allowed env ∧
           ∃ host, url_host_str (bc_endpoint c) = Some host ∧ local_name host
    end.
Proof.
  unfold client_from_env, client_new. intros (c & w1 & [Ec <-]%lift_Ok & E)%eff_bind_Ok.
  exists c. split; [done|]. pose proof (config_ok _ _ _ Ec) as Hok.
  apply eff_bind_Ok in E as (tls & w2 & Et & E%eff_map_err_Ok).
  apply (build_tls_authenticates _ _ _ _ _ _ _ Hok) in Et. unfold build_channel in E.
  destruct tls as [t|].
  - apply eff_bind_Ok in E as ([] & w3 & _ & E). apply eff_bind_Ok in E as ([] & w4 & _ & [= <- <-]).
    cbn. split; [done|]. apply bool_decide_eq_false_2. intros Em.
    unfold authenticates in Et. by rewrite Em in Et.
  - destruct (bo_unsafe _ _ _ Hok Et) as [Hd Hf].
    pose proof (bo_loopback _ _ _ Hok (or_intror Et)) as Hl.
    apply eff_bind_Ok in E as ([] & w3 & _ & E).
    apply eff_bind_Ok in E as (tr & w4 & Htr & E).
    apply eff_bind_Ok in E as ([] & w5 & _ & [= <- <-]). cbn.
    case_bool_decide; [apply eff_bind_Ok in Htr as ([] & w6 & _ & [= <- <-])|injection Htr as <- <-];
      done.
Qed.
End channel.
End BrokerTls.

(** ** A client that starts *)
Module TlsRef.
Import Ref PeerRef BrokerRef BrokerTls.
#[export] Instance ref_rustls_client : RustlsClientApi := {|
  rustls_versions := Ok (); rustls_root_add _ := Ok (); rustls_client_auth _ _ := Ok ();
  rustls_key_from b := Ok (Pkcs8 b);
|}.
#[export] Instance ref_spire : SpireApi := {|
  Svid := unit; svid_trust_domain _ := "example.org"; svid_cert_chain _ := [];
  svid_private_key _ := [];
  Bundles := unit; get_bundle _ _ := Some [[Byte.x00]];
  spire_connect _ _ := Ok (); fetch_x509_svid _ _ := Ok (); fetch_x509_bundles _ _ := Ok ();
|}.
#[export] Instance ref_transport : TransportApi := {|
  endpoint_from_shared _ := Ok (); endpoint_tls_roots := Ok ();
  channel_connect _ _ := Ok (); tcp_connect _ _ _ := Some (Ok ());
  tls_connect _ _ _ _ := Ok ();
  server_name_of_ip _ := "ip" : @ServerName ref_rustls;
  server_name_of_dns s := Ok (s : @ServerName ref_rustls);
|}.
End TlsRef.

Section concrete.
Import Ref PeerRef BrokerRef TlsRef RaTls Peer BrokerConfig BrokerTls.

Lemma broker_is_authenticated_witness :
  is_ok (fst (client_from_env false ex_env (Ok ()) ex_peer_world)) = true ∧
  ∃ c, config_from_env false ex_env = Ok c.
Proof.
  destruct (client_from_env false ex_env (Ok ()) ex_peer_world) as [r w'] eqn:E.
  assert (is_ok r = true) as Hr
    by (apply (f_equal (λ x, is_ok (fst x))) in E; cbn [fst] in E; rewrite <-E; vm_compute; reflexivity).
  split; [exact Hr|]. destruct r as [ch|e]; [|discriminate Hr].
  destruct (broker_is_authenticated false ex_env (Ok ()) ex_peer_world ch w' E) as (c & Hc & _).
  exists c. exact Hc.
Defined.
End concrete.
