(* ===== verification/Tee.v ===== *)
(** * The TEE endpoint client (src/tee.rs)

    Its configuration, the report data supplied to quotes, and collecting an
    attestation from the dstack service. The service and its SDK are
    parameters. *)
From S2P Require Import Prelude RustStd Platform World Environment AuditLog Reference.
Local Open Scope Z_scope.

(** ** [dstack_sdk] *)

(** [InfoResponse], with the fields that are read. *)
Record InfoResponse := {
  info_app_id : string;
  info_instance_id : string;
  info_device_id : string;
  info_compose_hash : string;
  info_key_provider_info : string;
}.

(** Requests go to an endpoint (or the default one) at a moment; errors are
    their [Display] form. *)
Class DstackApi := {
  GetQuoteResponse : Type;
  RtmrReplay : Type;
  GetKeyResponse : Type;
  TlsKeyConfig : Type;
  GetTlsKeyResponse : Type;
  dstack_info : option string → nat → result string InfoResponse;
  dstack_get_quote : option string → bytes → nat → result string GetQuoteResponse;
  dstack_emit_event : option string → string → bytes → nat → result string ();
  dstack_get_key : option string → option string → option string → nat →
    result string GetKeyResponse;
  dstack_get_tls_key : option string → TlsKeyConfig → nat → result string GetTlsKeyResponse;
  quote_event_log : GetQuoteResponse → string;
  replay_rtmrs : GetQuoteResponse → result string RtmrReplay;
  decode_quote : GetQuoteResponse → result string bytes;
}.
(** [serde_json::to_value] on the replayed registers, and the JSON form of a
    [DateTime<Utc>] *)
Class DstackJson `{DstackApi} `{JsonApi} := {
  rtmr_to_value : RtmrReplay → result string JsonValue;
  datetime_to_value : DateTime → JsonValue;
}.

Module Tee.
Import AuditLog.
Section tee.
Context `{UuidApi, JsonApi, BrokerApi} `{!Host} `{Base64, Hex} `{!JsonText}.
Context `{DstackApi} `{!DstackJson}.

Record TeeEndpointConfig := {
  tc_dstack_endpoint : option string;
  tc_tappd_endpoint : option string;
  tc_report_data : option bytes;
}.

Definition decode_report_data (raw : string) : result AnyhowError bytes :=
  let is_64 (b : bytes) := (length b =? 64)%nat in
  match hex_decode raw ≫= (λ b, if is_64 b then Some b else None) with
  | Some b => Ok b
  | None =>
      match b64_decode (as_bytes raw) ≫= (λ b, if is_64 b then Some b else None) with
      | Some b => Ok b
      | None => Err (anyhow "report data must be 64 bytes hex or base64 encoded")
      end
  end.

(** [TeeEndpointConfig::from_env] *)
Definition from_env (env : Env) : DbResult TeeEndpointConfig :=
  report_data ←
    match ok (env_var env "SECURE_DB_TEE_REPORT_DATA") with
    | None => Ok None
    | Some raw => map_err (λ e, Configuration (anyhow_display e))
                    (b ← decode_report_data raw; Ok (Some b))
    end;
  Ok {| tc_dstack_endpoint := ok (env_var env "SECURE_DB_DSTACK_ENDPOINT");
        tc_tappd_endpoint := ok (env_var env "SECURE_DB_TAPPD_ENDPOINT");
        tc_report_data := report_data |}.

(** [TeeEndpointConfig::report_data] *)
Definition report_data (self : TeeEndpointConfig) : bytes :=
  default (replicate 64 Byte.x00) (tc_report_data self).

(** A client: the endpoints of its two SDK clients, and the report data. *)
Record TeeClient := {
  tcl_dstack : option string;
  tcl_tappd : option string;
  tcl_report_data : bytes;
}.
Definition tee_client_new (config : TeeEndpointConfig) : TeeClient := {|
  tcl_dstack := tc_dstack_endpoint config;
  tcl_tappd := tc_tappd_endpoint config;
  tcl_report_data := report_data config |}.

(** A request of the SDK, and a step that does not leave the process. *)
Definition sdk {A} (f : nat → result string A) : M A := eff_map_err Attestation (network f).
Definition local_step {A} (r : result string A) : M A := lift (map_err Attestation r).

Definition attest (self : TeeClient) : M TeeAttestation :=
  info ← sdk (dstack_info (tcl_dstack self));
  quote ← sdk (dstack_get_quote (tcl_dstack self) (tcl_report_data self));
  rtmr ← local_step (replay_rtmrs quote);
  rtmr_json ← local_step (rtmr_to_value rtmr);
  event_log_json ← local_step (json_from_str (quote_event_log quote));
  quote_bytes ← local_step (decode_quote quote);
  recorded_at ← utc_now;
  mret {|
    tee_app_id := info_app_id info;
    tee_instance_id := info_instance_id info;
    tee_device_id := info_device_id info;
    tee_compose_hash := info_compose_hash info;
    tee_key_provider_info := info_key_provider_info info;
    tee_quote := quote_bytes;
    tee_rtmr := rtmr_json;
    tee_event_log := event_log_json;
    tee_recorded_at := recorded_at |}.

Definition emit_event (self : TeeClient) (event : string) (payload : bytes) : M () :=
  sdk (dstack_emit_event (tcl_dstack self) event payload).
Definition get_key (self : TeeClient) (path : string) : M GetKeyResponse :=
  sdk (dstack_get_key (tcl_dstack self) (Some path) None).
Definition derive_tls_key (self : TeeClient) (config : TlsKeyConfig) : M GetTlsKeyResponse :=
  sdk (dstack_get_tls_key (tcl_dstack self) config).
Definition info (self : TeeClient) : M InfoResponse := sdk (dstack_info (tcl_dstack self)).

Definition as_audit_payload (self : TeeAttestation) : JsonValue := json_object [
  ("app_id", json_str (tee_app_id self));
  ("instance_id", json_str (tee_instance_id self));
  ("device_id", json_str (tee_device_id self));
  ("compose_hash", json_str (tee_compose_hash self));
  ("recorded_at", datetime_to_value (tee_recorded_at self))].

(** ** Report data *)

Lemma decode_report_data_Ok raw b :
  decode_report_data raw = Ok b ↔
  length b = 64%nat ∧
  (hex_decode raw = Some b ∨
   (∀ b', hex_decode raw = Some b' → length b' ≠ 64%nat) ∧ b64_decode (as_bytes raw) = Some b).
Proof.
  unfold decode_report_data.
  destruct (hex_decode raw) as [h|]; cbn; [destruct (Nat.eqb_spec (length h) 64)|];
    [naive_solver|..];
    (destruct (b64_decode (as_bytes raw)) as [c|]; cbn;
      [destruct (Nat.eqb_spec (length c) 64)|]; naive_solver).
Qed.

(** The report data of a configuration that loads always has the 64 bytes of a
    report's field: the decoded value of the variable, as hexadecimal text or
    else as base64, or zeros when it is not set. *)
Theorem report_data_width env c : from_env env = Ok c →
  length (report_data c) = 64%nat ∧
  match ok (env_var env "SECURE_DB_TEE_REPORT_DATA") with
  | Some raw => decode_report_data raw = Ok (report_data c)
  | None => report_data c = replicate 64 Byte.x00
  end.
Proof.
  unfold from_env. intros (rd & E & [= <-])%result_bind_Ok. unfold report_data. cbn.
  destruct (ok _) as [raw|].
  - apply map_err_Ok, result_bind_Ok in E as (b & Hb & [= <-]). cbn.
    split; [|done]. by apply decode_report_data_Ok in Hb as [? _].
  - injection E as <-. done.
Qed.

(** Setting the variable to the hexadecimal form of 64 bytes makes them the
    report data of every quote. *)
Theorem report_data_round_trip `{!HexLaws} env b : length b = 64%nat →
  env !! "SECURE_DB_TEE_REPORT_DATA" = Some (Unicode (hex_encode b)) →
  ∃ c, from_env env = Ok c ∧ tcl_report_data (tee_client_new c) = b.
Proof.
  intros Hl He. unfold from_env. rewrite (env_var_Some _ _ _ He). cbn [ok].
  rewrite (proj2 (decode_report_data_Ok (hex_encode b) b)) by (rewrite hex_decode_encode; auto).
  eexists. split; [reflexivity|]. done.
Qed.

(** ** Attestations *)

(** What an attestation holds: the identifiers that the service reports, and
    the quote, the replayed registers and the event log of one quote that the
    service then made for the configured report data; a failure on the way is an
    attestation error, and nothing is stored. *)
Theorem attest_reports_quote self w r w' : attest self w = (r, w') →
  w_db w' = w_db w ∧
  match r with
  | Err e => ∃ m, e = Attestation m
  | Ok a => ∃ i q replay,
      dstack_info (tcl_dstack self) (w_tick w) = Ok i ∧
      dstack_get_quote (tcl_dstack self) (tcl_report_data self) (S (w_tick w)) = Ok q ∧
      tee_app_id a = info_app_id i ∧ tee_instance_id a = info_instance_id i ∧
      tee_device_id a = info_device_id i ∧ tee_compose_hash a = info_compose_hash i ∧
      tee_key_provider_info a = info_key_provider_info i ∧
      decode_quote q = Ok (tee_quote a) ∧
      replay_rtmrs q = Ok replay ∧ rtmr_to_value replay = Ok (tee_rtmr a) ∧
      json_from_str (quote_event_log q) = Ok (tee_event_log a) ∧
      tee_recorded_at a = client_now (S (S (w_tick w)))
  end.
Proof.
  unfold attest, sdk, local_step, eff_map_err, network, mbind, eff_bind, lift, utc_now.
  destruct (dstack_info _ _) as [i|e] eqn:Ei; cbn; [|intros [= <- <-]; eauto].
  destruct (dstack_get_quote _ _ _) as [q|e] eqn:Eq; cbn; [|intros [= <- <-]; eauto].
  destruct (replay_rtmrs q) as [rt|e] eqn:Er; cbn; [|intros [= <- <-]; eauto].
  destruct (rtmr_to_value rt) as [rj|e] eqn:Ej; cbn; [|intros [= <- <-]; eauto].
  destruct (json_from_str _) as [el|e] eqn:El; cbn; [|intros [= <- <-]; eauto].
  destruct (decode_quote q) as [b|e] eqn:Eb; cbn; intros [= <- <-]; [|eauto].
  split; [done|]. exists i, q, rt. auto 15.
Qed.
End tee.
End Tee.

Section concrete.
Import Ref Tee.
Definition ex_report : bytes := replicate 64 Byte.xab.
Definition ex_tee_env : Env :=
  {[ "SECURE_DB_TEE_REPORT_DATA" := Unicode (hex_encode ex_report) ]}.
Lemma report_data_round_trip_witness :
  ∃ c, from_env ex_tee_env = Ok c ∧ tcl_report_data (tee_client_new c) = ex_report.
Proof. exact (report_data_round_trip ex_tee_env ex_report eq_refl eq_refl). Defined.

(** Five bytes are refused. *)
Example short_report_data :
  is_ok (from_env {[ "SECURE_DB_TEE_REPORT_DATA" := Unicode "0102030405" ]}) = false.
Proof. vm_compute. reflexivity. Qed.
End concrete.
