(* ===== verification/Cli.v ===== *)
(** * Migrations from the command line (src/bin/secure-database-cli.rs, lines 120-288)

    [migrate_postgres]: the settings it puts into the environment, and
    [repair_postgres_lease_ownership], which hands the objects of ephemeral lease
    roles back to their stable owner. The statements go to the server as text;
    the server reads them, with its rules for delimited identifiers and for
    [LIKE]. *)
From S2P Require Import Prelude RustStd Platform World Environment Broker Config Pool Reference.
From S2P Require Import Net RaTls PeerVerification BrokerConfig.
Local Open Scope N_scope.

(** ** Roles and owners *)

(** The roles of the cluster; the objects of the database with their owners; the
    grants in this database and of shared objects, each with its grantee (entries
    of access lists, default privileges, and mappings to foreign users); and the
    roles on which something depends outside this database. *)
Record Server := {
  srv_roles : gset string;
  srv_objects : gmap N string;
  srv_grants : gset (string * string);
  srv_dependents : gset string;
}.

Module Sql_text.
Definition dquote : ascii := "034"%char.
Definition backslash : ascii := "092"%char.

(** A delimited identifier after its opening quote: a doubled quote stands for
    a quote. *)
Fixpoint lex_delimited (s : string) : option (string * string) :=
  match s with
  | EmptyString => None
  | String c s' =>
      if Ascii.eqb c dquote then
        match s' with
        | String d s'' =>
            if Ascii.eqb d dquote then
              '(i, r) ← lex_delimited s''; Some (String dquote i, r)
            else Some ("", s')
        | EmptyString => Some ("", "")
        end
      else '(i, r) ← lex_delimited s'; Some (String c i, r)
  end.
(** An empty identifier is an error. A server cuts an identifier off after 63
    bytes; the names of [pg_roles], which the repair quotes, are not longer. *)
Definition lex_ident (s : string) : option (string * string) :=
  match s with
  | String c s' =>
      if Ascii.eqb c dquote then
        '(i, r) ← lex_delimited s'; if is_empty i then None else Some (i, r)
      else None
  | EmptyString => None
  end.

(** The statements of the repair. *)
Inductive Statement :=
  | ReassignOwned (old_role new_role : string)
  | DropOwned (name : string)
  | DropRoleIfExists (name : string).

Definition parse_reassign (s : string) : option Statement :=
  r ← strip_prefix "REASSIGN OWNED BY " s;
  '(a, r) ← lex_ident r; r ← strip_prefix " TO " r; '(b, r) ← lex_ident r;
  if is_empty r then Some (ReassignOwned a b) else None.
Definition parse_drop (keyword : string) (k : string → Statement) (s : string) : option Statement :=
  r ← strip_prefix keyword s; '(a, r) ← lex_ident r;
  if is_empty r then Some (k a) else None.
Definition parse_statement (s : string) : option Statement :=
  match parse_reassign s with
  | Some st => Some st
  | None =>
      match parse_drop "DROP OWNED BY " DropOwned s with
      | Some st => Some st
      | None => parse_drop "DROP ROLE IF EXISTS " DropRoleIfExists s
      end
  end.

(** *** [LIKE ... ESCAPE '\'] *)
Inductive PatternItem := Lit (c : ascii) | AnyChar | AnyString.
Fixpoint parse_pattern (s : string) : option (list PatternItem) :=
  match s with
  | EmptyString => Some []
  | String c s' =>
      if Ascii.eqb c backslash then
        match s' with
        | String d s'' => p ← parse_pattern s''; Some (Lit d :: p)
        | EmptyString => None
        end
      else
        p ← parse_pattern s';
        Some ((if Ascii.eqb c "_" then AnyChar else if Ascii.eqb c "%" then AnyString else Lit c)
              :: p)
  end.
(** The rest of a character after its first byte. *)
Fixpoint drop_cont (s : string) : string :=
  match s with
  | String c s' => if cont c then drop_cont s' else s
  | EmptyString => s
  end.
Fixpoint like (p : list PatternItem) (s : string) : bool :=
  match p with
  | [] => is_empty s
  | Lit c :: p =>
      match s with String d s' => Ascii.eqb c d && like p s' | EmptyString => false end
  | AnyChar :: p =>
      match s with String _ s' => like p (drop_cont s') | EmptyString => false end
  | AnyString :: p =>
      (fix go s := like p s || match s with String _ s' => go s' | EmptyString => false end) s
  end.

(** The order of the type [name]: byte by byte. *)
Definition name_le (a b : string) : Prop := String.leb a b = true.
#[export] Instance name_le_dec a b : Decision (name_le a b).
Proof. unfold name_le. destruct (String.leb a b); [by left|by right]. Defined.

(** [REASSIGN OWNED] moves the objects and leaves the grants; [DROP OWNED] drops
    the objects and revokes the grants; a role with either cannot be dropped. The
    cascade to objects that depend on dropped ones is left out: it is empty for
    a role that owns nothing. *)
Definition run_statement (st : Statement) (v : Server) : result SqlError Server :=
  let missing name := Err (ServerError ("role " +:+ name +:+ " does not exist")) in
  match st with
  | ReassignOwned a b =>
      if decide (a ∉ srv_roles v) then missing a
      else if decide (b ∉ srv_roles v) then missing b
      else Ok {| srv_roles := srv_roles v;
                 srv_objects := (λ o, if decide (o = a) then b else o) <$> srv_objects v;
                 srv_grants := srv_grants v;
                 srv_dependents := srv_dependents v |}
  | DropOwned a =>
      if decide (a ∉ srv_roles v) then missing a
      else Ok {| srv_roles := srv_roles v;
                 srv_objects := filter (λ o, o.2 ≠ a) (srv_objects v);
                 srv_grants := filter (λ g, g.1 ≠ a) (srv_grants v);
                 srv_dependents := srv_dependents v |}
  | DropRoleIfExists a =>
      if decide (a ∉ srv_roles v) then Ok v
      else if decide (a ∈ srv_dependents v ∨ filter (λ o, o.2 = a) (srv_objects v) ≠ ∅ ∨
                      filter (λ g, g.1 = a) (srv_grants v) ≠ ∅) then
        Err (ServerError ("role " +:+ a +:+
               " cannot be dropped because some objects depend on it"))
      else Ok {| srv_roles := srv_roles v ∖ {[ a ]}; srv_objects := srv_objects v;
                 srv_grants := srv_grants v; srv_dependents := srv_dependents v |}
  end.
End Sql_text.

Module Cli.
Import SecretBrokerClient Config Pool Sql_text.

(** [char::is_ascii_alphanumeric] or one of [_] and [-] *)
Definition identifier_char (c : ascii) : bool :=
  is_ascii_alphanumeric c || Ascii.eqb c "_" || Ascii.eqb c "-".
Definition sanitize_identifier `{UnicodeTables} (input : string) : option string :=
  let sanitized := string_filter identifier_char input in
  if is_empty sanitized then None else Some (to_lowercase sanitized).

(** [input.replace(...)]: every quotation mark is doubled. *)
Fixpoint double_quotes (s : string) : string :=
  match s with
  | EmptyString => EmptyString
  | String c s' =>
      if Ascii.eqb c dquote then String dquote (String dquote (double_quotes s'))
      else String c (double_quotes s')
  end.
Definition quote_identifier (input : string) : string :=
  String dquote (double_quotes input +:+ String dquote "").

Definition reassign_sql (lease_role owner_role : string) : string :=
  "REASSIGN OWNED BY " +:+ quote_identifier lease_role +:+ " TO " +:+ quote_identifier owner_role.
Definition drop_owned_sql (lease_role : string) : string :=
  "DROP OWNED BY " +:+ quote_identifier lease_role.
Definition drop_role_sql (lease_role : string) : string :=
  "DROP ROLE IF EXISTS " +:+ quote_identifier lease_role.

Definition role_like_pattern (prefix : string) : string :=
  prefix +:+ String backslash "_%".

Section cli.
Context `{UuidApi, JsonApi, BrokerApi} `{!Host} `{UnicodeTables} `{PgApi} `{Migrator} `{UrlApi}.

(** The process and the database server. *)
Record CliState := { cs_cluster : Cluster; cs_server : Server }.
Abbreviation CM := (eff CliState AnyhowError).

Definition on_cluster {E A} (m : eff Cluster E A) : eff CliState E A := λ s,
  let '(r, c) := m (cs_cluster s) in (r, {| cs_cluster := c; cs_server := cs_server s |}).

(** A statement on the repair connection. *)
Definition server_sql {A} (q : Server → result SqlError (A * Server)) : CM A := λ s,
  let t := w_tick (cl_world (cs_cluster s)) in
  let c := snd (on_world (E := AnyhowError) (modify tick) (cs_cluster s)) in
  let r := q (cs_server s) in
  let before := {| cs_cluster := c; cs_server := cs_server s |} in
  let after := {| cs_cluster := c;
                  cs_server := match r with Ok (_, v) => v | Err _ => cs_server s end |} in
  let error e := anyhow (sql_error_string e) in
  match sql_fault t with
  | Some (NotExecuted m) => (Err (error (DriverError m)), before)
  | Some (NotAcknowledged m) => (Err (error (DriverError m)), after)
  | None => (map_err error (fst <$> r), after)
  end.

(** [sqlx::query(sql).execute(&pool)]: the server parses the text. *)
Definition execute_sql (sql : string) : CM () :=
  server_sql (λ v,
    match parse_statement sql with
    | Some st => v' ← run_statement st v; Ok ((), v')
    | None => Err (ServerError ("syntax error in " +:+ sql))
    end).

(** [PgPoolOptions::connect(database_url)]: the URL is used as it is. *)
Definition connect_repair (database_url : string) : CM () := λ s,
  let t := w_tick (cl_world (cs_cluster s)) in
  let s' := {| cs_cluster := snd (on_world (E := AnyhowError) (modify tick) (cs_cluster s));
               cs_server := cs_server s |} in
  match pg_parse database_url with
  | Err e => (Err (anyhow e), s')
  | Ok options =>
      match pg_connect_error t options with
      | Some e => (Err (anyhow e), s')
      | None => (Ok (), s')
      end
  end.

Definition select_owner_exists (owner_role : string) : CM bool :=
  server_sql (λ v, Ok (bool_decide (owner_role ∈ srv_roles v), v)).

Definition select_lease_roles (pattern owner_role : string) : CM (list string) :=
  server_sql (λ v,
    match parse_pattern pattern with
    | None => Err (ServerError "LIKE pattern must not end with escape character")
    | Some p =>
        Ok (merge_sort name_le
              (filter (λ rolname, like p rolname = true ∧ rolname ≠ owner_role)
                 (elements (srv_roles v))), v)
    end).

Definition repair_role (owner_role lease_role : string) : CM () :=
  execute_sql (reassign_sql lease_role owner_role);;
  execute_sql (drop_owned_sql lease_role);;
  execute_sql (drop_role_sql lease_role).

Fixpoint repair_roles (owner_role : string) (lease_roles : list string) : CM () :=
  match lease_roles with
  | [] => mret ()
  | lease_role :: lease_roles =>
      repair_role owner_role lease_role;;
      repair_roles owner_role lease_roles
  end.

(** [audience_prefixes] are the prefixes seen so far; the result is
    [repaired_roles], which is only logged. *)
Fixpoint repair_audiences (owner_role : string) (audiences : list string)
    (audience_prefixes : gset string) : CM (list string) :=
  match audiences with
  | [] => mret []
  | audience :: audiences =>
      match sanitize_identifier audience with
      | None => repair_audiences owner_role audiences audience_prefixes
      | Some prefix =>
          if decide (prefix ∈ audience_prefixes) then
            repair_audiences owner_role audiences audience_prefixes
          else
            lease_roles ← select_lease_roles (role_like_pattern prefix) owner_role;
            repair_roles owner_role lease_roles;;
            repaired ← repair_audiences owner_role audiences ({[ prefix ]} ∪ audience_prefixes);
            mret (lease_roles ++ repaired)
      end
  end.

Definition repair_postgres_lease_ownership (database_url owner_role : string)
    (repair_lease_audiences : list string) : CM () :=
  match repair_lease_audiences with
  | [] => mret ()
  | _ =>
      eff_map_err (context "failed to connect to Postgres for lease ownership repair")
        (connect_repair database_url);;
      owner_exists ← select_owner_exists owner_role;
      if negb owner_exists then
        fail (anyhow ("stable Postgres owner role '" +:+ owner_role +:+ "' does not exist"))
      else
        repair_audiences owner_role repair_lease_audiences ∅;;
        mret ()
  end.

(** ** [migrate_postgres] *)

Definition resolve_database_url (env : Env) (explicit_database_url : option string) :
    result AnyhowError string :=
  let url := match explicit_database_url with
             | Some url => Some url
             | None => ok (env_var env "SECURE_DB_URL")
             end in
  ok_or (url ← url; if blank url then None else Some url)
    (anyhow "database URL is required via --database-url or SECURE_DB_URL").

Definition owner_role_from_database_url (database_url : string) : option string :=
  parsed ← ok (url_parse database_url);
  let username := trim (url_username parsed) in
  if is_empty username then None else Some username.

Record MigrateArgs := {
  ma_database_url : option string;
  ma_pool_max : option N;
  ma_pool_min : option N;
  ma_connect_timeout : option N;
  ma_idle_timeout : option N;
  ma_application_name : option string;
  ma_owner_role : option string;
  ma_repair_lease_audiences : list string;
}.

(** [env::set_var], and the same for an option *)
Definition set_var (key value : string) (env : Env) : Env := <[ key := Unicode value ]> env.
Definition set_opt (key : string) (value : option string) (env : Env) : Env :=
  match value with Some v => set_var key v env | None => env end.

Definition migrate_env (args : MigrateArgs) (resolved_database_url : string) (env : Env) : Env :=
  set_opt "SECURE_DB_APP_NAME" (ma_application_name args)
    (set_opt "SECURE_DB_IDLE_TIMEOUT" (n_to_string <$> ma_idle_timeout args)
      (set_opt "SECURE_DB_CONNECT_TIMEOUT" (n_to_string <$> ma_connect_timeout args)
        (set_opt "SECURE_DB_POOL_MIN" (n_to_string <$> ma_pool_min args)
          (set_opt "SECURE_DB_POOL_MAX" (n_to_string <$> ma_pool_max args)
            (set_var "SECURE_DB_URL" resolved_database_url
              (set_var "SECURE_DB_CREDENTIAL_SOURCE" "static"
                (set_var "SECURE_DB_ALLOW_DIRECT_BOOTSTRAP" "1"
                  (set_var "SECURE_DB_ALLOW_STATIC" "1" env)))))))).

(** [client_from_env] is [SecretBrokerClient::from_env]. *)
Definition migrate_postgres (f : Features) (env : Env) (client_from_env : MA ())
    (args : MigrateArgs) : CM () :=
  resolved_database_url ← lift (resolve_database_url env (ma_database_url args));
  owner_role ← lift (ok_or
    (match ma_owner_role args with
     | Some role => Some role
     | None => owner_role_from_database_url resolved_database_url
     end) (anyhow "--owner-role is required when the database URL has no username"));
  let env := migrate_env args resolved_database_url env in
  eff_map_err (context "failed to normalize leased Postgres ownership before migrations")
    (repair_postgres_lease_ownership resolved_database_url owner_role
       (ma_repair_lease_audiences args));;
  eff_map_err (context "failed to run PostgreSQL migrations")
    (on_cluster (connect_native f env client_from_env));;
  mret ().
End cli.
End Cli.
