(* ===== verification/CliProps.v ===== *)
(** * Properties of migrations from the command line

    Statements mean what they are built for, whatever the names; the repair of
    lease roles moves ownership and loses no object; and the settings of the
    command select the database it was given. *)
From S2P Require Import Prelude RustStd Platform World Environment Broker Config Pool Cli Reference.
From S2P Require Import Net RaTls PeerVerification BrokerConfig.
Local Open Scope N_scope.

Module CliProps.
Import SecretBrokerClient Config Pool Sql_text Cli.

(** ** Identifiers *)

Definition no_quote_first (r : string) : Prop :=
  match r with String d _ => Ascii.eqb d dquote = false | EmptyString => True end.

Lemma lex_delimited_double s r : no_quote_first r →
  lex_delimited (double_quotes s +:+ String dquote r) = Some (s, r).
Proof.
  intros Hr. induction s as [|c s IH].
  - change (double_quotes "" +:+ String dquote r) with (String dquote r). cbn.
    destruct r as [|d r]; [done|]. cbn in Hr. by rewrite Hr.
  - cbn [double_quotes]. destruct (Ascii.eqb c dquote) eqn:E; rewrite !string_app_cons; cbn.
    + apply Ascii.eqb_eq in E as ->. by rewrite IH.
    + by rewrite E, IH.
Qed.

Lemma lex_ident_quote s r : no_quote_first r →
  lex_ident (quote_identifier s +:+ r) = if is_empty s then None else Some (s, r).
Proof.
  intros Hr. unfold quote_identifier. rewrite string_app_cons, string_app_assoc.
  change (String dquote "" +:+ r) with (String dquote r). cbn.
  by rewrite lex_delimited_double.
Qed.
Lemma lex_ident_end s :
  lex_ident (quote_identifier s) = if is_empty s then None else Some (s, "").
Proof. rewrite <-(lex_ident_quote s "") by done. by rewrite string_app_nil_r. Qed.

Lemma parse_reassign_sql a b : parse_statement (reassign_sql a b) =
  if is_empty a || is_empty b then None else Some (ReassignOwned a b).
Proof.
  unfold parse_statement, parse_reassign, reassign_sql.
  rewrite strip_prefix_app. cbn [mbind option_bind].
  rewrite lex_ident_quote by done. destruct (is_empty a); [done|]. cbn [mbind option_bind].
  rewrite strip_prefix_app. cbn [mbind option_bind].
  rewrite lex_ident_end. by destruct (is_empty b).
Qed.
Lemma parse_drop_owned_sql a : parse_statement (drop_owned_sql a) =
  if is_empty a then None else Some (DropOwned a).
Proof.
  unfold parse_statement, parse_drop, drop_owned_sql.
  change (parse_reassign _) with (@None Statement).
  rewrite strip_prefix_app. cbn [mbind option_bind]. rewrite lex_ident_end.
  by destruct (is_empty a).
Qed.
Lemma parse_drop_role_sql a : parse_statement (drop_role_sql a) =
  if is_empty a then None else Some (DropRoleIfExists a).
Proof.
  unfold parse_statement, parse_drop, drop_role_sql.
  change (parse_reassign _) with (@None Statement).
  change (strip_prefix "DROP OWNED BY " _) with (@None string). cbn [mbind option_bind].
  rewrite strip_prefix_app. cbn [mbind option_bind]. rewrite lex_ident_end.
  by destruct (is_empty a).
Qed.

(** C25. No injection: whatever characters the names of the roles contain, the
    server reads each statement of the repair as the one statement it was built
    for, about exactly these roles (or, for an empty name, refuses it). *)
Theorem statements_are_not_injectable lease_role owner_role :
  parse_statement (reassign_sql lease_role owner_role) =
    (if is_empty lease_role || is_empty owner_role then None
     else Some (ReassignOwned lease_role owner_role)) ∧
  parse_statement (drop_owned_sql lease_role) =
    (if is_empty lease_role then None else Some (DropOwned lease_role)) ∧
  parse_statement (drop_role_sql lease_role) =
    (if is_empty lease_role then None else Some (DropRoleIfExists lease_role)).
Proof.
  split; [apply parse_reassign_sql|].
  split; [apply parse_drop_owned_sql|apply parse_drop_role_sql].
Qed.

(** ** Patterns *)

(** A prefix in which nothing stands for anything else. *)
Definition literal (s : string) : Prop := no_char backslash s ∧ no_char "%"%char s.

Lemma parse_pattern_app s r p : literal s → no_char "_"%char s → parse_pattern r = Some p →
  ∃ q, parse_pattern (s +:+ r) = Some (q ++ p) ∧
    ∀ t, like (q ++ p) t = match strip_prefix s t with Some t' => like p t' | None => false end.
Proof.
  intros [Hb Hp] Hu Hr. induction s as [|c s IH].
  - exists []. by split.
  - apply no_char_cons in Hb as [Hb1 Hb], Hp as [Hp1 Hp], Hu as [Hu1 Hu].
    destruct (IH Hb Hp Hu) as (q & E & Hq). exists (Lit c :: q). split.
    + rewrite string_app_cons. cbn. apply Ascii.eqb_neq in Hb1, Hp1, Hu1.
      by rewrite Hb1, E, Hp1, Hu1.
    + intros [|d t]; [done|]. cbn. rewrite Hq.
      by destruct (Ascii.eqb c d).
Qed.

Lemma like_any t : like [AnyString] t = true.
Proof. induction t as [|c t IH]; [done|]. cbn in *. by rewrite IH, ?orb_true_r. Qed.

(** The pattern of a prefix without underscores selects the names that begin with
    the prefix and an underscore. *)
Lemma pattern_exact prefix : literal prefix → no_char "_"%char prefix →
  ∃ p, parse_pattern (role_like_pattern prefix) = Some p ∧
    ∀ name, like p name = starts_with (prefix +:+ "_") name.
Proof.
  intros Hl Hu.
  destruct (parse_pattern_app prefix (String backslash "_%") [Lit "_"; AnyString] Hl Hu eq_refl)
    as (q & E & Hq).
  eexists. split; [exact E|]. intros name. rewrite Hq.
  destruct (strip_prefix prefix name) as [t|] eqn:Et.
  - apply strip_prefix_Some in Et as ->.
    assert (starts_with (prefix +:+ "_") (prefix +:+ t) = starts_with "_" t) as ->.
    { unfold starts_with. clear. induction prefix as [|c p IH]; [done|].
      rewrite !string_app_cons. cbn. by rewrite Ascii.eqb_refl. }
    destruct t as [|c t]; [done|]. unfold starts_with. cbn [strip_prefix like].
    destruct (Ascii.eqb "_" c); [|done]. cbn [andb]. by rewrite like_any.
  - symmetry. apply not_true_iff_false. intros (r & ->)%starts_with_true.
    by rewrite string_app_assoc, strip_prefix_app in Et.
Qed.

Lemma identifier_char_facts c : identifier_char c = true →
  c ≠ backslash ∧ c ≠ "%"%char ∧ cont c = false.
Proof. destruct c as [[] [] [] [] [] [] [] []]; vm_compute; done. Qed.

Lemma identifier_literal s : string_forall identifier_char s = true → literal s.
Proof.
  intros Hs. split; (eapply string_forall_impl; [|exact Hs]); cbn; intros c Hc;
    apply negb_true_iff, Ascii.eqb_neq; by destruct (identifier_char_facts c Hc) as (? & ? & ?).
Qed.

Lemma drop_cont_identifier s r : string_forall identifier_char s = true →
  drop_cont (s +:+ String "_" r) = s +:+ String "_" r.
Proof.
  destruct s as [|c s]; [done|]. cbn [string_forall]. rewrite andb_true_iff. intros [Hc _].
  rewrite string_app_cons. cbn. by destruct (identifier_char_facts c Hc) as (_ & _ & ->).
Qed.

(** An underscore in an audience is a wildcard: the roles repaired for the
    audience [a_b] include those of every audience that differs from it in this
    character, such as [a-b]. *)
Theorem underscore_selects_other_audiences a b c rest :
  string_forall identifier_char (a +:+ String c b) = true →
  no_char "_"%char a → no_char "_"%char b →
  ∃ p, parse_pattern (role_like_pattern (a +:+ String "_" b)) = Some p ∧
    like p (a +:+ String c (b +:+ String "_" rest)) = true.
Proof.
  rewrite string_app_forall, andb_true_iff. cbn [string_forall]. rewrite andb_true_iff.
  intros (Ha & Hc & Hb) Hua Hub. unfold role_like_pattern.
  destruct (parse_pattern_app b (String backslash "_%") [Lit "_"; AnyString]
    (identifier_literal _ Hb) Hub eq_refl) as (qb & Eb & Hqb).
  assert (parse_pattern (String "_" (b +:+ String backslash "_%")) =
    Some (AnyChar :: qb ++ [Lit "_"; AnyString])) as Em by (cbn; by rewrite Eb).
  destruct (parse_pattern_app a _ _ (identifier_literal _ Ha) Hua Em) as (qa & Ea & Hqa).
  exists (qa ++ AnyChar :: qb ++ [Lit "_"; AnyString]). split.
  - rewrite string_app_assoc, string_app_cons. exact Ea.
  - rewrite Hqa, strip_prefix_app. cbn [like].
    rewrite drop_cont_identifier by done. rewrite Hqb, strip_prefix_app.
    cbn [like]. rewrite Ascii.eqb_refl. cbn [andb]. apply like_any.
Qed.

(** ** The repair *)

Section repair.
Context `{UuidApi, JsonApi, BrokerApi} `{!Host} `{UnicodeTables} `{PgApi} `{Migrator} `{UrlApi}.

Lemma server_sql_run {A} (q : Server → result SqlError (A * Server)) s r s' :
  server_sql q s = (r, s') →
  (cs_server s' = cs_server s ∨ ∃ a, q (cs_server s) = Ok (a, cs_server s')) ∧
  (∀ a, r = Ok a → q (cs_server s) = Ok (a, cs_server s')).
Proof.
  unfold server_sql.
  destruct (sql_fault _) as [[m|m]|], (q (cs_server s)) as [[a v]|e] eqn:Eq; cbn;
    intros [= <- <-]; cbn; naive_solver.
Qed.

(** The names a repair may touch: they match the pattern of an audience. *)
Definition selected (audiences : list string) (owner name : string) : Prop :=
  name ≠ owner ∧ ∃ audience prefix p, audience ∈ audiences ∧
    sanitize_identifier audience = Some prefix ∧
    parse_pattern (role_like_pattern prefix) = Some p ∧ like p name = true.

Definition owns_nothing (a : string) (v : Server) : Prop := ∀ o, srv_objects v !! o ≠ Some a.

Definition granted_nothing (a : string) (v : Server) : Prop := ∀ g, g ∈ srv_grants v → g.1 ≠ a.

(** What a repair may do to the server, for the names in [M]. *)
Record moved (owner : string) (M : string → Prop) (v v' : Server) : Prop := {
  mv_dependents : srv_dependents v' = srv_dependents v;
  mv_roles r : r ∈ srv_roles v' → r ∈ srv_roles v;
  mv_dropped r : r ∈ srv_roles v → r ∉ srv_roles v' →
    M r ∧ r ≠ owner ∧ owns_nothing r v' ∧ granted_nothing r v';
  mv_objects o : srv_objects v' !! o = srv_objects v !! o ∨
    ∃ r, srv_objects v !! o = Some r ∧ M r ∧ r ≠ owner ∧ srv_objects v' !! o = Some owner;
  mv_grants g : g ∈ srv_grants v' → g ∈ srv_grants v;
  mv_revoked g : g ∈ srv_grants v → g ∉ srv_grants v' → M g.1 ∧ g.1 ≠ owner;
}.
Lemma moved_owns_nothing owner M v v' a : moved owner M v v' → a ≠ owner →
  owns_nothing a v → owns_nothing a v'.
Proof.
  intros [_ _ _ Ho _ _] Ha Hn o E. destruct (Ho o) as [E1|(r & _ & _ & _ & E1)].
  - rewrite E1 in E. by apply (Hn o).
  - congruence.
Qed.
#[export] Instance moved_refl owner M : Reflexive (moved owner M).
Proof. intros v. split; try done. by left. Qed.
#[export] Instance moved_trans owner M : Transitive (moved owner M).
Proof.
  intros v1 v2 v3 [D1 R1 P1 O1 G1 V1] Hm2. pose proof Hm2 as [D2 R2 P2 O2 G2 V2]. split.
  - congruence.
  - auto.
  - intros r Hr Hn. destruct (decide (r ∈ srv_roles v2)) as [|Hn2]; [by apply P2|].
    destruct (P1 r Hr Hn2) as (? & ? & ? & Hg). split; [done|]. split; [done|].
    split; [by eapply moved_owns_nothing|]. intros g ?%G2. by apply Hg.
  - intros o. destruct (O1 o) as [E1|(r & E1 & Hm & Hne & E1')].
    + rewrite <-E1. apply O2.
    + right. exists r. destruct (O2 o) as [E2|(r' & E2 & _ & Hne' & _)].
      * by rewrite E2.
      * exfalso. apply Hne'. congruence.
  - auto.
  - intros g Hg Hn. destruct (decide (g ∈ srv_grants v2)); [by apply V2|by apply V1].
Qed.
Definition moves (owner : string) (M : string → Prop) (s s' : CliState) : Prop :=
  moved owner M (cs_server s) (cs_server s').
#[export] Instance moves_refl owner M : Reflexive (moves owner M).
Proof. intros s. unfold moves. reflexivity. Qed.
#[export] Instance moves_trans owner M : Transitive (moves owner M).
Proof. intros s1 s2 s3 A B. unfold moves in *. by etrans. Qed.

Definition reassigned (a b : string) (v : Server) : Server := {|
  srv_roles := srv_roles v;
  srv_objects := (λ o, if decide (o = a) then b else o) <$> srv_objects v;
  srv_grants := srv_grants v;
  srv_dependents := srv_dependents v |}.

Lemma reassigned_moved owner (M : string → Prop) a v : M a → a ≠ owner →
  moved owner M v (reassigned a owner v).
Proof.
  intros Hm Ha. split; try done. intros o. cbn. rewrite lookup_fmap.
  destruct (srv_objects v !! o) as [r|]; [|by left]. cbn.
  case_decide; [right|by left]. subst. by exists a.
Qed.
Lemma reassigned_owns a b v : a ≠ b → owns_nothing a (reassigned a b v).
Proof.
  intros Hab o. cbn. rewrite lookup_fmap. destruct (srv_objects v !! o) as [r|]; [|done]. cbn.
  case_decide; intros [= ->]; done.
Qed.

Definition revoked (a : string) (v : Server) : Server := {|
  srv_roles := srv_roles v; srv_objects := srv_objects v;
  srv_grants := filter (λ g, g.1 ≠ a) (srv_grants v);
  srv_dependents := srv_dependents v |}.
Lemma revoked_moved owner (M : string → Prop) a v : M a → a ≠ owner →
  moved owner M v (revoked a v).
Proof.
  intros Hm Ha. split; cbn; try done; [by left|set_solver|].
  intros g Hg Hn. assert (g.1 = a) as -> by (destruct (decide (g.1 = a)); [done|set_solver]). done.
Qed.

(** One statement: refused or not, the server is as before or as the statement
    leaves it. *)
Lemma execute_sql_run sql st s r s' : parse_statement sql = Some st →
  execute_sql sql s = (r, s') →
  (cs_server s' = cs_server s ∨ run_statement st (cs_server s) = Ok (cs_server s')) ∧
  (r = Ok () → run_statement st (cs_server s) = Ok (cs_server s')).
Proof.
  intros Hp E1. apply server_sql_run in E1 as [E1 E2]. rewrite Hp in E1, E2.
  assert (∀ v', (v' ← run_statement st (cs_server s); Ok ((), v')) = Ok ((), v') →
    run_statement st (cs_server s) = Ok v') as Hv
    by (intros v'; intros (v1 & Hr & [= ->])%result_bind_Ok; done).
  split.
  - destruct E1 as [E1|[[] E1]]; [by left|right]. apply result_bind_Ok in E1 as (v1 & Hr & E1). congruence.
  - intros ->. specialize (E2 () eq_refl). apply result_bind_Ok in E2 as (v1 & Hr & E2). congruence.
Qed.
Lemma execute_sql_refused sql s r s' : parse_statement sql = None →
  execute_sql sql s = (r, s') → cs_server s' = cs_server s ∧ r ≠ Ok ().
Proof.
  intros Hp E1. apply server_sql_run in E1 as [E1 E2]. rewrite Hp in E1, E2.
  split; [by destruct E1 as [E1|[? E1]]|]. intros ->. by specialize (E2 () eq_refl).
Qed.

Lemma run_reassign a b v v' : run_statement (ReassignOwned a b) v = Ok v' → v' = reassigned a b v.
Proof. cbn. do 2 (case_decide; [done|]). by intros [= <-]. Qed.
Lemma run_drop_owned a v v' :
  owns_nothing a v → run_statement (DropOwned a) v = Ok v' → v' = revoked a v.
Proof.
  intros Ho. cbn. case_decide; [done|]. intros [= <-]. unfold revoked. f_equal.
  apply map_filter_id. intros o r Hr Hra. cbn in Hra. subst r. by apply (Ho o).
Qed.
Lemma run_drop_role a v v' : run_statement (DropRoleIfExists a) v = Ok v' →
  (v' = v ∧ a ∉ srv_roles v) ∨
  (granted_nothing a v ∧
   v' = {| srv_roles := srv_roles v ∖ {[ a ]}; srv_objects := srv_objects v;
           srv_grants := srv_grants v; srv_dependents := srv_dependents v |}).
Proof.
  cbn. case_decide; [intros [= <-]; auto|]. case_decide as Hd; [done|]. intros [= <-].
  right. split; [|done]. intros g Hg Ha. apply Hd. right; right. set_solver.
Qed.

Definition role_gone (a : string) (v : Server) : Prop :=
  (a ∉ srv_roles v) ∧ owns_nothing a v.

Lemma repair_role_run owner (M : string → Prop) a s r s' : M a → a ≠ owner →
  repair_role owner a s = (r, s') →
  moves owner M s s' ∧ (r = Ok () → role_gone a (cs_server s')).
Proof.
  intros Hm Ha E1. unfold repair_role in E1.
  destruct (execute_sql (reassign_sql a owner) s) as [r1 s1] eqn:Er1.
  pose proof (parse_reassign_sql a owner) as Hp.
  destruct (is_empty a) eqn:Ea; cbn [orb] in Hp;
    [|destruct (is_empty owner) eqn:Eo];
    try (destruct (execute_sql_refused _ _ _ _ Hp Er1) as [Es Hr];
      destruct r1 as [[]|e]; [done|]; rewrite (eff_bind_fail _ _ _ _ _ Er1) in E1;
      injection E1 as <- <-; unfold moves; rewrite Es; split; [reflexivity|done]).
  destruct (execute_sql_run _ _ _ _ _ Hp Er1) as [Hs1 Hok1].
  assert (moves owner M s s1) as Hm1.
  { unfold moves. destruct Hs1 as [->|E2%run_reassign]; [reflexivity|].
    rewrite E2. by apply reassigned_moved. }
  destruct r1 as [[]|e]; [|rewrite (eff_bind_fail _ _ _ _ _ Er1) in E1; by injection E1 as <- <-].
  rewrite (eff_bind_step _ _ _ _ _ Er1) in E1.
  assert (owns_nothing a (cs_server s1)) as Hown
    by (rewrite (run_reassign _ _ _ _ (Hok1 eq_refl)); by apply reassigned_owns).
  destruct (execute_sql (drop_owned_sql a) s1) as [r2 s2] eqn:Er2.
  pose proof (parse_drop_owned_sql a) as Hp2. rewrite Ea in Hp2.
  destruct (execute_sql_run _ _ _ _ _ Hp2 Er2) as [Hs2 _].
  assert (moves owner M s s2 ∧ owns_nothing a (cs_server s2)) as [Hm2 Hown2].
  { unfold moves in *. destruct Hs2 as [->|E2%run_drop_owned]; [done| |done].
    rewrite E2. split; [|done]. etrans; [exact Hm1|]. by apply revoked_moved. }
  destruct r2 as [[]|e]; [|rewrite (eff_bind_fail _ _ _ _ _ Er2) in E1; by injection E1 as <- <-].
  rewrite (eff_bind_step _ _ _ _ _ Er2) in E1.
  pose proof (parse_drop_role_sql a) as Hp3. rewrite Ea in Hp3.
  destruct (execute_sql_run _ _ _ _ _ Hp3 E1) as [Hs3 Hok3].
  assert (∀ v', run_statement (DropRoleIfExists a) (cs_server s2) = Ok v' →
    moved owner M (cs_server s2) v' ∧ role_gone a v') as Hdrop.
  { intros v' [[-> Hn]|[Hg ->]]%run_drop_role; [split; [reflexivity|done]|]. split.
    - split; cbn; try done; [set_solver| |by left]. intros x Hx Hn.
      assert (x = a) as -> by (destruct (decide (x = a)); [done|set_solver]).
      done.
    - split; cbn; [set_solver|done]. }
  split; [|intros ->; by apply Hdrop, Hok3].
  etrans; [exact Hm2|]. unfold moves.
  destruct Hs3 as [->|E3]; [reflexivity|by apply Hdrop].
Qed.

Lemma repair_roles_run owner (M : string → Prop) l s r s' :
  Forall (λ a, M a ∧ a ≠ owner) l → repair_roles owner l s = (r, s') →
  moves owner M s s' ∧ (r = Ok () → ∀ a, a ∈ l → a ∉ srv_roles (cs_server s')).
Proof.
  intros Hl. revert s. induction Hl as [|a l [Hm Ha] _ IH]; intros s E1; cbn [repair_roles] in E1.
  { injection E1 as <- <-. split; [reflexivity|]. by intros _ a ?%elem_of_nil. }
  destruct (repair_role owner a s) as [r1 s1] eqn:Er.
  destruct (repair_role_run _ _ _ _ _ _ Hm Ha Er) as [Hm1 Hok1].
  destruct r1 as [[]|e]; [|rewrite (eff_bind_fail _ _ _ _ _ Er) in E1; by injection E1 as <- <-].
  rewrite (eff_bind_step _ _ _ _ _ Er) in E1. destruct (IH _ E1) as [Hm2 Hok2].
  split; [by etrans|]. intros -> b [->|Hb]%elem_of_cons; [|by apply Hok2].
  intros Hb. by apply (proj1 (Hok1 eq_refl)), (mv_roles _ _ _ _ Hm2).
Qed.

(** No role is left for a prefix. *)
Definition clean (owner prefix : string) (v : Server) : Prop := ∀ p name,
  parse_pattern (role_like_pattern prefix) = Some p → like p name = true → name ≠ owner →
  name ∉ srv_roles v.
Lemma clean_moved owner M prefix v v' :
  moved owner M v v' → clean owner prefix v → clean owner prefix v'.
Proof. intros Hm Hc p name Hp Hl Hn Hin. by apply (Hc p name Hp Hl Hn), (mv_roles _ _ _ _ Hm). Qed.

Lemma select_roles_run pattern owner s r s' : select_lease_roles pattern owner s = (r, s') →
  cs_server s' = cs_server s ∧
  ∀ l, r = Ok l → ∃ p, parse_pattern pattern = Some p ∧
    ∀ name, name ∈ l ↔ like p name = true ∧ name ≠ owner ∧ name ∈ srv_roles (cs_server s).
Proof.
  intros [E1 E2]%server_sql_run. destruct (parse_pattern pattern) as [p|].
  - split; [destruct E1 as [E1|[a E1]]; congruence|].
    intros l ->. specialize (E2 l eq_refl). exists p. split; [done|]. intros name.
    assert (l = merge_sort name_le (filter (λ rolname, like p rolname = true ∧ rolname ≠ owner)
      (elements (srv_roles (cs_server s))))) as -> by congruence.
    rewrite (merge_sort_Permutation name_le), list_elem_of_filter, elem_of_elements. naive_solver.
  - split; [by destruct E1 as [E1|[a E1]]|]. intros l ->. by specialize (E2 l eq_refl).
Qed.

Lemma repair_audiences_run all owner audiences seen s r s' :
  audiences ⊆ all → (∀ prefix, prefix ∈ seen → clean owner prefix (cs_server s)) →
  repair_audiences owner audiences seen s = (r, s') →
  moves owner (selected all owner) s s' ∧
  (is_ok r = true → ∀ audience prefix, audience ∈ audiences →
    sanitize_identifier audience = Some prefix → clean owner prefix (cs_server s')).
Proof.
  revert seen s r s'. induction audiences as [|aud auds IH]; intros seen s r s' Hsub Hseen E1;
    cbn [repair_audiences] in E1.
  { injection E1 as <- <-. split; [reflexivity|]. by intros _ ? ? ?%elem_of_nil. }
  assert (auds ⊆ all) as Hsub' by (intros x Hx; apply Hsub; by right).
  destruct (sanitize_identifier aud) as [prefix|] eqn:Ep.
  2:{ destruct (IH _ _ _ _ Hsub' Hseen E1) as [Hm Hok]. split; [done|].
      intros Hr a pr [->|Ha]%elem_of_cons Hs; [congruence|by eapply Hok]. }
  destruct (decide (prefix ∈ seen)) as [Hin|Hnin].
  { destruct (IH _ _ _ _ Hsub' Hseen E1) as [Hm Hok]. split; [done|].
    intros Hr a pr [->|Ha]%elem_of_cons Hs; [|by eapply Hok].
    assert (pr = prefix) as -> by congruence. by eapply clean_moved, Hseen. }
  destruct (select_lease_roles (role_like_pattern prefix) owner s) as [rl s1] eqn:El.
  destruct (select_roles_run _ _ _ _ _ El) as [Es1 Hl].
  destruct rl as [l|e]; [|rewrite (eff_bind_fail _ _ _ _ _ El) in E1; injection E1 as <- <-;
    split; [unfold moves; by rewrite Es1|done]].
  rewrite (eff_bind_step _ _ _ _ _ El) in E1. destruct (Hl l eq_refl) as (p & Hp & Hname).
  destruct (repair_roles owner l s1) as [rr s2] eqn:Er.
  assert (Forall (λ a, selected all owner a ∧ a ≠ owner) l) as HM.
  { apply Forall_forall. intros name (Hlike & Hne & _)%Hname. split; [|done]. split; [done|].
    exists aud, prefix, p. split; [apply Hsub; left|done]. }
  destruct (repair_roles_run _ _ _ _ _ _ HM Er) as [Hm2 Hok2].
  unfold moves in Hm2. rewrite Es1 in Hm2.
  destruct rr as [[]|e]; [|rewrite (eff_bind_fail _ _ _ _ _ Er) in E1; by injection E1 as <- <-].
  rewrite (eff_bind_step _ _ _ _ _ Er) in E1.
  destruct (repair_audiences owner auds ({[prefix]} ∪ seen) s2) as [r3 s3] eqn:E3.
  assert (clean owner prefix (cs_server s2)) as Hclean.
  { intros p' name Hp' Hlike Hne Hin. apply (Hok2 eq_refl name); [|done]. apply Hname.
    assert (p' = p) as -> by congruence. split; [done|]. split; [done|].
    by apply (mv_roles _ _ _ _ Hm2). }
  assert (∀ pr, pr ∈ {[prefix]} ∪ seen → clean owner pr (cs_server s2)) as Hseen2.
  { intros pr [->%elem_of_singleton|Hpr]%elem_of_union; [done|]. by eapply clean_moved, Hseen. }
  destruct (IH _ _ _ _ Hsub' Hseen2 E3) as [Hm3 Hok3].
  assert (s' = s3 ∧ (is_ok r = true → is_ok r3 = true)) as [-> Hr3]
    by (unfold mbind, eff_bind in E1; rewrite E3 in E1; destruct r3; injection E1 as <- <-; done).
  split; [unfold moves; by etrans|]. intros Hr a pr [->|Ha]%elem_of_cons Hs; [|by eapply Hok3; auto].
  assert (pr = prefix) as -> by congruence. by eapply clean_moved.
Qed.

(** C24. The repair of lease ownership, whatever fails on the way, does nothing but
    this: objects of roles that an audience selects go to the stable owner, grants
    to such roles are revoked, and such roles disappear once they own nothing and
    nothing is granted to them; no object is lost, and no other role, ownership,
    grant or dependent changes. When it succeeds, no selected role is
    left. *)
Theorem repair_moves_ownership url owner audiences s r s' :
  repair_postgres_lease_ownership url owner audiences s = (r, s') →
  moved owner (selected audiences owner) (cs_server s) (cs_server s') ∧
  (r = Ok () → ∀ name, selected audiences owner name → name ∉ srv_roles (cs_server s')).
Proof.
  unfold repair_postgres_lease_ownership. destruct audiences as [|aud auds].
  { intros [= <- <-]. split; [reflexivity|].
    by intros _ name (_ & a & _ & _ & ?%elem_of_nil & _). }
  set (all := aud :: auds). intros E1.
  match type of E1 with (?m ≫= _) s = _ => destruct (m s) as [r1 s1] eqn:Ec end.
  assert (cs_server s1 = cs_server s) as Es1.
  { revert Ec. unfold eff_map_err, connect_repair.
    destruct (pg_parse url) as [o|e]; [destruct (pg_connect_error _ o)|]; by intros [= <- <-]. }
  destruct r1 as [[]|e]; [|rewrite (eff_bind_fail _ _ _ _ _ Ec) in E1; injection E1 as <- <-;
    rewrite Es1; split; [reflexivity|done]].
  rewrite (eff_bind_step _ _ _ _ _ Ec) in E1.
  destruct (select_owner_exists owner s1) as [r2 s2] eqn:Eo.
  assert (cs_server s2 = cs_server s) as Es2.
  { apply server_sql_run in Eo as [[E2|[a E2]] _]; congruence. }
  destruct r2 as [b|e]; [|rewrite (eff_bind_fail _ _ _ _ _ Eo) in E1; injection E1 as <- <-;
    rewrite Es2; split; [reflexivity|done]].
  rewrite (eff_bind_step _ _ _ _ _ Eo) in E1. destruct b; cbn [negb] in E1;
    [|injection E1 as <- <-; rewrite Es2; split; [reflexivity|done]].
  destruct (repair_audiences owner all ∅ s2) as [r3 s3] eqn:E3.
  destruct (repair_audiences_run all owner all ∅ s2 r3 s3) as [Hm Hok];
    [done|by intros ? ?%elem_of_empty|done|].
  unfold moves in Hm. rewrite Es2 in Hm.
  assert (s' = s3 ∧ (r = Ok () → is_ok r3 = true)) as [-> Hr]
    by (unfold mbind, eff_bind in E1; rewrite E3 in E1; destruct r3; injection E1 as <- <-; done).
  split; [done|]. intros ?%Hr name (Hne & a & prefix & p & Ha & Hs & Hp & Hl).
  by eapply (Hok ltac:(done) a prefix).
Qed.
End repair.

(** ** The settings of a migration *)

Section settings.
Context `{UuidApi, JsonApi, BrokerApi} `{!Host} `{UnicodeTables} `{PgApi}.

Lemma env_set_var key value env : env_var (set_var key value env) key = Ok value.
Proof. unfold env_var, set_var. by rewrite lookup_insert_eq. Qed.
Lemma env_set_var_ne key key' value env :
  key ≠ key' → env_var (set_var key value env) key' = env_var env key'.
Proof. intros Hne. unfold env_var, set_var. by rewrite lookup_insert_ne. Qed.
Lemma env_set_opt_ne key key' value env :
  key ≠ key' → env_var (set_opt key value env) key' = env_var env key'.
Proof. destruct value; [apply env_set_var_ne|done]. Qed.

(** What the migration reads from its environment. *)
Ltac read_env := unfold migrate_env;
  repeat first [rewrite env_set_opt_ne by discriminate | rewrite env_set_var_ne by discriminate];
  try apply env_set_var; try reflexivity.

Lemma migrate_env_unset args url env key :
  key ∉ ["SECURE_DB_APP_NAME"; "SECURE_DB_IDLE_TIMEOUT"; "SECURE_DB_CONNECT_TIMEOUT";
         "SECURE_DB_POOL_MIN"; "SECURE_DB_POOL_MAX"; "SECURE_DB_URL";
         "SECURE_DB_CREDENTIAL_SOURCE"; "SECURE_DB_ALLOW_DIRECT_BOOTSTRAP";
         "SECURE_DB_ALLOW_STATIC"] →
  env_var (migrate_env args url env) key = env_var env key.
Proof.
  rewrite !not_elem_of_cons. intros (? & ? & ? & ? & ? & ? & ? & ? & ? & _). unfold migrate_env.
  repeat first [rewrite env_set_opt_ne by done | rewrite env_set_var_ne by done]. done.
Qed.

Lemma migrate_source args url env :
  blank url = false → data_auth_from_env (migrate_env args url env) = Ok (StaticUrl url).
Proof.
  intros Hu. unfold data_auth_from_env.
  assert (env_var (migrate_env args url env) "SECURE_DB_CREDENTIAL_SOURCE" = Ok "static") as ->
    by read_env.
  replace (to_ascii_lowercase _) with "static" by reflexivity.
  rewrite (bool_decide_eq_false_2 (_ = "broker")), (bool_decide_eq_true_2 (_ = "static")) by done.
  assert (env_flag (migrate_env args url env) "SECURE_DB_ALLOW_STATIC" = Ok true) as ->.
  { unfold env_flag.
    assert (env_var (migrate_env args url env) "SECURE_DB_ALLOW_STATIC" = Ok "1") as -> by read_env.
    reflexivity. }
  cbn. rewrite (required_env_run _ _ url); [done|read_env|done].
Qed.

(** Whether the numbers are of the types that the arguments are parsed to. *)
Definition args_fit (args : MigrateArgs) : Prop :=
  (∀ n, ma_pool_max args = Some n → n ≤ u32_max) ∧
  (∀ n, ma_pool_min args = Some n → n ≤ u32_max) ∧
  (∀ n, ma_connect_timeout args = Some n → n ≤ u64_max) ∧
  (∀ n, ma_idle_timeout args = Some n → n ≤ u64_max).

(** [value] is what the argument asks for, if it is given. *)
Definition obeys {A} (arg : option A) (value : A) : Prop := ∀ a, arg = Some a → value = a.

Lemma parse_obeys max env key d arg v :
  (∀ n, arg = Some n → n ≤ max) →
  (∀ n, arg = Some n → env_var env key = Ok (n_to_string n)) →
  parse_env max env key d = Ok v → obeys arg v.
Proof.
  intros Hmax Henv E n ->. specialize (Hmax n eq_refl). specialize (Henv n eq_refl).
  rewrite (parse_env_run _ _ _ _ _ Henv Hmax) in E. by injection E.
Qed.

Lemma load_settings env c a : data_auth_from_env env = Ok a → load_native_config env = Ok c →
  nc_data_auth c = a ∧
  secrets_auth_from_env env a = Ok (nc_secrets_auth c) ∧
  parse_u32_env env "SECURE_DB_POOL_MAX" 20 = Ok (nc_max_connections c) ∧
  parse_u32_env env "SECURE_DB_POOL_MIN" 5 = Ok (nc_min_connections c) ∧
  parse_u64_env env "SECURE_DB_CONNECT_TIMEOUT" 10 = Ok (nc_connect_timeout_seconds c) ∧
  parse_u64_env env "SECURE_DB_IDLE_TIMEOUT" 300 = Ok (nc_idle_timeout_seconds c) ∧
  nc_application_name c = unwrap_or "secure-database" (env_var env "SECURE_DB_APP_NAME").
Proof.
  intros Ha. unfold load_native_config. rewrite Ha. cbn.
  destruct (secrets_auth_from_env env a) as [s|]; [|done]. cbn.
  destruct (parse_u32_env env "SECURE_DB_POOL_MAX" 20) as [mx|]; [|done]. cbn.
  destruct (parse_u32_env env "SECURE_DB_POOL_MIN" 5) as [mn|]; [|done]. cbn.
  destruct (_ || _); [done|].
  destruct (parse_u64_env env "SECURE_DB_CONNECT_TIMEOUT" 10) as [ct|]; [|done]. cbn.
  destruct (parse_u64_env env "SECURE_DB_IDLE_TIMEOUT" 300) as [it|]; [|done]. cbn.
  destruct (_ || _); [done|]. destruct (blank _); [done|]. by intros [= <-].
Qed.

(** What a migration connects to. Whatever credential source the environment
    names, the configuration that the command sets up has the static URL it was
    given and every limit that was passed as an option; a second database is
    migrated only when the environment names one. The pool is exempt from the
    check for PgBouncer, but its TLS mode is still the environment's: with
    [SECURE_DB_RATLS_MODE=disabled] it is [Prefer], which does not insist on
    TLS. *)
Theorem migration_settings args url env c name :
  blank url = false → args_fit args →
  load_native_config (migrate_env args url env) = Ok c →
  nc_data_auth c = StaticUrl url ∧
  (∀ s, nc_secrets_auth c = Some s →
    ∃ u, s = StaticUrl u ∧ env_var env "SECURE_DB_SECRETS_URL" = Ok u) ∧
  obeys (ma_pool_max args) (nc_max_connections c) ∧
  obeys (ma_pool_min args) (nc_min_connections c) ∧
  obeys (ma_connect_timeout args) (nc_connect_timeout_seconds c) ∧
  obeys (ma_idle_timeout args) (nc_idle_timeout_seconds c) ∧
  obeys (ma_application_name args) (nc_application_name c) ∧
  ∀ o, pg_parse url = Ok o →
    static_options (migrate_env args url env) url name =
      Ok (pg_with_application_name name
            (pg_with_ssl_mode (if ratls_disabled env then Prefer else Require) o)).
Proof.
  intros Hu (Hmx & Hmn & Hct & Hit) Hload.
  destruct (load_settings _ _ _ (migrate_source args url env Hu) Hload)
    as (Ha & Hs & Emx & Emn & Ect & Eit & En).
  split; [done|]. split; [|split_and!].
  - intros s E. rewrite E in Hs. cbn in Hs.
    rewrite (migrate_env_unset _ _ _ "SECURE_DB_SECRETS_URL") in Hs by (cbn; set_solver).
    destruct (env_var env "SECURE_DB_SECRETS_URL") as [u|]; [|done]. cbn in Hs.
    destruct (blank u); [done|]. injection Hs as <-. by exists u.
  - eapply parse_obeys; [exact Hmx| |exact Emx]. intros n E. unfold migrate_env. rewrite E. read_env.
  - eapply parse_obeys; [exact Hmn| |exact Emn]. intros n E. unfold migrate_env. rewrite E. read_env.
  - eapply parse_obeys; [exact Hct| |exact Ect]. intros n E. unfold migrate_env. rewrite E. read_env.
  - eapply parse_obeys; [exact Hit| |exact Eit]. intros n E. unfold migrate_env. rewrite E. read_env.
  - intros a E. rewrite En. unfold migrate_env. rewrite E. cbn [set_opt].
    by rewrite env_set_var.
  - intros o Ho. unfold static_options, ratls_disabled.
    rewrite (migrate_env_unset _ _ _ "SECURE_DB_RATLS_MODE") by (cbn; set_solver).
    destruct (eq_ignore_ascii_case _ _).
    + cbn. by rewrite Ho.
    + unfold env_flag.
      assert (env_var (migrate_env args url env) "SECURE_DB_ALLOW_DIRECT_BOOTSTRAP" = Ok "1")
        as -> by read_env.
      cbn. by rewrite Ho.
Qed.
End settings.
End CliProps.

(** ** Two audiences that differ in one character *)
Section concrete.
Import Ref SecretBrokerClient Config Pool PgRef BrokerRef Sql_text Cli CliProps.

Definition ex_server : Server := {|
  srv_roles := {["owner"; "app_1"; "app_2"; "other"]};
  srv_objects := {[ 1 := "app_1"; 2 := "owner"; 3 := "other"; 4 := "app_2" ]};
  srv_grants := {[ ("app_1", "CONNECT ON DATABASE db"); ("other", "USAGE ON SCHEMA public") ]};
  srv_dependents := ∅ |}.
Definition ex_cli : CliState := {|
  cs_cluster := mk_cluster (mk_world 4 empty_tables (0, ∅) []) [] [] [] ∅ [];
  cs_server := ex_server |}.

Lemma repair_moves_ownership_witness :
  let x := repair_postgres_lease_ownership "postgres://db" "owner" ["app"; "!"; "APP"] ex_cli in
  fst x = Ok () ∧
  srv_objects (cs_server (snd x)) !! 1 = Some "owner" ∧
  srv_objects (cs_server (snd x)) !! 3 = Some "other" ∧
  "app_2" ∉ srv_roles (cs_server (snd x)).
Proof.
  cbn zeta.
  assert (fst (repair_postgres_lease_ownership "postgres://db" "owner" ["app"; "!"; "APP"] ex_cli)
    = Ok ()) as E by (vm_compute; reflexivity).
  split; [exact E|]. split; [vm_compute; reflexivity|]. split; [vm_compute; reflexivity|].
  eapply (repair_moves_ownership "postgres://db" "owner" ["app"; "!"; "APP"] ex_cli).
  - apply run_fst. exact E.
  - reflexivity.
  - split; [discriminate|]. exists "app", "app", [Lit "a"; Lit "p"; Lit "p"; Lit "_"; AnyString].
    split; [apply list_elem_of_here|]. repeat split; reflexivity.
Defined.

Lemma underscore_selects_other_audiences_witness :
  ∃ p, parse_pattern (role_like_pattern "svc_a") = Some p ∧ like p "svc-a_17" = true.
Proof. exact (underscore_selects_other_audiences "svc" "a" "-" "17" eq_refl eq_refl eq_refl). Defined.

(** A migration where the environment asks for the broker and switches RA-TLS off. *)
Definition ex_args : MigrateArgs := {|
  ma_database_url := Some "postgres://db"; ma_pool_max := Some 7; ma_pool_min := None;
  ma_connect_timeout := None; ma_idle_timeout := None; ma_application_name := Some "migrator";
  ma_owner_role := None; ma_repair_lease_audiences := [] |}.
Definition ex_migrate_env : Env := {[
  "SECURE_DB_CREDENTIAL_SOURCE" := Unicode "broker"; "SECURE_DB_RATLS_MODE" := Unicode "disabled" ]}.
Definition ex_default_config : NativeConfig := {|
  nc_data_auth := StaticUrl ""; nc_secrets_auth := None; nc_max_connections := 0;
  nc_min_connections := 0; nc_connect_timeout_seconds := 0; nc_idle_timeout_seconds := 0;
  nc_application_name := "" |}.
Definition ex_loaded : result AnyhowError NativeConfig :=
  load_native_config (migrate_env ex_args "postgres://db" ex_migrate_env).

Lemma migration_settings_witness : ∃ c, ex_loaded = Ok c ∧
  nc_data_auth c = StaticUrl "postgres://db" ∧ nc_max_connections c = 7 ∧
  static_options (migrate_env ex_args "postgres://db" ex_migrate_env) "postgres://db" "migrator" =
    Ok (pg_with_application_name "migrator" (pg_with_ssl_mode Prefer
      {| ro_ssl := VerifyFull; ro_name := None; ro_user := "nobody"; ro_password := None;
         ro_url := "postgres://db" |})).
Proof.
  assert (ex_loaded = Ok (unwrap_or ex_default_config ex_loaded)) as E by (vm_compute; reflexivity).
  exists (unwrap_or ex_default_config ex_loaded). split; [exact E|].
  destruct (migration_settings ex_args "postgres://db" ex_migrate_env
    (unwrap_or ex_default_config ex_loaded) "migrator")
    as (Ha & _ & Hm & _ & _ & _ & _ & Ho).
  - reflexivity.
  - split_and!; intros n Hn; cbn in Hn; [injection Hn as <-|discriminate Hn..].
    apply N.leb_le. reflexivity.
  - exact E.
  - split; [exact Ha|]. split; [by apply Hm|].
    assert (ratls_disabled ex_migrate_env = true) as Hd by (vm_compute; reflexivity).
    rewrite Hd in Ho. apply Ho. reflexivity.
Defined.
End concrete.
