(* ===== verification/CliWrap.v ===== *)
(** * Sealed secrets from the command line (src/bin/secure-database-cli.rs, lines 296-388)

    [wrap_secret_v2_to_file]: wrapping the value of an environment variable and
    writing the result through a temporary file, with the path functions of
    [std::path] it uses and the files it changes. *)
From S2P Require Import Prelude RustStd Platform World Environment Broker Reference BrokerConfig.
Local Open Scope N_scope.

(** ** [std::path], on Unix *)
Module Path.
Definition slash : ascii := "/"%char.
Definition dot : ascii := "."%char.

(** The segments between slashes; empty ones and [.] are no components, but for
    a leading one. *)
Definition trivial (seg : string) : bool := is_empty seg || bool_decide (seg = ".").
Fixpoint drop_trivial (segs : list string) : list string :=
  match segs with
  | seg :: segs' => if trivial seg then drop_trivial segs' else segs
  | [] => []
  end.
(** The last segment that is a component, and those before it, last first. *)
Definition last_segments (path : string) : list string :=
  drop_trivial (rev (split slash path)).
Definition is_absolute (path : string) : bool := starts_with "/" path.

(** The path up to the end of segments that are listed last first. *)
Definition path_of (path : string) (segs : list string) : string :=
  match drop_trivial segs with
  | [] => if is_absolute path then "/"
          else match last segs with Some "." => "." | _ => "" end
  | segs => join "/" (rev segs)
  end.

Definition parent (path : string) : option string :=
  match last_segments path with
  | _ :: before => Some (path_of path before)
  | [] => if is_empty path || is_absolute path then None else Some ""
  end.

(** The part of a file name before its last dot, unless the name begins there. *)
Fixpoint before_last_dot (name : string) : option string :=
  match name with
  | EmptyString => None
  | String c name' =>
      match before_last_dot name' with
      | Some stem => Some (String c stem)
      | None => if Ascii.eqb c dot then Some "" else None
      end
  end.
Definition file_stem (name : string) : string :=
  match before_last_dot name with
  | None | Some EmptyString => name
  | Some stem => stem
  end.

(** [with_extension(extension)], for an extension that is not empty *)
Definition with_extension (extension path : string) : string :=
  match last_segments path with
  | name :: before =>
      if bool_decide (name = "..") then path
      else join "/" (rev ((file_stem name +:+ "." +:+ extension) :: before))
  | [] => path
  end.

Example extension_replaced : with_extension "tmp" "/etc/db/sealed.json" = "/etc/db/sealed.tmp".
Proof. reflexivity. Qed.
Example extension_added : with_extension "tmp" "./out.d/sealed" = "./out.d/sealed.tmp".
Proof. reflexivity. Qed.
Example hidden_file : with_extension "tmp" ".sealed" = ".sealed.tmp".
Proof. reflexivity. Qed.
Example trailing_slash : with_extension "tmp" "a/b.c//" = "a/b.tmp".
Proof. reflexivity. Qed.
Example parents : parent <$> ["a/b"; "a"; "/a"; "./a"; "/"; ""; "."; "a//./b/"] =
  [Some "a"; Some ""; Some "/"; Some "."; None; None; Some ""; Some "a"].
Proof. reflexivity. Qed.
End Path.

(** ** Files *)

(** Contents and permission bits. *)
Record File := { file_bytes : bytes; file_mode : N }.
Class FileSystem := {
  (** the mode of a new file: [0o666] without the bits of the umask *)
  default_mode : N;
  (** Each call at a moment: its error, if any; a write that fails either did not
      open the file, or opened and truncated it and wrote some bytes. *)
  create_dir_fault : string → nat → option string;
  write_fault : string → nat → option (string * option nat);
  chmod_fault : string → nat → option string;
  rename_fault : string → string → nat → option string;
}.

Module CliWrap.
Import SecretBrokerClient Path.

Definition parse_wrap_lifecycle (raw : string) : result AnyhowError SecretLifecycle :=
  let v := to_ascii_lowercase (trim raw) in
  if bool_decide (v ∈ ["single_use_unwrap"; "single-use-unwrap"; "singleuseunwrap"]) then
    Ok SingleUseUnwrap
  else if bool_decide (v ∈ ["renewable_lease"; "renewable-lease"; "renewablelease"]) then
    Ok RenewableLease
  else if bool_decide (v ∈ ["service_bootstrap"; "service-bootstrap"; "servicebootstrap"]) then
    Ok ServiceBootstrap
  else Err (anyhow ("unsupported lifecycle '" +:+ v +:+ "' ; expected single_use_unwrap, " +:+
                    "renewable_lease, or service_bootstrap")).

Section wrap.
Context `{UuidApi, JsonApi, BrokerApi} `{!Host} `{!JsonText} `{FileSystem}.

Record WrapState := { ws_world : World; ws_files : gmap string File }.
Abbreviation W := (eff WrapState AnyhowError).

Definition in_world {A} (m : MA A) : W A := λ s,
  let '(r, w) := m (ws_world s) in (r, {| ws_world := w; ws_files := ws_files s |}).

(** A file operation: the error to report, and the files after it. *)
Definition file_op (op : nat → gmap string File → option string * gmap string File)
    (msg : string) : W () := λ s,
  let '(e, files) := op (w_tick (ws_world s)) (ws_files s) in
  (match e with Some e => Err (context msg (anyhow e)) | None => Ok () end,
   {| ws_world := tick (ws_world s); ws_files := files |}).

(** [create_dir_all], [fs::write], [set_permissions] and [rename] *)
Definition create_dir_all (path : string) : W () :=
  file_op (λ t fs, (create_dir_fault path t, fs)) ("failed to create output directory " +:+ path).
Definition write_file (path : string) (contents : bytes) : W () :=
  file_op (λ t fs,
    let put b := <[ path := {| file_bytes := b;
                               file_mode := from_option file_mode default_mode (fs !! path) |} ]> fs in
    match write_fault path t with
    | Some (e, None) => (Some e, fs)
    | Some (e, Some n) => (Some e, put (take n contents))
    | None => (None, put contents)
    end) ("failed to write temporary output " +:+ path).
Definition set_permissions (path : string) (mode : N) : W () :=
  file_op (λ t fs,
    match chmod_fault path t with
    | Some e => (Some e, fs)
    | None => (None, alter (λ f, {| file_bytes := file_bytes f; file_mode := mode |}) path fs)
    end) ("failed to chmod " +:+ path).
Definition rename (from to : string) : W () :=
  file_op (λ t fs,
    match rename_fault from to t, fs !! from with
    | Some e, _ => (Some e, fs)
    | None, Some f => (None, <[ to := f ]> (delete from fs))
    | None, None => (Some "No such file or directory (os error 2)", fs)
    end) ("failed to rename " +:+ from +:+ " to " +:+ to).

(** [map(|v| v.trim().to_string()).filter(|v| !v.is_empty())] *)
Definition trimmed (o : option string) : option string :=
  v ← o; if blank v then None else Some (trim v).

Definition wrapped_payload (wrapped : WrapResponse) : JsonValue := json_object [
  ("handle", json_str (wrap_handle wrapped));
  ("redeem_token", from_option json_str json_null (wrap_redeem_token wrapped));
  ("issued_at", json_str (to_rfc3339 (wrap_created_at wrapped)))].

(** What is written: the payload and a newline. *)
Definition sealed_config (serialized : string) : bytes :=
  as_bytes (serialized +:+ String "010"%char "").

(** The plaintext and the lifecycle of the arguments. *)
Definition wrap_arguments (env : Env) (plaintext_env lifecycle : string) :
    result AnyhowError (string * SecretLifecycle) :=
  plaintext ← map_err (λ e, context (plaintext_env +:+ " is required")
                (anyhow (var_error_display e))) (env_var env plaintext_env);
  if blank plaintext then Err (anyhow (plaintext_env +:+ " must not be empty"))
  else lifecycle ← parse_wrap_lifecycle lifecycle; Ok (plaintext, lifecycle).

(** Writing, restricting and renaming the temporary file. *)
Definition publish (tmp_path output_path : string) (contents : bytes) : W () :=
  write_file tmp_path contents;;
  set_permissions tmp_path 384;;
  rename tmp_path output_path.

(** [client_from_env] is [SecretBrokerClient::from_env]. *)
Definition wrap_secret_v2_to_file (env : Env) (client_from_env : MA ())
    (plaintext_env output_file lifecycle : string) (label unwrap_principal_id : option string) :
    W () :=
  '(plaintext, lifecycle) ← lift (wrap_arguments env plaintext_env lifecycle);
  in_world (eff_map_err (context "failed to create secret-broker client") client_from_env);;
  wrapped ← in_world (eff_map_err (context "failed to wrap secret via broker")
    (wrap_secret_v2 (as_bytes plaintext) {|
       wrap_lifecycle := Some lifecycle;
       wrap_label := trimmed label;
       wrap_unwrap_principal_id := trimmed unwrap_principal_id |}));
  let output_path := output_file in
  let dir := default "." (parent output_path) in
  create_dir_all dir;;
  serialized ← lift (map_err (λ e, context "failed to serialize wrapped secret config" (anyhow e))
    (json_to_string_pretty (wrapped_payload wrapped)));
  let tmp_path := with_extension "tmp" output_path in
  publish tmp_path output_path (sealed_config serialized).

(** ** What is on disk *)

(** The sealed form of a secret the broker wrapped, readable by its owner only. *)
Definition sealed_file (plaintext : string) (f : File) : Prop := ∃ params t b wrapped serialized,
  fst (adapter_wrap_bytes_v2 (as_bytes plaintext) params t b) = Ok wrapped ∧
  json_to_string_pretty (wrapped_payload wrapped) = Ok serialized ∧
  f = {| file_bytes := sealed_config serialized; file_mode := 384 |}.

Lemma in_world_files {A} (m : MA A) s : ws_files (snd (in_world m s)) = ws_files s.
Proof. unfold in_world. by destruct (m (ws_world s)). Qed.

Lemma publish_run tmp out b s r s' : tmp ≠ out → publish tmp out b s = (r, s') →
  (∀ p, p ≠ tmp → p ≠ out → ws_files s' !! p = ws_files s !! p) ∧
  match r with
  | Ok _ => ws_files s' !! out = Some {| file_bytes := b; file_mode := 384 |} ∧
            ws_files s' !! tmp = None
  | Err _ => ws_files s' !! out = ws_files s !! out
  end.
Proof.
  intros Hne E1. unfold publish in E1.
  assert (∀ s0 r0 s1, write_file tmp b s0 = (r0, s1) →
    (∀ p, p ≠ tmp → ws_files s1 !! p = ws_files s0 !! p) ∧
    (∀ a, r0 = Ok a → ∃ mode, ws_files s1 !! tmp = Some {| file_bytes := b; file_mode := mode |}))
    as Hw.
  { intros s0 r0 s1. unfold write_file, file_op.
    destruct (write_fault tmp _) as [[e [n|]]|]; cbn; intros [= <- <-]; cbn; split; try done.
    - intros p Hp. by rewrite lookup_insert_ne by done.
    - intros p Hp. by rewrite lookup_insert_ne by done.
    - intros a _. rewrite lookup_insert_eq. eauto. }
  assert (∀ s0 r0 s1, set_permissions tmp 384 s0 = (r0, s1) →
    (∀ p, p ≠ tmp → ws_files s1 !! p = ws_files s0 !! p) ∧
    (∀ a f, r0 = Ok a → ws_files s0 !! tmp = Some f →
       ws_files s1 !! tmp = Some {| file_bytes := file_bytes f; file_mode := 384 |})) as Hc.
  { intros s0 r0 s1. unfold set_permissions, file_op.
    destruct (chmod_fault tmp _); cbn; intros [= <- <-]; cbn; split; try done.
    - intros p Hp. by rewrite lookup_alter_ne by done.
    - intros a f _ E. by rewrite lookup_alter_eq, E. }
  destruct (write_file tmp b s) as [r1 s1] eqn:E2. destruct (Hw _ _ _ E2) as [Hf1 Hok1].
  destruct r1 as [[]|e]; [|rewrite (eff_bind_fail _ _ _ _ _ E2) in E1; injection E1 as <- <-;
    split; [auto|apply Hf1; congruence]].
  rewrite (eff_bind_step _ _ _ _ _ E2) in E1. destruct (Hok1 () eq_refl) as [mode Htmp].
  destruct (set_permissions tmp 384 s1) as [r2 s2] eqn:E3. destruct (Hc _ _ _ E3) as [Hf2 Hok2].
  destruct r2 as [[]|e]; [|rewrite (eff_bind_fail _ _ _ _ _ E3) in E1; injection E1 as <- <-;
    split; [intros p Hp Ho; rewrite Hf2, Hf1 by done; done|rewrite Hf2, Hf1 by congruence; done]].
  rewrite (eff_bind_step _ _ _ _ _ E3) in E1. specialize (Hok2 () _ eq_refl Htmp).
  revert E1. unfold rename, file_op.
  destruct (rename_fault tmp out _) as [e|]; cbn; rewrite ?Hok2; intros [= <- <-]; cbn.
  - split; [intros p Hp Ho; by rewrite Hf2, Hf1 by done|by rewrite Hf2, Hf1 by congruence].
  - split; [intros p Hp Ho|split].
    + by rewrite lookup_insert_ne, lookup_delete_ne, Hf2, Hf1 by done.
    + by rewrite lookup_insert_eq.
    + rewrite lookup_insert_ne by done. by rewrite lookup_delete_eq.
Qed.

(** C23. The output file appears whole or not at all, when it is not itself named
    like the temporary one, [out] with the extension [tmp]: whatever fails, the
    output file is the old one, or absent if there was none; and no file but these
    two is touched. When the command succeeds, the output is the complete sealed
    form of the plaintext of the environment, readable by its owner only, and the
    temporary file is gone. (Of the temporary file after a failure nothing is
    claimed: see [token_is_exposed_without_chmod].) *)
Theorem wrap_is_atomic env client_from_env plaintext_env out lifecycle label principal s r s' :
  with_extension "tmp" out ≠ out →
  wrap_secret_v2_to_file env client_from_env plaintext_env out lifecycle label principal s = (r, s') →
  (∀ p, p ≠ with_extension "tmp" out → p ≠ out → ws_files s' !! p = ws_files s !! p) ∧
  match r with
  | Ok _ => ∃ plaintext f, env_var env plaintext_env = Ok plaintext ∧ blank plaintext = false ∧
      sealed_file plaintext f ∧ ws_files s' !! out = Some f ∧
      ws_files s' !! with_extension "tmp" out = None
  | Err _ => ws_files s' !! out = ws_files s !! out
  end.
Proof.
  intros Hne E1. unfold wrap_secret_v2_to_file in E1.
  destruct (wrap_arguments env plaintext_env lifecycle) as [[plaintext lc]|e] eqn:Ea;
    [|injection E1 as <- <-; done].
  rewrite (eff_bind_step _ _ s (plaintext, lc) s) in E1 by done.
  assert (∀ A (m : W A) s0 r0 s1, m s0 = (r0, s1) → ws_files (snd (m s0)) = ws_files s0 →
    ws_files s1 = ws_files s0) as Hsame by (intros A m s0 r0 s1 ->; done).
  match type of E1 with (?m ≫= _) s = _ => destruct (m s) as [r1 s1] eqn:E2 end.
  pose proof (Hsame _ _ _ _ _ E2 (in_world_files _ _)) as Hf1.
  destruct r1 as [[]|e]; [|rewrite (eff_bind_fail _ _ _ _ _ E2) in E1; injection E1 as <- <-;
    by rewrite Hf1].
  rewrite (eff_bind_step _ _ _ _ _ E2) in E1.
  match type of E1 with (?m ≫= _) s1 = _ => destruct (m s1) as [r2 s2] eqn:E3 end.
  pose proof (Hsame _ _ _ _ _ E3 (in_world_files _ _)) as Hf2. rewrite Hf1 in Hf2.
  destruct r2 as [wrapped|e]; [|rewrite (eff_bind_fail _ _ _ _ _ E3) in E1; injection E1 as <- <-;
    by rewrite Hf2].
  rewrite (eff_bind_step _ _ _ _ _ E3) in E1. cbn zeta in E1.
  match type of E1 with (?m ≫= _) s2 = _ => destruct (m s2) as [r3 s3] eqn:E4 end.
  assert (ws_files s3 = ws_files s) as Hf3
    by (rewrite <-Hf2; revert E4; unfold create_dir_all, file_op; by intros [= _ <-]).
  destruct r3 as [[]|e]; [|rewrite (eff_bind_fail _ _ _ _ _ E4) in E1; injection E1 as <- <-;
    by rewrite Hf3].
  rewrite (eff_bind_step _ _ _ _ _ E4) in E1.
  destruct (json_to_string_pretty (wrapped_payload wrapped)) as [serialized|e] eqn:Ej;
    [|injection E1 as <- <-; by rewrite Hf3].
  rewrite (eff_bind_step _ _ s3 serialized s3) in E1 by done.
  apply publish_run in E1 as [Hother Hout]; [|done]. rewrite <-Hf3. split; [done|].
  destruct r as [[]|e]; [|done]. destruct Hout as [Hout Htmp].
  apply result_bind_Ok in Ea as (p1 & Hp%map_err_Ok & Ea).
  destruct (blank p1) eqn:Eb; [done|]. apply result_bind_Ok in Ea as (l1 & _ & [= -> ->]).
  exists plaintext. eexists. split; [done|]. split; [done|]. split; [|done].
  revert E3. unfold in_world, eff_map_err, wrap_secret_v2. rewrite counted_run.
  destruct (adapter_wrap_bytes_v2 _ _ _ _) as [[x|x] b] eqn:Ew; [|done]. cbn. intros [= -> _].
  do 5 eexists. rewrite Ew. done.
Qed.

(** The token is on disk before it is protected: when restricting the
    permissions fails, the temporary file is left behind with the whole sealed
    configuration, the redeem token included, under the permissions of any new
    file. *)
Theorem token_is_exposed_without_chmod tmp out contents s e :
  ws_files s !! tmp = None → write_fault tmp (w_tick (ws_world s)) = None →
  chmod_fault tmp (S (w_tick (ws_world s))) = Some e →
  let x := publish tmp out contents s in
  is_ok (fst x) = false ∧
  ws_files (snd x) !! tmp = Some {| file_bytes := contents; file_mode := default_mode |}.
Proof.
  intros Hn Hw Hc. unfold publish, write_file, set_permissions, file_op, mbind, eff_bind.
  rewrite Hw. cbn. rewrite Hc, Hn. cbn. by rewrite lookup_insert_eq.
Qed.
End wrap.
End CliWrap.

(** ** Sealing a secret, on a disk that works and on one that cannot chmod *)
Section concrete.
Import Ref BrokerRef SecretBrokerClient Path CliWrap.

Definition ex_disk (chmod : bool) : FileSystem := {|
  default_mode := 420;
  create_dir_fault _ _ := None; write_fault _ _ := None;
  chmod_fault _ _ := if chmod then None else Some "Operation not permitted (os error 1)";
  rename_fault _ _ _ := None |}.
Definition ex_state : WrapState := {| ws_world := ref_world; ws_files := ∅ |}.
Definition ex_secret : Env := {[ "SECRET" := Unicode "s3cret" ]}.
Definition ex_wrap : result AnyhowError () * WrapState :=
  @wrap_secret_v2_to_file _ _ _ _ (ex_disk true) ex_secret (mret ()) "SECRET"
    "/etc/db/sealed.json" "service_bootstrap" (Some " db ") None ex_state.

Lemma wrap_is_atomic_witness : fst ex_wrap = Ok () ∧
  is_Some (ws_files (snd ex_wrap) !! "/etc/db/sealed.json") ∧
  ws_files (snd ex_wrap) !! "/etc/db/sealed.tmp" = None.
Proof.
  assert (fst ex_wrap = Ok ()) as E by (vm_compute; reflexivity).
  split; [exact E|].
  destruct (@wrap_is_atomic _ _ _ _ (ex_disk true) ex_secret (mret ()) "SECRET"
    "/etc/db/sealed.json" "service_bootstrap" (Some " db ") None ex_state (Ok ()) (snd ex_wrap))
    as [_ (plaintext & f & _ & _ & _ & Ho & Ht)].
  - discriminate.
  - apply run_fst. exact E.
  - split; [exists f; exact Ho|exact Ht].
Defined.

Lemma token_is_exposed_without_chmod_witness :
  ws_files (snd (@publish _ _ _ (ex_disk false) "sealed.tmp" "sealed.json" (as_bytes "token")
    ex_state)) !! "sealed.tmp" = Some {| file_bytes := as_bytes "token"; file_mode := 420 |}.
Proof.
  exact (proj2 (@token_is_exposed_without_chmod _ _ _ (ex_disk false) "sealed.tmp" "sealed.json"
    (as_bytes "token") ex_state "Operation not permitted (os error 1)" eq_refl eq_refl eq_refl)).
Defined.
End concrete.
