(* ===== verification/Main.v ===== *)
(** * The command line tool as a whole (src/bin/secure-database-cli.rs, lines 13-119)

    The two commands with their options, as clap parses them, and [main], which
    runs one of them. The broker client of both is the one of [BrokerTls.v]. *)
From S2P Require Import Prelude RustStd Platform World Environment Broker Config Pool RaTls Net.
From S2P Require Import PeerVerification BrokerConfig BrokerTls Cli CliWrap Reference.
Local Open Scope N_scope.

Module Main.
Import SecretBrokerClient Config Pool BrokerConfig BrokerTls Cli CliWrap.

Inductive Command :=
  | MigratePostgres (args : MigrateArgs)
  | WrapSecretV2 (plaintext_env output_file lifecycle : string)
      (label unwrap_principal_id : option string).

(** [#[arg(long, default_value = ...)]] of the lifecycle *)
Definition default_lifecycle : string := "service_bootstrap".

Section main.
Context `{UuidApi, JsonApi, BrokerApi} `{!Host} `{UnicodeTables} `{Digests} `{Hex}.
Context `{CertApi} `{QvlApi} `{RustlsApi} `{FsApi} `{PemApi} `{UrlApi} `{!JsonText}.
Context `{RustlsClientApi} `{SpireApi} `{!TransportApi} `{PgApi} `{Migrator} `{FileSystem}.

(** The process: what the migration and what the files change. *)
Record Process := { ps_cli : CliState; ps_files : gmap string File }.

Definition on_cli {A} (m : eff CliState AnyhowError A) : eff Process AnyhowError A := λ s,
  let '(r, c) := m (ps_cli s) in (r, {| ps_cli := c; ps_files := ps_files s |}).

Definition with_world (w : World) (c : CliState) : CliState := {|
  cs_cluster := mk_cluster w (cl_log (cs_cluster c)) (cl_sleeps (cs_cluster c))
    (cl_gauges (cs_cluster c)) (cl_exts (cs_cluster c)) (cl_spawned (cs_cluster c));
  cs_server := cs_server c |}.
Definition on_files {A} (m : eff WrapState AnyhowError A) : eff Process AnyhowError A := λ s,
  let '(r, x) := m {| ws_world := cl_world (cs_cluster (ps_cli s)); ws_files := ps_files s |} in
  (r, {| ps_cli := with_world (ws_world x) (ps_cli s); ps_files := ws_files x |}).

(** [SecretBrokerClient::from_env] *)
Definition connect_broker (debug_build : bool) (env : Env) : MA () :=
  client_from_env debug_build env (Ok ());; mret ().

(** [main]; [logging] is the result of [init_logging], [debug_build] is
    [cfg!(debug_assertions)], [f] the features of the build. *)
Definition run_command (f : Features) (debug_build : bool) (env : Env) (command : Command) :
    eff Process AnyhowError () :=
  match command with
  | MigratePostgres args => on_cli (migrate_postgres f env (connect_broker debug_build env) args)
  | WrapSecretV2 plaintext_env output_file lifecycle label unwrap_principal_id =>
      on_files (wrap_secret_v2_to_file env (connect_broker debug_build env) plaintext_env output_file
                  lifecycle label unwrap_principal_id)
  end.
Definition main (logging : result string ()) (f : Features) (debug_build : bool) (env : Env)
    (command : Command) : eff Process AnyhowError () :=
  lift (map_err (λ error, anyhow ("failed to initialise logging: " +:+ error)) logging);;
  run_command f debug_build env command.

(** ** What a command leaves alone *)

(** A state of the database and of its server as a client of the tool sees it. *)
Definition same_database (s s' : Process) : Prop :=
  cs_server (ps_cli s') = cs_server (ps_cli s) ∧
  cl_log (cs_cluster (ps_cli s')) = cl_log (cs_cluster (ps_cli s)) ∧
  cl_exts (cs_cluster (ps_cli s')) = cl_exts (cs_cluster (ps_cli s)) ∧
  cl_spawned (cs_cluster (ps_cli s')) = cl_spawned (cs_cluster (ps_cli s)) ∧
  w_db (cl_world (cs_cluster (ps_cli s'))) = w_db (cl_world (cs_cluster (ps_cli s))).

Lemma connect_broker_same_db debug_build env : preserves same_db (connect_broker debug_build env).
Proof.
  unfold connect_broker, client_from_env, client_new, build_tls_config, build_spiffe, build_channel.
  solve_preserves.
Qed.

Definition same_tables (x x' : WrapState) : Prop := w_db (ws_world x') = w_db (ws_world x).
#[export] Instance same_tables_refl : Reflexive same_tables.
Proof. by intros x. Qed.
#[export] Instance same_tables_trans : Transitive same_tables.
Proof. intros x y z Hxy Hyz. unfold same_tables in *. congruence. Qed.

Lemma in_world_same_tables {A} (m : MA A) : preserves same_db m → preserves same_tables (in_world m).
Proof.
  intros Hm x. specialize (Hm (ws_world x)). unfold in_world, same_tables.
  by destruct (m (ws_world x)).
Qed.
Lemma file_op_same_tables op msg : preserves same_tables (file_op op msg).
Proof. intros x. unfold file_op, same_tables. by destruct (op _ _). Qed.

Lemma wrap_same_tables debug_build env v o l lb p :
  preserves same_tables
    (wrap_secret_v2_to_file env (connect_broker debug_build env) v o l lb p).
Proof.
  assert (∀ b q, preserves same_db (wrap_secret_v2 b q)) as Hw.
  { intros b q. unfold wrap_secret_v2. solve_preserves. }
  pose proof (connect_broker_same_db debug_build env) as Hc.
  pose proof file_op_same_tables as Hf.
  pose proof @in_world_same_tables as Hi.
  unfold wrap_secret_v2_to_file, publish, create_dir_all, write_file, set_permissions, rename.
  apply preserves_bind; [apply _..|by apply preserves_lift|intros [plaintext lc]].
  apply preserves_bind; [apply _..|by apply Hi, preserves_map_err|intros ?].
  apply preserves_bind; [apply _..|by apply Hi, preserves_map_err|intros wrapped].
  solve_preserves.
Qed.

(** The commands do not get in each other's way: a migration writes no file, and
    wrapping a secret opens no pool, sends no statement and changes no table, role
    or extension, whatever either of them meets. Without logging neither runs. *)
Theorem commands_are_separate logging f debug_build env command s :
  let s' := snd (main logging f debug_build env command s) in
  match logging, command with
  | Err _, _ => s' = s
  | Ok _, MigratePostgres _ => ps_files s' = ps_files s
  | Ok _, WrapSecretV2 _ _ _ _ _ => same_database s s'
  end.
Proof.
  cbv zeta. unfold main. destruct logging as [[]|e]; [|done].
  rewrite (eff_bind_step _ _ s () s) by done.
  destruct command as [args|v o l lb p]; cbn [run_command].
  - unfold on_cli. by destruct (migrate_postgres _ _ _ _ _).
  - unfold on_files. set (x := {| ws_world := _; ws_files := _ |}).
    pose proof (wrap_same_tables debug_build env v o l lb p x) as Ht. unfold same_tables in Ht.
    destruct (wrap_secret_v2_to_file _ _ _ _ _ _ _ x) as [r x']. cbn in *.
    unfold same_database. cbn. by rewrite Ht.
Qed.
End main.
End Main.
