(* ===== verification/System.v ===== *)
(** * The whole interface: every operation, every state

    The operations of [PgPool] as one type, the integrity invariant of the
    database, and what holds of any sequence of operations by any clients, with
    any faults of the connection in between. *)
From S2P Require Import Prelude RustStd Platform World Sql Reference.
From S2P Require Import Aead Broker Protected TorAuth TorAuthProps Guard Attestation AuditLog Zk.
Import Payload Protected TorAuth TorAuthProps Guard Attestation AuditLog Zk.
Local Open Scope Z_scope.

Module System.
Section system.
Context `{UuidApi, JsonApi, BrokerApi} `{!Host} `{Base64, Ring, Digests, Hex}
  `{PastaField, !Halo2}.

(** ** Operations *)

Inductive op :=
  | FetchTorCredential (onion_entry : string)
  | FetchTorCredentialById (id : Uuid)
  | RecordTorSession (s : TorSessionRecord)
  | CountRecentSessions (id : Uuid) (window : Z)
  | CountActiveSessions
  | CountTotalSessions
  | CountActiveCredentials
  | RotateOperationalOnion (id : Uuid) (onion : string) (guards : list string)
  | SetEntryOnion (id : Uuid) (onion : string) (guards : list string)
  | ImportBootstrapTorCredential (id : Uuid) (onion hash tier : string) (rate : Z)
      (expires_at : option DateTime) (guards : list string)
  | CreateTorCredential (onion hash tier : string) (rate : Z)
      (expires_at : option DateTime) (guards : list string)
  | ListTorCredentials (limit : Z)
  | UpdateTorCredentialDisabled (id : Uuid) (disabled : bool)
  | DeleteTorCredential (id : Uuid)
  | IssueTorTicket (t : NewTorAccessTicket)
  | FetchTorTicketForVerification (id : Uuid)
  | GetTorTicketStatus (id : Uuid)
  | MarkTorTicketRedeemed (id : Uuid) (onion : string)
  | ExpireTorTicketNow (id : Uuid)
  | GcExpiredTickets (days : Z)
  | CountRecentTickets (id : Uuid) (window : Z)
  | FetchTorSession (id : Uuid)
  | NoteGuardSuccess (fpr : string) (u : GuardSuccessUpdate)
  | NoteGuardFailure (fpr : string)
  | ListGuardHealth (limit : Z)
  | SetGuardTeeStatus (fpr : string) (capable : bool) (label policy : option string)
  | RegisterAttestationNonce (nonce : bytes) (enclave : string) (ttl : Z)
  | CacheAttestationDecision (q : bytes) (tee : string) (expires : DateTime) (v : JsonValue)
  | InvalidateAttestationArtifacts (q : string) (nonce : option string)
  | AuditTorConnect (user : Uuid)
  | AuditOperation (user : Uuid) (operation : string) (payload : bytes)
  | RecordTeeAttestation (user : Uuid) (a : TeeAttestation)
  | RecentTeeAttestations (user : Uuid) (limit : Z)
  | StoreZkProof (b : ZkProofBundle)
  | VerifyZkProof (v : ZkProofVerification).

Definition void {A} (m : M A) : M () := m;; mret ().

Definition run_op (o : op) : M () :=
  match o with
  | FetchTorCredential e => void (fetch_tor_credential e)
  | FetchTorCredentialById i => void (fetch_tor_credential_by_id i)
  | RecordTorSession s => record_tor_session s
  | CountRecentSessions i n => void (count_recent_sessions i n)
  | CountActiveSessions => void count_active_sessions
  | CountTotalSessions => void count_total_sessions
  | CountActiveCredentials => void count_active_credentials
  | RotateOperationalOnion i e g => rotate_operational_onion i e g
  | SetEntryOnion i e g => set_entry_onion i e g
  | ImportBootstrapTorCredential i e h t r x g =>
      void (import_bootstrap_tor_credential i e h t r x g)
  | CreateTorCredential e h t r x g => void (create_tor_credential e h t r x g)
  | ListTorCredentials n => void (list_tor_credentials n)
  | UpdateTorCredentialDisabled i b => update_tor_credential_disabled i b
  | DeleteTorCredential i => void (delete_tor_credential i)
  | IssueTorTicket t => void (issue_tor_ticket t)
  | FetchTorTicketForVerification i => void (fetch_tor_ticket_for_verification i)
  | GetTorTicketStatus i => void (get_tor_ticket_status i)
  | MarkTorTicketRedeemed i e => mark_tor_ticket_redeemed i e
  | ExpireTorTicketNow i => void (expire_tor_ticket_now i)
  | GcExpiredTickets n => void (gc_expired_tickets n)
  | CountRecentTickets i n => void (count_recent_tickets i n)
  | FetchTorSession i => void (fetch_tor_session i)
  | NoteGuardSuccess f u => note_guard_success f u
  | NoteGuardFailure f => void (note_guard_failure f)
  | ListGuardHealth n => void (list_guard_health n)
  | SetGuardTeeStatus f c l p => set_guard_tee_status f c l p
  | RegisterAttestationNonce n e t => void (register_attestation_nonce n e t)
  | CacheAttestationDecision q t x v => cache_attestation_decision q t x v
  | InvalidateAttestationArtifacts q n => invalidate_attestation_artifacts q n
  | AuditTorConnect u => audit_tor_connect u
  | AuditOperation u e p => audit_operation u e p
  | RecordTeeAttestation u a => record_tee_attestation u a
  | RecentTeeAttestations u n => void (recent_tee_attestations u n)
  | StoreZkProof b => store_zk_proof b
  | VerifyZkProof v => void (verify_zk_proof v)
  end.

(** ** Integrity *)

(** The protected columns of a row hold payloads: v2 everywhere, except for the
    onion of a redemption, which may be a payload of either version. *)
Definition ticket_sealed (r : TicketRow) : Prop :=
  Forall (λ s, is_aead_payload_v2 s = true)
    [tr_client_auth_public_key r; tr_client_auth_secret_path r;
     tr_attestation_nonce_digest r; tr_attestation_quote_hash r; tr_tls_pubkey_digest r] ∧
  (∀ s, tr_client_auth_secret_redeem_token r = Some s → is_aead_payload_v2 s = true) ∧
  (∀ s, tr_redeemed_operational_onion r = Some s → is_aead_payload s = true).
Definition session_sealed (r : SessionRow) : Prop :=
  ∀ s, sr_client_onion r = Some s → is_aead_payload_v2 s = true.

Record db_ok (d : Tables) : Prop := {
  ok_onions : onions_unique d;
  ok_session_fk k r : t_sessions d !! k = Some r → is_Some (t_credentials d !! sr_credential_id r);
  ok_ticket_fk k r : t_tickets d !! k = Some r → is_Some (t_credentials d !! tr_credential_id r);
  ok_attestation_session i j r r' :
    t_tickets d !! i = Some r → t_tickets d !! j = Some r' →
    tr_attestation_session_id r = tr_attestation_session_id r' →
    tr_attestation_session_id r ≠ uuid_nil → i = j;
  ok_sealed_tickets k r : t_tickets d !! k = Some r → ticket_sealed r;
  ok_sealed_sessions k r : t_sessions d !! k = Some r → session_sealed r;
  ok_guards : guards_ok d;
  ok_zk k r : t_zk_proofs d !! k = Some r → (zr_verified r = true ↔ is_Some (zr_verified_at r));
}.

Lemma empty_ok : db_ok empty_tables.
Proof. split; try intros ??; try done. Qed.

(** *** The statements keep it *)

(** Tables the invariant does not mention may change at will. *)
Lemma ok_other d d' :
  t_credentials d' = t_credentials d → t_sessions d' = t_sessions d →
  t_tickets d' = t_tickets d → t_guard_health d' = t_guard_health d →
  t_zk_proofs d' = t_zk_proofs d → db_ok d → db_ok d'.
Proof.
  intros Ec Es Et Eg Ez []. split; unfold onions_unique, guards_ok in *;
    rewrite ?Ec, ?Es, ?Et, ?Eg, ?Ez; done.
Qed.

Lemma put_credential_db_ok id r d d' :
  db_ok d → put_credential id r d = Ok d' → db_ok d'.
Proof.
  intros Hd Hp. pose proof (put_credential_unique _ _ _ _ (ok_onions _ Hd) Hp) as Hu.
  apply put_credential_Ok in Hp as [_ ->]. destruct Hd. split; cbn; try done.
  - intros k s Hs. rewrite lookup_insert_is_Some'. right. eauto.
  - intros k t Ht. rewrite lookup_insert_is_Some'. right. eauto.
Qed.

Lemma update_credential_ok f id : stmt_keeps db_ok (update_credential f id).
Proof.
  intros now d n d' Hd Hq%update_credential_Ok.
  destruct (t_credentials d !! id); destruct Hq as [_ Hq]; [|by subst].
  by eapply put_credential_db_ok.
Qed.
Lemma insert_credential_ok id r : stmt_keeps db_ok (insert_credential id r).
Proof.
  intros now d [] d' Hd. unfold insert_credential.
  destruct (t_credentials d !! id); [done|].
  intros (d1 & Hp & [= <-])%result_bind_Ok. by eapply put_credential_db_ok.
Qed.
Lemma import_credential_ok id r : stmt_keeps db_ok (import_credential id r).
Proof.
  intros now d [] d' Hd. unfold import_credential.
  destruct (t_credentials d !! id);
    intros (d1 & Hp & [= <-])%result_bind_Ok; by eapply put_credential_db_ok.
Qed.

Lemma delete_credential_ok id : stmt_keeps db_ok (delete_credential id).
Proof.
  intros now d n d' Hd [(_ & -> & _)|(_ & _ & Hc & Hs & Ht & ->)]%delete_credential_Ok; [done|].
  rewrite Hc, Hs, Ht. destruct Hd. split; cbn; try done.
  - intros i j ri rj. cbn. intros [_ Hi]%lookup_delete_Some [_ Hj]%lookup_delete_Some. eauto.
  - intros k r [Hk Hne%bool_decide_eq_false]%delete_rows_Some.
    rewrite lookup_delete_ne by done. eauto.
  - intros k r [Hk Hne%bool_decide_eq_false]%delete_rows_Some.
    rewrite lookup_delete_ne by done. eauto.
  - intros i j r r' [Hi _]%delete_rows_Some [Hj _]%delete_rows_Some. eauto.
  - intros k r [Hk _]%delete_rows_Some. eauto.
  - intros k r [Hk _]%delete_rows_Some. eauto.
Qed.

Lemma insert_session_ok id f :
  (∀ now, session_sealed (f now)) → stmt_keeps db_ok (insert_session id f).
Proof.
  intros Hf now d [] d' Hd (Hn & Hc & ->)%insert_session_Ok. destruct Hd. split; cbn; try done.
  - intros k r [[<- <-]|[_ Hr]]%lookup_insert_Some; eauto.
  - intros k r [[<- <-]|[_ Hr]]%lookup_insert_Some; eauto.
Qed.

Lemma session_not_taken s (m : gmap Uuid TicketRow) k r :
  attestation_session_taken s m = false → m !! k = Some r →
  tr_attestation_session_id r = s → s = uuid_nil.
Proof.
  unfold attestation_session_taken. intros [Hn|Hx]%andb_false_iff Hk Hs.
  - by apply negb_false_iff, bool_decide_eq_true in Hn.
  - rewrite exists_row_false in Hx. specialize (Hx k r Hk). by apply bool_decide_eq_false in Hx.
Qed.

Lemma insert_ticket_ok id f :
  (∀ now, ticket_sealed (f now)) → stmt_keeps db_ok (insert_ticket id f).
Proof.
  intros Hf now d x d' Hd ((Hn & Ht & Hc) & -> & _)%insert_ticket_Ok.
  destruct Hd. split; cbn; try done.
  - intros k r [[<- <-]|[_ Hr]]%lookup_insert_Some; eauto.
  - intros i j r r' [[<- <-]|[Hi Hr]]%lookup_insert_Some
      [[<- <-]|[Hj Hr']]%lookup_insert_Some E Hnil; [done| | |by eapply ok_attestation_session0].
    + exfalso. apply Hnil. eapply session_not_taken; [done..|]. by rewrite E.
    + exfalso. apply Hnil. rewrite E. eapply session_not_taken; [done|exact Hr|done].
  - intros k r [[<- <-]|[_ Hr]]%lookup_insert_Some; eauto.
Qed.

(** An update that keeps the columns the constraints mention. *)
Lemma update_ticket_ok f id :
  (∀ now r, tr_credential_id (f now r) = tr_credential_id r) →
  (∀ now r, tr_attestation_session_id (f now r) = tr_attestation_session_id r) →
  (∀ now r, ticket_sealed r → ticket_sealed (f now r)) →
  stmt_keeps db_ok (update_ticket f id).
Proof.
  intros Hfc Hfs Hft now d n d' Hd [-> _]%update_ticket_Ok.
  assert (∀ k r, alter (f now) id (t_tickets d) !! k = Some r → ∃ r0,
    t_tickets d !! k = Some r0 ∧ (r = r0 ∨ r = f now r0)) as Halt.
  { intros k r Hk. destruct (decide (k = id)) as [->|Hne].
    - rewrite lookup_alter_eq in Hk. apply fmap_Some in Hk as (r0 & Hr0 & ->). eauto.
    - rewrite lookup_alter_ne in Hk by done. eauto. }
  destruct Hd. split; cbn; try done.
  - intros k r (r0 & Hr0 & [->| ->])%Halt; rewrite ?Hfc; eauto.
  - intros i j r r' (r0 & Hr0 & Er)%Halt (r0' & Hr0' & Er')%Halt.
    assert (tr_attestation_session_id r = tr_attestation_session_id r0) as ->
      by (destruct Er as [->| ->]; by rewrite ?Hfs).
    assert (tr_attestation_session_id r' = tr_attestation_session_id r0') as ->
      by (destruct Er' as [->| ->]; by rewrite ?Hfs). eauto.
  - intros k r (r0 & Hr0 & [->| ->])%Halt; eauto.
Qed.

Lemma delete_expired_ok days : stmt_keeps db_ok (delete_expired_tickets days).
Proof.
  intros now d n d' Hd. unfold delete_expired_tickets.
  intros (cutoff & _ & [= _ <-])%result_bind_Ok. destruct Hd. split; cbn; try done.
  - intros k r [Hk _]%(delete_rows_Some (λ _, gc_eligible _ _)). eauto.
  - intros i j r r' [Hi _]%(delete_rows_Some (λ _, gc_eligible _ _))
      [Hj _]%(delete_rows_Some (λ _, gc_eligible _ _)). eauto.
  - intros k r [Hk _]%(delete_rows_Some (λ _, gc_eligible _ _)). eauto.
Qed.

(** The guard statements change the guard table only. *)
Lemma guard_stmt_ok {A} (q : stmt A) :
  stmt_keeps guards_ok q →
  (∀ now d a d', q now d = Ok (a, d') → d' = set_guard_health (t_guard_health d') d) →
  stmt_keeps db_ok q.
Proof.
  intros Hg Hset now d a d' Hd Hq. pose proof (Hg now d a d' (ok_guards _ Hd) Hq) as Hg'.
  apply Hset in Hq. rewrite Hq in Hg' |- *. destruct Hd. by split.
Qed.
Lemma success_ok fpr u : stmt_keeps db_ok (upsert_success fpr u).
Proof. apply guard_stmt_ok; [apply upsert_success_ok|]. by intros now d a d' [= _ <-]. Qed.
Lemma tee_status_ok fpr c l p : stmt_keeps db_ok (upsert_tee_status fpr c l p).
Proof. apply guard_stmt_ok; [apply upsert_tee_ok|]. by intros now d a d' [= _ <-]. Qed.
Lemma failure_ok fpr : stmt_keeps db_ok (upsert_failure fpr).
Proof.
  apply guard_stmt_ok; [apply upsert_failure_ok|]. intros now d a d'. unfold upsert_failure.
  destruct (t_guard_health d !! fpr); [destruct (_ <=? _); [|done]|]; by intros [= _ <-].
Qed.

Lemma upsert_proof_ok id u r :
  zr_verified r = false → zr_verified_at r = None → stmt_keeps db_ok (upsert_proof id u r).
Proof.
  intros Hv Hva now d [] d' Hd Hq. unfold upsert_proof in Hq.
  apply result_bind_Ok in Hq as (v & _ & [= <-]). destruct Hd. split; cbn; try done.
  intros k x [[<- <-]|[_ Hx]]%lookup_insert_Some; [|eauto].
  destruct (t_zk_proofs d !! (id, u)); cbn; rewrite ?Hv, ?Hva; (split; [by intros ?|by intros [? ?]]).
Qed.
Lemma mark_verified_ok id : stmt_keeps db_ok (mark_verified id).
Proof.
  intros now d [] d' Hd [= <-]. destruct Hd. split; cbn; try done.
  intros k x. rewrite map_lookup_imap. intros (r & Hr & [= <-])%bind_Some.
  case_decide; cbn; [|eauto]. split; eauto.
Qed.

(** *** The operations keep it *)

Lemma encrypt_v2 p aad l w s w' :
  encrypt_with_new_aead p aad l w = (Ok s, w') → is_aead_payload_v2 s = true.
Proof.
  unfold encrypt_with_new_aead. intros Hrun. inv_run Hrun.
  destruct a0 as [lease|err]; [|inv_run Hrun].
  destruct (lease_redeem_token lease); [|inv_run Hrun].
  inv_run Hrun. destruct a0 as [c|err]; [|inv_run Hrun]. inv_run Hrun. apply encode_is_v2.
Qed.

Lemma ensure_v2 v aad l w s w' :
  ensure_aead_encrypted v aad l w = (Ok s, w') → ∀ x, s = Some x → is_aead_payload_v2 x = true.
Proof.
  unfold ensure_aead_encrypted. intros Hrun x ->. destruct v as [v|]; [|inv_run Hrun].
  destruct (is_aead_payload_v2 v) eqn:E2; [inv_run Hrun; done|].
  destruct (is_aead_payload v); inv_run Hrun. by eapply encrypt_v2.
Qed.

Lemma ensure_required_v2 v aad l f w s w' :
  ensure_aead_encrypted_required v aad l f w = (Ok s, w') → is_aead_payload_v2 s = true.
Proof. intros Hrun%ensure_required_run. by eapply ensure_v2. Qed.

Lemma encrypt_db_ok p aad l : preserves (db_keeps db_ok) (encrypt_with_new_aead p aad l).
Proof. apply same_db_keeps. auto with sdb. Qed.

#[local] Hint Resolve update_credential_ok insert_credential_ok import_credential_ok
  delete_credential_ok delete_expired_ok success_ok tee_status_ok failure_ok mark_verified_ok
  encrypt_db_ok execute_keeps same_db_keeps : sdb.

(** Statements that only read. *)
Lemma read_pure {A} (f : Timestamp → Tables → A) : read_only (λ now d, Ok (f now d, d)).
Proof. by intros now d a d' [= _ <-]. Qed.
Lemma read_checked {A B} (f : Timestamp → Tables → result SqlError B)
    (g : Timestamp → Tables → B → A) :
  read_only (λ now d, b ← f now d; Ok (g now d b, d)).
Proof. by intros now d a d' (b & _ & [= _ <-])%result_bind_Ok. Qed.

#[local] Hint Extern 2 (preserves same_db (execute _)) =>
  (apply execute_read_only; first [apply read_pure | refine (read_checked _ _)]) : sdb.

Lemma decrypt_optional_db v aad l : preserves same_db (decrypt_aead_optional v aad l).
Proof. auto with sdb. Qed.
Lemma decrypt_required_db v aad l f : preserves same_db (decrypt_aead_required v aad l f).
Proof. unfold decrypt_aead_required. solve_preserves. Qed.
#[local] Hint Resolve decrypt_required_db : sdb.

(** The operations that only read (and decrypt). *)
Definition is_read (o : op) : bool :=
  match o with
  | FetchTorCredential _ | FetchTorCredentialById _ | CountRecentSessions _ _
  | CountActiveSessions | CountTotalSessions | CountActiveCredentials
  | ListTorCredentials _ | FetchTorTicketForVerification _ | GetTorTicketStatus _
  | CountRecentTickets _ _ | FetchTorSession _ | ListGuardHealth _
  | RecentTeeAttestations _ _ => true
  | _ => false
  end.

Lemma read_same_db o : is_read o = true → preserves same_db (run_op o).
Proof.
  destruct o; try done; intros _; unfold run_op, void.
  - unfold fetch_tor_credential. solve_preserves.
  - unfold fetch_tor_credential_by_id. solve_preserves.
  - unfold count_recent_sessions. solve_preserves.
  - unfold count_active_sessions. solve_preserves.
  - unfold count_total_sessions. solve_preserves.
  - unfold count_active_credentials. solve_preserves.
  - unfold list_tor_credentials. solve_preserves.
  - unfold fetch_tor_ticket_for_verification, decrypt_ticket. solve_preserves.
  - unfold get_tor_ticket_status. solve_preserves.
  - unfold count_recent_tickets. solve_preserves.
  - unfold fetch_tor_session, session_into_record. solve_preserves.
  - unfold list_guard_health. solve_preserves.
  - unfold recent_tee_attestations. solve_preserves.
Qed.

(** Statements on tables the invariant does not mention. *)
Lemma other_stmt_ok {A} (q : stmt A) :
  (∀ now d a d', q now d = Ok (a, d') →
    t_credentials d' = t_credentials d ∧ t_sessions d' = t_sessions d ∧
    t_tickets d' = t_tickets d ∧ t_guard_health d' = t_guard_health d ∧
    t_zk_proofs d' = t_zk_proofs d) →
  preserves (db_keeps db_ok) (execute q).
Proof.
  intros Hq. apply execute_keeps. intros now d a d' Hd (? & ? & ? & ? & ?)%Hq.
  by eapply ok_other.
Qed.

Lemma insert_nonce_other n e now d k d' :
  insert_nonce n e now d = Ok (k, d') → d' = set_nonce_log (t_nonce_log d') d.
Proof. intros Hi%insert_nonce_Ok. destruct (t_nonce_log d !! n), d; by destruct Hi as [_ ->]. Qed.
Lemma prune_nonces_other ttl now d a d' :
  prune_nonces ttl now d = Ok (a, d') → d' = set_nonce_log (t_nonce_log d') d.
Proof. by intros (cutoff & _ & [= _ <-])%result_bind_Ok. Qed.

Lemma record_session_ok s : preserves (db_keeps db_ok) (record_tor_session s).
Proof.
  unfold record_tor_session.
  apply preserves_bind_run; [apply _..|auto with sdb|]. intros w v w' Hv.
  apply preserves_bind; [apply _..|auto with sdb|]. intros key.
  apply execute_keeps, insert_session_ok. intros now x Hx. by eapply ensure_v2.
Qed.

Lemma issue_ok t : preserves (db_keeps db_ok) (issue_tor_ticket t).
Proof.
  unfold issue_tor_ticket.
  do 6 (apply preserves_bind_run; [apply _..|auto with sdb|]; intros ? ? ? ?).
  apply preserves_bind; [apply _..| |intros ?; apply preserves_ret; apply _].
  apply execute_keeps, insert_ticket_ok. intros now. split; cbn.
  - repeat (apply Forall_cons_2; [by eapply ensure_required_v2|]). apply Forall_nil_2.
  - split; [|done]. intros x Hx. by eapply ensure_v2.
Qed.

Lemma redeem_ok id onion : preserves (db_keeps db_ok) (mark_tor_ticket_redeemed id onion).
Proof.
  unfold mark_tor_ticket_redeemed. apply preserves_bind_run; [apply _..| |].
  { destruct (is_aead_payload onion); solve_preserves. }
  intros w stored w' Hst. assert (is_aead_payload stored = true) as Hp.
  { destruct (is_aead_payload onion) eqn:E; [inv_run Hst; done|].
    apply is_v2_is_payload. by eapply encrypt_v2. }
  apply preserves_bind; [apply _..| |intros ?; apply preserves_ret; apply _].
  apply execute_keeps, update_ticket_ok; [done..|].
  intros now r (Hv & Ht & Hr). split_and!; [done|done|]. by intros x [= <-].
Qed.

Lemma expire_ok id : preserves (db_keeps db_ok) (expire_tor_ticket_now id).
Proof.
  unfold expire_tor_ticket_now.
  apply preserves_bind; [apply _..| |intros ?; apply preserves_ret; apply _].
  apply execute_keeps, update_ticket_ok; done.
Qed.

Lemma attestation_ops_ok :
  (∀ n e t, preserves (db_keeps db_ok) (register_attestation_nonce n e t)) ∧
  (∀ q t x v, preserves (db_keeps db_ok) (cache_attestation_decision q t x v)) ∧
  (∀ q n, preserves (db_keeps db_ok) (invalidate_attestation_artifacts q n)).
Proof.
  split_and!; intros.
  - unfold register_attestation_nonce. apply preserves_bind; [apply _..| |intros ?].
    { apply other_stmt_ok. intros now d a d' ->%prune_nonces_other. done. }
    apply preserves_bind; [apply _..| |intros ?; apply preserves_ret; apply _].
    apply other_stmt_ok. intros ? ? ? ? ->%insert_nonce_other. done.
  - unfold cache_attestation_decision. apply preserves_bind; [apply _..| |intros ?]; apply other_stmt_ok.
    + by intros ? ? ? ? [= _ <-].
    + by intros ? ? ? ? ->%upsert_decision_other.
  - assert (∀ x, preserves (db_keeps db_ok) (execute (delete_nonce x))) as Hn.
    { intros x. apply other_stmt_ok; by intros ? ? ? ? [= _ <-]. }
    assert (∀ x, preserves (db_keeps db_ok) (execute (delete_decision x))) as Hq.
    { intros x. apply other_stmt_ok; by intros ? ? ? ? [= _ <-]. }
    unfold invalidate_attestation_artifacts. solve_preserves.
Qed.

Lemma void_preserves {A} (P : World → World → Prop) `{!Reflexive P, !Transitive P} (m : M A) :
  preserves P m → preserves P (void m).
Proof. intros Hm. unfold void. apply (preserves_bind P); [done|intros ?]. by apply preserves_ret. Qed.

Lemma op_keeps o : preserves (db_keeps db_ok) (run_op o).
Proof.
  destruct (is_read o) eqn:Hr; [by apply same_db_keeps, read_same_db|].
  destruct attestation_ops_ok as (Hreg & Hcache & Hinv).
  destruct o; try done; unfold run_op; try (apply void_preserves; [apply _..|]); auto;
    try (apply other_stmt_ok; by intros ? ? ? ? [= _ <-]).
  - apply record_session_ok.
  - unfold rotate_operational_onion. solve_preserves.
  - unfold set_entry_onion. solve_preserves.
  - unfold import_bootstrap_tor_credential. solve_preserves.
  - unfold create_tor_credential. solve_preserves.
  - unfold update_tor_credential_disabled. solve_preserves.
  - unfold delete_tor_credential. solve_preserves.
  - apply issue_ok.
  - apply redeem_ok.
  - apply expire_ok.
  - unfold gc_expired_tickets. auto with sdb.
  - unfold note_guard_success. auto with sdb.
  - unfold note_guard_failure. auto with sdb.
  - unfold set_guard_tee_status. auto with sdb.
  - apply other_stmt_ok. by intros ? ? ? ? (? & ? & _ & _ & ->)%insert_attestation_Ok.
  - apply execute_keeps, upsert_proof_ok; done.
  - assert (∀ i u, preserves same_db (execute (select_proof i u))) as Hsel.
    { intros i u. apply execute_read_only, read_pure. }
    unfold verify_zk_proof. solve_preserves.
Qed.

(** ** Reachability *)

(** One step: a client runs an operation to its end or to its failure, whatever
    the network does; or the world outside moves on (time passes, the broker
    changes, metrics are read). *)
Inductive step : World → World → Prop :=
  | step_op o w : step w (snd (run_op o w))
  | step_outside w w' : w_db w' = w_db w → step w w'.

(** C2. Integrity: in every state that any sequence of operations reaches from
    the empty database, entry onions are unique, sessions and tickets belong to
    existing credentials, an attestation session is used by at most one ticket
    (the nil identifier apart), every protected column holds an encrypted
    payload, failure counters are non-negative integers of the column's width,
    and a proof is marked verified exactly when it has a verification time. *)
Theorem reachable_states_ok w0 w :
  w_db w0 = empty_tables → rtc step w0 w → db_ok (w_db w).
Proof.
  intros H0' Hsteps. assert (db_ok (w_db w0)) as Hok by (rewrite H0'; apply empty_ok).
  clear H0'. induction Hsteps as [w|w w1 w2 Hstep _ IH]; [done|].
  apply IH. destruct Hstep as [o w|w w' ->]; [by apply op_keeps|done].
Qed.

(** The operations that read change no row, whatever their outcome. *)
Theorem reads_change_nothing o w : is_read o = true → w_db (snd (run_op o w)) = w_db w.
Proof. intros Hr. by apply read_same_db. Qed.

(** The operations that send one statement at most that changes rows. *)
Definition single_statement (o : op) : bool :=
  match o with
  | RegisterAttestationNonce _ _ _ | CacheAttestationDecision _ _ _ _
  | InvalidateAttestationArtifacts _ _ => false
  | _ => true
  end.

Lemma void_atomic {A} (m : M A) : atomic m → atomic (void m).
Proof. intros Hm. unfold void. by apply atomic_bind_total. Qed.

(** Before the statement, reads; after it, what cannot fail. *)
Ltac solve_atomic :=
  lazymatch goal with
  | |- ∀ _, _ => intros ?; solve_atomic
  | |- atomic (execute _) => by apply execute_atomic
  | |- atomic (mret _) => apply atomic_ret
  | |- atomic (execute _ ≫= _) => apply atomic_bind_total; [by apply execute_atomic|done]
  | |- atomic (_ ≫= _) => apply atomic_bind; [solve_preserves|solve_atomic]
  | |- atomic (if ?b then _ else _) => destruct b; solve_atomic
  end.

Lemma op_atomic o : acknowledged → single_statement o = true → atomic (run_op o).
Proof.
  intros Ha Ho. destruct (is_read o) eqn:Hr; [by apply atomic_same_db, read_same_db|].
  destruct o; try done; unfold run_op; try apply void_atomic; try by apply execute_atomic.
  - unfold record_tor_session. solve_atomic.
  - unfold import_bootstrap_tor_credential. solve_atomic.
  - unfold create_tor_credential. solve_atomic.
  - unfold delete_tor_credential. solve_atomic.
  - unfold issue_tor_ticket. solve_atomic.
  - unfold mark_tor_ticket_redeemed. solve_atomic.
  - unfold expire_tor_ticket_now. solve_atomic.
  - unfold verify_zk_proof. apply atomic_bind; [apply execute_read_only, read_pure|].
    solve_atomic.
Qed.

(** C29. All or nothing: when no acknowledgement is lost, an operation that
    returns an error has changed no row, whatever it did at the broker before;
    the exceptions are the three operations that send two statements. *)
Theorem failures_change_nothing o w e w' :
  acknowledged → single_statement o = true → run_op o w = (Err e, w') → w_db w' = w_db w.
Proof. intros Ha Ho. by apply op_atomic. Qed.
End system.
End System.

(** ** Concrete runs *)
Section concrete.
Import Ref System.

#[local] Instance ex_halo2 : Halo2 := {|
  VerifyingKey := unit; ProvingKey := unit; keygen_vk k c := Err "none"; keygen_pk k vk c := Err "none";
  create_proof k pk c inst := Err "none"; plonk_verify_proof k vk inst p := Err "none" |}.

Definition ex_ops1 : World :=
  snd (run_op (CreateTorCredential " entry.onion " "hash" "basic" 30 None ["g1"]) ref_world).
Definition ex_ops2 : World := snd (run_op (IssueTorTicket ex_ticket) ex_ops1).
Definition ex_ops3 : World := snd (run_op (DeleteTorCredential ex_cred_id) ex_ops2).

Lemma reachable_states_ok_witness :
  size (t_tickets (w_db ex_ops2)) = 1%nat ∧ size (t_tickets (w_db ex_ops3)) = 0%nat ∧
  db_ok (w_db ex_ops3).
Proof.
  split_and!; [vm_compute; reflexivity..|].
  apply (reachable_states_ok ref_world ex_ops3); [reflexivity|].
  apply (rtc_l _ _ ex_ops1); [apply step_op|].
  apply (rtc_l _ _ ex_ops2); [apply step_op|].
  apply (rtc_l _ _ ex_ops3); [apply step_op|apply rtc_refl].
Defined.

Lemma reads_change_nothing_witness :
  w_db (snd (run_op (GetTorTicketStatus (nt_id ex_ticket)) ex_w2)) = w_db ex_w2.
Proof. apply (reads_change_nothing (GetTorTicketStatus (nt_id ex_ticket)) ex_w2). reflexivity. Defined.

(** A ticket for an unknown credential is refused. *)
Definition ex_refused : result DatabaseError () * World := run_op (IssueTorTicket ex_ticket) ref_world.
Lemma failures_change_nothing_witness : w_db (snd ex_refused) = w_db ref_world.
Proof.
  apply (failures_change_nothing (IssueTorTicket ex_ticket) ref_world
    (Query "sql error") (snd ex_refused)).
  - intros i m. discriminate.
  - reflexivity.
  - apply run_fst. vm_compute. reflexivity.
Defined.
End concrete.
