(* ===== verification/TicketSystem.v ===== *)
(** * The whole interface refines the abstract ticket store

    [TicketSpec.v] relates histories of ticket calls to the plaintext store, given
    that what happens in between leaves tickets, credentials and keys alone. Here
    every other operation of [System.v] is shown to do so. *)
From S2P Require Import Prelude RustStd Platform World Sql Reference.
From S2P Require Import Aead Broker Protected TorAuth TorAuthProps Guard Attestation AuditLog Zk.
From S2P Require Import TicketSpec System.
Import Payload SecretBrokerClient Protected TorAuth TorAuthProps Guard Attestation AuditLog Zk.
Import TicketSpec System.
Local Open Scope Z_scope.

Module TicketSystem.
Section system.
Context `{UuidApi, JsonApi, BrokerApi} `{!Host} `{Base64, Ring, Digests, Hex}
  `{PastaField, !Halo2} `{!BrokerLaws, !Base64Laws, !RingLaws, !HostLaws}.

(** The ticket call that an operation is. *)
Definition call_of (o : op) : option call :=
  match o with
  | IssueTorTicket t => Some (Issue t)
  | FetchTorTicketForVerification id => Some (Verify id)
  | GetTorTicketStatus id => Some (Status id)
  | MarkTorTicketRedeemed id onion => Some (Redeem id onion)
  | ExpireTorTicketNow id => Some (Expire id)
  | GcExpiredTickets days => Some (Collect days)
  | DeleteTorCredential id => Some (Revoke id)
  | _ => None
  end.

Lemma call_of_run o c w : call_of o = Some c → snd (run_op o w) = snd (run_call c w).
Proof.
  intros E. destruct o; try discriminate E; injection E as <-; cbn [run_op run_call];
    unfold void, mbind, eff_bind;
    match goal with |- context [?m w] => by destruct (m w) as [[?|?] ?] end.
Qed.

(** ** The other operations *)

#[local] Instance elsewhere_refl : Reflexive elsewhere.
Proof. intros w. by split_and!. Qed.
#[local] Instance elsewhere_trans : Transitive elsewhere.
Proof.
  intros w1 w2 w3 (A1 & A2 & A3 & A4) (B1 & B2 & B3 & B4).
  split_and!; [by etrans|by etrans|congruence|by etrans].
Qed.

(** Calls of the broker and of the host. *)
Lemma quiet_elsewhere {A} (m : M A) :
  preserves same_db m → preserves keeps_keys m → preserves later m → preserves elsewhere m.
Proof.
  intros Hd Hk Hl w. specialize (Hd w). split_and!; [apply Hl|apply Hk|by rewrite Hd|by rewrite Hd].
Qed.

(** A statement that keeps the tickets and removes no credential. *)
Definition spares {A} (q : stmt A) : Prop := ∀ now d a d', q now d = Ok (a, d') →
  t_tickets d' = t_tickets d ∧ dom (t_credentials d) ⊆ dom (t_credentials d').

Lemma execute_spares {A} (q : stmt A) : spares q → preserves elsewhere (execute q).
Proof.
  intros Hq w. split_and!; [apply execute_later|apply execute_keeps_keys|..];
    destruct (execute_db q w) as [->|[a [Ht Hc]%Hq]]; done.
Qed.

Lemma put_credential_spares id r d d' : put_credential id r d = Ok d' →
  t_tickets d' = t_tickets d ∧ dom (t_credentials d) ⊆ dom (t_credentials d').
Proof. intros [_ ->]%put_credential_Ok. split; [done|]. cbn. rewrite dom_insert_L. set_solver. Qed.

Lemma update_credential_spares f id : spares (update_credential f id).
Proof.
  intros now d n d' Hq%update_credential_Ok.
  destruct (t_credentials d !! id); destruct Hq as [_ Hq]; [by eapply put_credential_spares|].
  by subst.
Qed.
Lemma insert_credential_spares id r : spares (insert_credential id r).
Proof.
  intros now d [] d'. unfold insert_credential. destruct (t_credentials d !! id); [done|].
  intros (d1 & Hp & [= <-])%result_bind_Ok. by eapply put_credential_spares.
Qed.
Lemma import_credential_spares id r : spares (import_credential id r).
Proof.
  intros now d [] d'. unfold import_credential. destruct (t_credentials d !! id);
    intros (d1 & Hp & [= <-])%result_bind_Ok; eapply put_credential_spares; exact Hp.
Qed.
Lemma insert_session_spares id f : spares (insert_session id f).
Proof. by intros now d [] d' (_ & _ & ->)%insert_session_Ok. Qed.
Lemma prune_nonces_spares ttl : spares (prune_nonces ttl).
Proof. by intros now d a d' ->%prune_nonces_other. Qed.
Lemma insert_nonce_spares n e : spares (insert_nonce n e).
Proof. by intros now d a d' ->%insert_nonce_other. Qed.
Lemma upsert_failure_spares fpr : spares (upsert_failure fpr).
Proof.
  intros now d a d'. unfold upsert_failure.
  destruct (t_guard_health d !! fpr); [destruct (_ <=? _); [|done]|]; by intros [= _ <-].
Qed.
Lemma upsert_decision_spares q t x v : spares (upsert_decision q t x v).
Proof. by intros now d a d' ->%upsert_decision_other. Qed.
Lemma insert_attestation_spares u a : spares (insert_attestation u a).
Proof. by intros now d x d' (? & ? & _ & _ & ->)%insert_attestation_Ok. Qed.
Lemma upsert_proof_spares id u r : spares (upsert_proof id u r).
Proof. intros now d x d'. unfold upsert_proof. by intros (? & _ & [= _ <-])%result_bind_Ok. Qed.
Lemma read_spares {A} (q : stmt A) : read_only q → spares q.
Proof. by intros Hq now d a d' ->%Hq. Qed.
Lemma utc_now_elsewhere : preserves elsewhere (utc_now (E := DatabaseError)).
Proof. intros w. by split_and!; [apply utc_now_later|intros ???|..]. Qed.
Lemma uuid_elsewhere : preserves elsewhere (uuid_new_v4 (E := DatabaseError)).
Proof. intros w. by split_and!; [apply uuid_new_v4_later|intros ???|..]. Qed.
Lemma ensure_elsewhere v a l : preserves elsewhere (ensure_aead_encrypted v a l).
Proof. apply quiet_elsewhere; [auto with sdb|auto with sdb|apply ensure_later]. Qed.
Lemma decrypt_elsewhere v a l : preserves elsewhere (decrypt_aead_optional v a l).
Proof. apply quiet_elsewhere; [auto with sdb|auto with sdb|apply decrypt_optional_later]. Qed.
#[local] Hint Resolve update_credential_spares insert_credential_spares import_credential_spares
  insert_session_spares prune_nonces_spares insert_nonce_spares upsert_failure_spares
  upsert_decision_spares insert_attestation_spares upsert_proof_spares
  utc_now_elsewhere uuid_elsewhere ensure_elsewhere decrypt_elsewhere : sdb.
#[local] Hint Extern 3 (spares _) => (by intros ? ? ? ? [= _ <-]) : sdb.
#[local] Hint Extern 4 (spares _) =>
  (apply read_spares; first [apply read_pure | refine (read_checked _ _)]) : sdb.
#[local] Hint Extern 1 (preserves elsewhere (execute _)) =>
  (apply execute_spares; solve [auto with sdb]) : sdb.

Lemma op_elsewhere o : call_of o = None → preserves elsewhere (run_op o).
Proof.
  intros E. destruct o; try discriminate E; cbn [run_op];
    unfold void, fetch_tor_credential, fetch_tor_credential_by_id, record_tor_session,
      count_recent_sessions, count_active_sessions, count_total_sessions,
      count_active_credentials, rotate_operational_onion, set_entry_onion,
      import_bootstrap_tor_credential, create_tor_credential, list_tor_credentials,
      update_tor_credential_disabled, count_recent_tickets, fetch_tor_session,
      session_into_record, note_guard_success, note_guard_failure, list_guard_health,
      set_guard_tee_status, register_attestation_nonce, cache_attestation_decision,
      invalidate_attestation_artifacts, audit_tor_connect, audit_operation,
      record_tee_attestation, recent_tee_attestations, store_zk_proof, verify_zk_proof;
    solve_preserves.
Qed.
(** ** Histories of the system *)

(** What the abstract store sees of an operation. *)
Definition event_of (o : op) (w : World) : event :=
  match call_of o with
  | Some c => Called (faulty c w) c (ok (fst (run_call c w)))
  | None => Elsewhere
  end.

(** Operations one after the other; in between time passes and the broker may
    change, but what it issued stays issued (it may expire, or be used up). *)
Inductive sys_run : World → list event → World → Prop :=
  | sys_nil w : sys_run w [] w
  | sys_op o w es w2 :
      sys_run (snd (run_op o w)) es w2 → sys_run w (event_of o w :: es) w2
  | sys_outside w w1 es w2 :
      w_db w1 = w_db w → later w w1 → keeps_keys w w1 →
      sys_run w1 es w2 → sys_run w (Elsewhere :: es) w2.

Lemma sys_run_impl w es w' : sys_run w es w' → impl_run w es w'.
Proof.
  induction 1 as [w|o w es w2 _ IH|w w1 es w2 Hdb Hl Hk _ IH]; [constructor| |].
  - unfold event_of. destruct (call_of o) as [c|] eqn:E.
    + econstructor; [|exact IH]. by rewrite (call_of_run _ _ _ E).
    + econstructor; [|exact IH]. by apply op_elsewhere.
  - econstructor; [|exact IH]. by split_and!; [..|by rewrite Hdb|by rewrite Hdb].
Qed.

(** C3. The ticket operations refine the plaintext store. From a database without
    tickets, whatever operations of the whole interface are run in whatever
    order, with whatever faults of the connection and refusals of the broker,
    including keys that expire or can be redeemed only once, the history of the
    ticket calls is a history of the store with the same replies, given that the
    protected fields of every ticket are issued in the clear (a field that is a
    payload already is stored as it is) and that the broker never rebinds a
    handle and token to another key. So: a reply that a caller gets is the
    store's reply at a moment not before any earlier one; a call that fails
    changed nothing or did all of its work; and a call other than an issue or a
    redemption fails only for a fault of the connection, because the broker
    refuses to redeem a key (verification), or because the store refuses it. In
    particular what verification returns are the fields the ticket was issued
    with, in the clear. *)
Theorem tickets_refine w es w' :
  t_tickets (w_db w) = ∅ → sys_run w es w' →
  (∀ fault t ρ, Called fault (Issue t) ρ ∈ es → plain_ticket t) →
  ∃ a', spec_run (initial w) es a' ∧ refines w' a'.
Proof.
  intros Ht Hrun Hp. apply (impl_refines es w w'); [by apply sys_run_impl| |done].
  by apply initial_refines.
Qed.

(** A client that runs the operations [os] one after the other. *)
Fixpoint run_ops (os : list op) (w : World) : list event * World :=
  match os with
  | [] => ([], w)
  | o :: os =>
      let '(es, w2) := run_ops os (snd (run_op o w)) in
      (event_of o w :: es, w2)
  end.

Lemma run_ops_cons o os w :
  run_ops (o :: os) w =
  (event_of o w :: fst (run_ops os (snd (run_op o w))), snd (run_ops os (snd (run_op o w)))).
Proof. simpl. by destruct (run_ops os _). Qed.

Lemma run_ops_run os w : sys_run w (fst (run_ops os w)) (snd (run_ops os w)).
Proof.
  revert w. induction os as [|o os IH]; intros w; [constructor|]. rewrite run_ops_cons.
  by apply sys_op.
Qed.

Lemma run_ops_calls os w fault t ρ :
  Called fault (Issue t) ρ ∈ fst (run_ops os w) → IssueTorTicket t ∈ os.
Proof.
  revert w. induction os as [|o os IH]; intros w; [by intros ?%list_elem_of_In|].
  rewrite run_ops_cons. cbn [fst]. intros [E|E]%elem_of_cons; [|right; eauto].
  unfold event_of in E. destruct o; try discriminate E. injection E as _ -> _. left.
Qed.
End system.
End TicketSystem.

(** ** A concrete history, with a broker whose tokens can be used once *)
Section concrete.
Import Ref TorAuthProps TicketSpec System TicketSystem.
#[local] Existing Instance ex_halo2.
#[local] Existing Instance once_broker.
#[local] Existing Instance once_broker_laws.

Definition ex_history : list op :=
  [CreateTorCredential " entry.onion " "hash" "basic" 30 None ["g1"]; IssueTorTicket ex_ticket;
   FetchTorTicketForVerification 5%N; FetchTorTicketForVerification 5%N;
   NoteGuardFailure "g1"; MarkTorTicketRedeemed 5%N "op.onion";
   IssueTorTicket ex_ticket; GetTorTicketStatus 5%N; ExpireTorTicketNow 5%N; GcExpiredTickets 30;
   DeleteTorCredential ex_cred_id; FetchTorTicketForVerification 5%N].
Definition ex_played : list event * World := run_ops ex_history once_world.
(** Every call succeeds but the second verification, for which the broker has no
    key any more, and the second issue of the same ticket. *)
Definition ex_replied : list bool :=
  (λ e, match e with Called _ _ ρ => is_some ρ | Elsewhere => true end) <$> fst ex_played.

Lemma tickets_refine_witness :
  ex_replied = [true; true; true; false; true; true; false; true; true; true; true; true] ∧
  ∃ a', spec_run (initial once_world) (fst ex_played) a' ∧ refines (snd ex_played) a'.
Proof.
  split; [vm_compute; reflexivity|].
  apply (tickets_refine once_world (fst ex_played) (snd ex_played)).
  - reflexivity.
  - apply run_ops_run.
  - intros fault t ρ Hin%run_ops_calls.
    assert (t = ex_ticket) as ->; [|apply ex_ticket_plain].
    repeat (apply elem_of_cons in Hin as [E|Hin]; [congruence|]). by apply list_elem_of_In in Hin.
Defined.
End concrete.
